(** * ReWildID: embedding cache, cache-aware dispatch, distance matrix and
    greedy identity clustering.

    A shallow embedding of [src/python/db_utils.py], [src/python/config/config.py]
    and the cache-integrated re-identification entry point
    [src/python/reid_v2.py] (whose [compute_distance_matrix] and
    [process_dist_mat_v2] are textually the ones of
    [src/python/reid_dino_adapter.py]), followed by the day/night test, the
    pixel boxes of [src/python/detection_utils.py] and the folder job of
    [src/python/reid_dino_adapter.py].

    Numbers.  NumPy floats are modelled by [ext]: a finite value is a
    rational, and the three IEEE special values are kept apart because the
    code relies on them ([np.inf] masks, [inf - inf = nan] falling out of every
    comparison).  The embeddings and the distance matrix are float32 arrays:
    a subtraction on them is the exact difference rounded to the nearest
    float32 ([Ieee.sub32]), and the literal [0.00065] enters the comparison
    as a float32.  The matrix product [embeddings @ embeddings.T] is NumPy's:
    the order in which its kernel adds the products, and so the rounding of
    each cell, is not fixed by this repository, and the product is a
    parameter ([Distance.Matmul]). *)

From Stdlib Require Import QArith Qabs Qround Qpower Ascii Lqa.
From stdpp Require Import base tactics option list numbers strings pretty gmap
  sorting.

Local Open Scope Z_scope.

(** ** IEEE-style extended values *)

Module Ext.

Inductive ext : Type :=
| NaN
| NInf
| Fin (q : Q)
| PInf.

Definition is_nan (x : ext) : bool :=
  match x with NaN => true | _ => false end.

Definition neg (x : ext) : ext :=
  match x with
  | NaN => NaN
  | NInf => PInf
  | Fin q => Fin (Qopp q)
  | PInf => NInf
  end.

Definition add (x y : ext) : ext :=
  match x, y with
  | NaN, _ | _, NaN => NaN
  | PInf, NInf | NInf, PInf => NaN
  | PInf, _ | _, PInf => PInf
  | NInf, _ | _, NInf => NInf
  | Fin a, Fin b => Fin (Qplus a b)
  end.

Definition sub (x y : ext) : ext := add x (neg y).

(** sign of a rational as a comparison with zero *)
Definition Qsign (q : Q) : comparison := Qcompare q (0 # 1).

Definition mul_inf (pos : bool) (s : comparison) : ext :=
  match s with
  | Eq => NaN
  | Gt => if pos then PInf else NInf
  | Lt => if pos then NInf else PInf
  end.

Definition mul (x y : ext) : ext :=
  match x, y with
  | NaN, _ | _, NaN => NaN
  | Fin a, Fin b => Fin (Qmult a b)
  | PInf, PInf | NInf, NInf => PInf
  | PInf, NInf | NInf, PInf => NInf
  | PInf, Fin b => mul_inf true (Qsign b)
  | NInf, Fin b => mul_inf false (Qsign b)
  | Fin a, PInf => mul_inf true (Qsign a)
  | Fin a, NInf => mul_inf false (Qsign a)
  end.

Definition abs (x : ext) : ext :=
  match x with
  | NaN => NaN
  | NInf | PInf => PInf
  | Fin q => Fin (Qabs q)
  end.

(** IEEE [x <= y]: false as soon as one side is a NaN. *)
Definition leb (x y : ext) : bool :=
  match x, y with
  | NaN, _ | _, NaN => false
  | NInf, _ => true
  | _, PInf => true
  | Fin a, Fin b => Qle_bool a b
  | _, _ => false
  end.

(** IEEE [x < y]. *)
Definition ltb (x y : ext) : bool :=
  match x, y with
  | NaN, _ | _, NaN => false
  | Fin a, Fin b => negb (Qle_bool b a)
  | PInf, _ => false
  | _, NInf => false
  | _, _ => true
  end.

(** The order NumPy's [min] and [argmin] reduce with: a NaN wins against
    everything, otherwise the IEEE order. *)
Definition np_le (x y : ext) : bool := is_nan x || leb x y.

End Ext.

Import Ext.

(** ** Binary floating point: the nearest value of a format *)

Module Ieee.

Definition pow2 (k : Z) : Q := Qpower (2 # 1) k.

(** [floor (log2 a)] of a positive rational. *)
Definition ilog2 (a : Q) : Z :=
  let e := Z.log2 (Qnum a) - Z.log2 (Z.pos (Qden a)) in
  if Qle_bool (pow2 e) a then e else e - 1.

(** The integer nearest to a non-negative rational, a tie going to the even
    one. *)
Definition rint (a : Q) : Z :=
  let f := Qfloor a in
  match Qcompare (a - inject_Z f) (1 # 2) with
  | Lt => f
  | Eq => if Z.even f then f else f + 1
  | Gt => f + 1
  end.

(** Rounding to nearest, ties to even, in the binary format with [prec] bits
    of significand whose least positive value is [2^emin] and whose finite
    values stay below [2^emax]; a result that leaves the format is an
    infinity.  The sign of a zero is not kept: no comparison tells the two
    zeros apart. *)
Definition round (prec emin emax : Z) (q : Q) : ext :=
  match Qnum q with
  | 0 => Fin (0 # 1)
  | _ =>
      let a := Qabs q in
      let u := Z.max (ilog2 a - (prec - 1)) emin in
      let r := Qred (inject_Z (rint (a / pow2 u)) * pow2 u) in
      if Qle_bool (pow2 emax) r then (if Qle_bool 0 q then PInf else NInf)
      else Fin (if Qle_bool 0 q then r else Qopp r)
  end.

Definition float32 : Q → ext := round 24 (-149) 128.
Definition float64 : Q → ext := round 53 (-1074) 1024.

(** [np.float32(x)] *)
Definition to_float32 (x : ext) : ext :=
  match x with Fin q => float32 q | _ => x end.

(** [x - y] on float32 operands. *)
Definition sub32 (x y : ext) : ext := to_float32 (sub x y).

(** A Python float literal in an operation with a float32 array: the
    literal is a double, and NumPy takes it to float32 before it operates. *)
Definition literal32 (q : Q) : ext := to_float32 (float64 q).

Global Arguments round : simpl never.
Global Arguments float32 : simpl never.
Global Arguments float64 : simpl never.
Global Arguments literal32 : simpl never.

End Ieee.

Import Ieee.

(** ** DistanceEngine: [compute_distance_matrix] *)

Module Distance.

(** [np.argmin] over a float row, as NumPy's reduction loop runs it: the
    running minimum [mp] at index [mi] is replaced by the element at [i] when
    [not (x >= mp)], and the scan stops at the first NaN. *)
Fixpoint argmin_from (mp : ext) (mi i : nat) (l : list ext) : nat :=
  match l with
  | [] => mi
  | x :: l' =>
      if is_nan mp then mi
      else if negb (leb mp x) then argmin_from x i (S i) l'
      else argmin_from mp mi (S i) l'
  end.

Definition np_argmin (row : list ext) : nat :=
  match row with
  | [] => 0%nat
  | x :: l => argmin_from x 0 1 l
  end.

(** The body of the masking loop: [row = distance_mat[r]],
    [min_idx = np.argmin(row)], [distance_mat[r, min_idx] = np.inf], on the
    matrix as the earlier iterations left it. *)
Definition mask_row (distance_mat : list (list ext)) (r : nat)
  : list (list ext) :=
  match distance_mat !! r with
  | Some row => <[r := <[np_argmin row := PInf]> row]> distance_mat
  | None => distance_mat
  end.

(** [matmul embeddings i j] is cell [(i, j)] of [embeddings @ embeddings.T]
    as NumPy returns it for a float32 array of [N] rows: some float32 sum of
    the products of rows [i] and [j], added up and rounded in the order of
    the BLAS kernel at hand. *)
Class Matmul := matmul : list (list ext) → nat → nat → ext.

Section Kernel.

Context `{kernel : Matmul}.

Definition sim_matrix (embeddings : list (list ext)) : list (list ext) :=
  let n := length embeddings in
  map (fun i => map (fun j => matmul embeddings i j) (seq 0 n)) (seq 0 n).

(** [distance_mat = 1.0 - sim_matrix], before any masking. *)
Definition unmasked (embeddings : list (list ext)) : list (list ext) :=
  map (map (fun s => sub32 (Fin (1 # 1)) s)) (sim_matrix embeddings).

Definition compute_distance_matrix (embeddings : list (list ext))
  : list (list ext) :=
  let distance_mat := unmasked embeddings in
  foldl mask_row distance_mat (seq 0 (length distance_mat)).

End Kernel.

(** A row with its [argmin] cell overwritten. *)
Definition masked (row : list ext) : list ext := <[np_argmin row := PInf]> row.

(** [m] is the first position of the row's minimum in NumPy's order. *)
Definition first_min (row : list ext) (m : nat) : Prop :=
  (m < length row)%nat ∧
  (∀ j x y, row !! m = Some x → row !! j = Some y → np_le x y = true) ∧
  (∀ j x y, (j < m)%nat → row !! m = Some x → row !! j = Some y →
            np_le y x = false).

(** The sum of the products of two vectors without any rounding, and the
    product it gives: what [@] returns on arrays small and coarse enough
    for every partial sum to be a float32. *)
Definition inner (u v : list ext) : ext :=
  foldl add (Fin (0 # 1)) (zip_with mul u v).

Definition exact : Matmul :=
  fun embeddings i j =>
    match embeddings !! i, embeddings !! j with
    | Some u, Some v => inner u v
    | _, _ => NaN
    end.

(** A product under which a NaN entry of a vector spoils every cell of its
    row and of its column, as it does when every product enters the sum. *)
Definition propagates_nan `{kernel : Matmul} (embeddings : list (list ext))
  : Prop :=
  ∀ i j u v, embeddings !! i = Some u → embeddings !! j = Some v →
             NaN ∈ u ∨ NaN ∈ v → matmul embeddings i j = NaN.

End Distance.

(** ** IdentityClusterer: [process_dist_mat_v2] *)

Module Cluster.

(** [np.minimum(a, b)] propagates a NaN; [np.min] reduces the row with it and
    raises on an empty row. *)
Definition np_minimum (a b : ext) : ext :=
  if is_nan a || ltb a b then a else b.

Definition np_min (row : list ext) : option ext :=
  match row with
  | [] => None
  | x :: l => Some (foldl np_minimum x l)
  end.

(** [np.min] and [np.max] of an integer array. *)
Definition np_min_Z (a : list Z) : option Z :=
  match a with
  | [] => None
  | x :: l => Some (foldl Z.min x l)
  end.

Definition np_max_Z (a : list Z) : option Z :=
  match a with
  | [] => None
  | x :: l => Some (foldl Z.max x l)
  end.

(** [np.where(mask)[0]]: the positions holding [True], increasing. *)
Fixpoint where_from (i : nat) (mask : list bool) : list nat :=
  match mask with
  | [] => []
  | b :: m => if b then i :: where_from (S i) m else where_from (S i) m
  end.

Definition np_where (mask : list bool) : list nat := where_from 0 mask.

(** [a[idx]] with an index array: a copy; an index past the end raises. *)
Definition gather {A} (a : list A) (idx : list nat) : option (list A) :=
  mapM (fun i => a !! i) idx.

(** [a[idx] = v] with an index array, once the indices are known to be in
    range (the read [keys[candidates_index]] comes first and raises
    otherwise). *)
Definition scatter (a : list Z) (idx : list nat) (v : Z) : list Z :=
  foldl (fun a' i => <[i := v]> a') a idx.

Definition unassigned (k : Z) : bool := k =? -1.

(** [np.abs(row - min_dist) <= threshold] on a float32 row, [threshold]
    being the literal of the source. *)
Definition candidates_bool (threshold : Q) (row : list ext) (min_dist : ext)
  : list bool :=
  map (fun d => leb (abs (sub32 d min_dist)) (literal32 threshold)) row.

(** The body of the row loop on the key array. *)
Definition step (threshold : Q) (keys : list Z) (r : nat) (row : list ext)
  : option (list Z) :=
  min_dist ← np_min row;
  let candidates_index := np_where (candidates_bool threshold row min_dist) in
  candidates_key ← gather keys candidates_index;
  current_counter ← np_max_Z keys;
  keys_r ← keys !! r;
  if negb (unassigned keys_r) then
    Some (scatter keys candidates_index keys_r)
  else if forallb unassigned candidates_key then
    Some (scatter (<[r := current_counter + 1]> keys)
                  candidates_index (current_counter + 1))
  else if existsb (fun k => negb (unassigned k)) candidates_key then
    min_pos_key ← np_min_Z (List.filter (fun k => negb (unassigned k))
                                        candidates_key);
    selected_indices ←
      gather candidates_index
             (np_where (map (fun k => negb (k =? min_pos_key)) candidates_key));
    Some (scatter (<[r := min_pos_key]> keys) selected_indices min_pos_key)
  else Some keys.

(** [for r in range(len(dist_mat))], from row [r] on. *)
Fixpoint rows_from (threshold : Q) (r : nat) (rows : list (list ext))
  (keys : list Z) : option (list Z) :=
  match rows with
  | [] => Some keys
  | row :: rest =>
      keys' ← step threshold keys r row;
      rows_from threshold (S r) rest keys'
  end.

Definition row_loop (threshold : Q) (dist_mat : list (list ext))
  : option (list Z) :=
  rows_from threshold 0 dist_mat (replicate (length dist_mat) (-1)).

(** The output dict, in insertion order. *)
Definition output_dict : Type := list (Z * list nat).

Definition in_dict (aid : Z) (d : output_dict) : bool :=
  existsb (fun e => fst e =? aid) d.

(** [np.where(keys == k)[0]] *)
Definition members (keys : list Z) (k : Z) : list nat :=
  np_where (map (fun x => x =? k) keys).

Definition compact_step (keys : list Z) (st : Z * output_dict) (k : Z)
  : Z * output_dict :=
  let '(aid, d) := st in
  if existsb (fun x => x =? k) keys then
    if negb (in_dict aid d) then (aid + 1, d ++ [(aid, members keys k)])
    else (aid, d)
  else (aid, d).

(** The renumbering after the loop; [np.min] of an empty key array raises. *)
Definition compact (keys : list Z) : option output_dict :=
  min_key ← np_min_Z keys;
  max_key ← np_max_Z keys;
  Some (snd (foldl (compact_step keys) (0, [])
                   (seqZ min_key (max_key + 1 - min_key)))).

Definition process_dist_mat_v2_with (threshold : Q)
  (dist_mat : list (list ext)) : option output_dict :=
  keys ← row_loop threshold dist_mat;
  compact keys.

(** [reid_v2.py] and [reid_dino_adapter.py] compare with [0.00065],
    [reid_dino_distill.py] with [0.01]. *)
Definition threshold_adapter : Q := 65 # 100000.
Definition threshold_distill : Q := 1 # 100.

Definition process_dist_mat_v2 : list (list ext) → option output_dict :=
  process_dist_mat_v2_with threshold_adapter.

Definition square (dist_mat : list (list ext)) : Prop :=
  Forall (fun row => length row = length dist_mat) dist_mat.

End Cluster.

(** The clusterer as section 4.4 of the specification words it, one key at a
    time; compared with [Cluster.step] below. *)
Module ClusterSpec.

(** [j] is a candidate of the row: [|D[r][j] - minDist| <= epsilon], the
    difference and the bound being float32 numbers. *)
Definition candidate (epsilon : Q) (row : list ext) (min_dist : ext) (j : nat)
  : bool :=
  match row !! j with
  | Some d => leb (abs (sub32 d min_dist)) (literal32 epsilon)
  | None => false
  end.

(** [top] is the greatest key of the array. *)
Definition greatest (keys : list Z) (top : Z) : Prop :=
  top ∈ keys ∧ ∀ k, k ∈ keys → k ≤ top.

Definition key_at (keys : list Z) (i : nat) : Z := default (-1) (keys !! i).

(** The three branches. *)
Inductive branch : Type :=
| Propagate (k : Z)
| Fresh (k : Z)
| Join (min_pos_key : Z).

(** [k] is the least assigned key among the candidates. *)
Definition least_assigned (epsilon : Q) (row : list ext) (min_dist : ext)
  (keys : list Z) (k : Z) : Prop :=
  k ≠ -1 ∧
  (∃ j, candidate epsilon row min_dist j = true ∧ keys !! j = Some k) ∧
  (∀ j k', candidate epsilon row min_dist j = true → keys !! j = Some k' →
           k' ≠ -1 → k ≤ k').

Definition chosen (epsilon : Q) (row : list ext) (min_dist : ext)
  (keys : list Z) (r : nat) (b : branch) : Prop :=
  match b with
  | Propagate k => keys !! r = Some k ∧ k ≠ -1
  | Fresh k =>
      keys !! r = Some (-1) ∧
      (∀ j, candidate epsilon row min_dist j = true → keys !! j = Some (-1)) ∧
      (∃ top, greatest keys top ∧ k = 1 + top)
  | Join k =>
      keys !! r = Some (-1) ∧
      ¬ (∀ j, candidate epsilon row min_dist j = true → keys !! j = Some (-1)) ∧
      least_assigned epsilon row min_dist keys k
  end.

(** The key array after the branch, index by index. *)
Definition key_after (epsilon : Q) (row : list ext) (min_dist : ext)
  (keys : list Z) (r : nat) (b : branch) (i : nat) : Z :=
  match b with
  | Propagate k =>
      if candidate epsilon row min_dist i then k else key_at keys i
  | Fresh k =>
      if bool_decide (i = r) || candidate epsilon row min_dist i then k
      else key_at keys i
  | Join k =>
      if bool_decide (i = r) then k
      else if candidate epsilon row min_dist i
                && negb (key_at keys i =? k) then k
      else key_at keys i
  end.

(** The key values the compaction meets, in the order it meets them, and the
    dict it builds from [aid] on. *)
Definition present (keys : list Z) (ks : list Z) : list Z :=
  List.filter (fun k => existsb (fun x => x =? k) keys) ks.

Fixpoint number_from (keys : list Z) (aid : Z) (ks : list Z)
  : Cluster.output_dict :=
  match ks with
  | [] => []
  | k :: ks' => (aid, Cluster.members keys k) :: number_from keys (aid + 1) ks'
  end.

End ClusterSpec.

(** ** Shared helpers *)

(** A loop whose body may raise: the first [None] ends it. *)
Fixpoint foldlM {A B} (f : B → A → option B) (b : B) (l : list A) : option B :=
  match l with
  | [] => Some b
  | x :: l' => b' ← f b x; foldlM f b' l'
  end.

(** [enumerate(l)], counting from [s]. *)
Fixpoint enumerate_from {A} (s : nat) (l : list A) : list (nat * A) :=
  match l with
  | [] => []
  | x :: l' => (s, x) :: enumerate_from (S s) l'
  end.

Definition enumerate {A} (l : list A) : list (nat * A) := enumerate_from 0 l.

(** ** IEEE-754 single precision values as stored in the cache blob *)

Module Float32.

(** A float32 is its four bytes, least significant first. *)
Record f32 : Type := F32 {
  byte0 : Byte.byte;
  byte1 : Byte.byte;
  byte2 : Byte.byte;
  byte3 : Byte.byte
}.

Definition byte_Z (b : Byte.byte) : Z := Z.of_N (Byte.to_N b).

Definition bits (x : f32) : Z :=
  Z.lor (byte_Z (byte0 x))
    (Z.lor (Z.shiftl (byte_Z (byte1 x)) 8)
       (Z.lor (Z.shiftl (byte_Z (byte2 x)) 16)
              (Z.shiftl (byte_Z (byte3 x)) 24))).

(** The number a bit pattern stands for. *)
Definition value (x : f32) : ext :=
  let b := bits x in
  let sign := Z.testbit b 31 in
  let e := Z.land (Z.shiftr b 23) 255 in
  let m := Z.land b (2 ^ 23 - 1) in
  if e =? 255 then
    if m =? 0 then (if sign then NInf else PInf) else NaN
  else
    let mag : Q :=
      if e =? 0 then Qmult (inject_Z m) (Qpower (2 # 1) (-149))
      else Qmult (inject_Z (2 ^ 23 + m)) (Qpower (2 # 1) (e - 150)) in
    Fin (Qred (if sign then Qopp mag else mag)).

(** [a.tobytes()] of a float32 array. *)
Definition tobytes (a : list f32) : list Byte.byte :=
  flat_map (fun x => [byte0 x; byte1 x; byte2 x; byte3 x]) a.

(** [np.frombuffer(buf, dtype=np.float32)]; a buffer whose size is not a
    multiple of four raises. *)
Fixpoint frombuffer (buf : list Byte.byte) : option (list f32) :=
  match buf with
  | [] => Some []
  | a :: b :: c :: d :: rest => l ← frombuffer rest; Some (F32 a b c d :: l)
  | _ => None
  end.

End Float32.

Import Float32.

(** ** EmbeddingStore: [db_utils.EmbeddingCache] *)

Module Cache.

(** A row of the [embeddings] table; [created_at] is a reading of the
    clock in milliseconds, which fits an SQLite INTEGER. *)
Record row : Type := Row {
  row_id : Z;
  image_id : Z;
  bbox_hash : string;
  embedding_type : string;
  embedding : list Byte.byte;
  created_at : Z
}.

(** The database file: the table in row order, and the AUTOINCREMENT
    high-water mark. *)
Record db : Type := Db {
  rows : list row;
  last_id : Z
}.

(** The table [_init_table] creates in a new file. *)
Definition empty : db := Db [] 0.

(** Python's [int(x)] of a float: truncation towards zero. *)
Definition int_of (x : Q) : Z := Z.quot (Qnum x) (Z.pos (Qden x)).

(** [bbox_to_hash]; a bbox with fewer than four coordinates raises. *)
Definition bbox_to_hash (bbox : list Q) : option string :=
  x1 ← bbox !! 0%nat;
  y1 ← bbox !! 1%nat;
  x2 ← bbox !! 2%nat;
  y2 ← bbox !! 3%nat;
  Some (pretty (int_of x1) +:+ "_" +:+ pretty (int_of y1) +:+ "_"
        +:+ pretty (int_of x2) +:+ "_" +:+ pretty (int_of y2)).

(** The columns of the unique index [idx_embeddings_lookup]. *)
Definition key : Type := Z * string * string.

Definition row_key (r : row) : key :=
  (image_id r, bbox_hash r, embedding_type r).

Definition key_matches (k : key) (r : row) : bool :=
  bool_decide (row_key r = k).

(** [SELECT embedding ... WHERE image_id = ? AND bbox_hash = ? AND
    embedding_type = ?] followed by [fetchone()]. *)
Definition select_one (d : db) (k : key) : option row :=
  List.find (key_matches k) (rows d).

(** sqlite3 binds a Python [int] parameter as a signed 64-bit integer; an
    [int] outside this range makes [execute] raise [OverflowError]. *)
Definition int64 (x : Z) : bool := (- 2 ^ 63 <=? x) && (x <? 2 ^ 63).

Definition get_embedding (d : db) (image_id : Z) (bbox : list Q)
  (embedding_type : string) : option (option (list f32)) :=
  h ← bbox_to_hash bbox;
  if int64 image_id then
    match select_one d (image_id, h, embedding_type) with
    | Some r => v ← frombuffer (embedding r); Some (Some v)
    | None => Some None
    end
  else None.

(** [INSERT OR REPLACE]: the rows in conflict on the unique index are
    deleted, then the new row is appended under a new id. *)
Definition insert_or_replace (d : db) (k : key) (blob : list Byte.byte)
  (now : Z) : db :=
  let id := last_id d + 1 in
  Db (List.filter (fun r => negb (key_matches k r)) (rows d)
        ++ [Row id k.1.1 k.1.2 k.2 blob now])
     id.

(** A connection: the file as committed, and the table as the statements of
    the open transaction see it. *)
Record connection : Type := Conn {
  durable : db;
  working : db
}.

Definition connect (d : db) : connection := Conn d d.

Definition execute_insert (c : connection) (k : key) (blob : list Byte.byte)
  (now : Z) : connection :=
  Conn (durable c) (insert_or_replace (working c) k blob now).

Definition commit (c : connection) : connection :=
  Conn (working c) (working c).

(** [conn.close()]: what was not committed is dropped. *)
Definition close (c : connection) : db := durable c.

Section Store.

(** The array type handed to the store and its [astype(np.float32)]; the cast
    raises on an array that has no float32 reading. *)
Context {ndarray : Type}.
Variable astype_float32 : ndarray → option (list f32).

(** A call returns the file it leaves and [Some tt], or [None] when it
    raised. *)
Definition store_embedding (d : db) (image_id : Z) (bbox : list Q)
  (embedding_type : string) (embedding : ndarray) (now : Z)
  : db * option unit :=
  match bbox_to_hash bbox with
  | None => (d, None)
  | Some h =>
      match astype_float32 embedding with
      | None => (d, None)
      | Some a =>
          let c := connect d in
          if int64 image_id then
            let c := execute_insert c (image_id, h, embedding_type)
                                    (tobytes a) now in
            let c := commit c in
            (close c, Some tt)
          else (close c, None)
      end
  end.

(** The [for image_id, bbox, embedding in items] loop of
    [store_embeddings_batch]: the connection it reaches, and whether it ran
    to its end. *)
Fixpoint insert_all (c : connection) (items : list (Z * list Q * ndarray))
  (embedding_type : string) (now : Z) : connection * bool :=
  match items with
  | [] => (c, true)
  | (image_id, bbox, embedding) :: rest =>
      match bbox_to_hash bbox with
      | None => (c, false)
      | Some h =>
          match astype_float32 embedding with
          | None => (c, false)
          | Some a =>
              if int64 image_id then
                insert_all
                  (execute_insert c (image_id, h, embedding_type) (tobytes a)
                                  now)
                  rest embedding_type now
              else (c, false)
          end
      end
  end.

Definition store_embeddings_batch (d : db)
  (items : list (Z * list Q * ndarray)) (embedding_type : string) (now : Z)
  : db * option unit :=
  match items with
  | [] => (d, Some tt)
  | _ =>
      let '(c, finished) := insert_all (connect d) items embedding_type now in
      if finished then (close (commit c), Some tt) else (close c, None)
  end.

(** The state one batch leaves when every statement of it runs. *)
Definition apply_all (d : db) (items : list (Z * list Q * ndarray))
  (embedding_type : string) (now : Z) : option db :=
  foldlM (fun d' (x : Z * list Q * ndarray) =>
            h ← bbox_to_hash x.1.2;
            a ← astype_float32 x.2;
            if int64 x.1.1 then
              Some (insert_or_replace d' (x.1.1, h, embedding_type)
                                      (tobytes a) now)
            else None)
         d items.

End Store.

(** [SELECT COUNT( * )], with the optional type filter; [if embedding_type]
    takes the empty string for no filter. *)
Definition count_embeddings (d : db) (embedding_type : option string) : nat :=
  match embedding_type with
  | Some t =>
      if bool_decide (t = "") then length (rows d)
      else length (List.filter
                     (fun r => bool_decide (Cache.embedding_type r = t))
                     (rows d))
  | None => length (rows d)
  end.

(** The unique index holds: no two rows share a key. *)
Definition unique (d : db) : Prop := NoDup (map row_key (rows d)).

(** Every blob is a whole number of float32 values. *)
Definition blobs_ok (d : db) : bool :=
  forallb (fun r => bool_decide (is_Some (frombuffer (embedding r)))) (rows d).

End Cache.

(** ** [config/config.py] *)

Module Config.

Definition RAW_EMBEDDING_TYPE : string := "dinov3_raw".
Definition REID_EMBEDDING_PREFIX : string := "dinov3_reid_".
Definition RAW_FOR_ADAPTER_TYPE : string := "dinov3_raw_disabled".

End Config.

(** ** The cache-integrated entry point: [reid_v2.run] *)

Module Reid.

Import Cache.

(** One entry of the job's ["detections"] list; ["image_id"] is optional. *)
Record detection : Type := Detection {
  detection_id : Z;
  image_path : string;
  bbox : list Q;
  det_image_id : option Z
}.

(** [{"name": ..., "detection_ids": [...]}] *)
Definition individual : Type := string * list Z.

(** The calls into the model and into the distance and clustering code, in
    the order the job makes them; a model call carries the positions (in the
    input list) of the detections of its batch. *)
Inductive call : Type :=
| CallAdapter (idxs : list nat)
| CallFull (idxs : list nat)
| CallDistance (n : nat)
| CallCluster (n : nat).

Record result : Type := Result {
  output : list individual;
  cache_after : option db;
  calls : list call
}.

Definition format_output_with_detection_ids (detection_ids : list Z)
  (cluster_dict : Cluster.output_dict) : option (list individual) :=
  mapM (fun e : Z * list nat =>
          ids ← Cluster.gather detection_ids e.2;
          Some ("ID-" +:+ pretty e.1, ids))
       cluster_dict.

(** [for batch_start in range(0, len(l), batch_size)] with
    [l[batch_start:batch_start + batch_size]]; a zero step raises. *)
Definition batches {A} (batch_size : nat) (l : list A)
  : option (list (list A)) :=
  if (batch_size =? 0)%nat then None
  else Some (map (fun k => take batch_size (drop (k * batch_size) l))
                 (seq 0 ((length l + batch_size - 1) / batch_size))).

(** [l.index(x)] on the identifier list, where failed entries are [None]. *)
Fixpoint index_of (l : list (option Z)) (x : Z) : option nat :=
  match l with
  | [] => None
  | y :: l' => if bool_decide (y = Some x) then Some 0%nat
               else S <$> index_of l' x
  end.

(** [detection_ids[detection_ids.index(id)] = None] *)
Definition mark_failed (detection_ids : list (option Z)) (id : Z)
  : option (list (option Z)) :=
  k ← index_of detection_ids id;
  Some (<[k := None]> detection_ids).

Definition cache_key (image_id : Z) (h : string) : string :=
  pretty image_id +:+ ":" +:+ h.

(** What the categorisation loop builds. *)
Record tiers : Type := Tiers {
  cached_reid : gmap string (list f32);
  has_raw : list (nat * detection * list f32);
  needs_full : list (nat * detection);
  detection_ids : list (option Z)
}.

Definition categorize_step (cache : option db)
  (reid_embedding_type raw_embedding_type : string)
  (t : tiers) (x : nat * detection) : option tiers :=
  let '(i, det) := x in
  let ids := detection_ids t ++ [Some (detection_id det)] in
  match cache, det_image_id det with
  | Some d, Some image_id =>
      h ← bbox_to_hash (bbox det);
      let key := cache_key image_id h in
      reid_emb ← get_embedding d image_id (bbox det) reid_embedding_type;
      match reid_emb with
      | Some v =>
          Some (Tiers (<[key := v]> (cached_reid t)) (has_raw t)
                      (needs_full t) ids)
      | None =>
          raw_emb ← get_embedding d image_id (bbox det) raw_embedding_type;
          match raw_emb with
          | Some w =>
              Some (Tiers (cached_reid t) (has_raw t ++ [(i, det, w)])
                          (needs_full t) ids)
          | None =>
              Some (Tiers (cached_reid t) (has_raw t)
                          (needs_full t ++ [(i, det)]) ids)
          end
      end
  | _, _ =>
      Some (Tiers (cached_reid t) (has_raw t) (needs_full t ++ [(i, det)]) ids)
  end.

Definition categorize (cache : option db)
  (reid_embedding_type raw_embedding_type : string)
  (detections : list detection) : option tiers :=
  foldlM (categorize_step cache reid_embedding_type raw_embedding_type)
         (Tiers ∅ [] [] []) (enumerate detections).

(** [items_to_store]: the fresh vectors of the detections that carry an
    ["image_id"], when a cache is open. *)
Definition items_to_store (cache : option db)
  (feats : list (nat * detection * list f32))
  : list (Z * list Q * list f32) :=
  omap (fun x : nat * detection * list f32 =>
          match cache, det_image_id x.1.2 with
          | Some _, Some image_id => Some (image_id, bbox x.1.2, x.2)
          | _, _ => None
          end) feats.

(** [if items_to_store and cache: cache.store_embeddings_batch(...)]; the
    vectors are float32 already, so the cast is the identity. *)
Definition write_back (cache : option db)
  (items : list (Z * list Q * list f32)) (embedding_type : string) (now : Z)
  : option (option db) :=
  match cache, items with
  | Some d, _ :: _ =>
      let '(d', r) := store_embeddings_batch Some d items embedding_type now in
      _ ← r; Some (Some d')
  | _, _ => Some cache
  end.

(** [np.stack(arrays, axis=0)] of one-dimensional arrays: an empty list and
    arrays of different lengths raise. *)
Definition np_stack {A} (arrays : list (list A)) : option (list (list A)) :=
  match arrays with
  | [] => None
  | a :: rest =>
      if forallb (fun b => (length b =? length a)%nat) rest then Some arrays
      else None
  end.

Definition record_all (m : gmap nat (list f32))
  (feats : list (nat * detection * list f32)) : gmap nat (list f32) :=
  foldl (fun m' (x : nat * detection * list f32) => <[x.1.1 := x.2]> m') m feats.

Section Run.

(** The collaborators: image decoding and cropping with the day/night flag
    ([None] when it raises), the full model (backbone and adapter) and the
    adapter on a cached backbone feature.  The assembly of a batch
    ([torch.stack], [torch.cat]) and the two models are taken to accept every
    batch and to treat each row of it on its own.  The store reads the clock
    each time a batch is written: [now k] is its reading in the write that
    follows model call number [k] of the job. *)
Context `{kernel : Distance.Matmul}.
Context {image : Type}.
Variable load_and_crop_image : string → list Q → option (image * Z).
Variable forward : image → Z → list f32.
Variable forward_from_raw : list f32 → Z → list f32.

(** State of the two model loops. *)
Record progress : Type := Progress {
  embeddings : gmap nat (list f32);
  ids : list (option Z);
  store : option db;
  log : list call
}.

Definition is_day_or_default (det : detection) : Z :=
  match load_and_crop_image (image_path det) (bbox det) with
  | Some (_, is_day) => is_day
  | None => 1
  end.

(** One batch of the adapter-only loop. *)
Definition adapter_batch (reid_embedding_type : string) (now : nat → Z)
  (p : progress) (batch : list (nat * detection * list f32))
  : option progress :=
  let feats :=
    map (fun x : nat * detection * list f32 =>
           (x.1.1, x.1.2, forward_from_raw x.2 (is_day_or_default x.1.2)))
        batch in
  store' ← write_back (store p) (items_to_store (store p) feats)
                      reid_embedding_type (now (length (log p)));
  Some (Progress (record_all (embeddings p) feats) (ids p) store'
                 (log p ++ [CallAdapter (map (fun x => x.1.1) batch)])).

(** The [try: load ... except: mark as failed] loop over one batch. *)
Definition load_step
  (acc : list (nat * detection * image * Z) * list (option Z))
  (x : nat * detection)
  : option (list (nat * detection * image * Z) * list (option Z)) :=
  match load_and_crop_image (image_path x.2) (bbox x.2) with
  | Some (img, is_day) => Some (acc.1 ++ [(x.1, x.2, img, is_day)], acc.2)
  | None => ids' ← mark_failed acc.2 (detection_id x.2); Some (acc.1, ids')
  end.

(** One batch of the full-model loop. *)
Definition full_batch (reid_embedding_type : string) (now : nat → Z)
  (p : progress) (batch : list (nat * detection)) : option progress :=
  loaded ← foldlM load_step ([], ids p) batch;
  match loaded.1 with
  | [] => Some (Progress (embeddings p) loaded.2 (store p) (log p))
  | _ =>
      let feats :=
        map (fun y : nat * detection * image * Z =>
               (y.1.1.1, y.1.1.2, forward y.1.2 y.2)) loaded.1 in
      store' ← write_back (store p) (items_to_store (store p) feats)
                          reid_embedding_type (now (length (log p)));
      Some (Progress (record_all (embeddings p) feats) loaded.2 store'
                     (log p ++ [CallFull (map (fun y => y.1.1.1) loaded.1)]))
  end.

(** One iteration of the loop that puts the embeddings back in input order;
    each vector is kept with the position of the detection it is taken for. *)
Definition combine_step (cache : option db)
  (cached : gmap string (list f32)) (raw_embeddings full_embeddings
   : gmap nat (list f32)) (survivors : list Z)
  (acc : list (nat * list f32)) (x : nat * detection)
  : option (list (nat * list f32)) :=
  let '(i, det) := x in
  if negb (bool_decide (detection_id det ∈ survivors)) then Some acc
  else
    hit ← match cache, det_image_id det with
          | Some _, Some image_id =>
              h ← bbox_to_hash (bbox det);
              Some (cached !! cache_key image_id h)
          | _, _ => Some None
          end;
    match hit with
    | Some v => Some (acc ++ [(i, v)])
    | None =>
        match raw_embeddings !! i with
        | Some v => Some (acc ++ [(i, v)])
        | None =>
            match full_embeddings !! i with
            | Some v => Some (acc ++ [(i, v)])
            | None => Some acc
            end
        end
    end.

(** The body of [run] past its two early returns: model set-up, the
    categorisation, the two model loops, the reassembly in input order and
    the clustering. *)
Definition run_many (detections : list detection) (cache : option db)
  (species : string) (batch_size : nat) (now : nat → Z) : option result :=
  let reid_embedding_type := Config.REID_EMBEDDING_PREFIX +:+ species in
  let raw_embedding_type := Config.RAW_FOR_ADAPTER_TYPE in
  t ← categorize cache reid_embedding_type raw_embedding_type detections;
  p1 ← match has_raw t with
       | [] => Some (Progress ∅ (detection_ids t) cache [])
       | _ =>
           bs ← batches batch_size (has_raw t);
           foldlM (adapter_batch reid_embedding_type now)
                  (Progress ∅ (detection_ids t) cache []) bs
       end;
  p2 ← match needs_full t with
       | [] => Some (Progress ∅ (ids p1) (store p1) (log p1))
       | _ =>
           bs ← batches batch_size (needs_full t);
           foldlM (full_batch reid_embedding_type now)
                  (Progress ∅ (ids p1) (store p1) (log p1)) bs
       end;
  let survivors := omap id (ids p2) in
  all_embeddings ←
    foldlM (combine_step cache (cached_reid t) (embeddings p1)
                         (embeddings p2) survivors)
           [] (enumerate detections);
  match all_embeddings with
  | [] => Some (Result [] (store p2) (log p2))
  | _ =>
      embeddings ← np_stack (map snd all_embeddings);
      let n := length embeddings in
      let distance_mat :=
        Distance.compute_distance_matrix (map (map value) embeddings) in
      id_dict ← Cluster.process_dist_mat_v2 distance_mat;
      individuals ← format_output_with_detection_ids survivors id_dict;
      Some (Result individuals (store p2)
                   (log p2 ++ [CallDistance n; CallCluster n]))
  end.

(** [run], from the parsed job on; [cache] is the store opened from
    ["db_path"], if any.  No detection and a single detection return before
    any model is loaded. *)
Definition run (detections : list detection) (cache : option db)
  (species : string) (batch_size : nat) (now : nat → Z) : option result :=
  match detections with
  | [] => Some (Result [] cache [])
  | [det] => Some (Result [("ID-0", [detection_id det])] cache [])
  | _ => run_many detections cache species batch_size now
  end.

End Run.

End Reid.

(** The dispatcher and the job output as sections 4.2 and 4.5 of the
    specification word them, one detection at a time; compared with
    [Reid.run] below. *)
Module ReidSpec.

Import Cache Reid.

(** A record exists for (imageId, bbox, variant). *)
Definition has_record (d : db) (image_id : Z) (bbox : list Q)
  (variant : string) : Prop :=
  ∃ h r, bbox_to_hash bbox = Some h ∧ r ∈ rows d ∧
         row_key r = (image_id, h, variant).

(** The three tiers, with the cached vector the first two start from. *)
Inductive tier : Type :=
| FullyCached (v : list f32)
| AdapterOnly (raw : list f32)
| FullComputation.

(** The tier of one detection, in the priority order of the three; [None]
    when a lookup raises. *)
Definition classify (cache : option db)
  (final_variant intermediate_variant : string) (det : detection)
  : option tier :=
  match cache, det_image_id det with
  | Some d, Some image_id =>
      final ← get_embedding d image_id (bbox det) final_variant;
      match final with
      | Some v => Some (FullyCached v)
      | None =>
          intermediate ←
            get_embedding d image_id (bbox det) intermediate_variant;
          Some (match intermediate with
                | Some w => AdapterOnly w
                | None => FullComputation
                end)
      end
  | _, _ => Some FullComputation
  end.

(** A model call of the given kind had detection [i] in its batch. *)
Definition adapter_called (calls : list call) (i : nat) : Prop :=
  ∃ idxs, CallAdapter idxs ∈ calls ∧ i ∈ idxs.

Definition full_called (calls : list call) (i : nat) : Prop :=
  ∃ idxs, CallFull idxs ∈ calls ∧ i ∈ idxs.

(** The identifiers an output mentions. *)
Definition mentioned (out : list individual) : list Z :=
  concat (out.*2).

(** The image ids of the job are integers SQLite takes. *)
Definition image_ids_ok (detections : list detection) : Prop :=
  Forall (fun det => from_option int64 true (det_image_id det) = true)
         detections.

Section Spec.

Context `{kernel : Distance.Matmul}.
Context {image : Type}.
Variable load_and_crop_image : string → list Q → option (image * Z).
Variable forward : image → Z → list f32.
Variable forward_from_raw : list f32 → Z → list f32.

Definition variants (species : string) : string * string :=
  (Config.REID_EMBEDDING_PREFIX +:+ species, Config.RAW_FOR_ADAPTER_TYPE).

(** The final embedding of a detection, by its tier; [None] for a detection
    dropped because its image does not load on the full path. *)
Definition own_embedding (cache : option db) (species : string)
  (det : detection) : option (list f32) :=
  match classify cache (variants species).1 (variants species).2 det with
  | Some (FullyCached v) => Some v
  | Some (AdapterOnly raw) =>
      Some (forward_from_raw raw
              (is_day_or_default load_and_crop_image det))
  | Some FullComputation =>
      match load_and_crop_image (image_path det) (bbox det) with
      | Some (img, is_day) => Some (forward img is_day)
      | None => None
      end
  | None => None
  end.

(** The surviving detections, in input order, each with its embedding. *)
Definition surviving (cache : option db) (species : string)
  (detections : list detection) : list (detection * list f32) :=
  omap (fun det => v ← own_embedding cache species det; Some (det, v))
       detections.

(** The embeddings of the surviving detections have one dimension, as
    vectors of one model have. *)
Definition one_dimension (cache : option db) (species : string)
  (detections : list detection) : Prop :=
  ∃ D : nat,
    Forall (fun e : detection * list f32 => length e.2 = D)
           (surviving cache species detections).

(** The clusters of the surviving embeddings, the i-th of them labelled
    with the identifier of the i-th surviving detection. *)
Definition expected_output (cache : option db) (species : string)
  (detections : list detection) : option (list individual) :=
  let s := surviving cache species detections in
  match s with
  | [] => Some []
  | _ =>
      id_dict ←
        Cluster.process_dist_mat_v2
          (Distance.compute_distance_matrix
             (map (fun e => map value e.2) s));
      format_output_with_detection_ids
        (map (fun e => detection_id e.1) s) id_dict
  end.

End Spec.

End ReidSpec.

(** ** [EmbeddingCache]: the batch lookup, and the files the store leaves *)

Module CacheMore.

Import Cache.

(** The dict key [f"{image_id}:{bbox_hash}"] of [get_embeddings_batch]. *)
Definition batch_key (image_id : Z) (bbox_hash : string) : string :=
  pretty image_id +:+ ":" +:+ bbox_hash.

(** One iteration of the loop of [get_embeddings_batch]. *)
Definition lookup_step (d : db) (embedding_type : string)
  (result : gmap string (list f32)) (item : Z * list Q)
  : option (gmap string (list f32)) :=
  bbox_hash ← bbox_to_hash item.2;
  if int64 item.1 then
    match select_one d (item.1, bbox_hash, embedding_type) with
    | Some r =>
        v ← frombuffer (embedding r);
        Some (<[batch_key item.1 bbox_hash := v]> result)
    | None => Some result
    end
  else None.

(** [get_embeddings_batch]: an empty list returns before a connection is
    opened. *)
Definition get_embeddings_batch (d : db) (items : list (Z * list Q))
  (embedding_type : string) : option (gmap string (list f32)) :=
  match items with
  | [] => Some ∅
  | _ => foldlM (lookup_step d embedding_type) ∅ items
  end.

Section Files.

Context {ndarray : Type}.
Variable astype_float32 : ndarray → option (list f32).

(** A caller that stores the entries with one [store_embedding] call each,
    and stops at the first call that raises; call number [k] reads [now k]
    on the clock. *)
Fixpoint store_each (d : db) (items : list (Z * list Q * ndarray))
  (embedding_type : string) (now : nat → Z) : db * option unit :=
  match items with
  | [] => (d, Some tt)
  | (image_id, bbox, embedding) :: rest =>
      match store_embedding astype_float32 d image_id bbox embedding_type
                            embedding (now 0%nat) with
      | (d', Some _) =>
          store_each d' rest embedding_type (fun k => now (S k))
      | (d', None) => (d', None)
      end
  end.


End Files.

(** Row ids increase along the table and stay within the counter. *)
Definition ids_ok (d : db) : Prop :=
  StronglySorted Z.lt (row_id <$> rows d) ∧
  Forall (fun r => 0 < row_id r ≤ last_id d) (rows d) ∧ 0 ≤ last_id d.

(** What the dict of the batch lookup holds once it has gone through
    [items]. *)
Definition batch_inv (d : db) (ty : string) (m : gmap string (list f32))
  (items : list (Z * list Q)) : Prop :=
  ∀ k v, m !! k = Some v ↔
         ∃ image_id bbox h,
           (image_id, bbox) ∈ items ∧ bbox_to_hash bbox = Some h ∧
           k = batch_key image_id h ∧
           get_embedding d image_id bbox ty = Some (Some v).

End CacheMore.

(** ** Day or night: [check_day_night] *)

Module DayNight.

(** A pixel of [np.array(img)] for an RGB image: three [uint8] channels. *)
Record pixel : Type := Pixel {
  red : Z;
  green : Z;
  blue : Z
}.

Definition uint8 (x : Z) : Prop := 0 ≤ x < 256.

Definition well_formed (p : pixel) : Prop :=
  uint8 (red p) ∧ uint8 (green p) ∧ uint8 (blue p).

(** [a - b] on [uint8] arrays wraps around; [np.abs] of the result, which is
    a [uint8] again, finds nothing to change. *)
Definition sub_u8 (a b : Z) : Z := (a - b) mod 256.
Definition abs_u8 (a : Z) : Z := Z.abs a.

(** [np.median] of the flattened array: the middle element of the sorted
    values, the mean of the two middle ones for an even count, and NaN for no
    value at all. *)
Definition np_median (a : list Z) : ext :=
  let s := merge_sort Z.le a in
  let n := length s in
  if (n =? 0)%nat then NaN
  else if Nat.even n then
    match s !! (n / 2 - 1)%nat, s !! (n / 2)%nat with
    | Some x, Some y => Fin ((inject_Z x + inject_Z y) / (2 # 1))
    | _, _ => NaN
    end
  else
    match s !! (n / 2)%nat with
    | Some x => Fin (inject_Z x)
    | None => NaN
    end.

(** [np.max] of a list of floats: a NaN wins. *)
Definition np_maximum (a b : ext) : ext :=
  if is_nan a then a
  else if is_nan b then b
  else if ltb a b then b else a.

Definition np_max (l : list ext) : option ext :=
  match l with
  | [] => None
  | x :: l' => Some (foldl np_maximum x l')
  end.

(** IEEE [x == y]. *)
Definition eqb (x y : ext) : bool :=
  match x, y with
  | Fin a, Fin b => Qeq_bool a b
  | PInf, PInf | NInf, NInf => true
  | _, _ => false
  end.

(** The three medians of the absolute channel differences. *)
Definition channel_diffs (arr : list pixel) : list ext :=
  [np_median (map (fun p => abs_u8 (sub_u8 (red p) (green p))) arr);
   np_median (map (fun p => abs_u8 (sub_u8 (red p) (blue p))) arr);
   np_median (map (fun p => abs_u8 (sub_u8 (green p) (blue p))) arr)].

(** [check_day_night]: 0 for night, 1 for day; the image is the list of its
    rows. *)
Definition check_day_night (img : list (list pixel)) : option Z :=
  let arr := concat img in
  mean_diff ← np_max (channel_diffs arr);
  if ltb mean_diff (Fin (3 # 1)) || eqb mean_diff (Fin (255 # 1)) then Some 0
  else Some 1.

(** Every channel of every pixel moved by [c] levels, wrapping around. *)
Definition shift (c : Z) (p : pixel) : pixel :=
  Pixel ((red p + c) mod 256) ((green p + c) mod 256) ((blue p + c) mod 256).

(** The same image with the red and green channels exchanged. *)
Definition swap_rg (p : pixel) : pixel := Pixel (green p) (red p) (blue p).

(** The float [x] holds the integer [c]. *)
Definition holds (x : ext) (c : Z) : Prop :=
  ∃ q, x = Fin q ∧ Qeq q (inject_Z c).

End DayNight.

(** ** Pixel boxes: [convert_bbox_normalized_to_absolute] and the crop *)

Module Bbox.

Import Cache.

(** [int(x)] of a float: truncation towards zero; [ValueError] on a NaN and
    [OverflowError] on an infinity. *)
Definition int_of_float (x : ext) : option Z :=
  match x with
  | Fin q => Some (int_of q)
  | _ => None
  end.

(** The floats on which [int] returns. *)
Definition finite (x : ext) : Prop := ∃ q, x = Fin q.

Section Convert.

(** The float product [x * n] of a coordinate and an image side, as the
    machine rounds it; it may overflow to an infinity, and it is a NaN for a
    NaN coordinate. *)
Variable fmul : ext → Z → ext.

(** [detection_utils.convert_bbox_normalized_to_absolute]; a bbox that does
    not unpack into four values raises, and so does [int] of a product that
    is not finite. *)
Definition convert_bbox_normalized_to_absolute (bbox : list ext)
  (image_width image_height : Z) : option (list Z) :=
  match bbox with
  | [xmin; ymin; xmax; ymax] =>
      x1 ← int_of_float (fmul xmin image_width);
      let xmin_abs := Z.max 0 (Z.min x1 (image_width - 1)) in
      y1 ← int_of_float (fmul ymin image_height);
      let ymin_abs := Z.max 0 (Z.min y1 (image_height - 1)) in
      x2 ← int_of_float (fmul xmax image_width);
      let xmax_abs := Z.max 0 (Z.min x2 image_width) in
      y2 ← int_of_float (fmul ymax image_height);
      let ymax_abs := Z.max 0 (Z.min y2 image_height) in
      Some [xmin_abs; ymin_abs; xmax_abs; ymax_abs]
  | _ => None
  end.

End Convert.

(** [x1, y1, x2, y2 = map(int, bbox)] of [reid_v2.load_and_crop_image]: the
    rectangle handed to [img.crop]. *)
Definition crop_box (bbox : list Q) : option (Z * Z * Z * Z) :=
  match int_of <$> bbox with
  | [x1; y1; x2; y2] => Some (x1, y1, x2, y2)
  | _ => None
  end.

(** A string without the separator of [bbox_to_hash]. *)
Fixpoint no_underscore (s : string) : Prop :=
  match s with
  | EmptyString => True
  | String c s' => c ≠ "_"%char ∧ no_underscore s'
  end.

End Bbox.

(** ** What the job does to the store *)

Module StoreViews.

Import Cache.

(** What a writer of the variant [ty] may do to a store: records of other
    variants are read as before, no key loses its record, and a well-formed
    file stays well formed. *)
Definition grows (ty : string) (c c' : option db) : Prop :=
  match c, c' with
  | Some d, Some d' =>
      (∀ k : key, k.2 ≠ ty → select_one d' k = select_one d k) ∧
      (∀ k : key, is_Some (select_one d k) → is_Some (select_one d' k)) ∧
      (blobs_ok d = true → blobs_ok d' = true) ∧
      (unique d → unique d')
  | None, None => True
  | _, _ => False
  end.

Global Arguments grows : simpl never.

(** A file without its [created_at] column. *)
Definition columns (r : row) : Z * Z * string * string * list Byte.byte :=
  (row_id r, image_id r, bbox_hash r, embedding_type r, embedding r).

Definition timeless (d : db)
  : list (Z * Z * string * string * list Byte.byte) * Z :=
  (columns <$> rows d, last_id d).

(** What one batch of either model loop does to the store: it grows, and
    every item of the batch that has an image id has a record afterwards. *)
Definition batch_stored (ty : string) (p p' : Reid.progress)
  (dets : list Reid.detection) : Prop :=
  grows ty (Reid.store p) (Reid.store p') ∧
  ∀ det image_id h d,
    det ∈ dets → Reid.det_image_id det = Some image_id →
    bbox_to_hash (Reid.bbox det) = Some h → Reid.store p = Some d →
    ∃ d', Reid.store p' = Some d' ∧
          is_Some (select_one d' (image_id, h, ty)).

End StoreViews.

(** ** The folder job of [reid_dino_adapter.py] *)

Module Adapter.

Import Distance Cluster.

(** [np.concatenate(arrays, axis=0)] of two-dimensional arrays: no array at
    all raises, and so do rows of different lengths. *)
Definition np_concatenate {A} (arrays : list (list (list A)))
  : option (list (list A)) :=
  match arrays with
  | [] => None
  | _ =>
      match concat arrays with
      | [] => Some []
      | row :: rest =>
          if forallb (fun b => (length b =? length row)%nat) rest
          then Some (row :: rest) else None
      end
  end.

(** [l[start:stop]] for [0 <= start]. *)
Definition slice {A} (l : list A) (start stop : nat) : list A :=
  take (stop - start) (drop start l).

(** [range(0, total, batch_size)]; a zero step raises, a negative one gives
    no start at all. *)
Definition starts (total : nat) (batch_size : Z) : option (list nat) :=
  if batch_size =? 0 then None
  else if batch_size <? 0 then Some []
  else
    let bs := Z.to_nat batch_size in
    Some (map (fun k => (k * bs)%nat) (seq 0 ((total + bs - 1) / bs))).

(** The batch size [run] goes on with, [parsed] being [int(batch_size)] or
    [None] when that raised [ValueError] or [TypeError]. *)
Definition batch_size_or_default (parsed : option Z) : Z :=
  match parsed with
  | Some n => if n <=? 0 then 4 else n
  | None => 4
  end.

(** How [run] ends when it does not raise: [sys.exit(0)] for want of crops,
    or the dict handed to [show_results]. *)
Inductive outcome : Type :=
| Exited
| Returned (output_dict : list (string * list string)).

Section Run.

(** The collaborators: decoding and preprocessing of one crop with its
    day/night flag ([None] when it raises), the model on one batch (the
    images concatenated, with their flags), which returns one row per array
    of the batch, and [os.path.relpath] ([None] when it raises). *)
Context `{kernel : Matmul}.
Context {image : Type}.
Variable load_and_preprocess_image : string → option (image * Z).
Variable model : list image → list Z → list (list ext).
Variable relpath : string → string → option string.

Definition compute_embeddings_batched (images : list image) (times : list Z)
  (batch_size : Z) : option (list (list ext)) :=
  let total := length images in
  ss ← starts total batch_size;
  np_concatenate
    (map (fun start =>
            let stop := Nat.min (start + Z.to_nat batch_size) total in
            model (slice images start stop) (slice times start stop))
         ss).

(** [os.path.relpath(image_paths[img_idx], rel_parent_path)] *)
Definition relative (image_paths : list string) (rel_parent_path : string)
  (img_idx : nat) : option string :=
  img_full_path ← image_paths !! img_idx;
  relpath img_full_path rel_parent_path.

(** One entry of the loop of [format_output_dict]; a key that is in the new
    dict already is not written again. *)
Definition format_step (image_paths : list string) (rel_parent_path : string)
  (acc : list (string * list string)) (e : Z * list nat)
  : option (list (string * list string)) :=
  let id := "ID-" +:+ pretty e.1 in
  list_of_img_paths ← mapM (relative image_paths rel_parent_path) e.2;
  if bool_decide (id ∈ acc.*1) then Some acc
  else Some (acc ++ [(id, list_of_img_paths)]).

Definition format_output_dict (image_paths : list string)
  (output_dict : output_dict) (rel_parent_path : string)
  : option (list (string * list string)) :=
  foldlM (format_step image_paths rel_parent_path) [] output_dict.

(** [run] from the sorted list of the crops on: loading, embedding,
    distances, clustering and the dict of relative paths. *)
Definition run (cropped_image_paths : list string) (output_dir : string)
  (parsed_batch_size : option Z) : option outcome :=
  match cropped_image_paths with
  | [] => Some Exited
  | _ =>
      cropped_with_meta ← mapM load_and_preprocess_image cropped_image_paths;
      let is_day_list := cropped_with_meta.*2 in
      let cropped_images := cropped_with_meta.*1 in
      let batch_size := batch_size_or_default parsed_batch_size in
      embeddings ← compute_embeddings_batched cropped_images is_day_list
                                              batch_size;
      let distance_mat := compute_distance_matrix embeddings in
      id_dict ← process_dist_mat_v2 distance_mat;
      output_dict ← format_output_dict cropped_image_paths id_dict output_dir;
      Some (Returned output_dict)
  end.

End Run.

End Adapter.

(** ** The crops of the folder job: [crop_image_from_json] *)

Module Crop.

Import Cache.

(** The value under ['bbox'] of one entry of ['boxes']: the key may be
    missing, the value [null], or a list of numbers. *)
Inductive bbox_value : Type :=
| Missing
| Null
| Coords (bbox : list Q).

(** The value under ['detection_confidence']: the key may be missing, the
    value [null], or a number. *)
Inductive confidence_value : Type :=
| Absent
| NullConfidence
| Confidence (q : Q).

(** One entry of ['boxes']. *)
Record box_info : Type := BoxInfo {
  box_bbox : bbox_value;
  confidence : confidence_value
}.

(** [x.get('detection_confidence', 0)]; [None] is Python's [None]. *)
Definition key_of (x : box_info) : option Q :=
  match confidence x with
  | Absent => Some (0 # 1)
  | NullConfidence => None
  | Confidence q => Some q
  end.

(** [a > b] on two keys: comparing [None] with anything raises
    [TypeError]. *)
Definition key_gt (a b : option Q) : option bool :=
  x ← a; y ← b; Some (negb (Qle_bool x y)).

(** [max(boxes, key=...)]: the first entry with the greatest key; an empty
    list raises, and so does the first comparison that meets a [None]. *)
Definition max_by_confidence (boxes : list box_info) : option box_info :=
  match boxes with
  | [] => None
  | b :: rest =>
      foldlM (fun (m x : box_info) =>
                key_gt (key_of x) (key_of m) ≫= fun greater : bool =>
                Some (if greater then x else m)) b rest
  end.

(** [x]'s key is at most [m]'s, both being numbers. *)
Definition key_le (x m : box_info) : Prop :=
  ∃ q qm, key_of x = Some q ∧ key_of m = Some qm ∧ Qle q qm.

Section Save.

(** [img.crop(box)] and [save] of the crop are Pillow's: [crop_and_save box]
    tells whether they return for this image and rectangle (an inverted
    rectangle makes [crop] raise [ValueError]). *)
Variable crop_and_save : Z * Z * Z * Z → bool.

(** [crop_image_from_json], [boxes] being [crop_info.get('boxes')]: the
    rectangles it crops and saves, each with the suffix of its file name
    after the base name of the image.  Decoding the image is taken to
    succeed. *)
Definition crop_image_from_json (boxes : option (list box_info))
  : option (list (string * (Z * Z * Z * Z))) :=
  match boxes with
  | None | Some [] => Some []
  | Some boxes =>
      top_bbox ← max_by_confidence boxes;
      let boxes := [top_bbox] in
      foldlM (fun saved (x : nat * box_info) =>
                match box_bbox x.2 with
                | Missing => None
                | Null => Some saved
                | Coords bbox =>
                    if bool_decide (bbox = []) || negb (length bbox =? 4)%nat
                    then Some saved
                    else
                      match int_of <$> bbox with
                      | [x1; y1; x2; y2] =>
                          let name :=
                            if (1 <? length boxes)%nat
                            then "_" +:+ pretty x.1 +:+ ".jpg" else ".jpg" in
                          if crop_and_save (x1, y1, x2, y2)
                          then Some (saved ++ [(name, (x1, y1, x2, y2))])
                          else None
                      | _ => None
                      end
                end)
             [] (enumerate boxes)
  end.

End Save.

End Crop.

(** ** Views of the clusterer *)

Module ClusterViews.

Import Cluster ClusterSpec.

(** The indices that hold a key. *)
Definition assigned (keys : list Z) : list nat :=
  filter (fun i => key_at keys i ≠ -1) (seq 0 (length keys)).

(** A matrix as [compute_distance_matrix] leaves it when every detection is
    nearest to itself: the self-pair of each row is masked and the other
    cells are finite. *)
Definition masked_diagonal (dist_mat : list (list ext)) : Prop :=
  ∀ r j row d, dist_mat !! r = Some row → row !! j = Some d →
    if decide (j = r) then d = PInf else ∃ q, d = Fin q.

(** A cell that no row takes for a candidate. *)
Definition no_distance (d : ext) : Prop := d = NaN ∨ d = PInf.

End ClusterViews.

(** ** Views of the loops

    What each loop of the job has built when it ends, written as a function
    of its input; the properties below relate the loops to these. *)

Module Views.

Import Cache Reid ReidSpec ClusterSpec.

(** An item the store takes: its bbox has a hash and its image id fits. *)
Definition storable (it : Z * list Q * list f32) : Prop :=
  is_Some (bbox_to_hash it.1.2) ∧ int64 it.1.1 = true.

(** A detection whose lookups and writes do not raise. *)
Definition keyed (det : detection) : Prop :=
  is_Some (bbox_to_hash (bbox det)) ∧
  from_option int64 true (det_image_id det) = true.

(** The key a branch of the clusterer writes. *)
Definition branch_key (b : branch) : Z :=
  match b with Propagate k | Fresh k | Join k => k end.

(** A strictly increasing list. *)
Definition increasing (l : list Z) : Prop :=
  ∀ (i j : nat) (x y : Z), l !! i = Some x → l !! j = Some y → (i < j)%nat → x < y.

(** A string without the separator of [cache_key]. *)
Fixpoint no_colon (s : string) : Prop :=
  match s with
  | EmptyString => True
  | String c s' => c ≠ ":"%char ∧ no_colon s'
  end.

(** Where the categorisation loop puts a detection of a given tier. *)
Definition place (t : tiers) (i : nat) (det : detection) (tr : tier) : tiers :=
  let ids := detection_ids t ++ [Some (detection_id det)] in
  match tr with
  | FullyCached v =>
      Tiers (match det_image_id det, bbox_to_hash (bbox det) with
             | Some image_id, Some h =>
                 <[cache_key image_id h := v]> (cached_reid t)
             | _, _ => cached_reid t
             end) (has_raw t) (needs_full t) ids
  | AdapterOnly w =>
      Tiers (cached_reid t) (has_raw t ++ [(i, det, w)]) (needs_full t) ids
  | FullComputation =>
      Tiers (cached_reid t) (has_raw t) (needs_full t ++ [(i, det)]) ids
  end.

(** The entries written into a dict, in order. *)
Definition insert_entries (m : gmap string (list f32))
  (es : list (string * list f32)) : gmap string (list f32) :=
  foldl (fun m' e => <[e.1 := e.2]> m') m es.

(** The vectors [g] gives to the detections, with their positions. *)
Definition recorded (g : nat * detection → option (list f32))
  (E : list (nat * detection)) : list (nat * detection * list f32) :=
  omap (fun x => v ← g x; Some (x.1, x.2, v)) E.

(** What the reassembly loop keeps of one detection, [own] giving the
    embedding of a detection. *)
Definition kept (own : detection → option (list f32)) (survivors : list Z)
  (x : nat * detection) : option (nat * list f32) :=
  if bool_decide (detection_id x.2 ∈ survivors)
  then (fun v => (x.1, v)) <$> own x.2
  else None.

Section Categorize.

Variable cache : option db.
Variables reid raw : string.

(** The three lists of the categorisation, by the tier of each detection. *)
Definition raw_items (E : list (nat * detection))
  : list (nat * detection * list f32) :=
  omap (fun x : nat * detection =>
          match classify cache reid raw x.2 with
          | Some (AdapterOnly w) => Some (x.1, x.2, w)
          | _ => None
          end) E.

Definition full_items (E : list (nat * detection)) : list (nat * detection) :=
  omap (fun x : nat * detection =>
          match classify cache reid raw x.2 with
          | Some FullComputation => Some x
          | _ => None
          end) E.

Definition cached_entries (E : list (nat * detection))
  : list (string * list f32) :=
  omap (fun x : nat * detection =>
          match classify cache reid raw x.2,
                det_image_id x.2, bbox_to_hash (bbox x.2) with
          | Some (FullyCached v), Some image_id, Some h =>
              Some (cache_key image_id h, v)
          | _, _, _ => None
          end) E.

End Categorize.

Section Loops.

Context {image : Type}.
Variable load_and_crop_image : string → list Q → option (image * Z).
Variable forward : image → Z → list f32.
Variable forward_from_raw : list f32 → Z → list f32.

(** The vector the adapter loop records for an item. *)
Definition adapter_feat (x : nat * detection * list f32)
  : nat * detection * list f32 :=
  (x.1.1, x.1.2,
   forward_from_raw x.2 (is_day_or_default load_and_crop_image x.1.2)).

(** The detections of a batch whose image loads, and the identifiers of
    those whose image does not. *)
Definition loaded_of (batch : list (nat * detection))
  : list (nat * detection * image * Z) :=
  omap (fun x : nat * detection =>
          match load_and_crop_image (image_path x.2) (bbox x.2) with
          | Some (img, is_day) => Some (x.1, x.2, img, is_day)
          | None => None
          end) batch.

Definition failed_of (batch : list (nat * detection)) : list Z :=
  omap (fun x : nat * detection =>
          match load_and_crop_image (image_path x.2) (bbox x.2) with
          | Some _ => None
          | None => Some (detection_id x.2)
          end) batch.

(** The vector the full-model loop records for a loaded item. *)
Definition full_feat (y : nat * detection * image * Z)
  : nat * detection * list f32 :=
  (y.1.1.1, y.1.1.2, forward y.1.2 y.2).

(** The calls of the full-model loop over the batches [B]. *)
Definition full_calls (B : list (list (nat * detection))) : list call :=
  omap (fun b => match loaded_of b with
                 | [] => None
                 | l => Some (CallFull (map (fun y => y.1.1.1) l))
                 end) B.

Variable cache : option db.
Variables reid raw : string.

(** The embedding each model loop computes for a detection, if any. *)
Definition g_raw (x : nat * detection) : option (list f32) :=
  match classify cache reid raw x.2 with
  | Some (AdapterOnly w) =>
      Some (forward_from_raw w (is_day_or_default load_and_crop_image x.2))
  | _ => None
  end.

Definition g_full (x : nat * detection) : option (list f32) :=
  match classify cache reid raw x.2 with
  | Some FullComputation =>
      match load_and_crop_image (image_path x.2) (bbox x.2) with
      | Some (img, is_day) => Some (forward img is_day)
      | None => None
      end
  | _ => None
  end.

(** The identifier list once every failed load is marked. *)
Definition marked (E : list (nat * detection)) : option (list (option Z)) :=
  foldlM mark_failed ((fun x => Some (detection_id x.2)) <$> E)
         (failed_of (full_items cache reid raw E)).

End Loops.

End Views.

(** ** The job without its batches *)

Module Unbatched.

Import Cache Reid Views.

(** One [INSERT OR REPLACE] of an item, at the time that comes with it. *)
Definition insert_at (ty : string) (d : db) (x : Z * list Q * list f32 * Z)
  : option db :=
  apply_all Some d [x.1] ty x.2.

(** The file after the writes of [items] in this order, item [k] at the
    time [time k]. *)
Definition writes (d : db) (items : list (Z * list Q * list f32))
  (ty : string) (time : nat → Z) : option db :=
  foldlM (insert_at ty) d (zip items (time <$> seq 0 (length items))).

(** The same on the store of a job, when there is one. *)
Definition written (c : option db) (items : list (Z * list Q * list f32))
  (ty : string) (time : nat → Z) : option (option db) :=
  match c with
  | Some d => d' ← writes d items ty time; Some (Some d')
  | None => Some None
  end.

(** The times of [n] writes followed by those of other writes. *)
Definition splice (n : nat) (time1 time2 : nat → Z) (k : nat) : Z :=
  if (k <? n)%nat then time1 k else time2 (k - n)%nat.

Section Job.

Context `{kernel : Distance.Matmul}.
Context {image : Type}.
Variable load_and_crop_image : string → list Q → option (image * Z).
Variable forward : image → Z → list f32.
Variable forward_from_raw : list f32 → Z → list f32.

(** The job with each model loop run as one batch: the individuals and the
    store it leaves, [time1] and [time2] being the times at which the
    vectors of the two loops are written. *)
Definition run_in_one_batch (detections : list detection) (cache : option db)
  (species : string) (time1 time2 : nat → Z)
  : option (list individual * option db) :=
  match detections with
  | [] => Some ([], cache)
  | [det] => Some ([("ID-0", [detection_id det])], cache)
  | _ =>
      let reid := Config.REID_EMBEDDING_PREFIX +:+ species in
      let raw := Config.RAW_FOR_ADAPTER_TYPE in
      t ← categorize cache reid raw detections;
      let feats1 :=
        adapter_feat load_and_crop_image forward_from_raw <$> has_raw t in
      c1 ← written cache (items_to_store cache feats1) reid time1;
      l' ← foldlM mark_failed (detection_ids t)
                  (failed_of load_and_crop_image (needs_full t));
      let feats2 :=
        full_feat forward <$> loaded_of load_and_crop_image (needs_full t) in
      c2 ← written c1 (items_to_store cache feats2) reid time2;
      let survivors := omap id l' in
      all_embeddings ←
        foldlM (combine_step cache (cached_reid t) (record_all ∅ feats1)
                             (record_all ∅ feats2) survivors)
               [] (enumerate detections);
      match all_embeddings with
      | [] => Some ([], c2)
      | _ =>
          embeddings ← np_stack (map snd all_embeddings);
          id_dict ←
            Cluster.process_dist_mat_v2
              (Distance.compute_distance_matrix (map (map value) embeddings));
          individuals ← format_output_with_detection_ids survivors id_dict;
          Some (individuals, c2)
      end
  end.

End Job.

End Unbatched.

(** ** What a job writes *)

Module Rerun.

Import Cache Reid Views.

(** The cache keys of the detections that carry an image id. *)
Definition cache_keys (detections : list detection) : list (Z * string) :=
  omap (fun det =>
          image_id ← det_image_id det;
          h ← bbox_to_hash (bbox det);
          Some (image_id, h)) detections.

Section Job.

Context {image : Type}.
Variable load_and_crop_image : string → list Q → option (image * Z).
Variable forward : image → Z → list f32.
Variable forward_from_raw : list f32 → Z → list f32.

(** Everything a job writes into its store, in the order of the writes:
    the vectors of the adapter loop, then those of the full-model loop. *)
Definition fresh_items (cache : option db) (reid raw : string)
  (E : list (nat * detection)) : list (Z * list Q * list f32) :=
  items_to_store cache
    (adapter_feat load_and_crop_image forward_from_raw
       <$> raw_items cache reid raw E)
  ++ items_to_store cache
       (full_feat forward
          <$> loaded_of load_and_crop_image (full_items cache reid raw E)).

End Job.

End Rerun.

(** ** Concrete jobs used in the examples *)

Module Fixture.

Import Cache Reid.

(** The float32 numbers 1.0 and 0.0, and two orthogonal unit vectors. *)
Definition one : f32 := F32 Byte.x00 Byte.x00 Byte.x80 Byte.x3f.
Definition zero : f32 := F32 Byte.x00 Byte.x00 Byte.x00 Byte.x00.
Definition east : list f32 := [one; zero].
Definition north : list f32 := [zero; one].

(** A toy model: an image is the embedding the full model gives it, the
    adapter returns the cached vector, and only two files can be read. *)
Definition load (path : string) (bbox : list Q) : option (list f32 * Z) :=
  if String.eqb path "east.jpg" then Some (east, 1)
  else if String.eqb path "north.jpg" then Some (north, 1)
  else None.

Definition model (img : list f32) (is_day : Z) : list f32 := img.
Definition adapter (raw : list f32) (is_day : Z) : list f32 := raw.

Definition box : list Q := [0 # 1; 0 # 1; 10 # 1; 10 # 1].

(** Five detections; the last one repeats identifier 7 and cannot be read. *)
Definition duplicated : list detection :=
  [Detection 7 "east.jpg" box None; Detection 8 "east.jpg" box None;
   Detection 9 "north.jpg" box None; Detection 10 "north.jpg" box None;
   Detection 7 "gone.jpg" box None].

(** Two detections, the second of which cannot be read. *)
Definition one_survivor : list detection :=
  [Detection 7 "east.jpg" box None; Detection 8 "gone.jpg" box None].

(** Two detections that cannot be read. *)
Definition none_survive : list detection :=
  [Detection 7 "gone.jpg" box None; Detection 8 "lost.jpg" box None].

(** A store holding the raw backbone feature of image 1, as the detection
    stage writes it, and two detections with image ids. *)
Definition raw_store : db :=
  (store_embedding Some empty 1 box Config.RAW_EMBEDDING_TYPE east 5).1.

Definition with_image_ids : list detection :=
  [Detection 7 "east.jpg" box (Some 1); Detection 8 "north.jpg" box (Some 2)].

(** A masked distance matrix of two pairs of near-duplicates. *)
Definition two_pairs : list (list ext) :=
  [[PInf; Fin (0 # 1); Fin (1 # 1); Fin (1 # 1)];
   [PInf; Fin (0 # 1); Fin (1 # 1); Fin (1 # 1)];
   [Fin (1 # 1); Fin (1 # 1); PInf; Fin (0 # 1)];
   [Fin (1 # 1); Fin (1 # 1); PInf; Fin (0 # 1)]].

(** A clock that ticks at every reading. *)
Definition clock (k : nat) : Z := Z.of_nat k.

(** A masked matrix whose cell (0, 2) is the float32 nearest to 0.00065,
    11166915 / 2^34, above the row minimum 0; row 2 has no finite cell. *)
Definition at_threshold : list (list ext) :=
  [[PInf; Fin (0 # 1); Fin (11166915 # 17179869184)];
   [Fin (0 # 1); PInf; Fin (1 # 1)];
   [PInf; PInf; PInf]].

End Fixture.

(** ** More concrete inputs used in the examples *)

Module MoreFixtures.

Import DayNight.

(** A reddish image of two rows, and an image of one grey pixel. *)
Definition tinted : list (list pixel) :=
  [[Pixel 12 10 10; Pixel 52 50 50]; [Pixel 202 200 200; Pixel 2 0 0]].

Definition tinted_mirrored : list (list pixel) :=
  [[Pixel 52 50 50; Pixel 12 10 10]; [Pixel 2 0 0; Pixel 202 200 200]].

Definition grey : list (list pixel) := [[Pixel 7 7 7]].

(** The product without rounding. *)
Definition exact_product (x : ext) (n : Z) : ext := mul x (Fin (inject_Z n)).

(** Four detections on a line, at 0, 1, 4.2 and 2.5: the distances between
    them, self-pairs masked. *)
Definition chain : list (list ext) :=
  [[PInf; Fin (10 # 10); Fin (42 # 10); Fin (25 # 10)];
   [Fin (10 # 10); PInf; Fin (32 # 10); Fin (15 # 10)];
   [Fin (42 # 10); Fin (32 # 10); PInf; Fin (17 # 10)];
   [Fin (25 # 10); Fin (15 # 10); Fin (17 # 10); PInf]].

(** A loader, a model and a path function that take everything: the model
    gives every array the same row. *)
Definition load_any (path : string) : option (Z * Z) := Some (0, 1).
Definition constant_model (images : list Z) (times : list Z)
  : list (list ext) :=
  map (fun _ => [Fin (1 # 1); Fin (0 # 1)]) images.
Definition relpath_id (path start : string) : option string := Some path.

(** Three boxes of one image: the most confident one comes second. *)
Definition three_boxes : list Crop.box_info :=
  [Crop.BoxInfo (Crop.Coords [0 # 1; 0 # 1; 5 # 1; 5 # 1])
                (Crop.Confidence (6 # 10));
   Crop.BoxInfo (Crop.Coords [12 # 10; 37 # 10; 41 # 10; 59 # 10])
                (Crop.Confidence (9 # 10));
   Crop.BoxInfo Crop.Null Crop.Absent].

(** A stand-in for Pillow: a rectangle is cropped and saved when it is not
    empty. *)
Definition pillow (box : Z * Z * Z * Z) : bool :=
  let '(x1, y1, x2, y2) := box in (x1 <? x2) && (y1 <? y2).

(** Three embeddings, the second one with a NaN. *)
Definition with_nan : list (list ext) :=
  [[Fin (1 # 1); Fin (0 # 1)]; [NaN; Fin (0 # 1)]; [Fin (1 # 1); Fin (0 # 1)]].

(** The product that rounds the sum of the products once: what [@] returns
    on float32 vectors of one entry, where the sum is one product. *)
Definition rounded : Distance.Matmul :=
  fun embeddings i j => to_float32 (Distance.exact embeddings i j).

(** Two float32 embeddings of one entry, one unit in the last place
    apart. *)
Definition near_pair : list (list ext) :=
  [[Fin (13673051 # 8388608)]; [Fin (13673052 # 8388608)]].

End MoreFixtures.

(** * Properties *)

(** ** The order on extended values *)

Module ExtFacts.

Lemma leb_refl x : is_nan x = false → leb x x = true.
Proof.
  destruct x; simpl; try done.
  intros _. apply Qle_bool_iff, Qle_refl.
Qed.

Lemma leb_trans x y z : leb x y = true → leb y z = true → leb x z = true.
Proof.
  destruct x, y, z; simpl; try done.
  rewrite !Qle_bool_iff. apply Qle_trans.
Qed.

Lemma leb_total x y :
  is_nan x = false → is_nan y = false → leb x y = true ∨ leb y x = true.
Proof.
  destruct x as [| |a|], y as [| |b|]; simpl; try done; auto.
  intros _ _. rewrite !Qle_bool_iff.
  destruct (Qlt_le_dec a b) as [H|H]; [left; by apply Qlt_le_weak | by right].
Qed.

Lemma leb_not_nan x y : leb x y = true → is_nan x = false ∧ is_nan y = false.
Proof. by destruct x, y. Qed.

Lemma np_le_refl x : np_le x x = true.
Proof.
  unfold np_le. destruct (is_nan x) eqn:E; [done|]. by apply leb_refl.
Qed.

Lemma np_le_nan y : np_le NaN y = true.
Proof. done. Qed.

Lemma np_le_trans x y z : np_le x y = true → np_le y z = true → np_le x z = true.
Proof.
  unfold np_le. destruct (is_nan x) eqn:Hx; [done|]. simpl.
  intros Hxy. destruct (leb_not_nan _ _ Hxy) as [_ ->]. simpl.
  by apply leb_trans.
Qed.

Lemma ltb_leb x y : ltb x y = true → leb x y = true.
Proof.
  destruct x as [| |a|], y as [| |b|]; simpl; try done.
  intros H%negb_true_iff. apply Qle_bool_iff.
  destruct (Qlt_le_dec a b) as [?|Hba]; [by apply Qlt_le_weak|].
  apply Qle_bool_iff in Hba. congruence.
Qed.

Lemma ltb_false_leb x y :
  ltb x y = false → is_nan x = false → is_nan y = false → leb y x = true.
Proof.
  destruct x as [| |a|], y as [| |b|]; simpl; try done.
  by intros H%negb_false_iff.
Qed.

End ExtFacts.

(** ** Rounding *)

Module IeeeFacts.

Lemma pow2_pos (k : Z) : Qlt 0 (pow2 k).
Proof. unfold pow2. apply Qpower_0_lt. reflexivity. Qed.

Lemma rint_nonneg (a : Q) : Qle 0 a → 0 ≤ rint a.
Proof.
  intros Ha. unfold rint.
  assert (0 ≤ Qfloor a) as Hf.
  { change 0 with (Qfloor 0). by apply Qfloor_resp_le. }
  destruct (Qcompare _ _); [destruct (Z.even _)| |]; lia.
Qed.

(** A non-negative number is rounded to a non-negative one. *)
Lemma round_nonneg (prec emin emax : Z) (q : Q) :
  Qle 0 q → leb (Fin 0) (round prec emin emax q) = true.
Proof.
  intros Hq. unfold round.
  destruct (Qnum q) eqn:Hn; [done| |]; cbv zeta;
    rewrite (proj2 (Qle_bool_iff 0 q) Hq);
    (destruct (Qle_bool (pow2 emax) _); [done|]);
    simpl; apply Qle_bool_iff; rewrite Qred_correct;
    apply Qmult_le_0_compat; try apply Qlt_le_weak, pow2_pos;
    change (Qle (inject_Z 0)
                (inject_Z
                   (rint (Qabs q
                          / pow2 (Z.max (ilog2 (Qabs q) - (prec - 1)) emin)))));
    rewrite <- Zle_Qle; apply rint_nonneg;
    (apply Qle_shift_div_l; [apply pow2_pos|]); rewrite Qmult_0_l;
    apply Qabs_nonneg.
Qed.

Lemma literal32_nonneg (t : Q) :
  Qle 0 t → leb (Fin 0) (literal32 t) = true.
Proof.
  intros Ht. unfold literal32.
  pose proof (round_nonneg 53 (-1074) 1024 t Ht) as H.
  fold (float64 t) in H. destruct (float64 t) as [| |r|]; try done.
  simpl. apply round_nonneg. by apply Qle_bool_iff in H.
Qed.

(** The difference of a float32 number with itself is zero. *)
Lemma sub32_self (q : Q) : sub32 (Fin q) (Fin q) = Fin 0.
Proof.
  unfold sub32, sub. simpl. unfold float32, round.
  assert (Qnum (q + - q) = 0) as ->; [|done].
  destruct q as [n d]. simpl. lia.
Qed.

Lemma to_float32_nan (x : ext) : is_nan (to_float32 x) = is_nan x.
Proof.
  destruct x as [| |q|]; try done. simpl. unfold float32, round.
  destruct (Qnum q); try done; cbv zeta;
    by repeat match goal with |- context [if ?c then _ else _] => destruct c end.
Qed.

End IeeeFacts.

(** ** DistanceEngine *)

Module DistanceFacts.

Import Distance ExtFacts.

(** The scan keeps the first position of the least element seen so far. *)
Lemma argmin_from_first_min (l pre : list ext) (mp : ext) (mi : nat) :
  pre !! mi = Some mp →
  (∀ j y, pre !! j = Some y → np_le mp y = true) →
  (∀ j y, (j < mi)%nat → pre !! j = Some y → np_le y mp = false) →
  first_min (pre ++ l) (argmin_from mp mi (length pre) l).
Proof.
  revert pre mp mi. induction l as [|x l IH]; intros pre mp mi Hmi Hle Hlt.
  - simpl. rewrite app_nil_r. split; [by eapply lookup_lt_Some|].
    split; intros j a b; rewrite ?Hmi; intros; simplify_eq; eauto.
  - simpl. destruct (is_nan mp) eqn:Hnan.
    + destruct mp; try done.
      split; [rewrite length_app; apply lookup_lt_Some in Hmi; lia|].
      assert ((pre ++ x :: l) !! mi = Some NaN) as Hmi'
        by (rewrite lookup_app_l; [done | by eapply lookup_lt_Some]).
      split; intros j a b; rewrite ?Hmi'; intros; simplify_eq; [done|].
      eapply Hlt; [done|]. rewrite lookup_app_l in H1; [done|].
      apply lookup_lt_Some in Hmi. lia.
    + replace (pre ++ x :: l) with ((pre ++ [x]) ++ l)
        by (by rewrite <- app_assoc).
      replace (S (length pre)) with (length (pre ++ [x]))
        by (rewrite length_app; simpl; lia).
      destruct (leb mp x) eqn:Hx; simpl.
      * apply IH.
        -- rewrite lookup_app_l; [done | by eapply lookup_lt_Some].
        -- intros j y Hj. apply lookup_app_Some in Hj as [Hj|[_ Hj]]; [eauto|].
           apply list_lookup_singleton_Some in Hj as [_ <-].
           unfold np_le. by rewrite Hx, orb_true_r.
        -- intros j y Hjm Hj. eapply Hlt; [done|].
           rewrite lookup_app_l in Hj; [done|].
           apply lookup_lt_Some in Hmi. lia.
      * apply IH.
        -- rewrite lookup_app_r by done.
           by replace (length pre - length pre)%nat with 0%nat by lia.
        -- intros j y Hj. apply lookup_app_Some in Hj as [Hj|[_ Hj]].
           ++ specialize (Hle _ _ Hj). unfold np_le in *.
              rewrite Hnan in Hle. simpl in Hle.
              destruct (is_nan x) eqn:Hxn; [done|]. simpl.
              destruct (leb_not_nan _ _ Hle) as [_ Hy].
              destruct (leb_total mp x Hnan Hxn) as [?|Hxm]; [congruence|].
              by eapply leb_trans.
           ++ apply list_lookup_singleton_Some in Hj as [_ <-].
              apply np_le_refl.
        -- intros j y Hjm Hj. rewrite lookup_app_l in Hj by done.
           specialize (Hle _ _ Hj). unfold np_le in *.
           rewrite Hnan in Hle. simpl in Hle.
           destruct (leb_not_nan _ _ Hle) as [_ Hy]. rewrite Hy. simpl.
           destruct (leb y x) eqn:Hyx; [|done].
           rewrite (leb_trans _ _ _ Hle Hyx) in Hx. done.
Qed.

Lemma np_argmin_first_min (row : list ext) :
  row ≠ [] → first_min row (np_argmin row).
Proof.
  destruct row as [|x l]; [done|]. intros _. simpl.
  apply (argmin_from_first_min l [x] x 0).
  - done.
  - intros [|j] y Hj; simplify_eq/=. apply np_le_refl.
  - intros j y Hj. lia.
Qed.

Lemma mask_row_lookup (M : list (list ext)) (s r : nat) :
  mask_row M s !! r = if decide (r = s) then masked <$> M !! r else M !! r.
Proof.
  unfold mask_row. case_decide as Hrs.
  - subst. destruct (M !! s) eqn:E; simpl; [|done].
    rewrite list_lookup_insert_eq; [done | by eapply lookup_lt_Some].
  - destruct (M !! s) eqn:E; [|done].
    by rewrite list_lookup_insert_ne.
Qed.

Lemma mask_loop_lookup (k s : nat) (M : list (list ext)) (r : nat) :
  foldl mask_row M (seq s k) !! r =
  if decide (s ≤ r < s + k)%nat then masked <$> M !! r else M !! r.
Proof.
  revert s M. induction k as [|k IH]; intros s M; simpl.
  - case_decide; [lia | done].
  - rewrite IH, mask_row_lookup.
    repeat case_decide; try lia; try done.
Qed.

Lemma mask_loop_length (l : list nat) (M : list (list ext)) :
  length (foldl mask_row M l) = length M.
Proof.
  revert M. induction l as [|s l IH]; intros M; simpl; [done|].
  rewrite IH. unfold mask_row. destruct (M !! s); [|done].
  by rewrite length_insert.
Qed.

Section Kernel.

Context `{kernel : Matmul}.

Lemma compute_distance_matrix_lookup (E : list (list ext)) (r : nat) :
  compute_distance_matrix E !! r = masked <$> unmasked E !! r.
Proof.
  unfold compute_distance_matrix. rewrite mask_loop_lookup.
  case_decide as H; [done|].
  rewrite lookup_ge_None_2; [done | lia].
Qed.

Lemma unmasked_length (E : list (list ext)) : length (unmasked E) = length E.
Proof. unfold unmasked, sim_matrix. by rewrite !length_map, length_seq. Qed.

Lemma unmasked_lookup (E : list (list ext)) (r : nat) :
  (r < length E)%nat →
  unmasked E !! r
  = Some ((fun j => sub32 (Fin (1 # 1)) (matmul E r j)) <$> seq 0 (length E)).
Proof.
  intros Hr. unfold unmasked, sim_matrix.
  rewrite !list_lookup_fmap, lookup_seq_lt by done. simpl. f_equal.
  by rewrite <- list_fmap_compose.
Qed.

Lemma unmasked_row_length (E : list (list ext)) (r : nat) (row : list ext) :
  unmasked E !! r = Some row → length row = length E.
Proof.
  intros Hr. pose proof (lookup_lt_Some _ _ _ Hr) as Hlt.
  rewrite unmasked_length in Hlt. rewrite unmasked_lookup in Hr by done.
  simplify_eq. by rewrite length_fmap, length_seq.
Qed.

Lemma unmasked_cell (E : list (list ext)) (r j : nat) (row : list ext) :
  unmasked E !! r = Some row → (j < length E)%nat →
  row !! j = Some (sub32 (Fin (1 # 1)) (matmul E r j)).
Proof.
  intros Hr Hj. pose proof (lookup_lt_Some _ _ _ Hr) as Hlt.
  rewrite unmasked_length in Hlt. rewrite unmasked_lookup in Hr by done.
  simplify_eq. by rewrite list_lookup_fmap, lookup_seq_lt.
Qed.

Lemma compute_distance_matrix_length (E : list (list ext)) :
  length (compute_distance_matrix E) = length E.
Proof.
  unfold compute_distance_matrix.
  by rewrite mask_loop_length, unmasked_length.
Qed.

Lemma compute_distance_matrix_square (E : list (list ext)) :
  Cluster.square (compute_distance_matrix E).
Proof.
  unfold Cluster.square. apply Forall_lookup. intros r row Hr.
  rewrite compute_distance_matrix_length.
  rewrite compute_distance_matrix_lookup in Hr.
  destruct (unmasked E !! r) as [row0|] eqn:H0; simplify_eq/=.
  unfold masked. rewrite length_insert. by eapply unmasked_row_length.
Qed.

(** C2. [compute_distance_matrix] returns [1 - E @ E^T], the subtraction
    being that of float32 numbers and [matmul E r j] the cell of the
    product, with, in every row, exactly one cell overwritten by [+inf]: the
    first position of the row's minimum ([np.argmin]).  The diagonal plays
    no part: of two cells of a row that hold the same value the later one is
    never the masked one, so that with embeddings 0 and 1 the same vector
    (and a product that takes equal vectors alike) the mask of row 0 never
    lands on cell (0, 1) and the mask of row 1 never lands on its own
    diagonal cell (1, 1); both keep the distance to the duplicate.  The last
    part evaluates such a matrix, with a product that is exact. *)
Theorem compute_distance_matrix_masks_first_minimum (E : list (list ext)) :
  length (compute_distance_matrix E) = length E ∧
  (∀ r, (r < length E)%nat →
     ∃ (row : list ext) (m : nat),
       length row = length E ∧
       (∀ j, (j < length E)%nat →
             row !! j = Some (sub32 (Fin (1 # 1)) (matmul E r j))) ∧
       first_min row m ∧
       compute_distance_matrix E !! r = Some (<[m := PInf]> row) ∧
       <[m := PInf]> row !! m = Some PInf ∧
       ∀ c, c ≠ m → <[m := PInf]> row !! c = row !! c) ∧
  (∀ r j j' row,
     compute_distance_matrix E !! r = Some row →
     (j < j' < length E)%nat →
     matmul E r j = matmul E r j' →
     row !! j' = Some (sub32 (Fin (1 # 1)) (matmul E r j'))) ∧
  compute_distance_matrix (kernel := exact)
    [[Fin (1 # 1); Fin (0 # 1)]; [Fin (1 # 1); Fin (0 # 1)];
     [Fin (0 # 1); Fin (1 # 1)]]
  = [[PInf; Fin (0 # 1); Fin (1 # 1)]; [PInf; Fin (0 # 1); Fin (1 # 1)];
     [Fin (1 # 1); Fin (1 # 1); PInf]].
Proof.
  split; [apply compute_distance_matrix_length|]. split; [|split].
  - intros r Hr.
    destruct (lookup_lt_is_Some_2 (unmasked E) r) as [row Hrow];
      [by rewrite unmasked_length|].
    assert (row ≠ []) as Hne.
    { intros ->. apply unmasked_row_length in Hrow. simpl in Hrow. lia. }
    pose proof (np_argmin_first_min _ Hne) as Hfm.
    exists row, (np_argmin row).
    split; [by eapply unmasked_row_length|].
    split; [intros j Hj; by eapply unmasked_cell|].
    split; [done|]. split; [|split].
    + by rewrite compute_distance_matrix_lookup, Hrow.
    + apply list_lookup_insert_eq, Hfm.
    + intros c Hc. by apply list_lookup_insert_ne.
  - intros r j j' row Hrow [Hjj' Hj'] Heq.
    rewrite compute_distance_matrix_lookup in Hrow.
    destruct (unmasked E !! r) as [row0|] eqn:Hrow0; simplify_eq/=.
    assert (row0 ≠ []) as Hne.
    { intros ->. apply unmasked_row_length in Hrow0. simpl in Hrow0. lia. }
    destruct (np_argmin_first_min _ Hne) as (_ & _ & Hfirst).
    pose proof (unmasked_cell E r j row0 Hrow0 ltac:(lia)) as Hcj.
    pose proof (unmasked_cell E r j' row0 Hrow0 Hj') as Hcj'.
    assert (np_argmin row0 ≠ j') as Hm.
    { intros Hm. specialize (Hfirst j _ _ ltac:(lia) ltac:(by rewrite Hm) Hcj).
      rewrite Heq in Hfirst. by rewrite ExtFacts.np_le_refl in Hfirst. }
    unfold masked. by rewrite list_lookup_insert_ne.
  - reflexivity.
Qed.

End Kernel.

End DistanceFacts.

(** ** Float32 buffers *)

Module Float32Facts.

Lemma frombuffer_tobytes (a : list f32) : frombuffer (tobytes a) = Some a.
Proof.
  induction a as [|[b0 b1 b2 b3] a IH]; [done|].
  simpl. fold (tobytes a). by rewrite IH.
Qed.

End Float32Facts.

(** ** EmbeddingStore *)

Module CacheFacts.

Import Cache Float32Facts.

Lemma key_matches_true k r : key_matches k r = true ↔ row_key r = k.
Proof. unfold key_matches. by rewrite bool_decide_eq_true. Qed.

Lemma find_app_not {A} (f : A → bool) (l l' : list A) :
  Forall (fun x => f x = false) l → List.find f (l ++ l') = List.find f l'.
Proof.
  induction 1 as [|x l Hx _ IH]; simpl; [done|]. by rewrite Hx.
Qed.

Lemma find_app_split {A} (f : A → bool) (l l' : list A) :
  List.find f (l ++ l')
  = match List.find f l with Some x => Some x | None => List.find f l' end.
Proof.
  induction l as [|x l IH]; simpl; [done|]. by destruct (f x).
Qed.

Lemma find_filter_other {A} (f g : A → bool) (l : list A) :
  (∀ x, f x = true → g x = true) →
  List.find f (List.filter g l) = List.find f l.
Proof.
  intros Hfg. induction l as [|x l IH]; simpl; [done|].
  destruct (g x) eqn:Hg; simpl.
  - destruct (f x); [done | exact IH].
  - destruct (f x) eqn:Hf; [|exact IH].
    rewrite (Hfg _ Hf) in Hg. done.
Qed.

Lemma filter_none {A} (f : A → bool) (l : list A) :
  List.filter f (List.filter (fun x => negb (f x)) l) = [].
Proof.
  induction l as [|x l IH]; simpl; [done|].
  destruct (f x) eqn:Hf; simpl; [done|]. by rewrite Hf.
Qed.

(** After [INSERT OR REPLACE] the key selects the new row. *)
Lemma select_insert_same (d : db) (k : key) blob now :
  select_one (insert_or_replace d k blob now) k
  = Some (Row (last_id d + 1) k.1.1 k.1.2 k.2 blob now).
Proof.
  unfold select_one, insert_or_replace. simpl.
  rewrite find_app_not.
  - simpl. destruct k as [[i h] t]. simpl.
    unfold key_matches, row_key. simpl. by rewrite bool_decide_eq_true_2.
  - apply Forall_forall. intros r Hr.
    apply list_elem_of_In, filter_In in Hr as [_ Hr].
    by apply negb_true_iff.
Qed.

(** Every other key selects what it selected before. *)
Lemma select_insert_other (d : db) (k k' : key) blob now :
  k' ≠ k →
  select_one (insert_or_replace d k blob now) k' = select_one d k'.
Proof.
  intros Hne. unfold select_one, insert_or_replace. simpl.
  rewrite find_app_split, find_filter_other.
  - destruct (List.find (key_matches k') (rows d)); [done|]. simpl.
    destruct k as [[i h] t]. unfold key_matches, row_key. simpl.
    by rewrite bool_decide_eq_false_2.
  - intros r Hr. apply key_matches_true in Hr. apply negb_true_iff.
    unfold key_matches. apply bool_decide_eq_false_2. congruence.
Qed.

(** The new row is the only one under its key. *)
Lemma insert_one_row (d : db) (k : key) blob now :
  List.filter (key_matches k) (rows (insert_or_replace d k blob now))
  = [Row (last_id d + 1) k.1.1 k.1.2 k.2 blob now].
Proof.
  unfold insert_or_replace. simpl. rewrite List.filter_app, filter_none. simpl.
  destruct k as [[i h] t]. unfold key_matches, row_key. simpl.
  by rewrite bool_decide_eq_true_2.
Qed.

Lemma NoDup_fmap_filter {A B} (f : A → B) (g : A → bool) (l : list A) :
  NoDup (map f l) → NoDup (map f (List.filter g l)).
Proof.
  induction l as [|x l IH]; simpl; [done|].
  intros [Hx Hl]%NoDup_cons. destruct (g x); simpl; [|by apply IH].
  apply NoDup_cons. split; [|by apply IH].
  intros Hin. apply Hx. apply list_elem_of_fmap in Hin as (y & -> & Hy).
  apply list_elem_of_fmap. exists y. split; [done|].
  apply list_elem_of_In. apply list_elem_of_In in Hy.
  by apply filter_In in Hy as [? _].
Qed.

(** [INSERT OR REPLACE] keeps the unique index. *)
Lemma insert_unique (d : db) (k : key) blob now :
  unique d → unique (insert_or_replace d k blob now).
Proof.
  unfold unique, insert_or_replace. simpl. intros Hd.
  rewrite map_app. apply NoDup_app. split; [by apply NoDup_fmap_filter|].
  split; [|apply NoDup_singleton].
  intros x Hx Hx'. simpl in Hx'. apply list_elem_of_singleton in Hx'.
  apply list_elem_of_fmap in Hx as (r & -> & Hr).
  apply list_elem_of_In, filter_In in Hr as [_ Hr].
  apply negb_true_iff in Hr. unfold key_matches in Hr.
  apply bool_decide_eq_false in Hr. apply Hr. rewrite Hx'.
  by destruct k as [[i h] t].
Qed.

Lemma insert_blobs_ok (d : db) (k : key) (a : list f32) now :
  blobs_ok d = true → blobs_ok (insert_or_replace d k (tobytes a) now) = true.
Proof.
  unfold blobs_ok, insert_or_replace. simpl. intros Hd.
  rewrite forallb_app. apply andb_true_iff. split.
  - rewrite forallb_forall in Hd. apply forallb_forall.
    intros r Hr. apply filter_In in Hr as [Hr _]. by apply Hd.
  - simpl. rewrite frombuffer_tobytes. by rewrite bool_decide_eq_true_2.
Qed.


Section Store.

Context {ndarray : Type}.
Variable astype_float32 : ndarray → option (list f32).

(** C5. Cache round trip.  Once the bbox has its four coordinates, the
    vector casts to float32 and the image id is one SQLite takes (a 64-bit
    integer), [store_embedding] followed by [get_embedding] with the same
    image id, bbox and variant returns exactly the float32 cast of the
    vector; the stored row is the only one under its key, the unique index
    is kept, and other keys are read as before. *)
Theorem store_then_get (d : db) (image_id : Z) (bbox : list Q)
  (embedding_type : string) (v : ndarray) (now : Z) (h : string)
  (a : list f32) :
  bbox_to_hash bbox = Some h →
  astype_float32 v = Some a →
  int64 image_id = true →
  ∃ d',
    store_embedding astype_float32 d image_id bbox embedding_type v now
      = (d', Some tt) ∧
    get_embedding d' image_id bbox embedding_type = Some (Some a) ∧
    length (List.filter (key_matches (image_id, h, embedding_type)) (rows d'))
      = 1%nat ∧
    (unique d → unique d') ∧
    (∀ k, k ≠ (image_id, h, embedding_type) → select_one d' k = select_one d k).
Proof.
  intros Hh Ha Hid. unfold store_embedding. rewrite Hh, Ha, Hid.
  exists (insert_or_replace d (image_id, h, embedding_type) (tobytes a) now).
  split; [done|].
  split; [|split; [|split]].
  - unfold get_embedding. rewrite Hh, Hid. simpl.
    rewrite select_insert_same. simpl. by rewrite frombuffer_tobytes.
  - by rewrite insert_one_row.
  - apply insert_unique.
  - intros k Hk. by apply select_insert_other.
Qed.

Lemma insert_all_durable (items : list (Z * list Q * ndarray)) c ty now :
  durable (insert_all astype_float32 c items ty now).1 = durable c.
Proof.
  revert c. induction items as [|[[i b] v] items IH]; intros c; simpl; [done|].
  destruct (bbox_to_hash b); [|done].
  destruct (astype_float32 v); [|done].
  destruct (int64 i); [|done].
  by rewrite IH.
Qed.

Lemma insert_all_working (items : list (Z * list Q * ndarray)) c ty now :
  match apply_all astype_float32 (working c) items ty now with
  | Some w => insert_all astype_float32 c items ty now
              = (Conn (durable c) w, true)
  | None => (insert_all astype_float32 c items ty now).2 = false
  end.
Proof.
  unfold apply_all.
  revert c. induction items as [|[[i b] v] items IH]; intros c; simpl.
  - by destruct c.
  - destruct (bbox_to_hash b); simpl; [|done].
    destruct (astype_float32 v); simpl; [|done].
    destruct (int64 i); simpl; [|done].
    apply (IH (execute_insert c _ _ _)).
Qed.

(** The batch store either applies every insert or leaves the file as it
    found it. *)
Lemma store_embeddings_batch_eq (d : db)
  (items : list (Z * list Q * ndarray)) (embedding_type : string) (now : Z) :
  store_embeddings_batch astype_float32 d items embedding_type now
  = match apply_all astype_float32 d items embedding_type now with
    | Some d' => (d', Some tt)
    | None => (d, None)
    end.
Proof.
  unfold store_embeddings_batch. destruct items as [|x items]; [done|].
  pose proof (insert_all_working (x :: items) (connect d) embedding_type now)
    as Hw.
  pose proof (insert_all_durable (x :: items) (connect d) embedding_type now)
    as Hd.
  change (working (connect d)) with d in Hw.
  destruct (apply_all astype_float32 d (x :: items) embedding_type now) as [w|].
  - by rewrite Hw.
  - destruct (insert_all _ _ _ _ _) as [c fin]. simpl in *. subst fin.
    unfold close. by rewrite Hd.
Qed.

(** C7, as the code has it.  One call of [store_embeddings_batch] runs its
    statements in a single transaction committed once after the loop: when
    every entry is well formed all of them are written, and when any entry
    raises the connection is closed without a commit and the file is left
    exactly as it was, so that an error never comes with a changed file. *)
Theorem store_embeddings_batch_all_or_nothing (d : db)
  (items : list (Z * list Q * ndarray)) (embedding_type : string) (now : Z) :
  store_embeddings_batch astype_float32 d items embedding_type now
  = match apply_all astype_float32 d items embedding_type now with
    | Some d' => (d', Some tt)
    | None => (d, None)
    end
  ∧ ∀ d', store_embeddings_batch astype_float32 d items embedding_type now
          = (d', None) → d' = d.
Proof.
  split; [apply store_embeddings_batch_eq|].
  intros d'. rewrite store_embeddings_batch_eq.
  destruct (apply_all astype_float32 d items embedding_type now);
    by intros [= <-].
Qed.

Lemma apply_all_unique d items ty now d' :
  apply_all astype_float32 d items ty now = Some d' → unique d → unique d'.
Proof.
  unfold apply_all. revert d. induction items as [|x items IH]; intros d; simpl.
  - by intros [= ->].
  - destruct (bbox_to_hash x.1.2); simpl; [|done].
    destruct (astype_float32 x.2); simpl; [|done].
    destruct (int64 x.1.1); simpl; [|done].
    intros H Hd. eapply IH; [done|]. by apply insert_unique.
Qed.

Lemma apply_all_blobs_ok d items ty now d' :
  apply_all astype_float32 d items ty now = Some d' → blobs_ok d = true → blobs_ok d' = true.
Proof.
  unfold apply_all. revert d. induction items as [|x items IH]; intros d; simpl.
  - by intros [= ->].
  - destruct (bbox_to_hash x.1.2); simpl; [|done].
    destruct (astype_float32 x.2); simpl; [|done].
    destruct (int64 x.1.1); simpl; [|done].
    intros H Hd. eapply IH; [done|]. by apply insert_blobs_ok.
Qed.

End Store.

(** A store and a vector that meet the hypotheses of C5. *)
Lemma store_then_get_witness :
  bbox_to_hash Fixture.box = Some "0_0_10_10" ∧
  Some Fixture.east = Some Fixture.east ∧
  int64 1 = true ∧
  ∃ d',
    store_embedding Some empty 1 Fixture.box Config.RAW_EMBEDDING_TYPE
                    Fixture.east 5 = (d', Some tt) ∧
    get_embedding d' 1 Fixture.box Config.RAW_EMBEDDING_TYPE
    = Some (Some Fixture.east) ∧
    length (List.filter
              (key_matches (1, "0_0_10_10", Config.RAW_EMBEDDING_TYPE))
              (rows d')) = 1%nat ∧
    (unique empty → unique d') ∧
    (∀ k, k ≠ (1, "0_0_10_10", Config.RAW_EMBEDDING_TYPE) →
          select_one d' k = select_one empty k).
Proof.
  split; [reflexivity|]. split; [reflexivity|]. split; [reflexivity|].
  apply (store_then_get Some empty 1 Fixture.box Config.RAW_EMBEDDING_TYPE
           Fixture.east 5 "0_0_10_10" Fixture.east); reflexivity.
Defined.

(** C7, as the claim words it, fails: a batch whose second entry raises (its
    bbox has one coordinate) leaves nothing of its first entry in the file,
    and no call of the batch store ends in an error with the file changed,
    whatever the array type, the cast, the starting file and the batch. *)
Lemma batch_store_never_partial :
  store_embeddings_batch Some empty
    [(1, [0 # 1; 0 # 1; 10 # 1; 10 # 1], [F32 Byte.x00 Byte.x00 Byte.x80 Byte.x3f]);
     (2, [0 # 1], [F32 Byte.x00 Byte.x00 Byte.x80 Byte.x3f])]
    Config.RAW_EMBEDDING_TYPE 5
  = (empty, None) ∧
  ¬ ∃ (ndarray : Type) (astype_float32 : ndarray → option (list f32))
      (d d' : db) (items : list (Z * list Q * ndarray))
      (embedding_type : string) (now : Z),
      store_embeddings_batch astype_float32 d items embedding_type now
        = (d', None)
      ∧ d' ≠ d.
Proof.
  split; [reflexivity|].
  intros (ndarray & astype & d & d' & items & ty & now & Hcall & Hne).
  rewrite store_embeddings_batch_eq in Hcall.
  destruct (apply_all astype d items ty now); simplify_eq.
Qed.

(** Truncation and floor agree from zero upwards. *)
Lemma int_of_floor (x : Q) : Qle (0 # 1) x → int_of x = Qfloor x.
Proof.
  destruct x as [n p]. unfold Qle, int_of, Qfloor. simpl. intros Hn.
  apply Z.quot_div_nonneg; lia.
Qed.

(** C6. The hash of a bbox is its four coordinates, each truncated to an
    integer, joined by underscores; boxes that truncate to the same integers
    collide, in particular [1.2, 3.7, 4.1, 5.9] and [1, 3, 4, 5]; truncation
    is neither rounding (3.7 gives 3) nor floor: a bbox with a negative
    fractional coordinate hashes differently from its floor, while the two
    agree on boxes without negative coordinates. *)
Theorem bbox_to_hash_truncates :
  (∀ x1 y1 x2 y2 rest,
     bbox_to_hash (x1 :: y1 :: x2 :: y2 :: rest)
     = Some (pretty (int_of x1) +:+ "_" +:+ pretty (int_of y1) +:+ "_"
             +:+ pretty (int_of x2) +:+ "_" +:+ pretty (int_of y2))) ∧
  (∀ b b' : list Q,
     length b = 4%nat → int_of <$> b = int_of <$> b' →
     bbox_to_hash b = bbox_to_hash b') ∧
  bbox_to_hash [12 # 10; 37 # 10; 41 # 10; 59 # 10] = Some "1_3_4_5" ∧
  bbox_to_hash [1 # 1; 3 # 1; 4 # 1; 5 # 1] = Some "1_3_4_5" ∧
  (∃ b : list Q,
     length b = 4%nat ∧
     bbox_to_hash b ≠ bbox_to_hash ((fun x => inject_Z (Qfloor x)) <$> b)) ∧
  (∀ b : list Q,
     Forall (Qle (0 # 1)) b →
     bbox_to_hash b = bbox_to_hash ((fun x => inject_Z (Qfloor x)) <$> b)).
Proof.
  split; [done|]. split; [|split; [done|split; [done|split]]].
  - intros b b' Hb Hbb'.
    assert (length b' = 4%nat) as Hb'.
    { rewrite <- Hb. apply (f_equal length) in Hbb'.
      by rewrite !length_fmap in Hbb'. }
    destruct b as [|x1 [|y1 [|x2 [|y2 [|]]]]]; try done.
    destruct b' as [|x1' [|y1' [|x2' [|y2' [|]]]]]; try done.
    injection Hbb' as E1 E2 E3 E4. unfold bbox_to_hash. simpl.
    by rewrite E1, E2, E3, E4.
  - exists [-15 # 10; 37 # 10; 41 # 10; 59 # 10]. split; [done|].
    vm_compute. discriminate.
  - intros b Hb.
    unfold bbox_to_hash.
    assert (∀ i, ((λ x : Q, inject_Z (Qfloor x)) <$> b) !! i
                 = (λ x : Q, inject_Z (Qfloor x)) <$> b !! i) as Hl
      by (intros; apply list_lookup_fmap).
    rewrite !Hl.
    assert (∀ i x, b !! i = Some x → int_of (inject_Z (Qfloor x)) = int_of x)
      as Hx.
    { intros i x Hi. rewrite Forall_lookup in Hb. specialize (Hb _ _ Hi).
      rewrite (int_of_floor x Hb). unfold int_of, inject_Z. simpl.
      apply Z.quot_1_r. }
    destruct (b !! 0%nat) as [x1|] eqn:E1; simpl; [|done].
    destruct (b !! 1%nat) as [y1|] eqn:E2; simpl; [|done].
    destruct (b !! 2%nat) as [x2|] eqn:E3; simpl; [|done].
    destruct (b !! 3%nat) as [y2|] eqn:E4; simpl; [|done].
    by rewrite (Hx _ _ E1), (Hx _ _ E2), (Hx _ _ E3), (Hx _ _ E4).
Qed.

End CacheFacts.

(** ** IdentityClusterer *)

Module ClusterFacts.

Import Cluster Views.

(** *** Array primitives *)

Lemma elem_of_where_from (mask : list bool) (i j : nat) :
  j ∈ where_from i mask ↔ ∃ k, j = (i + k)%nat ∧ mask !! k = Some true.
Proof.
  revert i. induction mask as [|b mask IH]; intros i; simpl.
  - split; [by intros ?%elem_of_nil | by intros (k & _ & ?)].
  - assert (j ∈ where_from (S i) mask ↔
            ∃ k, j = (i + S k)%nat ∧ mask !! k = Some true) as IH'.
    { rewrite IH. split; intros (k & -> & Hk); exists k; split; [lia|done|lia|done]. }
    destruct b.
    + rewrite elem_of_cons, IH'. split.
      * intros [->|(k & -> & Hk)]; [exists 0%nat | exists (S k)]; split;
          [lia|done|lia|done].
      * intros ([|k] & -> & Hk); [left; lia | right; eauto].
    + rewrite IH'. split.
      * intros (k & -> & Hk). exists (S k). done.
      * intros ([|k] & -> & Hk); [done | eauto].
Qed.

Lemma elem_of_np_where (mask : list bool) (j : nat) :
  j ∈ np_where mask ↔ mask !! j = Some true.
Proof.
  unfold np_where. rewrite elem_of_where_from. split.
  - by intros (k & -> & Hk).
  - intros Hj. by exists j.
Qed.

Lemma where_from_lt (mask : list bool) (i j : nat) :
  j ∈ where_from i mask → (i ≤ j < i + length mask)%nat.
Proof.
  intros (k & -> & Hk)%elem_of_where_from.
  apply lookup_lt_Some in Hk. lia.
Qed.

Lemma where_from_NoDup (mask : list bool) (i : nat) : NoDup (where_from i mask).
Proof.
  revert i. induction mask as [|b mask IH]; intros i; simpl.
  - apply NoDup_nil_2.
  - destruct b; [|apply IH]. apply NoDup_cons. split; [|apply IH].
    intros H%where_from_lt. lia.
Qed.

(** A mask read back through [np.where] selects what [filter] selects. *)
Lemma gather_where_from {A} (f : A → bool) (pre l : list A) :
  gather (pre ++ l) (where_from (length pre) (map f l))
  = Some (List.filter f l).
Proof.
  revert pre. induction l as [|x l IH]; intros pre; simpl; [done|].
  assert (gather (pre ++ x :: l) (where_from (S (length pre)) (map f l))
          = Some (List.filter f l)) as IH'.
  { specialize (IH (pre ++ [x])). rewrite <- app_assoc in IH. simpl in IH.
    rewrite length_app in IH. simpl in IH.
    by replace (length pre + 1)%nat with (S (length pre)) in IH by lia. }
  unfold gather in *. destruct (f x); simpl; [|exact IH'].
  rewrite IH'. simpl.
  rewrite lookup_app_r by done.
  by replace (length pre - length pre)%nat with 0%nat by lia.
Qed.

Lemma gather_np_where {A} (f : A → bool) (l : list A) :
  gather l (np_where (map f l)) = Some (List.filter f l).
Proof. apply (gather_where_from f [] l). Qed.

Lemma gather_in_range (a : list Z) (idx : list nat) :
  Forall (fun i => (i < length a)%nat) idx →
  gather a idx = Some ((fun i => default (-1) (a !! i)) <$> idx).
Proof.
  intros Hidx. unfold gather. apply mapM_Some.
  induction Hidx as [|i idx Hi _ IH]; simpl; constructor; [|done].
  apply lookup_lt_is_Some in Hi as [x Hx]. by rewrite Hx.
Qed.

Lemma scatter_length (a : list Z) (idx : list nat) (v : Z) :
  length (scatter a idx v) = length a.
Proof.
  unfold scatter. revert a. induction idx as [|i idx IH]; intros a; simpl;
    [done|]. by rewrite IH, length_insert.
Qed.

Lemma scatter_lookup (a : list Z) (idx : list nat) (v : Z) (i : nat) :
  (i < length a)%nat →
  scatter a idx v !! i
  = Some (if bool_decide (i ∈ idx) then v else default (-1) (a !! i)).
Proof.
  unfold scatter. revert a. induction idx as [|j idx IH]; intros a Hi.
  - simpl. apply lookup_lt_is_Some in Hi as [x Hx]. by rewrite Hx.
  - cbn [foldl]. rewrite IH by (by rewrite length_insert).
    destruct (decide (i = j)) as [->|Hij].
    + rewrite list_lookup_insert_eq by done.
      rewrite (bool_decide_eq_true_2 (j ∈ j :: idx)) by apply list_elem_of_here.
      by case_bool_decide.
    + rewrite list_lookup_insert_ne by done.
      f_equal.
      case_bool_decide as H1; case_bool_decide as H2; try done.
      * exfalso. apply H2. by apply list_elem_of_further.
      * exfalso. apply elem_of_cons in H2 as [?|?]; done.
Qed.

Lemma foldl_max_spec (l : list Z) (x : Z) :
  (foldl Z.max x l = x ∨ foldl Z.max x l ∈ l) ∧
  x ≤ foldl Z.max x l ∧ Forall (fun y => y ≤ foldl Z.max x l) l.
Proof.
  revert x. induction l as [|y l IH]; intros x; simpl.
  - split; [by left|]. split; [lia | constructor].
  - destruct (IH (Z.max x y)) as (Hin & Hle & Hall).
    split; [|split].
    + destruct Hin as [Heq|Hin].
      * rewrite Heq. destruct (Z.max_spec x y) as [[_ ->]|[_ ->]];
          [right; apply list_elem_of_here | by left].
      * right. by apply list_elem_of_further.
    + lia.
    + constructor; [lia | done].
Qed.

Lemma foldl_min_spec (l : list Z) (x : Z) :
  (foldl Z.min x l = x ∨ foldl Z.min x l ∈ l) ∧
  foldl Z.min x l ≤ x ∧ Forall (fun y => foldl Z.min x l ≤ y) l.
Proof.
  revert x. induction l as [|y l IH]; intros x; simpl.
  - split; [by left|]. split; [lia | constructor].
  - destruct (IH (Z.min x y)) as (Hin & Hle & Hall).
    split; [|split].
    + destruct Hin as [Heq|Hin].
      * rewrite Heq. destruct (Z.min_spec x y) as [[_ ->]|[_ ->]];
          [by left | right; apply list_elem_of_here].
      * right. by apply list_elem_of_further.
    + lia.
    + constructor; [lia | done].
Qed.

Lemma np_max_Z_spec (a : list Z) (m : Z) :
  np_max_Z a = Some m → m ∈ a ∧ Forall (fun y => y ≤ m) a.
Proof.
  destruct a as [|x l]; [done|]. simpl. intros [= <-].
  destruct (foldl_max_spec l x) as (Hin & Hle & Hall).
  split; [|by constructor].
  destruct Hin as [->|Hin];
    [apply list_elem_of_here | by apply list_elem_of_further].
Qed.

Lemma np_min_Z_spec (a : list Z) (m : Z) :
  np_min_Z a = Some m → m ∈ a ∧ Forall (fun y => m ≤ y) a.
Proof.
  destruct a as [|x l]; [done|]. simpl. intros [= <-].
  destruct (foldl_min_spec l x) as (Hin & Hle & Hall).
  split; [|by constructor].
  destruct Hin as [->|Hin];
    [apply list_elem_of_here | by apply list_elem_of_further].
Qed.

Lemma np_max_Z_is_Some (a : list Z) : a ≠ [] → is_Some (np_max_Z a).
Proof. destruct a; [done | by eexists]. Qed.

Lemma np_min_Z_is_Some (a : list Z) : a ≠ [] → is_Some (np_min_Z a).
Proof. destruct a; [done | by eexists]. Qed.

(** *** One row of the loop against the three branches of the specification *)

Import ClusterSpec.

Lemma bool_decide_candidate eps row m (j : nat) :
  bool_decide (j ∈ np_where (candidates_bool eps row m)) = candidate eps row m j.
Proof.
  assert (j ∈ np_where (candidates_bool eps row m)
          ↔ candidate eps row m j = true) as H.
  { rewrite elem_of_np_where. unfold candidates_bool, candidate.
    rewrite list_lookup_fmap. destruct (row !! j); simpl; [|done].
    split; [by intros [= ->] | by intros ->]. }
  destruct (candidate eps row m j).
  - apply bool_decide_eq_true_2. by apply H.
  - apply bool_decide_eq_false_2. intros H'. by apply H in H'.
Qed.

Lemma candidate_lt eps row m (j : nat) :
  candidate eps row m j = true → (j < length row)%nat.
Proof.
  unfold candidate. destruct (row !! j) eqn:E; [|done].
  intros _. by eapply lookup_lt_Some.
Qed.

Lemma key_at_lookup (keys : list Z) (i : nat) :
  (i < length keys)%nat → keys !! i = Some (key_at keys i).
Proof.
  intros [x Hx]%lookup_lt_is_Some. unfold key_at. by rewrite Hx.
Qed.

Lemma key_at_insert (keys : list Z) (r i : nat) (v : Z) :
  (r < length keys)%nat →
  key_at (<[r := v]> keys) i = if bool_decide (i = r) then v else key_at keys i.
Proof.
  intros Hr. unfold key_at. case_bool_decide as H.
  - subst. by rewrite list_lookup_insert_eq.
  - by rewrite list_lookup_insert_ne.
Qed.

Lemma forallb_false_existsb {A} (f : A → bool) (l : list A) :
  forallb f l = false → existsb (fun x => negb (f x)) l = true.
Proof.
  induction l as [|x l IH]; simpl; [done|].
  destruct (f x); simpl; [exact IH | done].
Qed.

Lemma existsb_filter_nonempty {A} (f : A → bool) (l : list A) :
  existsb f l = true → List.filter f l ≠ [].
Proof.
  induction l as [|x l IH]; simpl; [done|].
  destruct (f x); simpl; [done | exact IH].
Qed.

Lemma bool_decide_filter {A} `{EqDecision A} (f : A → bool) (l : list A)
  (i : A) :
  bool_decide (i ∈ List.filter f l) = bool_decide (i ∈ l) && f i.
Proof.
  apply eq_true_iff_eq. rewrite andb_true_iff, !bool_decide_eq_true.
  rewrite !list_elem_of_In. apply filter_In.
Qed.

Lemma step_refines (eps : Q) (keys : list Z) (r : nat) (row : list ext) :
  (r < length keys)%nat → (length row ≤ length keys)%nat → row ≠ [] →
  ∃ min_dist b keys',
    np_min row = Some min_dist ∧
    chosen eps row min_dist keys r b ∧
    step eps keys r row = Some keys' ∧
    length keys' = length keys ∧
    ∀ i, (i < length keys)%nat →
         keys' !! i = Some (key_after eps row min_dist keys r b i).
Proof.
  intros Hr Hrow Hne.
  destruct (np_min row) as [md|] eqn:Hmin; [|by destruct row].
  set (cand := np_where (candidates_bool eps row md)).
  assert (Forall (fun i => (i < length keys)%nat) cand) as Hcand.
  { apply Forall_forall. intros j Hj.
    apply (bool_decide_eq_true_2 _) in Hj. fold cand in Hj. unfold cand in Hj.
    rewrite bool_decide_candidate in Hj. apply candidate_lt in Hj. lia. }
  assert (∀ j, bool_decide (j ∈ cand) = candidate eps row md j) as Hbd
    by (intros; apply bool_decide_candidate).
  pose proof (gather_in_range keys cand Hcand) as Hg.
  fold (key_at keys) in Hg.
  destruct (np_max_Z_is_Some keys) as [top Htop].
  { intros ->. simpl in Hr. lia. }
  pose proof (key_at_lookup keys r Hr) as Hkr.
  exists md. unfold step. rewrite Hmin. simpl. fold cand.
  rewrite Hg, Htop, Hkr. simpl.
  destruct (unassigned (key_at keys r)) eqn:Hun; simpl.
  2:{ (* the row already has a key *)
    exists (Propagate (key_at keys r)). eexists.
    split; [done|]. split; [|split; [done|split]].
    - split; [done|]. unfold unassigned in Hun. lia.
    - apply scatter_length.
    - intros i Hi. rewrite scatter_lookup by done. simpl.
      rewrite Hbd. done. }
  assert (key_at keys r = -1) as Hr1 by (unfold unassigned in Hun; lia).
  destruct (forallb unassigned (key_at keys <$> cand)) eqn:Hall.
  - (* every candidate is unassigned: a new cluster *)
    exists (Fresh (1 + top)). eexists.
    split; [done|]. split; [|split; [done|split]].
    + split; [by rewrite Hkr, Hr1|]. split.
      2:{ exists top. split; [|done].
          apply np_max_Z_spec in Htop as [Hin Hall'].
          split; [done|]. by apply Forall_forall. }
      intros j Hj. rewrite <- Hbd in Hj. apply bool_decide_eq_true_1 in Hj.
      rewrite forallb_forall in Hall.
      assert (unassigned (key_at keys j) = true) as Hu.
      { apply Hall. apply list_elem_of_In, list_elem_of_fmap. by exists j. }
      rewrite Forall_forall in Hcand.
      rewrite (key_at_lookup keys j) by auto.
      f_equal. unfold unassigned in Hu. lia.
    + by rewrite scatter_length, length_insert.
    + intros i Hi. rewrite scatter_lookup by (by rewrite length_insert).
      fold (key_at (<[r:=top + 1]> keys) i).
      rewrite key_at_insert by done. simpl. rewrite Hbd.
      replace (top + 1) with (1 + top) by lia.
      destruct (candidate eps row md i), (bool_decide (i = r)); done.
  - (* some candidate has a key: join the least one *)
    pose proof (forallb_false_existsb _ _ Hall) as Hex. rewrite Hex.
    destruct (np_min_Z_is_Some _ (existsb_filter_nonempty _ _ Hex))
      as [mpk Hmpk].
    rewrite Hmpk. simpl.
    rewrite <- list_fmap_compose.
    assert (gather cand
              (np_where ((λ k : Z, negb (k =? mpk)) ∘ key_at keys <$> cand))
            = Some (List.filter (λ j, negb (key_at keys j =? mpk)) cand)) as ->
      by apply (gather_np_where (λ j, negb (key_at keys j =? mpk)) cand).
    simpl.
    apply np_min_Z_spec in Hmpk as [Hin Hleast].
    apply list_elem_of_In, filter_In in Hin as [Hin Hpos].
    apply list_elem_of_In, list_elem_of_fmap in Hin as (j0 & Hj0 & Hj0c).
    exists (Join mpk). eexists.
    split; [done|]. split; [|split; [done|split]].
    + split; [by rewrite Hkr, Hr1|]. split; [|split; [|split]].
      * intros Hallu. specialize (Hallu j0).
        rewrite <- Hbd in Hallu.
        specialize (Hallu (bool_decide_eq_true_2 _ Hj0c)).
        rewrite Forall_forall in Hcand.
        rewrite (key_at_lookup keys j0) in Hallu by auto.
        unfold unassigned in Hpos. simplify_eq. lia.
      * unfold unassigned in Hpos. lia.
      * exists j0. rewrite <- Hbd. split; [by apply bool_decide_eq_true_2|].
        rewrite Forall_forall in Hcand.
        rewrite (key_at_lookup keys j0) by auto. by rewrite Hj0.
      * intros j k' Hj Hk' Hk'1. rewrite <- Hbd in Hj.
        apply bool_decide_eq_true_1 in Hj.
        rewrite Forall_forall in Hleast. apply Hleast.
        apply list_elem_of_In, filter_In. split.
        -- apply list_elem_of_In, list_elem_of_fmap. exists j. split; [|done].
           unfold key_at. by rewrite Hk'.
        -- unfold unassigned. lia.
    + by rewrite scatter_length, length_insert.
    + intros i Hi. rewrite scatter_lookup by (by rewrite length_insert).
      fold (key_at (<[r:=mpk]> keys) i).
      rewrite key_at_insert by done. simpl.
      f_equal.
      destruct (bool_decide (i = r)); [by case_bool_decide|].
      by rewrite bool_decide_filter, Hbd.
Qed.

Lemma chosen_key_nonneg eps row md keys r b :
  Forall (fun k => -1 ≤ k) keys →
  chosen eps row md keys r b → 0 ≤ branch_key b.
Proof.
  rewrite Forall_forall. intros Hk.
  destruct b as [k|k|k]; simpl.
  - intros [Hr Hne]. apply list_elem_of_lookup_2, Hk in Hr. lia.
  - intros (_ & _ & top & [Hin _] & ->). apply Hk in Hin. lia.
  - intros (_ & _ & Hne & (j & _ & Hj) & _).
    apply list_elem_of_lookup_2, Hk in Hj. lia.
Qed.

Lemma key_after_cases eps row md keys r b i :
  key_after eps row md keys r b i = branch_key b
  ∨ key_after eps row md keys r b i = key_at keys i.
Proof.
  destruct b; simpl;
    repeat match goal with |- context [if ?c then _ else _] => destruct c end;
    auto.
Qed.

Lemma key_after_row eps row md keys r b :
  chosen eps row md keys r b →
  key_after eps row md keys r b r = branch_key b.
Proof.
  destruct b as [k|k|k]; simpl.
  - intros [Hr _]. unfold key_at. rewrite Hr. by destruct (candidate _ _ _ _).
  - intros _. by rewrite bool_decide_eq_true_2.
  - intros _. by rewrite bool_decide_eq_true_2.
Qed.

(** [np.min] returns an element of the row that is least in NumPy's order. *)
Lemma foldl_np_minimum_spec (l : list ext) (x : ext) :
  (foldl np_minimum x l = x ∨ foldl np_minimum x l ∈ l) ∧
  np_le (foldl np_minimum x l) x = true ∧
  Forall (fun y => np_le (foldl np_minimum x l) y = true) l.
Proof.
  revert x. induction l as [|y l IH]; intros x; simpl.
  - split; [by left|]. split; [apply ExtFacts.np_le_refl | constructor].
  - destruct (IH (np_minimum x y)) as (Hin & Hle & Hall).
    assert (np_le (np_minimum x y) x = true ∧ np_le (np_minimum x y) y = true
            ∧ (np_minimum x y = x ∨ np_minimum x y = y)) as (Hx & Hy & Hxy).
    { unfold np_minimum. destruct (is_nan x) eqn:Hnx; simpl.
      - destruct x; try done. by auto.
      - destruct (ltb x y) eqn:Hlt.
        + split; [apply ExtFacts.np_le_refl|]. split; [|by left].
          unfold np_le. by rewrite (ExtFacts.ltb_leb _ _ Hlt), orb_true_r.
        + split; [|split; [apply ExtFacts.np_le_refl | by right]].
          unfold np_le. destruct (is_nan y) eqn:Hny; [done|]. simpl.
          by apply ExtFacts.ltb_false_leb. }
    split; [|split].
    + destruct Hin as [Heq|Hin]; [|right; by apply list_elem_of_further].
      rewrite Heq. destruct Hxy as [->| ->];
        [by left | right; apply list_elem_of_here].
    + by eapply ExtFacts.np_le_trans.
    + constructor; [by eapply ExtFacts.np_le_trans | done].
Qed.

Lemma np_min_spec (row : list ext) (m : ext) :
  np_min row = Some m →
  m ∈ row ∧ Forall (fun y => np_le m y = true) row.
Proof.
  destruct row as [|x l]; [done|]. simpl. intros [= <-].
  destruct (foldl_np_minimum_spec l x) as (Hin & Hle & Hall).
  split; [|by constructor].
  destruct Hin as [->|Hin];
    [apply list_elem_of_here | by apply list_elem_of_further].
Qed.

(** *** The row loop *)

Lemma rows_from_trace (eps : Q) (N : nat) (rows : list (list ext)) :
  ∀ (r : nat) (keys : list Z),
  length keys = N → (r + length rows = N)%nat →
  Forall (fun row => length row = N) rows →
  ∃ trace : list (list Z),
    length trace = S (length rows) ∧
    trace !! 0%nat = Some keys ∧
    rows_from eps r rows keys = trace !! length rows ∧
    ∀ k row, rows !! k = Some row →
      ∃ keys0 keys1 min_dist b,
        trace !! k = Some keys0 ∧ trace !! S k = Some keys1 ∧
        length keys0 = N ∧
        np_min row = Some min_dist ∧
        chosen eps row min_dist keys0 (r + k) b ∧
        step eps keys0 (r + k) row = Some keys1 ∧
        length keys1 = N ∧
        ∀ i, (i < N)%nat →
             keys1 !! i
             = Some (key_after eps row min_dist keys0 (r + k) b i).
Proof.
  induction rows as [|row rows IH]; intros r keys Hlen Hr Hsq.
  - exists [keys]. by repeat split.
  - apply Forall_cons in Hsq as [Hrow Hsq]. simpl in Hr.
    destruct (step_refines eps keys r row) as (md & b & keys' & Hmin & Hch
                                                & Hstep & Hlen' & Hkeys');
      [lia | lia | intros ->; simpl in *; lia |].
    destruct (IH (S r) keys') as (trace & Htl & Ht0 & Hres & Hall);
      [lia | lia | done |].
    exists (keys :: trace). split; [simpl; lia|]. split; [done|].
    split; [simpl; by rewrite Hstep|].
    intros [|k] row' Hk; simpl in Hk.
    + simplify_eq. exists keys, keys', md, b.
      replace (r + 0)%nat with r by lia.
      repeat split; try done; try lia.
    + destruct (Hall k row' Hk) as (k0 & k1 & md' & b' & ?).
      exists k0, k1, md', b'.
      by replace (r + S k)%nat with (S r + k)%nat by lia.
Qed.

(** The key arrays the loop goes through keep every key at [-1] or above,
    and row [r] leaves index [r], and every index assigned before, with a
    key that is not the sentinel. *)
Lemma rows_from_assigned (eps : Q) (N : nat) (rows : list (list ext)) :
  ∀ (r : nat) (keys : list Z),
  length keys = N → (r + length rows = N)%nat →
  Forall (fun row => length row = N) rows →
  Forall (fun k => -1 ≤ k) keys →
  (∀ i, (i < r)%nat → 0 ≤ key_at keys i) →
  ∃ keys', rows_from eps r rows keys = Some keys' ∧
           length keys' = N ∧ Forall (fun k => 0 ≤ k) keys'.
Proof.
  induction rows as [|row rows IH]; intros r keys Hlen Hr Hsq Hge Hdone.
  - exists keys. split; [done|]. split; [done|].
    apply Forall_lookup. intros i k Hi. simpl in Hr.
    specialize (Hdone i). unfold key_at in Hdone. rewrite Hi in Hdone.
    apply Hdone. apply lookup_lt_Some in Hi. lia.
  - apply Forall_cons in Hsq as [Hrow Hsq]. simpl in Hr.
    destruct (step_refines eps keys r row) as (md & b & keys' & Hmin & Hch
                                                & Hstep & Hlen' & Hkeys');
      [lia | lia | intros ->; simpl in *; lia |].
    pose proof (chosen_key_nonneg _ _ _ _ _ _ Hge Hch) as Hb.
    assert (∀ i, (i < N)%nat → key_at keys' i
                 = key_after eps row md keys r b i) as Hk.
    { intros i Hi. unfold key_at at 1. rewrite Hkeys' by lia. done. }
    simpl. rewrite Hstep. simpl. apply (IH (S r) keys'); [lia|lia|done| |].
    + apply Forall_lookup. intros i k Hi.
      assert (i < N)%nat as HiN by (apply lookup_lt_Some in Hi; lia).
      specialize (Hk i HiN). unfold key_at at 1 in Hk. rewrite Hi in Hk.
      simpl in Hk. subst k.
      destruct (key_after_cases eps row md keys r b i) as [-> | ->]; [lia|].
      rewrite Forall_lookup in Hge.
      destruct (lookup_lt_is_Some_2 keys i) as [x Hx]; [lia|].
      unfold key_at. rewrite Hx. simpl. eauto.
    + intros i Hi. rewrite Hk by lia.
      destruct (decide (i = r)) as [->|Hne].
      * by rewrite (key_after_row _ _ _ _ _ _ Hch).
      * destruct (key_after_cases eps row md keys r b i) as [-> | ->];
          [lia|]. apply Hdone. lia.
Qed.

(** *** The renumbering *)

Lemma elem_of_members (keys : list Z) (k : Z) (i : nat) :
  i ∈ members keys k ↔ keys !! i = Some k.
Proof.
  unfold members. rewrite elem_of_np_where, list_lookup_fmap.
  destruct (keys !! i) as [x|]; simpl; [|done].
  split; [intros [= H]; f_equal; lia | intros [= ->]; f_equal; lia].
Qed.

Lemma existsb_eqb_elem_of (keys : list Z) (k : Z) :
  existsb (fun x => x =? k) keys = true ↔ k ∈ keys.
Proof.
  rewrite existsb_exists. split.
  - intros (x & Hx & Hk). apply list_elem_of_In.
    by replace k with x by lia.
  - intros Hk. exists k. split; [by apply list_elem_of_In | lia].
Qed.

Lemma in_dict_false (aid : Z) (d : output_dict) :
  Forall (fun e => e.1 < aid) d → in_dict aid d = false.
Proof.
  unfold in_dict. induction 1 as [|e d He _ IH]; simpl; [done|].
  rewrite IH. rewrite orb_false_r. lia.
Qed.

Lemma compact_fold (keys ks : list Z) :
  ∀ (aid : Z) (d : output_dict),
  Forall (fun e => e.1 < aid) d →
  snd (foldl (compact_step keys) (aid, d) ks)
  = d ++ number_from keys aid (present keys ks).
Proof.
  induction ks as [|k ks IH]; intros aid d Hd; simpl.
  - by rewrite app_nil_r.
  - unfold present. simpl.
    destruct (existsb (fun x => x =? k) keys) eqn:Hk; simpl.
    + rewrite (in_dict_false _ _ Hd). simpl. rewrite IH.
      * by rewrite <- app_assoc.
      * apply Forall_app. split.
        -- eapply Forall_impl; [exact Hd|]. simpl. intros. lia.
        -- constructor; [simpl; lia | constructor].
    + by apply IH.
Qed.

Lemma number_from_lookup (keys : list Z) (ks : list Z) :
  ∀ (aid : Z) (p : nat),
  number_from keys aid ks !! p
  = (fun k => (aid + Z.of_nat p, members keys k)) <$> ks !! p.
Proof.
  induction ks as [|k ks IH]; intros aid p; simpl; [done|].
  destruct p as [|p]; simpl.
  - by rewrite Z.add_0_r.
  - rewrite IH. destruct (ks !! p); simpl; [|done].
    do 2 f_equal. lia.
Qed.

Lemma number_from_length (keys ks : list Z) (aid : Z) :
  length (number_from keys aid ks) = length ks.
Proof.
  revert aid. induction ks as [|k ks IH]; intros aid; simpl; [done|].
  by rewrite IH.
Qed.

Lemma number_from_fst (keys ks : list Z) (aid : Z) :
  (number_from keys aid ks).*1 = seqZ aid (Z.of_nat (length ks)).
Proof.
  revert aid. induction ks as [|k ks IH]; intros aid; [done|].
  cbn [number_from fmap list_fmap length]. rewrite IH.
  rewrite (seqZ_cons aid) by lia. simpl. do 2 f_equal; lia.
Qed.

(** A filtered increasing list is increasing. *)
Lemma increasing_filter (f : Z → bool) (l : list Z) :
  increasing l → increasing (List.filter f l).
Proof.
  induction l as [|a l IH]; intros Hl; simpl; [done|].
  assert (increasing l) as Hl'.
  { intros i j x y Hi Hj Hij. apply (Hl (S i) (S j)); [done|done|lia]. }
  destruct (f a); [|by apply IH].
  intros [|i] [|j] x y Hi Hj Hij; simpl in *; try lia.
  - simplify_eq.
    apply list_elem_of_lookup_2, list_elem_of_In, filter_In in Hj as [Hj _].
    apply list_elem_of_In, list_elem_of_lookup_1 in Hj as [j' Hj'].
    apply (Hl 0%nat (S j')); [done|done|lia].
  - apply (IH Hl' i j); [done|done|lia].
Qed.

Lemma increasing_seqZ (m n : Z) : increasing (seqZ m n).
Proof.
  intros i j x y [-> _]%lookup_seqZ [-> _]%lookup_seqZ Hij. lia.
Qed.

(** What [compact] returns, read against the key array. *)
Lemma compact_spec (keys : list Z) :
  keys ≠ [] →
  ∃ out : output_dict,
    compact keys = Some out ∧
    out.*1 = seqZ 0 (Z.of_nat (length out)) ∧
    (∀ a idxs, (a, idxs) ∈ out →
       ∃ k, k ∈ keys ∧ ∀ i, i ∈ idxs ↔ keys !! i = Some k) ∧
    (∀ i k, keys !! i = Some k → ∃ a idxs, (a, idxs) ∈ out ∧ i ∈ idxs) ∧
    (∀ a b idxa idxb i j ki kj,
       (a, idxa) ∈ out → (b, idxb) ∈ out → i ∈ idxa → j ∈ idxb →
       keys !! i = Some ki → keys !! j = Some kj → (a < b ↔ ki < kj)).
Proof.
  intros Hne.
  destruct (np_min_Z_is_Some keys Hne) as [mn Hmn].
  destruct (np_max_Z_is_Some keys Hne) as [mx Hmx].
  unfold compact. rewrite Hmn, Hmx. simpl.
  rewrite compact_fold by constructor. simpl.
  set (P := present keys (seqZ mn (mx + 1 - mn))).
  apply np_min_Z_spec in Hmn as [_ Hmn]. apply np_max_Z_spec in Hmx as [_ Hmx].
  rewrite Forall_forall in Hmn, Hmx.
  assert (∀ k, k ∈ P ↔ k ∈ keys) as HP.
  { intros k. unfold P, present.
    rewrite list_elem_of_In, filter_In, <- list_elem_of_In.
    rewrite existsb_eqb_elem_of, elem_of_seqZ. split; [by intros [_ ?]|].
    intros Hk. split; [|done]. specialize (Hmn _ Hk). specialize (Hmx _ Hk).
    lia. }
  assert (increasing P) as Hinc
    by apply increasing_filter, increasing_seqZ.
  assert (∀ a idxs, (a, idxs) ∈ number_from keys 0 P →
            ∃ p k, a = Z.of_nat p ∧ P !! p = Some k ∧ idxs = members keys k)
    as Hout.
  { intros a idxs [p Hp]%list_elem_of_lookup_1.
    rewrite number_from_lookup in Hp.
    destruct (P !! p) as [k|] eqn:Hk; simplify_eq/=. by exists p, k. }
  eexists. split; [done|]. split; [|split; [|split]].
  - by rewrite number_from_fst, number_from_length.
  - intros a idxs (p & k & -> & Hk & ->)%Hout. exists k. split.
    + apply HP. by eapply list_elem_of_lookup_2.
    + intros i. apply elem_of_members.
  - intros i k Hi.
    assert (k ∈ P) as [p Hp]%list_elem_of_lookup_1
      by (apply HP; by eapply list_elem_of_lookup_2).
    exists (Z.of_nat p), (members keys k). split.
    + apply list_elem_of_lookup. exists p.
      by rewrite number_from_lookup, Hp.
    + by apply elem_of_members.
  - intros a b idxa idxb i j ki kj
      (p & ka & -> & Hp & ->)%Hout (q & kb & -> & Hq & ->)%Hout
      Hi%elem_of_members Hj%elem_of_members Hki Hkj.
    rewrite Hi in Hki. rewrite Hj in Hkj.
    injection Hki as <-. injection Hkj as <-. split.
    + intros Hpq. apply (Hinc p q); [done|done|lia].
    + intros Hk. destruct (decide (p < q)%nat) as [|Hge]; [lia|].
      destruct (decide (p = q)) as [->|Hneq].
      * rewrite Hp in Hq. injection Hq as <-. lia.
      * assert (kb < ka) by (apply (Hinc q p); [done|done|lia]). lia.
Qed.

(** C1. The row loop takes the rows in increasing index order, starting from
    the all [-1] key array; at row [r] it takes the row minimum, the
    candidates [|D[r][j] - minDist| <= epsilon] (a float32 difference against
    the float32 of the literal: 11166915 / 2^34 for [0.00065]), and one of
    three branches in this priority: an assigned row writes its key on every
    candidate; else, with every candidate unassigned, row and candidates get
    [1 + max(keys)], which is 0 while every key is [-1]; else the row gets
    the least assigned candidate key, written also on every candidate that
    does not hold it yet. *)
Theorem row_loop_follows_the_three_branches (epsilon : Q)
  (dist_mat : list (list ext)) :
  square dist_mat →
  literal32 threshold_adapter = Fin (11166915 # 17179869184) ∧
  ∃ trace : list (list Z),
    length trace = S (length dist_mat) ∧
    trace !! 0%nat = Some (replicate (length dist_mat) (-1)) ∧
    row_loop epsilon dist_mat = trace !! length dist_mat ∧
    ∀ r row, dist_mat !! r = Some row →
      ∃ keys keys' min_dist b,
        trace !! r = Some keys ∧ trace !! S r = Some keys' ∧
        np_min row = Some min_dist ∧
        min_dist ∈ row ∧ Forall (fun y => np_le min_dist y = true) row ∧
        chosen epsilon row min_dist keys r b ∧
        (∀ k, b = Fresh k → Forall (fun x => x = -1) keys → k = 0) ∧
        step epsilon keys r row = Some keys' ∧
        ∀ i, (i < length dist_mat)%nat →
             keys' !! i = Some (key_after epsilon row min_dist keys r b i).
Proof.
  intros Hsq. split; [reflexivity|].
  destruct (rows_from_trace epsilon (length dist_mat) dist_mat 0
              (replicate (length dist_mat) (-1)))
    as (trace & Hlen & H0 & Hres & Hall);
    [by rewrite length_replicate | done | done |].
  exists trace. split; [done|]. split; [done|]. split; [done|].
  intros r row Hr.
  destruct (Hall r row Hr)
    as (k0 & k1 & md & b & Hk0 & Hk1 & _ & Hmin & Hch & Hstep & _ & Hkeys).
  exists k0, k1, md, b.
  destruct (np_min_spec _ _ Hmin) as [Hin Hle].
  repeat split; try done.
  intros k -> Hall1. destruct Hch as (_ & _ & top & [Htop _] & ->).
  rewrite Forall_forall in Hall1. rewrite (Hall1 _ Htop). done.
Qed.

(** A matrix that meets the hypothesis of C1: a cell of row 0 lies at the
    float32 of [0.00065] from the row minimum, which is above the decimal
    [0.00065], and is a candidate of the row all the same. *)
Lemma row_loop_follows_the_three_branches_witness :
  square Fixture.at_threshold ∧
  row_loop threshold_adapter Fixture.at_threshold = Some [0; 0; 0] ∧
  ∃ trace : list (list Z),
    length trace = 4%nat ∧
    trace !! 0%nat = Some [-1; -1; -1] ∧
    row_loop threshold_adapter Fixture.at_threshold = trace !! 3%nat.
Proof.
  split; [by repeat constructor|]. split; [reflexivity|].
  destruct (row_loop_follows_the_three_branches threshold_adapter
              Fixture.at_threshold) as (_ & trace & Hlen & H0 & Hres & _);
    [by repeat constructor|].
  exists trace. split; [exact Hlen|]. split; [exact H0 | exact Hres].
Defined.

(** The clusterer on any square matrix with at least one row. *)
Lemma clusterer_total (threshold : Q) (dist_mat : list (list ext)) :
  (1 ≤ length dist_mat)%nat →
  square dist_mat →
  ∃ (keys : list Z) (out : output_dict),
    row_loop threshold dist_mat = Some keys ∧
    length keys = length dist_mat ∧
    Forall (fun k => 0 ≤ k) keys ∧
    process_dist_mat_v2_with threshold dist_mat = Some out ∧
    out.*1 = seqZ 0 (Z.of_nat (length out)) ∧
    (∀ a idxs, (a, idxs) ∈ out →
       idxs ≠ [] ∧ ∃ k, ∀ i, i ∈ idxs ↔ keys !! i = Some k) ∧
    (∀ i, (i < length dist_mat)%nat → ∃ a idxs, (a, idxs) ∈ out ∧ i ∈ idxs) ∧
    (∀ a b idxa idxb i j ki kj,
       (a, idxa) ∈ out → (b, idxb) ∈ out → i ∈ idxa → j ∈ idxb →
       keys !! i = Some ki → keys !! j = Some kj → (a < b ↔ ki < kj)).
Proof.
  intros HN Hsq.
  destruct (rows_from_assigned threshold (length dist_mat) dist_mat 0
              (replicate (length dist_mat) (-1)))
    as (keys & Hloop & Hlen & Hpos).
  { by rewrite length_replicate. }
  { done. }
  { done. }
  { apply Forall_replicate. lia. }
  { intros i Hi. lia. }
  destruct (compact_spec keys) as (out & Hc & Hids & Hcl & Htot & Hord).
  { intros ->. simpl in Hlen. lia. }
  exists keys, out. unfold process_dist_mat_v2_with, row_loop.
  rewrite Hloop. simpl.
  split; [done|]. split; [done|]. split; [done|]. split; [done|].
  split; [done|]. split; [|split; [|done]].
  - intros a idxs Hin. destruct (Hcl a idxs Hin) as (k & Hk & Hmem).
    split; [|by exists k].
    apply list_elem_of_lookup_1 in Hk as [i Hi]. apply Hmem in Hi.
    intros ->. by apply elem_of_nil in Hi.
  - intros i Hi. destruct (lookup_lt_is_Some_2 keys i) as [k Hk]; [lia|].
    by eapply Htot.
Qed.

(** C4. On a square distance matrix with at least two rows the loop ends
    with every key non-negative, and the compaction returns the cluster ids
    [0 .. K-1] in this order, each with the indices of one key value (so
    none is empty), every index in one of them, and a smaller cluster id for
    a smaller key, the order in which the keys were handed out. *)
Theorem process_dist_mat_v2_total_assignment (threshold : Q)
  (dist_mat : list (list ext)) :
  (2 ≤ length dist_mat)%nat →
  square dist_mat →
  ∃ (keys : list Z) (out : output_dict),
    row_loop threshold dist_mat = Some keys ∧
    length keys = length dist_mat ∧
    Forall (fun k => 0 ≤ k) keys ∧
    process_dist_mat_v2_with threshold dist_mat = Some out ∧
    out.*1 = seqZ 0 (Z.of_nat (length out)) ∧
    (∀ a idxs, (a, idxs) ∈ out →
       idxs ≠ [] ∧ ∃ k, ∀ i, i ∈ idxs ↔ keys !! i = Some k) ∧
    (∀ i, (i < length dist_mat)%nat → ∃ a idxs, (a, idxs) ∈ out ∧ i ∈ idxs) ∧
    (∀ a b idxa idxb i j ki kj,
       (a, idxa) ∈ out → (b, idxb) ∈ out → i ∈ idxa → j ∈ idxb →
       keys !! i = Some ki → keys !! j = Some kj → (a < b ↔ ki < kj)).
Proof.
  intros HN Hsq. apply clusterer_total; [lia | done].
Qed.

(** A matrix that meets the hypotheses of C4. *)
Lemma process_dist_mat_v2_total_assignment_witness :
  (2 ≤ length Fixture.two_pairs)%nat ∧
  square Fixture.two_pairs ∧
  ∃ (keys : list Z) (out : output_dict),
    row_loop threshold_adapter Fixture.two_pairs = Some keys ∧
    Forall (fun k => 0 ≤ k) keys ∧
    process_dist_mat_v2_with threshold_adapter Fixture.two_pairs = Some out ∧
    out.*1 = seqZ 0 (Z.of_nat (length out)) ∧
    ∀ i, (i < 4)%nat → ∃ a idxs, (a, idxs) ∈ out ∧ i ∈ idxs.
Proof.
  split; [simpl; lia|]. split; [by repeat constructor|].
  destruct (process_dist_mat_v2_total_assignment threshold_adapter
              Fixture.two_pairs)
    as (keys & out & Hkeys & _ & Hpos & Hout & Hids & _ & Htot & _);
    [simpl; lia | by repeat constructor |].
  exists keys, out. split; [exact Hkeys|]. split; [exact Hpos|].
  split; [exact Hout|]. split; [exact Hids | exact Htot].
Defined.

(** The clusters partition the row indices. *)
Lemma clusterer_partition (dist_mat : list (list ext)) :
  (1 ≤ length dist_mat)%nat → square dist_mat →
  ∃ out, process_dist_mat_v2 dist_mat = Some out ∧
         (∀ a idxs i, (a, idxs) ∈ out → i ∈ idxs →
                      (i < length dist_mat)%nat) ∧
         (∀ i, (i < length dist_mat)%nat →
               ∃ a idxs, (a, idxs) ∈ out ∧ i ∈ idxs).
Proof.
  intros HN Hsq.
  destruct (clusterer_total threshold_adapter dist_mat HN Hsq)
    as (keys & out & _ & Hlen & _ & Hrun & _ & Hcl & Htot & _).
  exists out. split; [done|]. split; [|done].
  intros a idxs i Hin Hi. destruct (Hcl a idxs Hin) as (_ & k & Hk).
  apply Hk, lookup_lt_Some in Hi. lia.
Qed.

End ClusterFacts.

(** ** Cache keys of the dispatcher *)

Module KeyFacts.

Import Reid Views.

Lemma pretty_N_go_no_colon (x : N) (s : string) :
  no_colon s → no_colon (pretty_N_go x s).
Proof.
  revert s. induction (N.lt_wf_0 x) as [x _ IH]; intros s Hs.
  assert (x = 0 ∨ 0 < x)%N as [->|Hx] by lia.
  - by rewrite pretty_N_go_0.
  - rewrite pretty_N_go_step by done. apply IH.
    + by apply N.div_lt.
    + split; [|done]. unfold pretty_N_char. by repeat case_match.
Qed.

Lemma pretty_N_no_colon (x : N) : no_colon (pretty x).
Proof.
  unfold pretty, pretty_N. case_decide; [by split|].
  by apply pretty_N_go_no_colon.
Qed.

Lemma pretty_Z_no_colon (x : Z) : no_colon (pretty x).
Proof.
  destruct x as [|p|p]; unfold pretty, pretty_Z.
  - by split.
  - apply pretty_N_no_colon.
  - split; [done|]. apply pretty_N_no_colon.
Qed.

Lemma split_at_colon (a a' b b' : string) :
  no_colon a → no_colon a' →
  a +:+ ":" +:+ b = a' +:+ ":" +:+ b' → a = a' ∧ b = b'.
Proof.
  revert a'. induction a as [|c a IH]; intros [|c' a']; simpl.
  - intros _ _ Heq. by simplify_eq.
  - intros _ [Hc _] Heq. by simplify_eq.
  - intros [Hc _] _ Heq. by simplify_eq.
  - intros [_ Ha] [_ Ha'] Heq. injection Heq as -> Heq.
    destruct (IH a' Ha Ha' Heq) as [-> ->]. done.
Qed.

(** The dict key ["{image_id}:{bbox_hash}"] names one pair. *)
Lemma cache_key_inj (i i' : Z) (h h' : string) :
  cache_key i h = cache_key i' h' → i = i' ∧ h = h'.
Proof.
  unfold cache_key. intros Heq.
  apply split_at_colon in Heq as [Hi ->]; try apply pretty_Z_no_colon.
  split; [|done]. by apply (inj pretty).
Qed.

End KeyFacts.

(** ** The entry point *)

Module ReidFacts.

Import Cache Reid ReidSpec KeyFacts Views.

(** *** Loops and batches *)

Lemma foldlM_app {A B} (f : B → A → option B) (b : B) (l1 l2 : list A) :
  foldlM f b (l1 ++ l2) = foldlM f b l1 ≫= fun b' => foldlM f b' l2.
Proof.
  revert b. induction l1 as [|x l1 IH]; intros b; simpl; [done|].
  destruct (f b x); simpl; [apply IH | done].
Qed.

Lemma enumerate_from_lookup {A} (l : list A) (s k : nat) :
  enumerate_from s l !! k = (fun x => ((s + k)%nat, x)) <$> l !! k.
Proof.
  revert s k. induction l as [|x l IH]; intros s [|k]; simpl; try done.
  - by rewrite Nat.add_0_r.
  - rewrite IH. by replace (S s + k)%nat with (s + S k)%nat by lia.
Qed.

Lemma enumerate_from_snd {A} (l : list A) (s : nat) :
  (enumerate_from s l).*2 = l.
Proof.
  revert s. induction l as [|x l IH]; intros s; simpl; [done|].
  by rewrite IH.
Qed.

Lemma enumerate_from_app {A} (l1 l2 : list A) (s : nat) :
  enumerate_from s (l1 ++ l2)
  = enumerate_from s l1 ++ enumerate_from (s + length l1) l2.
Proof.
  revert s. induction l1 as [|x l1 IH]; intros s; simpl.
  - by rewrite Nat.add_0_r.
  - rewrite IH. by replace (S s + length l1)%nat
                     with (s + S (length l1))%nat by lia.
Qed.

Lemma elem_of_enumerate_from {A} (l : list A) (s i : nat) (x : A) :
  (i, x) ∈ enumerate_from s l ↔ (s ≤ i)%nat ∧ l !! (i - s)%nat = Some x.
Proof.
  rewrite list_elem_of_lookup. setoid_rewrite enumerate_from_lookup. split.
  - intros (k & Hk). destruct (l !! k) eqn:E; simplify_eq/=.
    split; [lia|]. by replace (s + k - s)%nat with k by lia.
  - intros [Hs Hx]. exists (i - s)%nat. rewrite Hx. simpl.
    do 2 f_equal. lia.
Qed.

Lemma batches_chunks {A} (bs : nat) (l : list A) (c : nat) :
  concat (map (fun k => take bs (drop (k * bs) l)) (seq 0 c))
  = take (c * bs) l.
Proof.
  induction c as [|c IH]; [by rewrite take_0|].
  rewrite seq_S, map_app, concat_app, IH. simpl. rewrite app_nil_r.
  rewrite take_take_drop. f_equal. lia.
Qed.

(** With a positive batch size the batches are the list cut in pieces. *)
Lemma batches_concat {A} (bs : nat) (l : list A) :
  (0 < bs)%nat → ∃ B, batches bs l = Some B ∧ concat B = l.
Proof.
  intros Hbs. unfold batches.
  destruct (Nat.eqb_spec bs 0) as [->|_]; [lia|].
  eexists. split; [done|]. rewrite batches_chunks. apply take_ge.
  pose proof (Nat.div_mod_eq (length l + bs - 1) bs) as Hd.
  pose proof (Nat.mod_upper_bound (length l + bs - 1) bs ltac:(lia)) as Hm.
  nia.
Qed.

(** *** The categorisation loop *)

Lemma categorize_step_classify cache reid raw t i det :
  categorize_step cache reid raw t (i, det)
  = classify cache reid raw det ≫= fun tr => Some (place t i det tr).
Proof.
  unfold categorize_step, classify, place.
  destruct cache as [d|]; [|done].
  destruct (det_image_id det) as [img|]; [|done].
  unfold get_embedding.
  destruct (bbox_to_hash (bbox det)) as [h|]; simpl; [|done].
  destruct (int64 img); simpl; [|done].
  destruct (select_one d (img, h, reid)) as [r|]; simpl.
  - destruct (frombuffer (embedding r)); simpl; done.
  - destruct (select_one d (img, h, raw)) as [r|]; simpl; [|done].
    destruct (frombuffer (embedding r)); simpl; done.
Qed.

Section Categorize.

Variable cache : option db.
Variables reid raw : string.

Local Abbreviation raw_items := (Views.raw_items cache reid raw).
Local Abbreviation full_items := (Views.full_items cache reid raw).
Local Abbreviation cached_entries :=
  (Views.cached_entries cache reid raw).

Lemma categorize_from (E : list (nat * detection)) :
  ∀ t0 : tiers,
  Forall (fun x => is_Some (classify cache reid raw x.2)) E →
  ∃ t, foldlM (categorize_step cache reid raw) t0 E = Some t ∧
       detection_ids t
         = detection_ids t0 ++ ((fun x => Some (detection_id x.2)) <$> E) ∧
       has_raw t = has_raw t0 ++ raw_items E ∧
       needs_full t = needs_full t0 ++ full_items E ∧
       cached_reid t = insert_entries (cached_reid t0) (cached_entries E).
Proof.
  induction E as [|[i det] E IH]; intros t0 HE.
  - exists t0. simpl. by rewrite !app_nil_r.
  - apply Forall_cons in HE as [[tr Htr] HE]. simpl in Htr.
    cbn [foldlM]. rewrite categorize_step_classify, Htr. simpl.
    destruct (IH (place t0 i det tr) HE) as (t & Hrun & Hids & Hraw & Hfull
                                                & Hc).
    exists t. split; [done|].
    unfold raw_items, full_items, cached_entries in *.
    cbn [omap list_omap fmap list_fmap fst snd]. rewrite Htr.
    rewrite Hids, Hraw, Hfull, Hc.
    destruct tr as [v|w|]; simpl; rewrite <- ?app_assoc; simpl;
      try done.
    split; [done|]. split; [done|]. split; [done|].
    destruct (det_image_id det); [|done].
    destruct (bbox_to_hash (bbox det)); done.
Qed.

Lemma classify_by_key (det det' : detection) :
  det_image_id det = det_image_id det' →
  bbox_to_hash (bbox det) = bbox_to_hash (bbox det') →
  classify cache reid raw det = classify cache reid raw det'.
Proof.
  intros Hi Hh. unfold classify, get_embedding. by rewrite Hi, Hh.
Qed.

Lemma insert_entries_absent (es : list (string * list f32)) (k : string) :
  ∀ m, k ∉ es.*1 → insert_entries m es !! k = m !! k.
Proof.
  induction es as [|[k' v'] es IH]; intros m Hk; [done|].
  simpl in *. apply not_elem_of_cons in Hk as [Hne Hk].
  unfold insert_entries in *. simpl. rewrite IH by done.
  by rewrite lookup_insert_ne.
Qed.

Lemma insert_entries_present (es : list (string * list f32)) (k : string)
  (v : list f32) :
  ∀ m, (k, v) ∈ es → (∀ v', (k, v') ∈ es → v' = v) →
       insert_entries m es !! k = Some v.
Proof.
  induction es as [|[k' v'] es IH]; intros m Hin Hall.
  - by apply elem_of_nil in Hin.
  - unfold insert_entries in *. simpl.
    destruct (decide (k ∈ es.*1)) as [Hk|Hk].
    + apply list_elem_of_fmap in Hk as ([k2 v2] & -> & Hk2). simpl in *.
      assert (v2 = v) as -> by (apply Hall; by apply list_elem_of_further).
      apply IH; [done|]. intros v'' Hv''. apply Hall.
      by apply list_elem_of_further.
    + apply elem_of_cons in Hin as [[= <- <-]|Hin].
      * fold (insert_entries (<[k:=v]> m) es).
        rewrite insert_entries_absent by done.
        by rewrite lookup_insert_eq.
      * exfalso. apply Hk. apply list_elem_of_fmap. by exists (k, v).
Qed.

Lemma elem_of_cached_entries (E : list (nat * detection)) k v :
  (k, v) ∈ cached_entries E ↔
  ∃ i det image_id h,
    (i, det) ∈ E ∧ classify cache reid raw det = Some (FullyCached v) ∧
    det_image_id det = Some image_id ∧ bbox_to_hash (bbox det) = Some h ∧
    k = cache_key image_id h.
Proof.
  unfold cached_entries. rewrite list_elem_of_omap. split.
  - intros ([i det] & Hin & Hx). simpl in Hx.
    destruct (classify cache reid raw det) as [[v'| |]|] eqn:Hc; try done.
    destruct (det_image_id det) as [img|] eqn:Hi; try done.
    destruct (bbox_to_hash (bbox det)) as [h|] eqn:Hh; try done.
    simplify_eq. by exists i, det, img, h.
  - intros (i & det & img & h & Hin & Hc & Hi & Hh & ->).
    exists (i, det). split; [done|]. simpl. by rewrite Hc, Hi, Hh.
Qed.

(** The dict of cached final vectors holds, under the key of a detection,
    the vector of its own tier-1 lookup, and nothing for a detection of
    another tier. *)
Lemma cached_reid_lookup (E : list (nat * detection)) i det image_id h :
  (i, det) ∈ E →
  det_image_id det = Some image_id → bbox_to_hash (bbox det) = Some h →
  insert_entries ∅ (cached_entries E) !! cache_key image_id h
  = match classify cache reid raw det with
    | Some (FullyCached v) => Some v
    | _ => None
    end.
Proof.
  intros Hin Hi Hh.
  assert (∀ k v, (k, v) ∈ cached_entries E → k = cache_key image_id h →
                 classify cache reid raw det = Some (FullyCached v)) as Hsame.
  { intros k v (i' & det' & img' & h' & _ & Hc & Hi' & Hh' & ->)
             %elem_of_cached_entries Hk.
    apply cache_key_inj in Hk as [-> ->].
    rewrite <- Hc. apply classify_by_key; congruence. }
  destruct (classify cache reid raw det) as [[v| |]|] eqn:Hc.
  - apply insert_entries_present.
    + apply elem_of_cached_entries. by exists i, det, image_id, h.
    + intros v' Hv'. specialize (Hsame _ _ Hv' eq_refl). congruence.
  - rewrite insert_entries_absent; [done|].
    intros ([k v] & Hk & Hkv)%list_elem_of_fmap.
    by specialize (Hsame _ _ Hkv (eq_sym Hk)).
  - rewrite insert_entries_absent; [done|].
    intros ([k v] & Hk & Hkv)%list_elem_of_fmap.
    by specialize (Hsame _ _ Hkv (eq_sym Hk)).
  - rewrite insert_entries_absent; [done|].
    intros ([k v] & Hk & Hkv)%list_elem_of_fmap.
    by specialize (Hsame _ _ Hkv (eq_sym Hk)).
Qed.

End Categorize.

(** *** Marking failed loads *)

Lemma index_of_first (l : list (option Z)) (x : Z) (k : nat) :
  index_of l x = Some k ↔
  l !! k = Some (Some x) ∧ ∀ j, (j < k)%nat → l !! j ≠ Some (Some x).
Proof.
  revert k. induction l as [|y l IH]; intros k; simpl.
  - split; [done | by intros [? _]].
  - case_bool_decide as Hy.
    + subst y. split.
      * intros [= <-]. split; [done|]. intros j Hj. lia.
      * intros [Hk Hfirst]. destruct k as [|k]; [done|].
        exfalso. by apply (Hfirst 0%nat); [lia|].
    + destruct (index_of l x) as [k'|] eqn:Hidx; simpl.
      * split.
        -- intros [= <-]. destruct (proj1 (IH k') eq_refl) as [Hk Hfirst].
           split; [done|]. intros [|j] Hj; simpl; [congruence|].
           apply Hfirst. lia.
        -- intros [Hk Hfirst]. destruct k as [|k]; simpl in *;
             [congruence|]. f_equal.
           assert (Some k' = Some k) as [= ->]; [|done].
           apply IH. split; [done|]. intros j Hj.
           apply (Hfirst (S j)). lia.
      * split; [done|]. intros [Hk Hfirst].
        destruct k as [|k]; simpl in *; [congruence|].
        assert (None = Some k) as Habs; [|done].
        apply IH. split; [done|]. intros j Hj. apply (Hfirst (S j)). lia.
Qed.

Lemma index_of_is_Some (l : list (option Z)) (x : Z) :
  x ∈ omap id l → is_Some (index_of l x).
Proof.
  induction l as [|y l IH]; simpl.
  - by intros ?%elem_of_nil.
  - case_bool_decide as Hy; [by eexists|].
    intros Hin. destruct y as [y|]; simpl in Hin.
    + apply elem_of_cons in Hin as [->|Hin]; [done|].
      destruct (IH Hin) as [k ->]. by eexists.
    + destruct (IH Hin) as [k ->]. by eexists.
Qed.

Lemma omap_id_insert_None (l : list (option Z)) (k : nat) (x : Z) :
  l !! k = Some (Some x) →
  omap id l ≡ₚ x :: omap id (<[k := None]> l).
Proof.
  revert k. induction l as [|y l IH]; intros [|k] Hk; simplify_eq/=.
  - done.
  - destruct y as [y|]; simpl.
    + rewrite (IH k Hk). apply Permutation_swap.
    + by apply IH.
Qed.

Lemma mark_failed_live (l l' : list (option Z)) (x : Z) :
  mark_failed l x = Some l' →
  omap id l ≡ₚ x :: omap id l' ∧ length l' = length l.
Proof.
  unfold mark_failed. destruct (index_of l x) as [k|] eqn:Hk; [|done].
  simpl. intros [= <-]. apply index_of_first in Hk as [Hk _].
  split; [by apply omap_id_insert_None | by rewrite length_insert].
Qed.

(** Marking never raises: every failed detection still has an entry. *)
Lemma mark_all_ok (failed : list Z) :
  ∀ l : list (option Z),
  failed ⊆+ omap id l →
  ∃ l', foldlM mark_failed l failed = Some l' ∧
        omap id l ≡ₚ failed ++ omap id l' ∧ length l' = length l.
Proof.
  induction failed as [|x failed IH]; intros l Hsub.
  - by exists l.
  - assert (x ∈ omap id l) as Hx.
    { eapply elem_of_submseteq; [apply list_elem_of_here | done]. }
    destruct (index_of_is_Some l x Hx) as [k Hk].
    assert (mark_failed l x = Some (<[k := None]> l)) as Hm
      by (unfold mark_failed; by rewrite Hk).
    destruct (mark_failed_live _ _ _ Hm) as [Hperm Hlen].
    destruct (IH (<[k := None]> l)) as (l' & Hrun & Hperm' & Hlen').
    { rewrite Hperm in Hsub. by apply submseteq_app_inv_l with [x]. }
    exists l'. simpl. rewrite Hm. simpl. split; [done|].
    split; [|congruence]. by rewrite Hperm, Hperm'.
Qed.

(** *** Writing back to the store *)

Lemma apply_all_is_Some (items : list (Z * list Q * list f32)) ty now :
  ∀ d, Forall storable items → is_Some (apply_all Some d items ty now).
Proof.
  unfold apply_all.
  induction items as [|it items IH]; intros d Hok; simpl; [by eexists|].
  apply Forall_cons in Hok as [[[h Hh] Hid] Hok]. rewrite Hh, Hid. simpl.
  by apply IH.
Qed.

Lemma write_back_ok (cache : option db) items ty now :
  Forall storable items →
  ∃ c', write_back cache items ty now = Some c' ∧
        (is_Some c' ↔ is_Some cache).
Proof.
  intros Hok. unfold write_back.
  destruct cache as [d|]; [|by eexists].
  destruct items as [|it items]; [by eexists|].
  rewrite CacheFacts.store_embeddings_batch_eq.
  destruct (apply_all_is_Some (it :: items) ty now d Hok) as [d' ->].
  simpl. eexists. split; [done|]. split; by eexists.
Qed.

Lemma items_to_store_ok (cache : option db)
  (feats : list (nat * detection * list f32)) :
  Forall (fun x => keyed x.1.2) feats →
  Forall storable (items_to_store cache feats).
Proof.
  intros Hok. unfold items_to_store. apply Forall_forall.
  intros it ([[i det] v] & Hin & Hit)%list_elem_of_omap. simpl in Hit.
  rewrite Forall_forall in Hok. destruct (Hok _ Hin) as [Hb Hid].
  simpl in Hb, Hid.
  destruct cache; [|done]. destruct (det_image_id det); [|done].
  by simplify_eq.
Qed.

Lemma items_to_store_same (c c' : option db) feats :
  (is_Some c' ↔ is_Some c) → items_to_store c' feats = items_to_store c feats.
Proof.
  intros H. destruct c, c'; try done.
  - exfalso. by apply (is_Some_None (A := db)), H.
  - exfalso. by apply (is_Some_None (A := db)), H.
Qed.

Lemma record_all_app m (l1 l2 : list (nat * detection * list f32)) :
  record_all m (l1 ++ l2) = record_all (record_all m l1) l2.
Proof. unfold record_all. by rewrite foldl_app. Qed.

Lemma record_all_absent (feats : list (nat * detection * list f32)) (i : nat) :
  ∀ m, i ∉ feats.*1.*1 → record_all m feats !! i = m !! i.
Proof.
  unfold record_all.
  induction feats as [|[[j d] v] feats IH]; intros m Hi; [done|].
  simpl in *. apply not_elem_of_cons in Hi as [Hne Hi].
  rewrite IH by done. by rewrite lookup_insert_ne.
Qed.

Lemma record_all_present (feats : list (nat * detection * list f32)) i d v :
  ∀ m, NoDup feats.*1.*1 → (i, d, v) ∈ feats →
       record_all m feats !! i = Some v.
Proof.
  unfold record_all.
  induction feats as [|[[j d'] v'] feats IH]; intros m Hnd Hin.
  - by apply elem_of_nil in Hin.
  - simpl in *. apply NoDup_cons in Hnd as [Hj Hnd].
    apply elem_of_cons in Hin as [[= -> -> ->]|Hin].
    + fold (record_all (<[j:=v']> m) feats).
      rewrite record_all_absent by done. by rewrite lookup_insert_eq.
    + by apply IH.
Qed.

Section Loops.

Context {image : Type}.
Variable load_and_crop_image : string → list Q → option (image * Z).
Variable forward : image → Z → list f32.
Variable forward_from_raw : list f32 → Z → list f32.
Variables (ty : string) (now : nat → Z).

Local Abbreviation adapter_feat :=
  (Views.adapter_feat load_and_crop_image forward_from_raw).

Lemma adapter_batch_eq (p : progress) (b : list (nat * detection * list f32)) :
  adapter_batch load_and_crop_image forward_from_raw ty now p b
  = write_back (store p) (items_to_store (store p) (adapter_feat <$> b)) ty
               (now (length (log p)))
    ≫= fun store' =>
         Some (Progress (record_all (embeddings p) (adapter_feat <$> b))
                        (ids p) store'
                        (log p ++ [CallAdapter (map (fun x => x.1.1) b)])).
Proof. done. Qed.

Lemma adapter_loop (B : list (list (nat * detection * list f32))) :
  ∀ p : progress,
  Forall (Forall (fun x => keyed x.1.2)) B →
  ∃ p',
    foldlM (adapter_batch load_and_crop_image forward_from_raw ty now) p B
      = Some p' ∧
    embeddings p' = record_all (embeddings p) (adapter_feat <$> concat B) ∧
    ids p' = ids p ∧
    log p' = log p ++ ((fun b => CallAdapter (map (fun x => x.1.1) b)) <$> B) ∧
    (is_Some (store p') ↔ is_Some (store p)).
Proof.
  induction B as [|b B IH]; intros p HB.
  - exists p. simpl. by rewrite app_nil_r.
  - apply Forall_cons in HB as [Hb HB]. cbn [foldlM].
    rewrite adapter_batch_eq.
    destruct (write_back_ok (store p)
                (items_to_store (store p) (adapter_feat <$> b)) ty
                (now (length (log p))))
      as (c' & -> & Hc').
    { apply items_to_store_ok. apply Forall_fmap.
      eapply Forall_impl; [exact Hb|]. by intros [[i d] v]. }
    simpl.
    destruct (IH (Progress (record_all (embeddings p) (adapter_feat <$> b))
                           (ids p) c'
                           (log p ++ [CallAdapter (map (λ x, x.1.1) b)])) HB)
      as (p' & Hrun & He & Hi & Hl & Hs).
    exists p'. split; [done|]. simpl in *.
    rewrite He, Hi, Hl, fmap_app, record_all_app, <- app_assoc.
    split; [done|]. split; [done|]. split; [done|]. by rewrite Hs.
Qed.

Local Abbreviation loaded_of := (Views.loaded_of load_and_crop_image).
Local Abbreviation failed_of := (Views.failed_of load_and_crop_image).
Local Abbreviation full_feat := (Views.full_feat forward).
Local Abbreviation full_calls := (Views.full_calls load_and_crop_image).

Lemma loaded_of_app b c : loaded_of (b ++ c) = loaded_of b ++ loaded_of c.
Proof. apply omap_app. Qed.

Lemma failed_of_app b c : failed_of (b ++ c) = failed_of b ++ failed_of c.
Proof. apply omap_app. Qed.

Lemma full_calls_cons b B :
  full_calls (b :: B)
  = match loaded_of b with
    | [] => []
    | l => [CallFull (map (fun y => y.1.1.1) l)]
    end ++ full_calls B.
Proof. unfold full_calls. simpl. by destruct (loaded_of b). Qed.

Lemma load_step_eq acc l (i : nat) (det : detection) :
  load_step load_and_crop_image (acc, l) (i, det)
  = match load_and_crop_image (image_path det) (bbox det) with
    | Some (img, is_day) => Some (acc ++ [(i, det, img, is_day)], l)
    | None => mark_failed l (detection_id det) ≫= fun l' => Some (acc, l')
    end.
Proof. done. Qed.

Lemma load_loop (batch : list (nat * detection)) :
  ∀ acc l,
  foldlM (load_step load_and_crop_image) (acc, l) batch
  = foldlM mark_failed l (failed_of batch)
    ≫= fun l' => Some (acc ++ loaded_of batch, l').
Proof.
  induction batch as [|[i det] batch IH]; intros acc l.
  - simpl. by rewrite app_nil_r.
  - cbn [foldlM]. rewrite load_step_eq. unfold loaded_of, failed_of.
    cbn [omap list_omap fst snd].
    fold (failed_of batch) (loaded_of batch).
    destruct (load_and_crop_image (image_path det) (bbox det))
      as [[img is_day]|]; cbn [mbind option_bind foldlM].
    + rewrite IH.
      destruct (foldlM mark_failed l (failed_of batch)); simpl; [|done].
      by rewrite <- app_assoc.
    + destruct (mark_failed l (detection_id det)); simpl; [|done].
      by rewrite IH.
Qed.

Lemma full_batch_eq (p : progress) (b : list (nat * detection)) :
  full_batch load_and_crop_image forward ty now p b
  = foldlM mark_failed (ids p) (failed_of b) ≫= fun l1 =>
    match loaded_of b with
    | [] => Some (Progress (embeddings p) l1 (store p) (log p))
    | _ =>
        write_back (store p)
          (items_to_store (store p) (full_feat <$> loaded_of b)) ty
          (now (length (log p)))
        ≫= fun store' =>
             Some (Progress
                     (record_all (embeddings p) (full_feat <$> loaded_of b))
                     l1 store'
                     (log p ++ [CallFull (map (fun y => y.1.1.1)
                                              (loaded_of b))]))
    end.
Proof.
  unfold full_batch. rewrite load_loop.
  destruct (foldlM mark_failed (ids p) (failed_of b)); simpl; [|done].
  by destruct (loaded_of b).
Qed.

Lemma full_loop (B : list (list (nat * detection))) :
  ∀ (p : progress) (l' : list (option Z)),
  Forall (Forall (fun x => keyed x.2)) B →
  foldlM mark_failed (ids p) (failed_of (concat B)) = Some l' →
  ∃ p',
    foldlM (full_batch load_and_crop_image forward ty now) p B = Some p' ∧
    embeddings p'
      = record_all (embeddings p) (full_feat <$> loaded_of (concat B)) ∧
    ids p' = l' ∧
    log p' = log p ++ full_calls B ∧
    (is_Some (store p') ↔ is_Some (store p)).
Proof.
  induction B as [|b B IH]; intros p l' HB Hmark.
  - exists p. simpl in *. simplify_eq. by rewrite app_nil_r.
  - apply Forall_cons in HB as [Hb HB]. cbn [foldlM concat] in *.
    rewrite failed_of_app, foldlM_app in Hmark.
    destruct (foldlM mark_failed (ids p) (failed_of b)) as [l1|] eqn:Hl1;
      [|done]. simpl in Hmark.
    rewrite full_batch_eq, Hl1, loaded_of_app, full_calls_cons. simpl.
    destruct (loaded_of b) as [|y ys] eqn:Hlb.
    + destruct (IH (Progress (embeddings p) l1 (store p) (log p)) l' HB Hmark)
        as (p' & Hrun & He & Hi & Hl & Hs).
      exists p'. simpl in *.
      split; [done|]. split; [done|]. split; [done|]. split; done.
    + destruct (write_back_ok (store p)
                  (items_to_store (store p) (full_feat <$> (y :: ys))) ty
                  (now (length (log p))))
        as (c' & -> & Hc').
      { apply items_to_store_ok. apply Forall_fmap, Forall_forall.
        intros [[[i d] img] t] Hin. simpl.
        rewrite <- Hlb in Hin. unfold loaded_of in Hin.
        apply list_elem_of_omap in Hin as ([i' d'] & Hin & Hx).
        simpl in Hx.
        destruct (load_and_crop_image (image_path d') (bbox d'))
          as [[??]|]; simplify_eq.
        rewrite Forall_forall in Hb. by apply (Hb (i, d)). }
      simpl.
      destruct (IH (Progress
                      (record_all (embeddings p) (full_feat <$> (y :: ys)))
                      l1 c'
                      (log p ++ [CallFull (map (λ y0, y0.1.1.1) (y :: ys))]))
                   l' HB Hmark)
        as (p' & Hrun & He & Hi & Hl & Hs).
      exists p'. split; [done|]. simpl in *.
      rewrite He, Hi, Hl, fmap_app, record_all_app, <- app_assoc.
      split; [done|]. split; [done|]. split; [done|]. by rewrite Hs.
Qed.

End Loops.

(** *** Lookups that cannot raise *)

Lemma bbox_to_hash_is_Some (b : list Q) :
  length b = 4%nat → is_Some (bbox_to_hash b).
Proof.
  destruct b as [|x1 [|y1 [|x2 [|y2 [|]]]]]; (done || by eexists).
Qed.

Lemma find_elem {A} (f : A → bool) (l : list A) (x : A) :
  List.find f l = Some x → x ∈ l ∧ f x = true.
Proof.
  intros [Hin Hf]%find_some. split; [by apply list_elem_of_In | done].
Qed.

Lemma get_embedding_is_Some (d : db) image_id b variant :
  is_Some (bbox_to_hash b) → int64 image_id = true → blobs_ok d = true →
  is_Some (get_embedding d image_id b variant).
Proof.
  intros [h Hh] Hid Hok. unfold get_embedding. rewrite Hh, Hid. simpl.
  destruct (select_one d (image_id, h, variant)) as [r|] eqn:Hsel;
    [|by eexists].
  apply find_elem in Hsel as [Hin _].
  unfold blobs_ok in Hok. rewrite forallb_forall in Hok.
  apply list_elem_of_In, Hok, bool_decide_eq_true_1 in Hin as [v Hv].
  rewrite Hv. by eexists.
Qed.

Lemma classify_is_Some (cache : option db) reid raw det :
  keyed det →
  (∀ d, cache = Some d → blobs_ok d = true) →
  is_Some (classify cache reid raw det).
Proof.
  intros [Hb Hid] Hok. unfold classify.
  destruct cache as [d|]; [|by eexists].
  destruct (det_image_id det) as [img|]; [|by eexists]. simpl in Hid.
  destruct (get_embedding_is_Some d img (bbox det) reid Hb Hid (Hok d eq_refl))
    as [[v|] ->]; simpl; [by eexists|].
  destruct (get_embedding_is_Some d img (bbox det) raw Hb Hid (Hok d eq_refl))
    as [o ->]; simpl. by eexists.
Qed.

(** *** Vectors recorded by position *)

Lemma enumerate_from_fst {A} (l : list A) (s : nat) :
  (enumerate_from s l).*1 = seq s (length l).
Proof.
  revert s. induction l as [|x l IH]; intros s; simpl; [done|].
  by rewrite IH.
Qed.

Lemma enumerate_NoDup {A} (l : list A) : NoDup (enumerate l).*1.
Proof. unfold enumerate. rewrite enumerate_from_fst. apply NoDup_seq. Qed.

Lemma NoDup_fst_functional {A B} (E : list (A * B)) a b b' :
  NoDup E.*1 → (a, b) ∈ E → (a, b') ∈ E → b = b'.
Proof.
  induction E as [|[a0 b0] E IH]; simpl; intros Hnd H1 H2.
  - by apply elem_of_nil in H1.
  - apply NoDup_cons in Hnd as [Ha Hnd].
    apply elem_of_cons in H1 as [H1|H1];
      apply elem_of_cons in H2 as [H2|H2]; simplify_eq; try done.
    + exfalso. apply Ha. apply list_elem_of_fmap. by exists (a0, b').
    + exfalso. apply Ha. apply list_elem_of_fmap. by exists (a0, b).
    + by apply IH.
Qed.

Lemma recorded_lookup (g : nat * detection → option (list f32))
  (E : list (nat * detection)) (i : nat) (det : detection) :
  NoDup E.*1 → (i, det) ∈ E →
  record_all ∅ (recorded g E) !! i = g (i, det).
Proof.
  intros Hnd Hin.
  assert (∀ j d v, (j, d, v) ∈ recorded g E → (j, d) ∈ E ∧ g (j, d) = Some v)
    as Hrec.
  { intros j d v ([j' d'] & Hx & Hg)%list_elem_of_omap. simpl in Hg.
    destruct (g (j', d')) eqn:E'; simplify_eq/=. done. }
  destruct (g (i, det)) as [v|] eqn:Hg.
  - apply record_all_present with det.
    + assert ((recorded g E).*1.*1 `sublist_of` E.*1) as Hsub;
        [|by eapply sublist_NoDup].
      clear. unfold recorded. induction E as [|x E IH]; simpl; [done|].
      destruct (g x); simpl; [by apply sublist_skip | by apply sublist_cons].
    + apply list_elem_of_omap. exists (i, det). split; [done|].
      by rewrite Hg.
  - rewrite record_all_absent; [done|].
    intros ([j d] & Hj & ([[j' d'] v] & Hx & Hy)%list_elem_of_fmap)
             %list_elem_of_fmap.
    simpl in *. simplify_eq.
    destruct (Hrec _ _ _ Hy) as [Hin' Hg'].
    rewrite (NoDup_fst_functional _ _ _ _ Hnd Hin Hin') in Hg. congruence.
Qed.

(** *** Labelling the clusters *)

Lemma format_ok (ids : list Z) (out : Cluster.output_dict) :
  (∀ a idxs i, (a, idxs) ∈ out → i ∈ idxs → (i < length ids)%nat) →
  ∃ inds, format_output_with_detection_ids ids out = Some inds ∧
          ∀ x, x ∈ mentioned inds ↔
               ∃ a idxs i, (a, idxs) ∈ out ∧ i ∈ idxs ∧ ids !! i = Some x.
Proof.
  unfold format_output_with_detection_ids, mentioned.
  induction out as [|[a idxs] out IH]; intros Hr.
  - exists []. split; [done|]. intros x. split.
    + by intros ?%elem_of_nil.
    + intros (? & ? & ? & ?%elem_of_nil & _). done.
  - destruct IH as (inds & Hrun & Hx).
    { intros a' idxs' i Hin. apply (Hr a' idxs').
      by apply list_elem_of_further. }
    cbn [mapM fst snd]. rewrite Hrun.
    rewrite (ClusterFacts.gather_in_range ids idxs).
    2:{ apply Forall_forall. intros i Hi. apply (Hr a idxs); [|done].
        apply list_elem_of_here. }
    cbn [mbind option_bind mret option_ret].
    eexists. split; [done|]. intros x. cbn [fmap list_fmap snd concat].
    rewrite elem_of_app, Hx. split.
    + intros [Hin|(a' & idxs' & i & Hin & Hi & Hl)].
      * apply list_elem_of_fmap in Hin as (i & -> & Hi).
        exists a, idxs, i. split; [apply list_elem_of_here|]. split; [done|].
        destruct (lookup_lt_is_Some_2 ids i) as [y Hy].
        { apply (Hr a idxs); [apply list_elem_of_here | done]. }
        by rewrite Hy.
      * exists a', idxs', i. split; [by apply list_elem_of_further | done].
    + intros (a' & idxs' & i & Hin & Hi & Hl).
      apply elem_of_cons in Hin as [[= -> ->]|Hin].
      * left. apply list_elem_of_fmap. exists i. by rewrite Hl.
      * right. by exists a', idxs', i.
Qed.

(** Two sublists of a duplicate-free list with the same elements are the
    same list. *)
Lemma sublist_NoDup_eq {A} (l l1 l2 : list A) :
  NoDup l → l1 `sublist_of` l → l2 `sublist_of` l →
  (∀ x, x ∈ l1 ↔ x ∈ l2) → l1 = l2.
Proof.
  intros Hnd H1. revert l2. induction H1 as [|x l1 l H1 IH|x l1 l H1 IH];
    intros l2 H2 Heq.
  - destruct l2 as [|y l2]; [done|].
    exfalso. eapply elem_of_nil, Heq, list_elem_of_here.
  - apply NoDup_cons in Hnd as [Hx Hnd].
    apply sublist_cons_r in H2 as [H2|(l2' & -> & H2)].
    + exfalso. apply Hx. eapply elem_of_sublist; [|exact H2].
      apply Heq, list_elem_of_here.
    + f_equal. apply IH; [done|done|]. intros y. split; intros Hy.
      * assert (y ∈ x :: l2') as [->|?]%elem_of_cons
          by (apply Heq; by apply list_elem_of_further); [|done].
        exfalso. apply Hx. by eapply elem_of_sublist.
      * assert (y ∈ x :: l1) as [->|?]%elem_of_cons
          by (apply Heq; by apply list_elem_of_further); [|done].
        exfalso. apply Hx. by eapply elem_of_sublist.
  - apply NoDup_cons in Hnd as [Hx Hnd].
    apply sublist_cons_r in H2 as [H2|(l2' & -> & H2)].
    + by apply IH.
    + exfalso. apply Hx. eapply elem_of_sublist; [|exact H1].
      apply Heq, list_elem_of_here.
Qed.

Lemma omap_id_insert_None_sublist (l : list (option Z)) (k : nat) :
  omap id (<[k := None]> l) `sublist_of` omap id l.
Proof.
  revert k. induction l as [|y l IH]; intros [|k]; simpl; try done.
  - destruct y; simpl; [by apply sublist_cons | done].
  - destruct y; simpl; [by apply sublist_skip | by apply IH].
Qed.

Lemma mark_all_sublist (failed : list Z) :
  ∀ l l', foldlM mark_failed l failed = Some l' →
          omap id l' `sublist_of` omap id l.
Proof.
  induction failed as [|x failed IH]; intros l l'; simpl.
  - by intros [= ->].
  - destruct (mark_failed l x) as [l1|] eqn:Hm; [|done].
    simpl. intros Hrun. etrans; [by apply IH|].
    unfold mark_failed in Hm. destruct (index_of l x) as [k|]; [|done].
    simpl in Hm. injection Hm as <-. apply omap_id_insert_None_sublist.
Qed.

(** *** The job, step by step *)

Section Job.

Context `{kernel : Distance.Matmul}.
Context {image : Type}.
Variable load_and_crop_image : string → list Q → option (image * Z).
Variable forward : image → Z → list f32.
Variable forward_from_raw : list f32 → Z → list f32.
Variable detections : list detection.
Variable cache : option db.
Variable species : string.

Hypothesis bboxes_ok : Forall (fun det => length (bbox det) = 4%nat) detections.
Hypothesis cache_ok : ∀ d, cache = Some d → blobs_ok d = true.
Hypothesis ids_ok : image_ids_ok detections.

Let reid : string := (variants species).1.
Let raw : string := (variants species).2.
Let E : list (nat * detection) := enumerate detections.
Let own : detection → option (list f32) :=
  own_embedding load_and_crop_image forward forward_from_raw cache species.

Local Abbreviation g_raw :=
  (Views.g_raw load_and_crop_image forward_from_raw cache reid raw).
Local Abbreviation g_full :=
  (Views.g_full load_and_crop_image forward cache reid raw).

Lemma in_E_detections i det : (i, det) ∈ E → det ∈ detections.
Proof.
  intros [_ H]%elem_of_enumerate_from. by eapply list_elem_of_lookup_2.
Qed.

Lemma in_E_lookup i det : (i, det) ∈ E ↔ detections !! i = Some det.
Proof.
  unfold E, enumerate. rewrite elem_of_enumerate_from.
  replace (i - 0)%nat with i by lia. split; [by intros [_ ?] | split; [lia|done]].
Qed.

Lemma E_bbox i det : (i, det) ∈ E → is_Some (bbox_to_hash (bbox det)).
Proof.
  intros Hin%in_E_detections. apply bbox_to_hash_is_Some.
  rewrite Forall_forall in bboxes_ok. by apply bboxes_ok.
Qed.

Lemma E_keyed i det : (i, det) ∈ E → keyed det.
Proof.
  intros Hin. split; [by eapply E_bbox|].
  apply in_E_detections in Hin. unfold image_ids_ok in ids_ok.
  rewrite Forall_forall in ids_ok. by apply ids_ok.
Qed.

Lemma E_classify : Forall (fun x => is_Some (classify cache reid raw x.2)) E.
Proof.
  apply Forall_forall. intros [i det] Hin. simpl.
  apply classify_is_Some; [by eapply E_keyed | done].
Qed.

Lemma adapter_feat_recorded (E' : list (nat * detection)) :
  adapter_feat load_and_crop_image forward_from_raw
    <$> raw_items cache reid raw E'
  = recorded g_raw E'.
Proof.
  induction E' as [|[i det] E' IH]; [done|].
  unfold raw_items, recorded, g_raw in *. cbn [omap list_omap fst snd].
  destruct (classify cache reid raw det) as [[v|w|]|];
    cbn [mbind option_bind fmap list_fmap]; try done.
  by rewrite <- IH.
Qed.

Lemma full_feat_recorded (E' : list (nat * detection)) :
  full_feat forward <$> loaded_of load_and_crop_image
                          (full_items cache reid raw E')
  = recorded g_full E'.
Proof.
  induction E' as [|[i det] E' IH]; [done|].
  unfold full_items, loaded_of, recorded, g_full in *.
  cbn [omap list_omap fst snd].
  destruct (classify cache reid raw det) as [[v|w|]|];
    cbn [omap list_omap mbind option_bind fmap list_fmap fst snd]; try done.
  destruct (load_and_crop_image (image_path det) (bbox det)) as [[img t]|];
    cbn [mbind option_bind fmap list_fmap]; [|done].
  by rewrite <- IH.
Qed.

Local Abbreviation kept := (Views.kept own).

Lemma hit_lookup i det :
  (i, det) ∈ E →
  match cache, det_image_id det with
  | Some _, Some image_id =>
      bbox_to_hash (bbox det) ≫= fun h =>
        Some (insert_entries ∅ (cached_entries cache reid raw E)
                !! cache_key image_id h)
  | _, _ => Some None
  end
  = Some (match classify cache reid raw det with
          | Some (FullyCached v) => Some v
          | _ => None
          end).
Proof.
  intros Hin. destruct (E_bbox _ _ Hin) as [h Hh].
  destruct (det_image_id det) as [img|] eqn:Himg.
  - destruct cache as [d|] eqn:Hc; [|done].
    rewrite Hh. cbn [mbind option_bind]. f_equal. rewrite <- Hc.
    by apply cached_reid_lookup with i.
  - assert (classify cache reid raw det = Some FullComputation) as ->.
    { unfold classify. rewrite Himg. by destruct cache. }
    by destruct cache.
Qed.

Lemma combine_step_kept (survivors : list Z) acc i det :
  (i, det) ∈ E →
  combine_step cache
    (insert_entries ∅ (cached_entries cache reid raw E))
    (record_all ∅ (recorded g_raw E))
    (record_all ∅ (recorded g_full E))
    survivors acc (i, det)
  = Some (acc ++ match kept survivors (i, det) with
                 | Some e => [e]
                 | None => []
                 end).
Proof.
  intros Hin. unfold combine_step, kept. cbn [fst snd].
  case_bool_decide as Hs; cbn [negb]; [|by rewrite app_nil_r].
  rewrite (hit_lookup i det Hin). cbn [mbind option_bind].
  rewrite !recorded_lookup with (det := det) by (done || apply enumerate_NoDup).
  unfold own, own_embedding, g_raw, g_full. fold reid raw. cbn [fst snd].
  destruct (classify cache reid raw det) as [[v|w|]|]; cbn [fmap option_fmap option_map];
    try done; try by rewrite app_nil_r.
  destruct (load_and_crop_image (image_path det) (bbox det))
    as [[im t]|]; simpl; [done | by rewrite app_nil_r].
Qed.

Lemma combine_loop (survivors : list Z) (E' : list (nat * detection)) :
  ∀ acc, (∀ x, x ∈ E' → x ∈ E) →
  foldlM (combine_step cache
            (insert_entries ∅ (cached_entries cache reid raw E))
            (record_all ∅ (recorded g_raw E))
            (record_all ∅ (recorded g_full E))
            survivors) acc E'
  = Some (acc ++ omap (kept survivors) E').
Proof.
  induction E' as [|[i det] E' IH]; intros acc Hsub.
  - simpl. by rewrite app_nil_r.
  - cbn [foldlM]. rewrite combine_step_kept by (apply Hsub, list_elem_of_here).
    simpl. rewrite IH by (intros; by apply Hsub, list_elem_of_further).
    rewrite <- app_assoc. by destruct (kept survivors (i, det)).
Qed.

Lemma elem_of_raw_items (E' : list (nat * detection)) i det w :
  (i, det, w) ∈ raw_items cache reid raw E' ↔
  (i, det) ∈ E' ∧ classify cache reid raw det = Some (AdapterOnly w).
Proof.
  unfold raw_items. rewrite list_elem_of_omap. split.
  - intros ([i' det'] & Hin & Hx). simpl in Hx.
    destruct (classify cache reid raw det') as [[?|?|]|] eqn:Hc;
      simplify_eq. done.
  - intros [Hin Hc]. exists (i, det). split; [done|]. simpl. by rewrite Hc.
Qed.

Lemma elem_of_full_items (E' : list (nat * detection)) i det :
  (i, det) ∈ full_items cache reid raw E' ↔
  (i, det) ∈ E' ∧ classify cache reid raw det = Some FullComputation.
Proof.
  unfold full_items. rewrite list_elem_of_omap. split.
  - intros ([i' det'] & Hin & Hx). simpl in Hx.
    destruct (classify cache reid raw det') as [[?|?|]|] eqn:Hc;
      simplify_eq. done.
  - intros [Hin Hc]. exists (i, det). split; [done|]. simpl. by rewrite Hc.
Qed.

Lemma elem_of_loaded_of (L : list (nat * detection)) i det img t :
  (i, det, img, t) ∈ loaded_of load_and_crop_image L ↔
  (i, det) ∈ L ∧ load_and_crop_image (image_path det) (bbox det)
                 = Some (img, t).
Proof.
  unfold loaded_of. rewrite list_elem_of_omap. split.
  - intros ([i' det'] & Hin & Hx). simpl in Hx.
    destruct (load_and_crop_image (image_path det') (bbox det'))
      as [[??]|] eqn:Hl; simplify_eq. done.
  - intros [Hin Hl]. exists (i, det). split; [done|]. simpl. by rewrite Hl.
Qed.

(** The identifiers marked as failed are identifiers of the input, each as
    often as it fails. *)
Lemma failed_submseteq (E' : list (nat * detection)) :
  failed_of load_and_crop_image (full_items cache reid raw E')
  ⊆+ (fun x => detection_id x.2) <$> E'.
Proof.
  apply sublist_submseteq. unfold failed_of, full_items.
  induction E' as [|[i det] E' IH]; [done|]. cbn [omap list_omap fst snd].
  destruct (classify cache reid raw det) as [[?|?|]|]; cbn [fmap list_fmap];
    try by apply sublist_cons.
  cbn [omap list_omap fst snd].
  destruct (load_and_crop_image (image_path det) (bbox det));
    [by apply sublist_cons | by apply sublist_skip].
Qed.

Lemma omap_id_fmap_Some {A B} (f : A → B) (l : list A) :
  omap id ((fun x => Some (f x)) <$> l) = f <$> l.
Proof.
  induction l as [|x l IH]; [done|].
  cbn [fmap list_fmap omap list_omap id]. by rewrite <- IH.
Qed.

Lemma elem_of_concat {A} (x : A) (ls : list (list A)) :
  x ∈ concat ls ↔ ∃ l, x ∈ l ∧ l ∈ ls.
Proof.
  rewrite list_elem_of_In, in_concat. split.
  - intros (l & Hl & Hx). exists l. by rewrite !list_elem_of_In.
  - intros (l & Hx & Hl). exists l. by rewrite <- !list_elem_of_In.
Qed.

Lemma adapter_called_iff (B : list (list (nat * detection * list f32))) i :
  adapter_called ((fun b => CallAdapter (map (fun x => x.1.1) b)) <$> B) i
  ↔ ∃ det w, (i, det, w) ∈ concat B.
Proof.
  unfold adapter_called. split.
  - intros (idxs & (b & [= ->] & Hb)%list_elem_of_fmap & Hi).
    change (map ?f b) with (f <$> b) in Hi.
    apply list_elem_of_fmap in Hi as ([[j det] w] & -> & Hx).
    exists det, w. apply elem_of_concat. by exists b.
  - intros (det & w & (b & Hx & Hb)%elem_of_concat).
    exists (map (fun x => x.1.1) b). split.
    + apply list_elem_of_fmap. by exists b.
    + change (map ?f b) with (f <$> b).
      apply list_elem_of_fmap. by exists (i, det, w).
Qed.

Lemma full_called_iff (B : list (list (nat * detection))) i :
  full_called (full_calls load_and_crop_image B) i
  ↔ ∃ det img t, (i, det, img, t) ∈ loaded_of load_and_crop_image (concat B).
Proof.
  unfold full_called. induction B as [|b B IH].
  - split; [intros (idxs & H & _); by apply elem_of_nil in H
           | intros (? & ? & ? & H); by apply elem_of_nil in H].
  - rewrite full_calls_cons. cbn [concat]. rewrite loaded_of_app.
    setoid_rewrite elem_of_app. split.
    + intros (idxs & [Hb|HB] & Hi).
      * destruct (loaded_of load_and_crop_image b) as [|y ys] eqn:Hl;
          [by apply elem_of_nil in Hb|].
        apply list_elem_of_singleton in Hb as [= ->].
        assert (i ∈ (fun y : nat * detection * image * Z => y.1.1.1)
                      <$> (y :: ys)) as Hi' by exact Hi.
        apply list_elem_of_fmap in Hi' as ([[[j det] img] t] & -> & Hx).
        exists det, img, t. by left.
      * destruct (proj1 IH) as (det & img & t & H); [by exists idxs|].
        exists det, img, t. by right.
    + intros (det & img & t & [Hb|HB]).
      * destruct (loaded_of load_and_crop_image b) as [|y ys] eqn:Hl;
          [by apply elem_of_nil in Hb|].
        exists (map (fun y => y.1.1.1) (y :: ys)). split.
        -- left. apply list_elem_of_here.
        -- assert (i ∈ (fun y : nat * detection * image * Z => y.1.1.1)
                         <$> (y :: ys)) as Hi'; [|exact Hi'].
           apply list_elem_of_fmap. by exists (i, det, img, t).
      * destruct (proj2 IH) as (idxs & H & Hi); [by exists det, img, t|].
        exists idxs. split; [by right | done].
Qed.

Variable batch_size : nat.
Variable now : nat → Z.
Hypothesis batch_size_pos : (0 < batch_size)%nat.

Local Abbreviation marked :=
  (Views.marked load_and_crop_image cache reid raw E).

(** The whole body of the job in terms of the tier of each detection. *)
Lemma run_many_body :
  ∃ (l' : list (option Z)) (calls2 : list call) (store2 : option db),
    marked = Some l' ∧
    (∀ i, adapter_called calls2 i ↔
          ∃ det w, (i, det) ∈ E ∧
                   classify cache reid raw det = Some (AdapterOnly w)) ∧
    (∀ i, full_called calls2 i ↔
          ∃ det, (i, det) ∈ E ∧
                 classify cache reid raw det = Some FullComputation ∧
                 is_Some (load_and_crop_image (image_path det) (bbox det))) ∧
    (∀ n, (CallDistance n ∉ calls2) ∧ (CallCluster n ∉ calls2)) ∧
    run_many load_and_crop_image forward forward_from_raw
             detections cache species batch_size now
    = match omap (kept (omap id l')) E with
      | [] => Some (Result [] store2 calls2)
      | all =>
          embeddings ← np_stack (map snd all);
          id_dict ←
            Cluster.process_dist_mat_v2
              (Distance.compute_distance_matrix (map (map value) embeddings));
          individuals ←
            format_output_with_detection_ids (omap id l') id_dict;
          Some (Result individuals store2
                       (calls2 ++ [CallDistance (length embeddings);
                                   CallCluster (length embeddings)]))
      end.
Proof.
  destruct (categorize_from cache reid raw E (Tiers ∅ [] [] []) E_classify)
    as (t & Hcat & Hids & Hraw & Hfull & Hcached).
  simpl in Hids, Hraw, Hfull, Hcached.
  (* the adapter-only loop *)
  assert (∃ p1 B1,
    match has_raw t with
    | [] => Some (Progress ∅ (detection_ids t) cache [])
    | _ =>
        bs ← batches batch_size (has_raw t);
        foldlM (adapter_batch load_and_crop_image forward_from_raw reid now)
               (Progress ∅ (detection_ids t) cache []) bs
    end = Some p1 ∧
    concat B1 = has_raw t ∧
    embeddings p1 = record_all ∅ (recorded g_raw E) ∧
    ids p1 = detection_ids t ∧
    log p1 = (fun b => CallAdapter (map (fun x => x.1.1) b)) <$> B1 ∧
    (is_Some (store p1) ↔ is_Some cache)) as (p1 & B1 & Hp1 & HB1 & He1 & Hi1
                                              & Hl1 & Hs1).
  { destruct (has_raw t) as [|x xs] eqn:Hhr.
    - exists (Progress ∅ (detection_ids t) cache []), [].
      repeat split; try done. simpl.
      by rewrite <- adapter_feat_recorded, <- Hraw.
    - destruct (batches_concat batch_size (x :: xs) batch_size_pos)
        as (B & -> & HB). simpl.
      destruct (adapter_loop load_and_crop_image forward_from_raw reid now B
                  (Progress ∅ (detection_ids t) cache []))
        as (p1 & Hrun & He & Hi & Hl & Hs).
      { apply Forall_forall. intros b Hb. apply Forall_forall.
        intros [[i det] w] Hx.
        assert ((i, det, w) ∈ concat B) as Hc
          by (apply elem_of_concat; by exists b).
        rewrite HB, Hraw in Hc.
        apply elem_of_raw_items in Hc as [Hc _]. by eapply E_keyed. }
      exists p1, B. split; [done|]. split; [done|]. simpl in *.
      split; [|done].
      by rewrite He, HB, Hraw, adapter_feat_recorded. }
  (* marking cannot raise *)
  destruct (mark_all_ok
              (failed_of load_and_crop_image (full_items cache reid raw E))
              ((fun x => Some (detection_id x.2)) <$> E))
    as (l' & Hmark & _ & _).
  { rewrite omap_id_fmap_Some. apply failed_submseteq. }
  (* the full-model loop *)
  assert (∃ p2 B2,
    match needs_full t with
    | [] => Some (Progress ∅ (ids p1) (store p1) (log p1))
    | _ =>
        bs ← batches batch_size (needs_full t);
        foldlM (full_batch load_and_crop_image forward reid now)
               (Progress ∅ (ids p1) (store p1) (log p1)) bs
    end = Some p2 ∧
    concat B2 = needs_full t ∧
    embeddings p2 = record_all ∅ (recorded g_full E) ∧
    (needs_full t = [] → ids p2 = ids p1) ∧
    (needs_full t ≠ [] → ids p2 = l') ∧
    log p2 = log p1 ++ full_calls load_and_crop_image B2)
    as (p2 & B2 & Hp2 & HB2 & He2 & Hi2 & Hi2' & Hl2).
  { destruct (needs_full t) as [|x xs] eqn:Hnf.
    - exists (Progress ∅ (ids p1) (store p1) (log p1)), [].
      repeat split; try done; simpl.
      + by rewrite <- full_feat_recorded, <- Hfull.
      + by rewrite app_nil_r.
    - destruct (batches_concat batch_size (x :: xs) batch_size_pos)
        as (B & -> & HB). simpl.
      destruct (full_loop load_and_crop_image forward reid now B
                  (Progress ∅ (ids p1) (store p1) (log p1)) l')
        as (p2 & Hrun & He & Hi & Hl & Hs).
      { apply Forall_forall. intros b Hb. apply Forall_forall.
        intros [i det] Hx.
        assert ((i, det) ∈ concat B) as Hc
          by (apply elem_of_concat; by exists b).
        rewrite HB, Hfull in Hc.
        apply elem_of_full_items in Hc as [Hc _]. by eapply E_keyed. }
      { simpl. rewrite Hi1, Hids, HB, Hfull. exact Hmark. }
      exists p2, B. split; [done|]. split; [done|]. simpl in *.
      split; [|split; [done|split; [done|done]]].
      by rewrite He, HB, Hfull, full_feat_recorded. }
  assert (ids p2 = l') as Hids2.
  { destruct (needs_full t) as [|x xs] eqn:Hnf; [|by apply Hi2'].
    rewrite Hi2, Hi1, Hids by done.
    unfold marked in *. rewrite <- Hfull in Hmark. simpl in Hmark.
    by simplify_eq. }
  exists l', (log p2), (store p2). split; [exact Hmark|].
  split; [|split; [|split]].
  - intros i. rewrite Hl2, Hl1. unfold adapter_called.
    setoid_rewrite elem_of_app. split.
    + intros (idxs & [H|H] & Hi).
      * destruct (proj1 (adapter_called_iff B1 i)) as (det & w & Hx);
          [by exists idxs|].
        rewrite HB1, Hraw in Hx. apply elem_of_raw_items in Hx. by exists det, w.
      * exfalso. unfold full_calls in H.
        apply list_elem_of_omap in H as (b & _ & Hb).
        by destruct (loaded_of load_and_crop_image b).
    + intros (det & w & Hin & Hc).
      destruct (proj2 (adapter_called_iff B1 i)) as (idxs & H & Hi).
      { exists det, w. rewrite HB1, Hraw. by apply elem_of_raw_items. }
      exists idxs. split; [by left | done].
  - intros i. rewrite Hl2, Hl1. unfold full_called.
    setoid_rewrite elem_of_app. split.
    + intros (idxs & [H|H] & Hi).
      * exfalso. by apply list_elem_of_fmap in H as (b & ? & _).
      * destruct (proj1 (full_called_iff B2 i)) as (det & img & tt' & Hx);
          [by exists idxs|].
        rewrite HB2, Hfull in Hx.
        apply elem_of_loaded_of in Hx as [Hx Hload].
        apply elem_of_full_items in Hx as [Hx Hc].
        exists det. rewrite Hload. split; [done|]. split; [done|by eexists].
    + intros (det & Hin & Hc & [[img tt'] Hload]).
      destruct (proj2 (full_called_iff B2 i)) as (idxs & H & Hi).
      { exists det, img, tt'. rewrite HB2, Hfull.
        apply elem_of_loaded_of. split; [|done].
        by apply elem_of_full_items. }
      exists idxs. split; [by right | done].
  - intros n. rewrite Hl2, Hl1. split; intros [H|H]%elem_of_app.
    + by apply list_elem_of_fmap in H as (b & ? & _).
    + unfold full_calls in H. apply list_elem_of_omap in H as (b & _ & Hb).
      by destruct (loaded_of load_and_crop_image b).
    + by apply list_elem_of_fmap in H as (b & ? & _).
    + unfold full_calls in H. apply list_elem_of_omap in H as (b & _ & Hb).
      by destruct (loaded_of load_and_crop_image b).
  - unfold run_many, categorize. fold E. cbv zeta.
    change (Config.REID_EMBEDDING_PREFIX +:+ species) with reid.
    change Config.RAW_FOR_ADAPTER_TYPE with raw.
    rewrite Hcat. cbn [mbind option_bind].
    rewrite Hp1. cbn [mbind option_bind].
    rewrite Hp2. cbn [mbind option_bind].
    rewrite Hcached, He1, He2, Hids2.
    rewrite combine_loop by done. cbn [mbind option_bind app].
    by destruct (omap (kept (omap id l')) E).
Qed.

(** *** Embeddings of one dimension *)

Hypothesis dims_ok :
  one_dimension load_and_crop_image forward forward_from_raw
                cache species detections.

Lemma np_stack_uniform {A} (D : nat) (arrays : list (list A)) :
  arrays ≠ [] → Forall (fun a => length a = D) arrays →
  np_stack arrays = Some arrays.
Proof.
  destruct arrays as [|a rest]; [done|]. intros _ H.
  apply Forall_cons in H as [Ha Hr]. unfold np_stack.
  rewrite (proj2 (forallb_forall _ _)); [done|].
  intros b Hb%list_elem_of_In. apply Nat.eqb_eq. rewrite Ha.
  rewrite Forall_forall in Hr. by apply Hr.
Qed.

Lemma kept_dims (survivors : list Z) :
  ∃ D : nat,
    Forall (fun v : list f32 => length v = D)
           (map snd (omap (kept survivors) E)).
Proof.
  destruct dims_ok as [D HD]. exists D. apply Forall_forall.
  intros v Hv. apply list_elem_of_fmap in Hv as ([i v'] & -> & Hin).
  apply list_elem_of_omap in Hin as ([j det] & Hin & Hk).
  unfold kept in Hk. case_bool_decide; [|done]. cbn [fst snd] in Hk.
  destruct (own det) as [w|] eqn:Hown; simplify_eq/=.
  rewrite Forall_forall in HD. apply (HD (det, v')).
  unfold surviving. apply list_elem_of_omap. exists det.
  split; [by eapply in_E_detections|].
  change (own_embedding load_and_crop_image forward forward_from_raw
            cache species det) with (own det).
  by rewrite Hown.
Qed.

(** With embeddings of one dimension the stacking cannot raise. *)
Lemma run_many_steps :
  ∃ (l' : list (option Z)) (calls2 : list call) (store2 : option db),
    marked = Some l' ∧
    (∀ i, adapter_called calls2 i ↔
          ∃ det w, (i, det) ∈ E ∧
                   classify cache reid raw det = Some (AdapterOnly w)) ∧
    (∀ i, full_called calls2 i ↔
          ∃ det, (i, det) ∈ E ∧
                 classify cache reid raw det = Some FullComputation ∧
                 is_Some (load_and_crop_image (image_path det) (bbox det))) ∧
    (∀ n, (CallDistance n ∉ calls2) ∧ (CallCluster n ∉ calls2)) ∧
    run_many load_and_crop_image forward forward_from_raw
             detections cache species batch_size now
    = match omap (kept (omap id l')) E with
      | [] => Some (Result [] store2 calls2)
      | all =>
          id_dict ←
            Cluster.process_dist_mat_v2
              (Distance.compute_distance_matrix
                 (map (fun e => map value e.2) all));
          individuals ←
            format_output_with_detection_ids (omap id l') id_dict;
          Some (Result individuals store2
                       (calls2 ++ [CallDistance (length all);
                                   CallCluster (length all)]))
      end.
Proof.
  destruct run_many_body
    as (l' & calls2 & store2 & Hmark & Had & Hfu & Hno & Hrun).
  exists l', calls2, store2.
  split; [done|]. split; [done|]. split; [done|]. split; [done|].
  rewrite Hrun. destruct (kept_dims (omap id l')) as [D HD].
  destruct (omap (kept (omap id l')) E) as [|e all] eqn:Hall; [done|].
  rewrite (np_stack_uniform D) by done.
  cbn [mbind option_bind]. by rewrite map_map, length_map.
Qed.

(** *** Survivors *)

Lemma own_eq (det : detection) :
  own det
  = match classify cache reid raw det with
    | Some (FullyCached v) => Some v
    | Some (AdapterOnly w) =>
        Some (forward_from_raw w
                (is_day_or_default load_and_crop_image det))
    | Some FullComputation =>
        match load_and_crop_image (image_path det) (bbox det) with
        | Some (img, is_day) => Some (forward img is_day)
        | None => None
        end
    | None => None
    end.
Proof. done. Qed.

(** A detection has no embedding exactly when it is on the full path and
    its image does not load. *)
Lemma own_None (i : nat) (det : detection) :
  (i, det) ∈ E →
  own det = None ↔
  classify cache reid raw det = Some FullComputation ∧
  load_and_crop_image (image_path det) (bbox det) = None.
Proof.
  intros Hin. rewrite own_eq.
  pose proof E_classify as Hc. rewrite Forall_forall in Hc.
  destruct (Hc _ Hin) as [tr Htr]. simpl in Htr. rewrite Htr.
  destruct tr as [v|w|]; [by split; [|intros [? _]]..|].
  destruct (load_and_crop_image (image_path det) (bbox det)) as [[??]|];
    [by split; [|intros [_ ?]] | done].
Qed.

Lemma failed_by_own (E' : list (nat * detection)) :
  (∀ x, x ∈ E' → x ∈ E) →
  failed_of load_and_crop_image (full_items cache reid raw E')
  = omap (fun x : nat * detection =>
            match own x.2 with
            | Some _ => None
            | None => Some (detection_id x.2)
            end) E'.
Proof.
  induction E' as [|[i det] E' IH]; intros Hsub; [done|].
  unfold failed_of, full_items in *. cbn [omap list_omap fst snd].
  rewrite own_eq.
  pose proof E_classify as Hc. rewrite Forall_forall in Hc.
  destruct (Hc (i, det)) as [tr Htr]; [apply Hsub, list_elem_of_here|].
  simpl in Htr. rewrite Htr.
  assert (∀ x, x ∈ E' → x ∈ E) as Hsub'
    by (intros; by apply Hsub, list_elem_of_further).
  destruct tr as [v|w|]; cbn [omap list_omap fst snd]; try by apply IH.
  destruct (load_and_crop_image (image_path det) (bbox det)) as [[??]|];
    [by apply IH | by rewrite IH].
Qed.

Lemma omap_length_le {A B C} (f : A → option B) (g : A → option C)
  (l : list A) :
  (∀ x, is_Some (f x) → is_Some (g x)) →
  (length (omap f l) ≤ length (omap g l))%nat.
Proof.
  intros Hfg. unfold omap. induction l as [|x l IH]; simpl; [done|].
  destruct (f x) eqn:Hf; simpl.
  - destruct (Hfg x) as [y ->]; [by rewrite Hf|]. simpl. lia.
  - destruct (g x); simpl; lia.
Qed.

Lemma own_failed_count (E' : list (nat * detection)) :
  (length (omap (fun x : nat * detection => own x.2) E')
   + length (omap (fun x : nat * detection =>
                     match own x.2 with
                     | Some _ => None
                     | None => Some (detection_id x.2)
                     end) E'))%nat
  = length E'.
Proof.
  unfold omap. induction E' as [|x E' IH]; simpl; [done|].
  destruct (own x.2); simpl; lia.
Qed.

Lemma omap_enumerate_from {A B} (f : A → option B) (s : nat) (l : list A) :
  omap (fun x : nat * A => f x.2) (enumerate_from s l) = omap f l.
Proof.
  revert s. induction l as [|x l IH]; intros s; simpl; [done|].
  by rewrite IH.
Qed.

(** The job returns, whatever loads fail. *)
Lemma run_many_returns :
  ∃ (res : result) (l' : list (option Z)) (calls2 : list call),
    run_many load_and_crop_image forward forward_from_raw
             detections cache species batch_size now = Some res ∧
    marked = Some l' ∧
    (∀ i, adapter_called calls2 i ↔
          ∃ det w, (i, det) ∈ E ∧
                   classify cache reid raw det = Some (AdapterOnly w)) ∧
    (∀ i, full_called calls2 i ↔
          ∃ det, (i, det) ∈ E ∧
                 classify cache reid raw det = Some FullComputation ∧
                 is_Some (load_and_crop_image (image_path det) (bbox det))) ∧
    (calls res = calls2 ∨
     ∃ n, calls res = calls2 ++ [CallDistance n; CallCluster n]) ∧
    (∀ x, x ∈ mentioned (output res) ↔
          ∃ k, (k < length (omap (kept (omap id l')) E))%nat ∧
               omap id l' !! k = Some x).
Proof.
  destruct run_many_steps as (l' & calls2 & store2 & Hmark & Had & Hfu & _
                              & Hrun).
  (* as many identifiers survive as detections have an embedding *)
  assert (length (omap (kept (omap id l')) E) ≤ length (omap id l'))%nat
    as Hlen.
  { destruct (mark_all_ok
                (failed_of load_and_crop_image (full_items cache reid raw E))
                ((fun x => Some (detection_id x.2)) <$> E))
      as (l'' & Hmark' & Hperm & _).
    { rewrite omap_id_fmap_Some. apply failed_submseteq. }
    unfold marked in Hmark. rewrite Hmark in Hmark'. injection Hmark' as <-.
    apply Permutation_length in Hperm.
    rewrite omap_id_fmap_Some, length_app, length_fmap in Hperm.
    rewrite failed_by_own in Hperm by done.
    pose proof (own_failed_count E) as Hcount.
    pose proof (omap_length_le (kept (omap id l'))
                  (fun x : nat * detection => own x.2) E) as Hle.
    assert (∀ x, is_Some (kept (omap id l') x) → is_Some (own x.2)) as Hk.
    { intros x. unfold kept. case_bool_decide; [|by intros [? ?]].
      destruct (own x.2); [by eexists | by intros [? ?]]. }
    specialize (Hle Hk). lia. }
  destruct (omap (kept (omap id l')) E) as [|e all] eqn:Hall.
  - exists (Result [] store2 calls2), l', calls2.
    split; [done|]. split; [done|]. split; [done|]. split; [done|].
    split; [by left|]. intros x. simpl. split.
    + by intros ?%elem_of_nil.
    + intros (k & Hk & _). rewrite Hall in Hk. simpl in Hk. lia.
  - cbv beta iota zeta in Hrun.
    set (M := Distance.compute_distance_matrix
                (map (fun e0 : nat * list f32 => map value e0.2) (e :: all)))
      in *.
    assert (length M = length (e :: all)) as HM.
    { unfold M.
      by rewrite DistanceFacts.compute_distance_matrix_length, length_map. }
    destruct (ClusterFacts.clusterer_partition M) as (out & Hout & Hrange
                                                       & Htot).
    { rewrite HM. simpl. lia. }
    { apply DistanceFacts.compute_distance_matrix_square. }
    destruct (format_ok (omap id l') out) as (inds & Hfmt & Hment).
    { intros a idxs i Hin Hi. specialize (Hrange a idxs i Hin Hi). lia. }
    rewrite Hout in Hrun. cbn [mbind option_bind] in Hrun.
    rewrite Hfmt in Hrun. cbn [mbind option_bind] in Hrun.
    eexists _, l', calls2.
    split; [exact Hrun|]. split; [done|]. split; [done|]. split; [done|].
    split; [right; by eexists|]. intros x. cbn [output]. rewrite Hment. split.
    + intros (a & idxs & i & Hin & Hi & Hl). exists i. split; [|done].
      specialize (Hrange a idxs i Hin Hi). rewrite HM in Hrange.
      rewrite ?Hall. exact Hrange.
    + intros (k & Hk & Hl). rewrite ?Hall in Hk.
      destruct (Htot k) as (a & idxs & Hin & Hi); [rewrite HM; exact Hk|].
      by exists a, idxs, k.
Qed.

(** *** Distinct identifiers *)

Hypothesis ids_distinct : NoDup (detection_id <$> detections).

Lemma fmap_enumerate_from {A B} (f : A → B) (s : nat) (l : list A) :
  (fun x : nat * A => f x.2) <$> enumerate_from s l = f <$> l.
Proof.
  revert s. induction l as [|x l IH]; intros s; simpl; [done|].
  by rewrite IH.
Qed.

Lemma E_ids_NoDup : NoDup ((fun x : nat * detection => detection_id x.2) <$> E).
Proof. unfold E, enumerate. by rewrite fmap_enumerate_from. Qed.

Lemma E_id_inj (x y : nat * detection) :
  x ∈ E → y ∈ E → detection_id x.2 = detection_id y.2 → x = y.
Proof.
  intros [i Hi]%list_elem_of_lookup_1 [j Hj]%list_elem_of_lookup_1 Heq.
  assert (i = j) as ->; [|congruence].
  eapply (NoDup_lookup _ i j); [exact E_ids_NoDup | |];
    rewrite list_lookup_fmap; [by rewrite Hi | by rewrite Hj, Heq].
Qed.

Lemma omap_sublist_fmap {A B} (f : A → option B) (g : A → B) (l : list A) :
  (∀ x y, f x = Some y → y = g x) → omap f l `sublist_of` g <$> l.
Proof.
  intros Hfg. induction l as [|x l IH]; simpl; [done|].
  destruct (f x) as [y|] eqn:Hf; [|by apply sublist_cons].
  rewrite (Hfg _ _ Hf). by apply sublist_skip.
Qed.

(** With distinct identifiers, the identifiers left after the marking are
    those of the detections that have an embedding, in input order. *)
Lemma survivors_exact (l' : list (option Z)) :
  marked = Some l' →
  omap id l'
  = omap (fun x : nat * detection =>
            match own x.2 with
            | Some _ => Some (detection_id x.2)
            | None => None
            end) E.
Proof.
  intros Hmark.
  destruct (mark_all_ok
              (failed_of load_and_crop_image (full_items cache reid raw E))
              ((fun x => Some (detection_id x.2)) <$> E))
    as (l'' & Hmark' & Hperm & _).
  { rewrite omap_id_fmap_Some. apply failed_submseteq. }
  unfold marked in Hmark. rewrite Hmark in Hmark'. injection Hmark' as <-.
  rewrite omap_id_fmap_Some, failed_by_own in Hperm by done.
  pose proof E_ids_NoDup as Hnd.
  apply (sublist_NoDup_eq _ _ _ Hnd).
  - apply mark_all_sublist in Hmark. by rewrite omap_id_fmap_Some in Hmark.
  - apply omap_sublist_fmap. intros x y. by destruct (own x.2); intros [= <-].
  - assert (NoDup
              (omap (fun x : nat * detection =>
                       match own x.2 with
                       | Some _ => None
                       | None => Some (detection_id x.2)
                       end) E ++ omap id l')) as Hnd'
      by (by rewrite <- Hperm).
    apply NoDup_app in Hnd' as (_ & Hdisj & _).
    intros x. split.
    + intros Hx. apply list_elem_of_omap.
      assert (x ∈ (fun x : nat * detection => detection_id x.2) <$> E)
        as ([i det] & -> & Hin)%list_elem_of_fmap.
      { rewrite Hperm. apply elem_of_app. by right. }
      exists (i, det). split; [done|]. simpl in *.
      destruct (own det) eqn:Hown; [done|]. exfalso.
      apply (Hdisj (detection_id det)); [|done].
      apply list_elem_of_omap. exists (i, det). split; [done|]. simpl.
      by rewrite Hown.
    + intros ([i det] & Hin & Hx)%list_elem_of_omap. simpl in Hx.
      destruct (own det) eqn:Hown; simplify_eq.
      assert (detection_id det
                ∈ (fun x : nat * detection => detection_id x.2) <$> E) as Hall
        by (apply list_elem_of_fmap; by exists (i, det)).
      rewrite Hperm in Hall. apply elem_of_app in Hall as [Hf|?]; [|done].
      exfalso. apply list_elem_of_omap in Hf as ([i' det'] & Hin' & Hx').
      simpl in Hx'. destruct (own det') eqn:Hown'; simplify_eq.
      assert ((i', det') = (i, det)) as [= -> ->] by (by apply E_id_inj).
      congruence.
Qed.

Lemma kept_exact (l' : list (option Z)) :
  marked = Some l' →
  omap (kept (omap id l')) E
  = omap (fun x : nat * detection => (fun v => (x.1, v)) <$> own x.2) E.
Proof.
  intros Hmark.
  assert (∀ x, x ∈ E →
            kept (omap id l') x = (fun v => (x.1, v)) <$> own x.2) as Hk.
  { intros [i det] Hin. unfold kept. cbn [fst snd].
    destruct (own det) as [v|] eqn:Hown; [|by case_bool_decide].
    rewrite bool_decide_eq_true_2; [done|].
    rewrite (survivors_exact l' Hmark). apply list_elem_of_omap.
    exists (i, det). split; [done|]. simpl. by rewrite Hown. }
  revert Hk. generalize E. intros E' Hk.
  induction E' as [|x E' IH]; [done|]. cbn [omap list_omap].
  rewrite Hk by apply list_elem_of_here.
  rewrite IH by (intros; by apply Hk, list_elem_of_further). done.
Qed.

Lemma surviving_views (l : list detection) :
  ∀ s,
  map (fun e : nat * list f32 => map value e.2)
      (omap (fun x : nat * detection => (fun v => (x.1, v)) <$> own x.2)
            (enumerate_from s l))
  = map (fun e : detection * list f32 => map value e.2)
        (omap (fun det => v ← own det; Some (det, v)) l)
  ∧ omap (fun x : nat * detection =>
            match own x.2 with
            | Some _ => Some (detection_id x.2)
            | None => None
            end) (enumerate_from s l)
    = map (fun e : detection * list f32 => detection_id e.1)
          (omap (fun det => v ← own det; Some (det, v)) l)
  ∧ length (omap (fun x : nat * detection => (fun v => (x.1, v)) <$> own x.2)
                 (enumerate_from s l))
    = length (omap (fun det => v ← own det; Some (det, v)) l).
Proof.
  induction l as [|det l IH]; intros s; [done|].
  destruct (IH (S s)) as (H1 & H2 & H3).
  cbn [enumerate_from omap list_omap fst snd].
  destruct (own det) as [v|];
    cbn [fmap option_fmap option_map mbind option_bind map length fst snd].
  - by rewrite H1, H2, H3.
  - done.
Qed.

(** The labelled clusters the job writes are the clusters of the surviving
    embeddings, each labelled with the identifier of its own detection. *)
Lemma run_many_aligned :
  output <$> run_many load_and_crop_image forward forward_from_raw
                      detections cache species batch_size now
  = expected_output load_and_crop_image forward forward_from_raw
                    cache species detections.
Proof.
  destruct run_many_steps as (l' & calls2 & store2 & Hmark & _ & _ & _ & ->).
  rewrite (kept_exact l' Hmark), (survivors_exact l' Hmark).
  unfold expected_output, surviving. fold own.
  destruct (surviving_views detections 0) as (H1 & H2 & H3).
  fold (enumerate detections) in H1, H2, H3. fold E in H1, H2, H3.
  rewrite <- H1, <- H2.
  destruct (omap (fun x : nat * detection =>
                    (fun v => (x.1, v)) <$> own x.2) E) as [|e all];
    destruct (omap (fun det => v ← own det; Some (det, v)) detections)
      as [|e' all']; try done.
  cbv beta iota zeta.
  destruct (Cluster.process_dist_mat_v2 _) as [out|]; [|done].
  cbn [mbind option_bind].
  by destruct (format_output_with_detection_ids _ out).
Qed.

End Job.

(** *** Records and tiers *)

Lemma select_one_record (d : db) (k : key) :
  is_Some (select_one d k) ↔ ∃ r, r ∈ rows d ∧ row_key r = k.
Proof.
  unfold select_one. split.
  - intros [r [Hin Hk]%find_elem]. exists r. split; [done|].
    by apply CacheFacts.key_matches_true.
  - intros (r & Hin & Hk).
    destruct (List.find (key_matches k) (rows d)) as [r'|] eqn:Hf;
      [by eexists|].
    exfalso. apply list_elem_of_In in Hin.
    pose proof (find_none _ _ Hf r Hin) as Hn.
    apply CacheFacts.key_matches_true in Hk. congruence.
Qed.

Lemma get_embedding_record (d : db) image_id b variant :
  is_Some (bbox_to_hash b) → int64 image_id = true → blobs_ok d = true →
  (has_record d image_id b variant →
   ∃ v, get_embedding d image_id b variant = Some (Some v)) ∧
  (¬ has_record d image_id b variant →
   get_embedding d image_id b variant = Some None).
Proof.
  intros [h Hh] Hid Hok.
  destruct (get_embedding_is_Some d image_id b variant) as [o Ho];
    [by eexists | done | done |].
  unfold get_embedding in *. rewrite Hh, Hid in *. simpl in *.
  destruct (select_one d (image_id, h, variant)) as [r|] eqn:Hsel.
  - destruct (frombuffer (embedding r)) as [v|]; simplify_eq/=.
    split; [by eexists|]. intros Hno. exfalso. apply Hno.
    destruct (proj1 (select_one_record d (image_id, h, variant)))
      as (r' & Hin & Hk); [by rewrite Hsel|].
    by exists h, r'.
  - split; [|done]. intros (h' & r & Hh' & Hin & Hk).
    assert (h' = h) as -> by congruence.
    destruct (proj2 (select_one_record d (image_id, h, variant)))
      as [r' Hr']; [by exists r|]. congruence.
Qed.

(** The tier of a detection, by the records the store holds for it. *)
Lemma classify_by_records (d : db) reid raw det image_id :
  is_Some (bbox_to_hash (bbox det)) → blobs_ok d = true →
  det_image_id det = Some image_id → int64 image_id = true →
  (has_record d image_id (bbox det) reid →
   ∃ v, classify (Some d) reid raw det = Some (FullyCached v)) ∧
  (¬ has_record d image_id (bbox det) reid →
   has_record d image_id (bbox det) raw →
   ∃ w, classify (Some d) reid raw det = Some (AdapterOnly w)) ∧
  (¬ has_record d image_id (bbox det) reid →
   ¬ has_record d image_id (bbox det) raw →
   classify (Some d) reid raw det = Some FullComputation).
Proof.
  intros Hb Hok Himg Hid. unfold classify. rewrite Himg.
  destruct (get_embedding_record d image_id (bbox det) reid Hb Hid Hok)
    as [Hr1 Hr2].
  destruct (get_embedding_record d image_id (bbox det) raw Hb Hid Hok)
    as [Hw1 Hw2].
  split; [|split].
  - intros [v ->]%Hr1. by exists v.
  - intros ->%Hr2 [w ->]%Hw1. by exists w.
  - intros ->%Hr2 ->%Hw2. done.
Qed.

Lemma run_as_run_many `{kernel : Distance.Matmul}
  {image : Type}
  (load_and_crop_image : string → list Q → option (image * Z))
  (forward : image → Z → list f32) (forward_from_raw : list f32 → Z → list f32)
  detections cache species batch_size now :
  (2 ≤ length detections)%nat →
  run load_and_crop_image forward forward_from_raw
      detections cache species batch_size now
  = run_many load_and_crop_image forward forward_from_raw
             detections cache species batch_size now.
Proof.
  destruct detections as [|d1 [|d2 rest]]; simpl; (lia || done).
Qed.

Lemma adapter_called_tail calls2 n i :
  adapter_called (calls2 ++ [CallDistance n; CallCluster n]) i
  ↔ adapter_called calls2 i.
Proof.
  unfold adapter_called. split.
  - intros (idxs & [H|H]%elem_of_app & Hi); [by exists idxs|].
    exfalso. repeat (apply elem_of_cons in H as [H|H]; [done|]).
    by apply elem_of_nil in H.
  - intros (idxs & H & Hi). exists idxs. split; [|done].
    apply elem_of_app. by left.
Qed.

Lemma full_called_tail calls2 n i :
  full_called (calls2 ++ [CallDistance n; CallCluster n]) i
  ↔ full_called calls2 i.
Proof.
  unfold full_called. split.
  - intros (idxs & [H|H]%elem_of_app & Hi); [by exists idxs|].
    exfalso. repeat (apply elem_of_cons in H as [H|H]; [done|]).
    by apply elem_of_nil in H.
  - intros (idxs & H & Hi). exists idxs. split; [|done].
    apply elem_of_app. by left.
Qed.

Lemma omap_all_None {A B} (f : A → option B) (l : list A) :
  (∀ x, x ∈ l → f x = None) → omap f l = [].
Proof.
  induction l as [|a l IH]; intros H; [done|].
  cbn [omap list_omap]. rewrite (H a) by apply list_elem_of_here.
  apply IH. intros x Hx. apply H. by apply list_elem_of_further.
Qed.

Section Calls.

Context `{kernel : Distance.Matmul}.
Context {image : Type}.
Variable load_and_crop_image : string → list Q → option (image * Z).
Variable forward : image → Z → list f32.
Variable forward_from_raw : list f32 → Z → list f32.
Variable detections : list detection.
Variable cache : option db.
Variable species : string.
Variable batch_size : nat.
Variable now : nat → Z.

Hypothesis at_least_two : (2 ≤ length detections)%nat.
Hypothesis batch_size_pos : (0 < batch_size)%nat.
Hypothesis bboxes_ok :
  Forall (fun det => length (bbox det) = 4%nat) detections.
Hypothesis cache_ok : ∀ d, cache = Some d → blobs_ok d = true.
Hypothesis ids_ok : image_ids_ok detections.
Hypothesis dims_ok :
  one_dimension load_and_crop_image forward forward_from_raw
                cache species detections.

(** Which model sees which detection, by the tier of the detection. *)
Lemma run_calls_by_tier :
  ∃ res,
    run load_and_crop_image forward forward_from_raw
        detections cache species batch_size now = Some res ∧
    ∀ i det, detections !! i = Some det →
      (adapter_called (calls res) i
       ↔ ∃ w, classify cache (variants species).1 (variants species).2 det
              = Some (AdapterOnly w)) ∧
      (full_called (calls res) i
       ↔ classify cache (variants species).1 (variants species).2 det
         = Some FullComputation ∧
         is_Some (load_and_crop_image (image_path det) (bbox det))).
Proof.
  rewrite run_as_run_many by done.
  destruct (run_many_returns load_and_crop_image forward forward_from_raw
              detections cache species bboxes_ok cache_ok ids_ok batch_size now
              batch_size_pos dims_ok)
    as (res & l' & calls2 & Hrun & _ & Had & Hfu & Hcalls & _).
  exists res. split; [done|]. intros i det Hi.
  assert (∀ det', (i, det') ∈ enumerate detections → det' = det) as Hsame.
  { intros det' Hin%in_E_lookup. congruence. }
  assert ((i, det) ∈ enumerate detections) as Hin by by apply in_E_lookup.
  assert ((adapter_called (calls res) i ↔ adapter_called calls2 i) ∧
          (full_called (calls res) i ↔ full_called calls2 i)) as [-> ->].
  { destruct Hcalls as [->|[n ->]]; [done|].
    split; [apply adapter_called_tail | apply full_called_tail]. }
  rewrite Had, Hfu. split; split.
  - intros (det' & w & Hin' & Hc). rewrite (Hsame _ Hin') in Hc. by exists w.
  - intros [w Hc]. by exists det, w.
  - intros (det' & Hin' & Hc). by rewrite (Hsame _ Hin') in Hc.
  - intros Hc. by exists det.
Qed.

(** With every load failing on the full path no embedding is left, the
    output is empty and neither distances nor clusters are computed. *)
Lemma run_none_left :
  (∀ det, det ∈ detections →
     own_embedding load_and_crop_image forward forward_from_raw
                   cache species det = None) →
  ∃ res,
    run load_and_crop_image forward forward_from_raw
        detections cache species batch_size now = Some res ∧
    output res = [] ∧
    ∀ n, (CallDistance n ∉ calls res) ∧ (CallCluster n ∉ calls res).
Proof.
  intros Hnone. rewrite run_as_run_many by done.
  destruct (run_many_body load_and_crop_image forward forward_from_raw
              detections cache species bboxes_ok cache_ok ids_ok batch_size now
              batch_size_pos)
    as (l' & calls2 & store2 & _ & _ & _ & Hno & Hrun).
  rewrite omap_all_None in Hrun.
  - eexists. split; [exact Hrun|]. by split.
  - intros [i det] Hin. unfold kept. case_bool_decide; [|done].
    cbn [snd]. by rewrite (Hnone det) by by eapply in_E_detections.
Qed.

(** The identifiers of the output are the identifiers of the detections
    that have an embedding. *)
Lemma run_mentions_survivors :
  NoDup (detection_id <$> detections) →
  ∃ res,
    run load_and_crop_image forward forward_from_raw
        detections cache species batch_size now = Some res ∧
    Some (output res)
    = expected_output load_and_crop_image forward forward_from_raw
                      cache species detections ∧
    ∀ x, x ∈ mentioned (output res)
         ↔ ∃ det, det ∈ detections ∧ detection_id det = x ∧
                  is_Some (own_embedding load_and_crop_image forward
                             forward_from_raw cache species det).
Proof.
  intros Hnd. rewrite run_as_run_many by done.
  pose proof (run_many_aligned load_and_crop_image forward forward_from_raw
                detections cache species bboxes_ok cache_ok ids_ok batch_size now
                batch_size_pos dims_ok Hnd) as Hal.
  destruct (run_many_returns load_and_crop_image forward forward_from_raw
              detections cache species bboxes_ok cache_ok ids_ok batch_size now
              batch_size_pos dims_ok)
    as (res & l' & calls2 & Hrun & Hmark & _ & _ & _ & Hment).
  exists res. split; [done|]. rewrite Hrun in Hal. split; [exact Hal|].
  intros x. rewrite Hment.
  rewrite (kept_exact load_and_crop_image forward forward_from_raw
             detections cache species bboxes_ok cache_ok ids_ok Hnd l' Hmark).
  rewrite (survivors_exact load_and_crop_image forward forward_from_raw
             detections cache species bboxes_ok cache_ok ids_ok Hnd l' Hmark).
  destruct (surviving_views load_and_crop_image forward forward_from_raw
              cache species detections 0) as (_ & H2 & H3).
  change (enumerate_from 0 detections) with (enumerate detections) in H2, H3.
  rewrite H3. apply (f_equal length) in H2. rewrite length_map in H2.
  rewrite <- H2. split.
  - intros (k & _ & Hk). apply list_elem_of_lookup_2 in Hk.
    apply list_elem_of_omap in Hk as ([i det] & Hin & Hx). cbn [snd] in Hx.
    exists det. split; [by eapply in_E_detections|].
    destruct (own_embedding _ _ _ _ _ det) as [v|]; [|done].
    split; [congruence | by eexists].
  - intros (det & [i Hi]%list_elem_of_lookup_1 & Hid & [v Hv]).
    assert (x ∈ omap
              (fun y : nat * detection =>
                 match own_embedding load_and_crop_image forward
                         forward_from_raw cache species y.2 with
                 | Some _ => Some (detection_id y.2)
                 | None => None
                 end) (enumerate detections)) as Hx.
    { apply list_elem_of_omap. exists (i, det).
      split; [by apply in_E_lookup|]. cbn [snd]. by rewrite Hv, Hid. }
    apply list_elem_of_lookup_1 in Hx as [k Hk]. exists k.
    split; [by eapply lookup_lt_Some | done].
Qed.

End Calls.

(** *** The dispatcher *)

(** C3, as the code has it.  A job of at least two detections, with a
    positive batch size, bboxes of four coordinates, a store of whole float32
    blobs and embeddings of one dimension, returns, and it has classified
    every detection that has an image id against the store in this priority:
    with a record of the final variant [dinov3_reid_<species>] no model sees
    the detection, whether or not an intermediate record exists; without one
    but with a record of the variant the dispatcher reads,
    [RAW_FOR_ADAPTER_TYPE], the adapter sees it and the full model does not;
    with neither, the adapter does not see it and the full model sees it
    exactly when its image loads. *)
Theorem run_dispatches_by_tier `{kernel : Distance.Matmul}
  {image : Type}
  (load_and_crop_image : string → list Q → option (image * Z))
  (forward : image → Z → list f32)
  (forward_from_raw : list f32 → Z → list f32)
  (detections : list detection) (d : db) (species : string)
  (batch_size : nat) (now : nat → Z) :
  (2 ≤ length detections)%nat →
  (0 < batch_size)%nat →
  Forall (fun det => length (bbox det) = 4%nat) detections →
  image_ids_ok detections →
  blobs_ok d = true →
  one_dimension load_and_crop_image forward forward_from_raw
                (Some d) species detections →
  ∃ res,
    run load_and_crop_image forward forward_from_raw
        detections (Some d) species batch_size now = Some res ∧
    ∀ i det image_id,
      detections !! i = Some det → det_image_id det = Some image_id →
      let final :=
        has_record d image_id (bbox det)
                   (Config.REID_EMBEDDING_PREFIX +:+ species) in
      let intermediate :=
        has_record d image_id (bbox det) Config.RAW_FOR_ADAPTER_TYPE in
      (final →
       ¬ adapter_called (calls res) i ∧ ¬ full_called (calls res) i) ∧
      (¬ final → intermediate →
       adapter_called (calls res) i ∧ ¬ full_called (calls res) i) ∧
      (¬ final → ¬ intermediate →
       ¬ adapter_called (calls res) i ∧
       (full_called (calls res) i
        ↔ is_Some (load_and_crop_image (image_path det) (bbox det)))).
Proof.
  intros Hlen Hbs Hbb Hids Hok Hdim.
  destruct (run_calls_by_tier load_and_crop_image forward forward_from_raw
              detections (Some d) species batch_size now Hlen Hbs Hbb)
    as (res & Hrun & Hcalls); [by intros d' [= <-] | done | done |].
  exists res. split; [done|]. intros i det image_id Hi Himg.
  destruct (Hcalls i det Hi) as [Had Hfu]. cbn [variants fst snd] in Had, Hfu.
  assert (is_Some (bbox_to_hash (bbox det))) as Hb.
  { apply bbox_to_hash_is_Some.
    by apply (proj1 (Forall_lookup _ _) Hbb i det). }
  assert (int64 image_id = true) as Hid.
  { pose proof (proj1 (Forall_lookup _ _) Hids i det Hi) as H.
    simpl in H. by rewrite Himg in H. }
  destruct (classify_by_records d (Config.REID_EMBEDDING_PREFIX +:+ species)
              Config.RAW_FOR_ADAPTER_TYPE det image_id Hb Hok Himg Hid)
    as (T1 & T2 & T3).
  cbv zeta. rewrite Had, Hfu. split; [|split].
  - intros [v Hc]%T1. rewrite Hc. split; [by intros [w ?] | by intros [? _]].
  - intros Hn [w Hc]%(T2 Hn). rewrite Hc.
    split; [by exists w | by intros [? _]].
  - intros Hn Hc%(T3 Hn). rewrite Hc. split; [by intros [w ?]|].
    split; [by intros [_ ?] | done].
Qed.

(** A job that meets the hypotheses of C3: one detection with a raw record
    only, one with no record. *)
Lemma run_dispatches_by_tier_witness :
  (2 ≤ length Fixture.with_image_ids)%nat ∧
  (0 < 4)%nat ∧
  Forall (fun det => length (bbox det) = 4%nat) Fixture.with_image_ids ∧
  image_ids_ok Fixture.with_image_ids ∧
  blobs_ok Fixture.raw_store = true ∧
  one_dimension Fixture.load Fixture.model Fixture.adapter
                (Some Fixture.raw_store) "stoat" Fixture.with_image_ids ∧
  ∃ res,
    run (kernel := Distance.exact)
        Fixture.load Fixture.model Fixture.adapter Fixture.with_image_ids
        (Some Fixture.raw_store) "stoat" 4 Fixture.clock = Some res ∧
    ∀ i det image_id,
      Fixture.with_image_ids !! i = Some det →
      det_image_id det = Some image_id →
      ¬ has_record Fixture.raw_store image_id (bbox det)
                   (Config.REID_EMBEDDING_PREFIX +:+ "stoat") →
      ¬ has_record Fixture.raw_store image_id (bbox det)
                   Config.RAW_FOR_ADAPTER_TYPE →
      ¬ adapter_called (calls res) i.
Proof.
  assert (one_dimension Fixture.load Fixture.model Fixture.adapter
            (Some Fixture.raw_store) "stoat" Fixture.with_image_ids) as Hdim.
  { exists 2%nat. vm_compute. by repeat constructor. }
  split; [simpl; lia|]. split; [lia|]. split; [by repeat constructor|].
  split; [by repeat constructor|].
  split; [reflexivity|]. split; [exact Hdim|].
  destruct (run_dispatches_by_tier (kernel := Distance.exact) Fixture.load
              Fixture.model Fixture.adapter Fixture.with_image_ids
              Fixture.raw_store "stoat" 4 Fixture.clock)
    as (res & Hrun & Hall);
    [simpl; lia | lia | by repeat constructor | by repeat constructor
     | reflexivity | exact Hdim |].
  exists res. split; [exact Hrun|].
  intros i det image_id Hi Himg Hn1 Hn2.
  destruct (Hall i det image_id Hi Himg) as (_ & _ & H3).
  exact (proj1 (H3 Hn1 Hn2)).
Defined.

(** C3, as the claim words it, fails on the raw feature the detection stage
    caches under [RAW_EMBEDDING_TYPE]: the dispatcher reads the variant
    [RAW_FOR_ADAPTER_TYPE], a different name, so a detection that has a raw
    record and no final record goes through the full model and never
    through the adapter. *)
Lemma raw_record_runs_the_full_model :
  has_record Fixture.raw_store 1 Fixture.box Config.RAW_EMBEDDING_TYPE ∧
  Fixture.with_image_ids !! 0%nat
  = Some (Detection 7 "east.jpg" Fixture.box (Some 1)) ∧
  calls <$> run (kernel := Distance.exact)
      Fixture.load Fixture.model Fixture.adapter
                Fixture.with_image_ids (Some Fixture.raw_store) "stoat" 4 Fixture.clock
  = Some [CallFull [0%nat; 1%nat]; CallDistance 2; CallCluster 2].
Proof.
  split; [|split; [reflexivity | by vm_compute]].
  exists "0_0_10_10", (Row 1 1 "0_0_10_10" "dinov3_raw" (tobytes Fixture.east) 5).
  split; [reflexivity|]. split; [|reflexivity].
  apply list_elem_of_here.
Qed.

(** *** Load failures *)

(** C8, as the code has it.  A job of at least two detections with pairwise
    distinct identifiers (and a positive batch size, bboxes of four
    coordinates, a store of whole float32 blobs, embeddings of one dimension)
    returns; its output is the clustering of the embeddings of the surviving
    detections in input order, the i-th of them labelled with the identifier
    of the i-th survivor; the identifiers of the output are exactly those of
    the survivors; and a detection on the full path whose image does not load
    appears nowhere in the output. *)
Theorem run_labels_the_survivors `{kernel : Distance.Matmul}
  {image : Type}
  (load_and_crop_image : string → list Q → option (image * Z))
  (forward : image → Z → list f32)
  (forward_from_raw : list f32 → Z → list f32)
  (detections : list detection) (cache : option db) (species : string)
  (batch_size : nat) (now : nat → Z) :
  (2 ≤ length detections)%nat →
  (0 < batch_size)%nat →
  Forall (fun det => length (bbox det) = 4%nat) detections →
  image_ids_ok detections →
  (∀ d, cache = Some d → blobs_ok d = true) →
  one_dimension load_and_crop_image forward forward_from_raw
                cache species detections →
  NoDup (detection_id <$> detections) →
  ∃ res,
    run load_and_crop_image forward forward_from_raw
        detections cache species batch_size now = Some res ∧
    Some (output res)
    = expected_output load_and_crop_image forward forward_from_raw
                      cache species detections ∧
    (∀ x, x ∈ mentioned (output res)
          ↔ ∃ det, det ∈ detections ∧ detection_id det = x ∧
                   is_Some (own_embedding load_and_crop_image forward
                              forward_from_raw cache species det)) ∧
    (∀ det, det ∈ detections →
       classify cache (variants species).1 (variants species).2 det
       = Some FullComputation →
       load_and_crop_image (image_path det) (bbox det) = None →
       detection_id det ∉ mentioned (output res)).
Proof.
  intros Hlen Hbs Hbb Hids Hok Hdim Hnd.
  destruct (run_mentions_survivors load_and_crop_image forward
              forward_from_raw detections cache species batch_size now
              Hlen Hbs Hbb Hok Hids Hdim Hnd) as (res & Hrun & Hout & Hment).
  exists res. split; [done|]. split; [done|]. split; [done|].
  intros det [i Hi]%list_elem_of_lookup_1 Hc Hload
         (det' & [j Hj]%list_elem_of_lookup_1 & Hid & Hsome)%Hment.
  apply in_E_lookup in Hi, Hj.
  assert ((j, det') = (i, det)) as [= -> ->]
    by by apply (E_id_inj detections Hnd).
  assert (own_embedding load_and_crop_image forward forward_from_raw
                        cache species det = None) as Hown.
  { by apply (own_None load_and_crop_image forward forward_from_raw
                detections cache species Hbb Hok Hids i det Hi). }
  rewrite Hown in Hsome. by destruct Hsome.
Qed.

(** A job that meets the hypotheses of C8: two detections, of which the
    second does not load. *)
Lemma run_labels_the_survivors_witness :
  (2 ≤ length Fixture.one_survivor)%nat ∧
  (0 < 4)%nat ∧
  Forall (fun det => length (bbox det) = 4%nat) Fixture.one_survivor ∧
  image_ids_ok Fixture.one_survivor ∧
  (∀ d, @None db = Some d → blobs_ok d = true) ∧
  one_dimension Fixture.load Fixture.model Fixture.adapter
                None "stoat" Fixture.one_survivor ∧
  NoDup (detection_id <$> Fixture.one_survivor) ∧
  ∃ res,
    run (kernel := Distance.exact)
        Fixture.load Fixture.model Fixture.adapter Fixture.one_survivor
        None "stoat" 4 Fixture.clock = Some res ∧
    8 ∉ mentioned (output res).
Proof.
  assert (NoDup (detection_id <$> Fixture.one_survivor)) as Hnd.
  { apply (NoDup_cons_2 7); [|apply NoDup_singleton].
    intros H%list_elem_of_singleton. discriminate H. }
  assert (one_dimension Fixture.load Fixture.model Fixture.adapter
            None "stoat" Fixture.one_survivor) as Hdim.
  { exists 2%nat. vm_compute. by repeat constructor. }
  split; [simpl; lia|]. split; [lia|]. split; [by repeat constructor|].
  split; [by repeat constructor|].
  split; [intros d H; discriminate H|]. split; [exact Hdim|].
  split; [exact Hnd|].
  destruct (run_labels_the_survivors (kernel := Distance.exact) Fixture.load
              Fixture.model Fixture.adapter Fixture.one_survivor None "stoat"
              4 Fixture.clock)
    as (res & Hrun & _ & _ & Hout);
    [simpl; lia | lia | by repeat constructor | by repeat constructor
     | intros d H; discriminate H | exact Hdim | exact Hnd |].
  exists res. split; [exact Hrun|].
  apply (Hout (Detection 8 "gone.jpg" Fixture.box None));
    [apply list_elem_of_further, list_elem_of_here | reflexivity | reflexivity].
Defined.

(** C8, as the claim words it, fails on a job that repeats an identifier:
    the fifth detection repeats identifier 7 and does not load, the first 7
    is struck from the identifier list, and the four embeddings that remain
    are labelled 8, 9, 10, 7 in place of 7, 8, 9, 10. *)
Lemma repeated_identifier_shifts_the_labels :
  output <$> run (kernel := Distance.exact)
      Fixture.load Fixture.model Fixture.adapter
                 Fixture.duplicated None "stoat" 4 Fixture.clock
  = Some [("ID-0", [8; 9]); ("ID-1", [10; 7])] ∧
  expected_output (kernel := Distance.exact)
      Fixture.load Fixture.model Fixture.adapter
                  None "stoat" Fixture.duplicated
  = Some [("ID-0", [7; 8]); ("ID-1", [9; 10])].
Proof. split; by vm_compute. Qed.

(** C10. A failed load is recorded by value: [mark_failed] strikes the
    first entry of the identifier list equal to the failed identifier.  With
    pairwise distinct identifiers (in a job of at least two detections that
    meets the conditions under which nothing raises) the clusters are
    labelled as for the surviving detections in input order; with a repeated
    identifier whose later occurrence fails, the earlier occurrence is struck
    and the labels of the output shift. *)
Theorem failed_loads_are_struck_by_value :
  (∀ (detection_ids detection_ids' : list (option Z)) (id : Z),
     mark_failed detection_ids id = Some detection_ids' →
     ∃ k : nat,
       detection_ids' = <[k := None]> detection_ids ∧
       detection_ids !! k = Some (Some id) ∧
       ∀ j, (j < k)%nat → detection_ids !! j ≠ Some (Some id)) ∧
  (∀ (kernel : Distance.Matmul) (image : Type)
     (load_and_crop_image : string → list Q → option (image * Z))
     (forward : image → Z → list f32)
     (forward_from_raw : list f32 → Z → list f32)
     (detections : list detection) (cache : option db) (species : string)
     (batch_size : nat) (now : nat → Z),
     (2 ≤ length detections)%nat →
     (0 < batch_size)%nat →
     Forall (fun det => length (bbox det) = 4%nat) detections →
     image_ids_ok detections →
     (∀ d, cache = Some d → blobs_ok d = true) →
     one_dimension load_and_crop_image forward forward_from_raw
                   cache species detections →
     NoDup (detection_id <$> detections) →
     output <$> run load_and_crop_image forward forward_from_raw
                    detections cache species batch_size now
     = expected_output load_and_crop_image forward forward_from_raw
                       cache species detections) ∧
  (∃ detections : list detection,
     Fixture.load "gone.jpg" Fixture.box = None ∧
     detections !! 0%nat = Some (Detection 7 "east.jpg" Fixture.box None) ∧
     detections !! 4%nat = Some (Detection 7 "gone.jpg" Fixture.box None) ∧
     mark_failed (Some <$> [7; 8; 9; 10; 7]) 7
     = Some [None; Some 8; Some 9; Some 10; Some 7] ∧
     output <$> run (kernel := Distance.exact)
         Fixture.load Fixture.model Fixture.adapter
                    detections None "stoat" 4 Fixture.clock
     = Some [("ID-0", [8; 9]); ("ID-1", [10; 7])] ∧
     expected_output (kernel := Distance.exact)
         Fixture.load Fixture.model Fixture.adapter
                     None "stoat" detections
     = Some [("ID-0", [7; 8]); ("ID-1", [9; 10])]).
Proof.
  split; [|split].
  - intros l l' x. unfold mark_failed.
    destruct (index_of l x) as [k|] eqn:Hk; [|done].
    intros [= <-]. exists k. split; [done|]. by apply index_of_first.
  - intros kernel image load_and_crop_image forward forward_from_raw
           detections cache species batch_size now Hlen Hbs Hbb Hids Hok Hdim
           Hnd.
    rewrite run_as_run_many by done. by apply run_many_aligned.
  - exists Fixture.duplicated. repeat split; by vm_compute.
Qed.

(** A job with distinct identifiers, as the second part of C10 asks. *)
Lemma failed_loads_are_struck_by_value_witness :
  one_dimension Fixture.load Fixture.model Fixture.adapter
                None "stoat" Fixture.one_survivor ∧
  NoDup (detection_id <$> Fixture.one_survivor) ∧
  output <$> run (kernel := Distance.exact)
      Fixture.load Fixture.model Fixture.adapter
                 Fixture.one_survivor None "stoat" 4 Fixture.clock
  = expected_output (kernel := Distance.exact)
      Fixture.load Fixture.model Fixture.adapter
                    None "stoat" Fixture.one_survivor.
Proof.
  assert (NoDup (detection_id <$> Fixture.one_survivor)) as Hnd.
  { apply (NoDup_cons_2 7); [|apply NoDup_singleton].
    intros H%list_elem_of_singleton. discriminate H. }
  assert (one_dimension Fixture.load Fixture.model Fixture.adapter
            None "stoat" Fixture.one_survivor) as Hdim.
  { exists 2%nat. vm_compute. by repeat constructor. }
  split; [exact Hdim|]. split; [exact Hnd|].
  apply (proj1 (proj2 failed_loads_are_struck_by_value));
    [simpl; lia | lia | by repeat constructor | by repeat constructor
     | intros d H; discriminate H | exact Hdim | exact Hnd].
Defined.

(** *** Degenerate sizes *)

(** C9. A job of zero detections returns no individual and a job of one
    detection returns ["ID-0"] with its identifier, both without any call;
    a job in which no detection is left after the loads returns no
    individual and computes neither distances nor clusters.  But the job of
    two detections of which one is left computes the distance matrix and the
    clusters of that one embedding before it returns ["ID-0"]. *)
Theorem run_degenerate_sizes :
  (∀ (kernel : Distance.Matmul) (image : Type)
     (load_and_crop_image : string → list Q → option (image * Z))
     (forward : image → Z → list f32)
     (forward_from_raw : list f32 → Z → list f32)
     (cache : option db) (species : string) (batch_size : nat) (now : nat → Z),
     run load_and_crop_image forward forward_from_raw
         [] cache species batch_size now
     = Some (Result [] cache []) ∧
     ∀ det,
       run load_and_crop_image forward forward_from_raw
           [det] cache species batch_size now
       = Some (Result [("ID-0", [detection_id det])] cache [])) ∧
  (∀ (kernel : Distance.Matmul) (image : Type)
     (load_and_crop_image : string → list Q → option (image * Z))
     (forward : image → Z → list f32)
     (forward_from_raw : list f32 → Z → list f32)
     (detections : list detection) (cache : option db) (species : string)
     (batch_size : nat) (now : nat → Z),
     (2 ≤ length detections)%nat →
     (0 < batch_size)%nat →
     Forall (fun det => length (bbox det) = 4%nat) detections →
     image_ids_ok detections →
     (∀ d, cache = Some d → blobs_ok d = true) →
     (∀ det, det ∈ detections →
        own_embedding load_and_crop_image forward forward_from_raw
                      cache species det = None) →
     ∃ res,
       run load_and_crop_image forward forward_from_raw
           detections cache species batch_size now = Some res ∧
       output res = [] ∧
       ∀ n, (CallDistance n ∉ calls res) ∧ (CallCluster n ∉ calls res)) ∧
  run (kernel := Distance.exact)
      Fixture.load Fixture.model Fixture.adapter Fixture.none_survive
      None "stoat" 4 Fixture.clock
  = Some (Result [] None []) ∧
  surviving Fixture.load Fixture.model Fixture.adapter None "stoat"
            Fixture.one_survivor
  = [(Detection 7 "east.jpg" Fixture.box None, Fixture.east)] ∧
  run (kernel := Distance.exact)
      Fixture.load Fixture.model Fixture.adapter Fixture.one_survivor
      None "stoat" 4 Fixture.clock
  = Some (Result [("ID-0", [7])] None
                 [CallFull [0%nat]; CallDistance 1; CallCluster 1]).
Proof.
  split; [by intros; split|]. split.
  - intros kernel image load_and_crop_image forward forward_from_raw
           detections cache species batch_size now Hlen Hbs Hbb Hids Hok
           Hnone.
    by apply run_none_left.
  - repeat split; by vm_compute.
Qed.

End ReidFacts.

(** * Further properties of the code *)

(** ** The embedding store *)

Module CacheMoreFacts.

Import Cache CacheMore CacheFacts Float32Facts.

(** *** Counting rows *)

Lemma filter_split_length {A} (P K : A → bool) (l : list A) :
  length (List.filter P l)
  = (length (List.filter P (List.filter K l))
     + length (List.filter P (List.filter (fun x => negb (K x)) l)))%nat.
Proof.
  induction l as [|x l IH]; simpl; [done|].
  destruct (K x); simpl; destruct (P x); simpl; lia.
Qed.

Lemma filter_all_length {A} (K : A → bool) (l : list A) :
  length l
  = (length (List.filter K l)
     + length (List.filter (fun x => negb (K x)) l))%nat.
Proof.
  induction l as [|x l IH]; simpl; [done|]. destruct (K x); simpl; lia.
Qed.

Lemma filter_true_length {A} (l : list A) :
  length (List.filter (fun _ => true) l) = length l.
Proof. induction l as [|x l IH]; simpl; [done|]. by rewrite IH. Qed.

(** Under the unique index a key selects at most one row. *)
Lemma unique_filter (d : db) (k : key) :
  unique d →
  List.filter (key_matches k) (rows d)
  = match select_one d k with Some r => [r] | None => [] end.
Proof.
  unfold unique, select_one. induction (rows d) as [|r l IH]; simpl; [done|].
  intros [Hr Hl]%NoDup_cons. destruct (key_matches k r) eqn:Hk.
  - f_equal. apply key_matches_true in Hk.
    destruct (List.filter (key_matches k) l) as [|r' l'] eqn:Hf; [done|].
    exfalso. apply Hr.
    assert (In r' (List.filter (key_matches k) l)) as Hin
      by (rewrite Hf; by left).
    apply filter_In in Hin as [Hin Hk'%key_matches_true].
    apply list_elem_of_fmap. exists r'. split; [congruence|].
    by apply list_elem_of_In.
  - by apply IH.
Qed.

(** The rows of a type after [INSERT OR REPLACE]. *)
Lemma count_insert (d : db) (k : key) blob now (P : row → bool) :
  let new := Row (last_id d + 1) k.1.1 k.1.2 k.2 blob now in
  (length (List.filter P (rows (insert_or_replace d k blob now)))
   + length (List.filter P (List.filter (key_matches k) (rows d))))%nat
  = (length (List.filter P (rows d)) + (if P new then 1 else 0))%nat.
Proof.
  intros new. unfold insert_or_replace. simpl.
  rewrite List.filter_app, length_app. simpl.
  rewrite (filter_split_length P (key_matches k) (rows d)).
  fold new. destruct (P new); simpl; lia.
Qed.

Lemma count_reinsert (d : db) (k : key) blob1 now1 blob2 now2
  (P : row → bool) :
  let d1 := insert_or_replace d k blob1 now1 in
  P (Row (last_id d1 + 1) k.1.1 k.1.2 k.2 blob2 now2)
  = P (Row (last_id d + 1) k.1.1 k.1.2 k.2 blob1 now1) →
  length (List.filter P (rows (insert_or_replace d1 k blob2 now2)))
  = length (List.filter P (rows d1)).
Proof.
  intros d1 HP. pose proof (count_insert d1 k blob2 now2 P) as Hc.
  cbv zeta in Hc.
  assert (List.filter (key_matches k) (rows d1)
          = [Row (last_id d + 1) k.1.1 k.1.2 k.2 blob1 now1]) as Hone
    by apply insert_one_row.
  rewrite Hone, HP in Hc. cbn [List.filter] in Hc.
  destruct (P (Row (last_id d + 1) k.1.1 k.1.2 k.2 blob1 now1));
    cbn [length] in Hc; lia.
Qed.

Lemma store_embedding_inserts {ndarray} (astype : ndarray → option (list f32))
  d image_id bbox ty v now h a :
  bbox_to_hash bbox = Some h → astype v = Some a → int64 image_id = true →
  store_embedding astype d image_id bbox ty v now
  = (insert_or_replace d (image_id, h, ty) (tobytes a) now, Some tt).
Proof. intros Hh Ha Hid. unfold store_embedding. by rewrite Hh, Ha, Hid. Qed.

Lemma get_embedding_by_hash d image_id bbox ty h :
  bbox_to_hash bbox = Some h → int64 image_id = true →
  get_embedding d image_id bbox ty
  = match select_one d (image_id, h, ty) with
    | Some r => v ← frombuffer (embedding r); Some (Some v)
    | None => Some None
    end.
Proof. intros Hh Hid. unfold get_embedding. by rewrite Hh, Hid. Qed.

(** An image id that SQLite does not take makes both calls raise, and the
    file stays as it is. *)
Lemma out_of_range {ndarray} (astype : ndarray → option (list f32))
  d image_id bbox ty v now :
  int64 image_id = false →
  store_embedding astype d image_id bbox ty v now = (d, None) ∧
  get_embedding d image_id bbox ty = None.
Proof.
  intros Hid. unfold store_embedding, get_embedding. rewrite Hid.
  destruct (bbox_to_hash bbox); [|done]. by destruct (astype v).
Qed.

Lemma count_total (d : db) :
  count_embeddings d None = length (rows d).
Proof. done. Qed.

(** *** Files up to the time of their writes *)

Local Abbreviation timeless := StoreViews.timeless.
Local Abbreviation columns := StoreViews.columns.

Lemma columns_filter (f : row → bool) (l l' : list row) :
  (∀ r r', columns r = columns r' → f r = f r') →
  columns <$> l = columns <$> l' →
  columns <$> List.filter f l = columns <$> List.filter f l'.
Proof.
  intros Hf. revert l'. induction l as [|r l IH]; intros [|r' l'] Heq;
    try done.
  rewrite !fmap_cons in Heq.
  pose proof (f_equal (hd (columns r)) Heq) as Hr.
  pose proof (f_equal (@tl _) Heq) as Hl. cbn [hd tl] in Hr, Hl.
  cbn [List.filter]. rewrite (Hf r r' Hr).
  destruct (f r'); [|by apply IH].
  rewrite !fmap_cons. f_equal; [done | by apply IH].
Qed.

Lemma columns_find (f : row → bool) (l l' : list row) :
  (∀ r r', columns r = columns r' → f r = f r') →
  columns <$> l = columns <$> l' →
  columns <$> List.find f l = columns <$> List.find f l'.
Proof.
  intros Hf. revert l'. induction l as [|r l IH]; intros [|r' l'] Heq;
    try done.
  rewrite !fmap_cons in Heq.
  pose proof (f_equal (hd (columns r)) Heq) as Hr.
  pose proof (f_equal (@tl _) Heq) as Hl. cbn [hd tl] in Hr, Hl.
  cbn [List.find]. rewrite (Hf r r' Hr).
  destruct (f r'); [|by apply IH]. cbn. by f_equal.
Qed.

Lemma key_matches_columns (k : key) (r r' : row) :
  columns r = columns r' → key_matches k r = key_matches k r'.
Proof.
  unfold StoreViews.columns. intros Hc. injection Hc as _ Hi Hh Ht _.
  unfold key_matches, row_key. by rewrite Hi, Hh, Ht.
Qed.

(** [INSERT OR REPLACE] does the same to two files that differ in their
    times only, whatever the time of the write. *)
Lemma timeless_insert (d d' : db) (k : key) blob t t' :
  timeless d = timeless d' →
  timeless (insert_or_replace d k blob t)
  = timeless (insert_or_replace d' k blob t').
Proof.
  unfold StoreViews.timeless, insert_or_replace. cbn [rows last_id].
  intros [= Hrows Hid]. rewrite !fmap_app, Hid. rewrite !fmap_cons.
  unfold StoreViews.columns at 2 4. cbn [row_id image_id bbox_hash
    Cache.embedding_type embedding]. do 2 f_equal.
  apply (columns_filter (fun r => negb (key_matches k r))); [|done].
  intros r r' Hr. by rewrite (key_matches_columns k r r').
Qed.

(** A reader does not see the times. *)
Lemma get_embedding_timeless (d d' : db) image_id bbox ty :
  timeless d = timeless d' →
  get_embedding d image_id bbox ty = get_embedding d' image_id bbox ty.
Proof.
  unfold StoreViews.timeless. intros [= Hrows _]. unfold get_embedding.
  destruct (bbox_to_hash bbox) as [h|]; [|done]. cbn [mbind option_bind].
  destruct (int64 image_id); [|done]. unfold select_one.
  pose proof (columns_find (key_matches (image_id, h, ty)) (rows d) (rows d')
                (key_matches_columns _) Hrows) as Hf.
  destruct (List.find _ (rows d)) as [r|], (List.find _ (rows d')) as [r'|];
    try done.
  cbn in Hf. unfold StoreViews.columns in Hf.
  injection Hf as _ _ _ _ He. by rewrite He.
Qed.

Section Store.

Context {ndarray : Type}.
Variable astype_float32 : ndarray → option (list f32).

(** X1. A second store under the same (image id, bbox, variant) replaces
    the first, for an image id SQLite takes (a 64-bit integer): the lookup
    returns the float32 cast of the second vector, the first is gone, and
    the table has as many rows as before, in all and of each type. *)
Theorem store_twice_keeps_the_last (d : db) (image_id : Z) (bbox : list Q)
  (embedding_type : string) (v1 v2 : ndarray) (now1 now2 : Z)
  (a1 a2 : list f32) :
  length bbox = 4%nat →
  int64 image_id = true →
  astype_float32 v1 = Some a1 →
  astype_float32 v2 = Some a2 →
  let d1 := (store_embedding astype_float32 d image_id bbox embedding_type
                             v1 now1).1 in
  let d2 := (store_embedding astype_float32 d1 image_id bbox embedding_type
                             v2 now2).1 in
  get_embedding d1 image_id bbox embedding_type = Some (Some a1) ∧
  get_embedding d2 image_id bbox embedding_type = Some (Some a2) ∧
  count_embeddings d2 None = count_embeddings d1 None ∧
  ∀ t, count_embeddings d2 (Some t) = count_embeddings d1 (Some t).
Proof.
  intros Hb Hid Ha1 Ha2.
  destruct (ReidFacts.bbox_to_hash_is_Some bbox Hb) as [h Hh].
  rewrite (store_embedding_inserts _ _ _ _ _ _ _ h a1) by done.
  cbn [fst]. set (k := (image_id, h, embedding_type)).
  set (d1 := insert_or_replace d k (tobytes a1) now1).
  rewrite (store_embedding_inserts _ _ _ _ _ _ _ h a2) by done.
  cbn [fst]. cbv zeta. fold k.
  rewrite !(get_embedding_by_hash _ _ _ _ h) by done. fold k.
  unfold d1 at 1. rewrite !select_insert_same. cbn [embedding mbind option_bind].
  rewrite !frombuffer_tobytes. cbn [mbind option_bind].
  split; [done|]. split; [done|].
  assert (∀ P : row → bool,
            P (Row (last_id d1 + 1) image_id h embedding_type
                   (tobytes a2) now2)
            = P (Row (last_id d + 1) image_id h embedding_type
                     (tobytes a1) now1) →
            length (List.filter P
                      (rows (insert_or_replace d1 k (tobytes a2) now2)))
            = length (List.filter P (rows d1))) as Hcount.
  { intros P HP. by apply count_reinsert. }
  pose proof (Hcount (fun _ => true) eq_refl) as Hall.
  rewrite !filter_true_length in Hall.
  split; [exact Hall|].
  intros t. unfold count_embeddings. case_bool_decide; [exact Hall|].
  by apply Hcount.
Qed.

(** X2. Under the unique index, a store (of an image id SQLite takes, a
    64-bit integer) adds one row when its key has no record and replaces
    the one row of the key otherwise, so that the row count grows by one or
    stays. *)
Theorem store_counts_new_keys_only (d : db) (image_id : Z) (bbox : list Q)
  (embedding_type : string) (v : ndarray) (now : Z) (a : list f32) :
  unique d →
  length bbox = 4%nat →
  int64 image_id = true →
  astype_float32 v = Some a →
  ∃ h d',
    bbox_to_hash bbox = Some h ∧
    store_embedding astype_float32 d image_id bbox embedding_type v now
    = (d', Some tt) ∧
    count_embeddings d' None
    = (match select_one d (image_id, h, embedding_type) with
       | Some _ => count_embeddings d None
       | None => S (count_embeddings d None)
       end) ∧
    count_embeddings d' (Some embedding_type)
    = (match select_one d (image_id, h, embedding_type) with
       | Some _ => count_embeddings d (Some embedding_type)
       | None => S (count_embeddings d (Some embedding_type))
       end) ∧
    ∀ t, t ≠ embedding_type → t ≠ "" →
         count_embeddings d' (Some t) = count_embeddings d (Some t).
Proof.
  intros Hu Hb Hid Ha.
  destruct (ReidFacts.bbox_to_hash_is_Some bbox Hb) as [h Hh].
  exists h. eexists. split; [done|].
  split; [by apply store_embedding_inserts|].
  set (k := (image_id, h, embedding_type)).
  assert (∀ P : row → bool,
            (∀ r, row_key r = k →
                  P r = P (Row (last_id d + 1) image_id h embedding_type
                               (tobytes a) now)) →
            length (List.filter P
                      (rows (insert_or_replace d k (tobytes a) now)))
            = match select_one d k with
              | Some _ => length (List.filter P (rows d))
              | None =>
                  if P (Row (last_id d + 1) image_id h embedding_type
                            (tobytes a) now)
                  then S (length (List.filter P (rows d)))
                  else length (List.filter P (rows d))
              end) as Hcount.
  { intros P HP. pose proof (count_insert d k (tobytes a) now P) as Hc.
    cbv zeta in Hc. rewrite (unique_filter d k Hu) in Hc.
    cbn [fst snd k] in Hc.
    destruct (select_one d k) as [r|] eqn:Hsel.
    - apply ReidFacts.find_elem in Hsel as [_ Hr%key_matches_true].
      cbn [List.filter] in Hc. rewrite (HP r Hr) in Hc.
      destruct (P _); cbn [length] in Hc; lia.
    - cbn [List.filter length] in Hc. destruct (P _); lia. }
  split; [|split].
  - pose proof (Hcount (fun _ => true) (fun _ _ => eq_refl)) as Hall.
    rewrite !filter_true_length in Hall. rewrite !count_total.
    by destruct (select_one d k).
  - unfold count_embeddings. case_bool_decide as Ht.
    + pose proof (Hcount (fun _ => true) (fun _ _ => eq_refl)) as Hall.
      rewrite !filter_true_length in Hall. by destruct (select_one d k).
    + rewrite Hcount.
      * cbn [Cache.embedding_type]. rewrite bool_decide_eq_true_2 by done.
        done.
      * intros r Hr. unfold row_key in Hr. simplify_eq. cbn.
        by rewrite !bool_decide_eq_true_2.
  - intros t Ht Hne. unfold count_embeddings.
    rewrite !bool_decide_eq_false_2 by done.
    rewrite Hcount.
    + cbn [Cache.embedding_type]. rewrite bool_decide_eq_false_2 by done.
      by destruct (select_one d k).
    + intros r Hr. unfold row_key in Hr. simplify_eq. cbn.
      by rewrite !bool_decide_eq_false_2.
Qed.

(** X3. Stores under different keys do not see each other: in either order
    every lookup returns the same. *)
Theorem stores_of_different_keys_commute (d : db)
  (image_id1 image_id2 : Z) (bbox1 bbox2 : list Q) (type1 type2 : string)
  (v1 v2 : ndarray) (now1 now2 : Z) :
  (image_id1, bbox_to_hash bbox1, type1)
  ≠ (image_id2, bbox_to_hash bbox2, type2) →
  let first d := (store_embedding astype_float32 d image_id1 bbox1 type1
                                  v1 now1).1 in
  let second d := (store_embedding astype_float32 d image_id2 bbox2 type2
                                   v2 now2).1 in
  ∀ image_id bbox embedding_type,
    get_embedding (second (first d)) image_id bbox embedding_type
    = get_embedding (first (second d)) image_id bbox embedding_type.
Proof.
  intros Hne first second image_id bbox ty.
  unfold get_embedding. destruct (bbox_to_hash bbox) as [h|]; [|done].
  cbn [mbind option_bind]. destruct (int64 image_id); [|done].
  assert (∀ k, embedding <$> select_one (second (first d)) k
               = embedding <$> select_one (first (second d)) k) as Hsel.
  { intros k. unfold first, second, store_embedding.
    destruct (bbox_to_hash bbox1) as [h1|]; cbn [fst];
      destruct (bbox_to_hash bbox2) as [h2|]; cbn [fst]; try done;
      destruct (astype_float32 v1) as [a1|]; cbn [fst];
      destruct (astype_float32 v2) as [a2|]; cbn [fst]; try done;
      destruct (int64 image_id1); cbn [fst];
      destruct (int64 image_id2); cbn [fst]; try done.
    unfold close, commit, execute_insert, connect. cbn [working durable].
    set (k1 := (image_id1, h1, type1)). set (k2 := (image_id2, h2, type2)).
    assert (k1 ≠ k2) as Hk by (unfold k1, k2; congruence).
    destruct (decide (k = k2)) as [->|H2].
    - rewrite select_insert_same, select_insert_other by done.
      by rewrite select_insert_same.
    - rewrite (select_insert_other _ k2 k) by done.
      destruct (decide (k = k1)) as [->|H1].
      + by rewrite !select_insert_same.
      + by rewrite !select_insert_other by done. }
  specialize (Hsel (image_id, h, ty)).
  destruct (select_one (second (first d)) _) as [r|],
           (select_one (first (second d)) _) as [r'|]; simplify_eq/=.
  - by rewrite Hsel.
  - done.
Qed.

(** *** The files the writers leave *)





(** *** One call for the batch, or one call per entry *)

Lemma store_each_good items ty t :
  ∀ d0 d d' now,
    timeless d0 = timeless d →
    apply_all astype_float32 d items ty t = Some d' →
    ∃ e, store_each astype_float32 d0 items ty now = (e, Some tt) ∧
         timeless e = timeless d'.
Proof.
  unfold apply_all.
  induction items as [|[[i b] v] items IH]; intros d0 d d' now Heq; simpl.
  - intros [= <-]. by exists d0.
  - unfold store_embedding.
    destruct (bbox_to_hash b) as [h|]; simpl; [|done].
    destruct (astype_float32 v) as [a|]; simpl; [|done].
    destruct (int64 i); simpl; [|done].
    apply IH. by apply timeless_insert.
Qed.

Lemma store_each_bad items ty t :
  ∀ d0 d now,
    timeless d0 = timeless d →
    apply_all astype_float32 d items ty t = None →
    ∃ good bad rest dg,
      items = good ++ bad :: rest ∧
      store_each astype_float32 d0 good ty now = (dg, Some tt) ∧
      store_each astype_float32 d0 items ty now = (dg, None) ∧
      is_Some (apply_all astype_float32 d good ty t) ∧
      (store_embedding astype_float32 dg bad.1.1 bad.1.2 ty bad.2
                       (now (length good))).2
      = None.
Proof.
  unfold apply_all.
  induction items as [|[[i b] v] items IH]; intros d0 d now Heq; simpl;
    [done|].
  unfold store_embedding.
  destruct (bbox_to_hash b) as [h|] eqn:Hh; simpl.
  - destruct (astype_float32 v) as [a|] eqn:Ha; simpl.
    + destruct (int64 i) eqn:Hi; simpl.
      * intros Hnone.
        destruct (IH (insert_or_replace d0 (i, h, ty) (tobytes a) (now 0%nat))
                     (insert_or_replace d (i, h, ty) (tobytes a) t)
                     (fun k => now (S k)))
          as (good & bad & rest & dg & -> & Hg & He & Hok & Hbad);
          [by apply timeless_insert | done |].
        exists ((i, b, v) :: good), bad, rest, dg. split; [done|].
        simpl. unfold store_embedding. rewrite Hh, Ha, Hi. simpl.
        split; [done|]. split; [done|]. split; [done|]. exact Hbad.
      * intros _. exists [], (i, b, v), items, d0. simpl.
        unfold store_embedding. rewrite Hh, Ha, Hi.
        by repeat split; try eexists.
    + intros _. exists [], (i, b, v), items, d0. simpl.
      unfold store_embedding. rewrite Hh, Ha. by repeat split; try eexists.
  - intros _. exists [], (i, b, v), items, d0. simpl.
    unfold store_embedding. rewrite Hh. by repeat split; try eexists.
Qed.

(** X5. Storing a list with one batch call and storing it entry by entry
    succeed or raise together and, when they succeed, leave the same file
    but for the times of the rows (the batch reads the clock once, the
    other caller at every call), so that every lookup returns the same.
    When an entry raises, the batch call leaves the file as it was, while
    the entry-by-entry caller has written every entry before the first
    entry that raises. *)
Theorem batch_store_against_single_stores (d : db)
  (items : list (Z * list Q * ndarray)) (embedding_type : string) (t : Z)
  (now : nat → Z) :
  let batch := store_embeddings_batch astype_float32 d items
                                      embedding_type t in
  let each := store_each astype_float32 d items embedding_type now in
  each.2 = batch.2 ∧
  (batch.2 = Some tt →
   timeless each.1 = timeless batch.1 ∧
   ∀ image_id bbox ty,
     get_embedding each.1 image_id bbox ty
     = get_embedding batch.1 image_id bbox ty) ∧
  (batch.2 = None →
   batch.1 = d ∧
   ∃ good bad rest,
     items = good ++ bad :: rest ∧
     store_each astype_float32 d good embedding_type now
     = (each.1, Some tt) ∧
     (store_embeddings_batch astype_float32 d good embedding_type t).2
     = Some tt ∧
     (store_embedding astype_float32 each.1 bad.1.1 bad.1.2 embedding_type
                      bad.2 (now (length good))).2 = None).
Proof.
  cbv zeta. rewrite store_embeddings_batch_eq.
  destruct (apply_all astype_float32 d items embedding_type t) as [d'|]
    eqn:Ha.
  - destruct (store_each_good _ _ _ d d d' now eq_refl Ha) as (e & -> & He).
    cbn [fst snd]. split; [done|]. split; [|done]. intros _.
    split; [done|]. intros. by apply get_embedding_timeless.
  - destruct (store_each_bad _ _ _ d d now eq_refl Ha)
      as (good & bad & rest & dg & -> & Hg & -> & [dg' Hok] & Hbad).
    cbn [fst snd]. split; [done|]. split; [done|]. intros _. split; [done|].
    exists good, bad, rest. split; [done|]. split; [done|].
    split; [|done]. by rewrite store_embeddings_batch_eq, Hok.
Qed.

End Store.

(** Inputs that meet the hypotheses of X1, X2 and X3. *)
Lemma store_twice_keeps_the_last_witness :
  length Fixture.box = 4%nat ∧
  int64 1 = true ∧
  get_embedding
    (store_embedding Some
       (store_embedding Some empty 1 Fixture.box "dinov3_raw"
                        Fixture.east 5).1
       1 Fixture.box "dinov3_raw" Fixture.north 6).1
    1 Fixture.box "dinov3_raw"
  = Some (Some Fixture.north).
Proof.
  split; [reflexivity|]. split; [reflexivity|].
  apply (store_twice_keeps_the_last Some empty 1 Fixture.box "dinov3_raw"
           Fixture.east Fixture.north 5 6 Fixture.east Fixture.north);
    reflexivity.
Defined.

Lemma store_counts_new_keys_only_witness :
  unique Fixture.raw_store ∧
  length Fixture.box = 4%nat ∧
  int64 2 = true ∧
  ∃ h d',
    bbox_to_hash Fixture.box = Some h ∧
    store_embedding Some Fixture.raw_store 2 Fixture.box "dinov3_raw"
                    Fixture.north 6 = (d', Some tt) ∧
    count_embeddings d' None = 2%nat.
Proof.
  assert (unique Fixture.raw_store) as Hu.
  { apply NoDup_singleton. }
  split; [exact Hu|]. split; [reflexivity|]. split; [reflexivity|].
  destruct (store_counts_new_keys_only Some Fixture.raw_store 2 Fixture.box
              "dinov3_raw" Fixture.north 6 Fixture.north Hu eq_refl eq_refl
              eq_refl)
    as (h & d' & Hh & Hst & Hc & _).
  exists h, d'. split; [exact Hh|]. split; [exact Hst|].
  rewrite Hc. injection Hh as <-. reflexivity.
Defined.

Lemma stores_of_different_keys_commute_witness :
  (1, bbox_to_hash Fixture.box, "dinov3_raw")
  ≠ (2, bbox_to_hash Fixture.box, "dinov3_raw") ∧
  get_embedding
    (store_embedding Some
       (store_embedding Some empty 1 Fixture.box "dinov3_raw"
                        Fixture.east 5).1
       2 Fixture.box "dinov3_raw" Fixture.north 6).1
    1 Fixture.box "dinov3_raw"
  = get_embedding
      (store_embedding Some
         (store_embedding Some empty 2 Fixture.box "dinov3_raw"
                          Fixture.north 6).1
         1 Fixture.box "dinov3_raw" Fixture.east 5).1
      1 Fixture.box "dinov3_raw".
Proof.
  assert ((1, bbox_to_hash Fixture.box, "dinov3_raw")
          ≠ (2, bbox_to_hash Fixture.box, "dinov3_raw")) as Hne.
  { intros H. discriminate H. }
  split; [exact Hne|].
  apply (stores_of_different_keys_commute Some empty 1 2 Fixture.box
           Fixture.box "dinov3_raw" "dinov3_raw" Fixture.east Fixture.north
           5 6 Hne).
Defined.


(** *** The batch lookup *)

Lemma batch_key_inj (i i' : Z) (h h' : string) :
  batch_key i h = batch_key i' h' → i = i' ∧ h = h'.
Proof. apply KeyFacts.cache_key_inj. Qed.

Lemma lookup_step_eq d ty m i b h :
  bbox_to_hash b = Some h → int64 i = true →
  lookup_step d ty m (i, b)
  = match select_one d (i, h, ty) with
    | Some r => v ← frombuffer (embedding r); Some (<[batch_key i h := v]> m)
    | None => Some m
    end.
Proof.
  intros Hh Hi. unfold lookup_step. cbn [fst snd]. by rewrite Hh, Hi.
Qed.

Lemma lookup_loop (d : db) (ty : string) (items : list (Z * list Q)) :
  blobs_ok d = true →
  Forall (fun it => length it.2 = 4%nat ∧ int64 it.1 = true) items →
  ∀ m seen, batch_inv d ty m seen →
    ∃ m', foldlM (lookup_step d ty) m items = Some m' ∧
          batch_inv d ty m' (seen ++ items).
Proof.
  intros Hok. induction 1 as [|[i b] items [Hb Hi] _ IH]; intros m seen Hinv.
  - exists m. by rewrite app_nil_r.
  - cbn [foldlM]. cbn [fst snd] in *.
    destruct (ReidFacts.bbox_to_hash_is_Some b Hb) as [h Hh].
    rewrite (lookup_step_eq d ty m i b h Hh Hi).
    pose proof (get_embedding_by_hash d i b ty h Hh Hi) as Hget.
    assert (∀ i' b' h', bbox_to_hash b' = Some h' →
              batch_key i' h' = batch_key i h →
              get_embedding d i' b' ty = get_embedding d i b ty) as Hsame.
    { intros i' b' h' Hh' [-> ->]%batch_key_inj.
      by rewrite Hget, (get_embedding_by_hash d i b' ty h Hh' Hi). }
    destruct (ReidFacts.get_embedding_is_Some d i b ty) as [o Ho];
      [by eexists | done | done |].
    rewrite Ho in Hget.
    destruct (select_one d (i, h, ty)) as [r|].
    + destruct (frombuffer (embedding r)) as [v|]; simplify_eq/=.
      destruct (IH (<[batch_key i h := v]> m) (seen ++ [(i, b)]))
        as (m' & Hrun & Hinv').
      * intros k w. destruct (decide (k = batch_key i h)) as [->|Hk].
        -- rewrite lookup_insert_eq. split.
           ++ intros [= <-]. exists i, b, h.
              split; [apply elem_of_app; right; apply list_elem_of_here|].
              done.
           ++ intros (i' & b' & h' & _ & Hh' & Hkey & Hg).
              rewrite (Hsame i' b' h' Hh') in Hg by done. congruence.
        -- rewrite lookup_insert_ne by done. rewrite (Hinv k w). split.
           ++ intros (i' & b' & h' & Hin & Hrest). exists i', b', h'.
              split; [apply elem_of_app; by left | done].
           ++ intros (i' & b' & h' & [Hin|Hin]%elem_of_app & Hh' & -> & Hg).
              ** by exists i', b', h'.
              ** apply list_elem_of_singleton in Hin as [= -> ->].
                 rewrite Hh in Hh'. by simplify_eq.
      * exists m'. split; [done|]. by rewrite <- app_assoc in Hinv'.
    + simplify_eq.
      destruct (IH m (seen ++ [(i, b)])) as (m' & Hrun & Hinv').
      * intros k w. rewrite (Hinv k w). split.
        -- intros (i' & b' & h' & Hin & Hrest). exists i', b', h'.
           split; [apply elem_of_app; by left | done].
        -- intros (i' & b' & h' & [Hin|Hin]%elem_of_app & Hh' & -> & Hg).
           ++ by exists i', b', h'.
           ++ apply list_elem_of_singleton in Hin as [= -> ->]. congruence.
      * exists m'. split; [done|]. by rewrite <- app_assoc in Hinv'.
Qed.

(** X6. On a file of whole float32 blobs and for bboxes of four
    coordinates and image ids that SQLite takes, the batch lookup returns,
    and its dict holds under the key ["{image_id}:{bbox_hash}"] of every
    requested item exactly what [get_embedding] returns for that item (no
    entry when there is no record), and holds nothing under any other
    key. *)
Theorem get_embeddings_batch_agrees (d : db) (items : list (Z * list Q))
  (embedding_type : string) :
  blobs_ok d = true →
  Forall (fun it => length it.2 = 4%nat ∧ int64 it.1 = true) items →
  ∃ m,
    get_embeddings_batch d items embedding_type = Some m ∧
    (∀ image_id bbox h,
       (image_id, bbox) ∈ items → bbox_to_hash bbox = Some h →
       get_embedding d image_id bbox embedding_type
       = Some (m !! batch_key image_id h)) ∧
    (∀ k, is_Some (m !! k) →
          ∃ image_id bbox h,
            (image_id, bbox) ∈ items ∧ bbox_to_hash bbox = Some h ∧
            k = batch_key image_id h).
Proof.
  intros Hok Hb.
  destruct (lookup_loop d embedding_type items Hok Hb ∅ [])
    as (m & Hrun & Hinv).
  { intros k v. rewrite lookup_empty. split; [done|].
    by intros (? & ? & ? & ?%elem_of_nil & _). }
  cbn [app] in Hinv. exists m. split; [|split].
  - unfold get_embeddings_batch. by destruct items.
  - intros i b h Hin Hh.
    assert (int64 i = true) as Hid.
    { rewrite Forall_forall in Hb. by destruct (Hb (i, b) Hin). }
    destruct (ReidFacts.get_embedding_is_Some d i b embedding_type)
      as [[v|] Ho]; [by eexists | done | done | |].
    + rewrite Ho. f_equal. symmetry. apply Hinv. by exists i, b, h.
    + rewrite Ho. f_equal.
      destruct (m !! batch_key i h) as [w|] eqn:Hm; [|done].
      apply Hinv in Hm as (i' & b' & h' & _ & Hh' & [Hi Hhh]%batch_key_inj
                           & Hg).
      rewrite (get_embedding_by_hash d i b embedding_type h Hh Hid) in Ho.
      rewrite Hi in Hid.
      rewrite (get_embedding_by_hash d i' b' embedding_type h' Hh' Hid)
        in Hg.
      rewrite <- Hi, <- Hhh, Ho in Hg. done.
  - intros k [v Hv]. apply Hinv in Hv as (i & b & h & Hin & Hh & -> & _).
    by exists i, b, h.
Qed.

(** A file and a request that meet the hypotheses of X6. *)
Lemma get_embeddings_batch_agrees_witness :
  blobs_ok Fixture.raw_store = true ∧
  Forall (fun it : Z * list Q => length it.2 = 4%nat ∧ int64 it.1 = true)
         [(1, Fixture.box); (2, Fixture.box)] ∧
  ∃ m,
    get_embeddings_batch Fixture.raw_store
      [(1, Fixture.box); (2, Fixture.box)] "dinov3_raw" = Some m ∧
    get_embedding Fixture.raw_store 1 Fixture.box "dinov3_raw"
    = Some (m !! batch_key 1 "0_0_10_10").
Proof.
  split; [reflexivity|]. split; [by repeat constructor|].
  destruct (get_embeddings_batch_agrees Fixture.raw_store
              [(1, Fixture.box); (2, Fixture.box)] "dinov3_raw")
    as (m & Hrun & Hget & _); [reflexivity | by repeat constructor |].
  exists m. split; [exact Hrun|].
  apply Hget; [apply list_elem_of_here | reflexivity].
Defined.

End CacheMoreFacts.

(** ** Day or night *)

Module DayNightFacts.

Import DayNight.

Lemma merge_sort_perm (a b : list Z) :
  a ≡ₚ b → merge_sort Z.le a = merge_sort Z.le b.
Proof.
  intros Hab. apply (Sorted_unique Z.le).
  - apply Sorted_merge_sort. intros x y. lia.
  - apply Sorted_merge_sort. intros x y. lia.
  - by rewrite !merge_sort_Permutation.
Qed.

Lemma np_median_perm (a b : list Z) : a ≡ₚ b → np_median a = np_median b.
Proof. intros Hab. unfold np_median. by rewrite (merge_sort_perm a b). Qed.

Lemma np_median_const (c : Z) (a : list Z) :
  a ≠ [] → Forall (fun x => x = c) a →
  np_median a = Fin (inject_Z c)
  ∨ np_median a = Fin ((inject_Z c + inject_Z c) / (2 # 1)).
Proof.
  intros Hne Hc. unfold np_median.
  set (s := merge_sort Z.le a).
  assert (length s = length a) as Hlen
    by (apply Permutation_length, merge_sort_Permutation).
  assert (∀ i x, s !! i = Some x → x = c) as Hs.
  { intros i x Hi. apply list_elem_of_lookup_2 in Hi.
    unfold s in Hi. rewrite merge_sort_Permutation in Hi.
    rewrite Forall_forall in Hc. by apply Hc. }
  assert (0 < length s)%nat as Hpos.
  { rewrite Hlen. destruct a; [done | simpl; lia]. }
  cbv zeta. destruct (Nat.eqb_spec (length s) 0) as [H0|_]; [lia|].
  assert (length s / 2 < length s)%nat as Hhalf
    by (apply Nat.div_lt; lia).
  destruct (lookup_lt_is_Some_2 s (length s / 2) Hhalf) as [y Hy].
  rewrite Hy, (Hs _ _ Hy).
  destruct (Nat.even (length s)); [|by left].
  destruct (lookup_lt_is_Some_2 s (length s / 2 - 1)) as [x Hx]; [lia|].
  rewrite Hx, (Hs _ _ Hx). by right.
Qed.

(** X7. An image with at least one pixel whose three channels are equal in
    every pixel is night. *)
Theorem grey_images_are_night (img : list (list pixel)) :
  concat img ≠ [] →
  Forall (fun p => red p = green p ∧ green p = blue p) (concat img) →
  check_day_night img = Some 0.
Proof.
  intros Hne Hgrey. unfold check_day_night, channel_diffs. cbv zeta.
  assert (∀ (f : pixel → Z),
            (∀ p, p ∈ concat img → f p = 0) →
            np_median (map f (concat img)) = Fin (inject_Z 0)
            ∨ np_median (map f (concat img))
              = Fin ((inject_Z 0 + inject_Z 0) / (2 # 1))) as Hmed.
  { intros f Hf. apply np_median_const.
    - destruct (concat img); [done | by simpl].
    - apply Forall_forall. intros x Hx.
      apply list_elem_of_fmap in Hx as (p & -> & Hp). by apply Hf. }
  rewrite Forall_forall in Hgrey.
  assert (∀ p, p ∈ concat img → abs_u8 (sub_u8 (red p) (green p)) = 0)
    as Hrg.
  { intros p [-> _]%Hgrey. unfold abs_u8, sub_u8. by rewrite Z.sub_diag. }
  assert (∀ p, p ∈ concat img → abs_u8 (sub_u8 (red p) (blue p)) = 0)
    as Hrb.
  { intros p [-> ->]%Hgrey. unfold abs_u8, sub_u8. by rewrite Z.sub_diag. }
  assert (∀ p, p ∈ concat img → abs_u8 (sub_u8 (green p) (blue p)) = 0)
    as Hgb.
  { intros p [_ ->]%Hgrey. unfold abs_u8, sub_u8. by rewrite Z.sub_diag. }
  destruct (Hmed _ Hrg) as [-> | ->], (Hmed _ Hrb) as [-> | ->],
           (Hmed _ Hgb) as [-> | ->]; reflexivity.
Qed.

(** X8. The verdict depends on the pixels of the image only, not on where
    they are: two images with the same pixels in any arrangement (a flip, a
    rotation, another width) get the same verdict. *)
Theorem check_day_night_ignores_positions (img img' : list (list pixel)) :
  concat img ≡ₚ concat img' →
  check_day_night img = check_day_night img'.
Proof.
  intros Hp. unfold check_day_night, channel_diffs. cbv zeta.
  by rewrite !(np_median_perm (map _ (concat img)) (map _ (concat img')))
    by by apply Permutation_map.
Qed.

Lemma sub_u8_shift (c a b : Z) :
  sub_u8 ((a + c) mod 256) ((b + c) mod 256) = sub_u8 a b.
Proof.
  unfold sub_u8. rewrite <- Zminus_mod. f_equal. lia.
Qed.

(** X9. The verdict does not change when every channel of every pixel is
    raised by the same number of levels modulo 256. *)
Theorem check_day_night_ignores_level_shifts (c : Z)
  (img : list (list pixel)) :
  check_day_night (map (map (shift c)) img) = check_day_night img.
Proof.
  unfold check_day_night, channel_diffs. cbv zeta.
  assert (concat (map (map (shift c)) img) = map (shift c) (concat img))
    as ->.
  { induction img as [|row img IH]; [done|]. simpl.
    by rewrite map_app, IH. }
  rewrite !map_map. unfold shift. cbn [red green blue].
  by setoid_rewrite sub_u8_shift.
Qed.

(** *** Images of one colour difference *)

Lemma np_median_holds (c : Z) (a : list Z) :
  a ≠ [] → Forall (fun x => x = c) a → holds (np_median a) c.
Proof.
  intros Hne Hc. destruct (np_median_const c a Hne Hc) as [-> | ->].
  - by eexists.
  - eexists. split; [done|]. field.
Qed.

Lemma np_maximum_holds (x y : ext) (a b : Z) :
  holds x a → holds y b → holds (np_maximum x y) (Z.max a b).
Proof.
  intros (p & -> & Hp) (q & -> & Hq). unfold np_maximum. cbn.
  destruct (Qle_bool q p) eqn:Hle; cbn.
  - exists p. split; [done|]. apply Qle_bool_iff in Hle.
    rewrite Hp, Hq in Hle. rewrite <- Zle_Qle in Hle.
    rewrite Hp. by rewrite Z.max_l.
  - exists q. split; [done|].
    assert (¬ (q <= p)%Q) as Hn
      by (intros H%Qle_bool_iff; congruence).
    rewrite Hp, Hq in Hn. rewrite <- Zle_Qle in Hn.
    rewrite Hq. rewrite Z.max_r by lia. done.
Qed.

Lemma ltb_holds (x : ext) (a c : Z) :
  holds x a → ltb x (Fin (inject_Z c)) = (a <? c).
Proof.
  intros (p & -> & Hp). cbn.
  destruct (Z.ltb_spec a c) as [Hlt|Hge].
  - apply negb_true_iff. apply not_true_iff_false.
    intros H%Qle_bool_iff. rewrite Hp in H. rewrite <- Zle_Qle in H. lia.
  - apply negb_false_iff. apply Qle_bool_iff. rewrite Hp.
    by rewrite <- Zle_Qle.
Qed.

Lemma eqb_holds (x : ext) (a c : Z) :
  holds x a → eqb x (Fin (inject_Z c)) = (a =? c).
Proof.
  intros (p & -> & Hp). cbn.
  destruct (Z.eqb_spec a c) as [->|Hne].
  - by apply Qeq_bool_iff.
  - apply not_true_iff_false. intros H%Qeq_bool_iff.
    apply Hne, inject_Z_injective. by rewrite <- Hp.
Qed.

Lemma uniform_verdict (img : list (list pixel)) (a b c : Z) :
  concat img ≠ [] →
  Forall (fun p => sub_u8 (red p) (green p) = a ∧
                   sub_u8 (red p) (blue p) = b ∧
                   sub_u8 (green p) (blue p) = c) (concat img) →
  check_day_night img
  = Some (if (Z.max (Z.max a b) c <? 3) || (Z.max (Z.max a b) c =? 255)
          then 0 else 1).
Proof.
  intros Hne Hall. rewrite Forall_forall in Hall.
  assert (0 ≤ a ∧ 0 ≤ b ∧ 0 ≤ c) as (Ha & Hb & Hc).
  { destruct (concat img) as [|p l] eqn:Hp; [done|].
    destruct (Hall p) as (<- & <- & <-); [apply list_elem_of_here|].
    unfold sub_u8. repeat split; by apply Z.mod_pos_bound. }
  assert (∀ (f : pixel → Z) (v : Z),
            (∀ p, p ∈ concat img → f p = v) →
            holds (np_median (map f (concat img))) v) as Hmed.
  { intros f v Hf. apply np_median_holds.
    - destruct (concat img); [done | by simpl].
    - apply Forall_forall. intros x Hx.
      apply list_elem_of_fmap in Hx as (p & -> & Hp). by apply Hf. }
  unfold check_day_night, channel_diffs. cbv zeta. cbn [np_max foldl].
  cbn [mbind option_bind].
  set (m := np_maximum (np_maximum _ _) _).
  assert (holds m (Z.max (Z.max a b) c)) as Hm.
  { unfold m. repeat apply np_maximum_holds; apply Hmed; intros p Hp;
      destruct (Hall p Hp) as (H1 & H2 & H3); unfold abs_u8;
      rewrite ?H1, ?H2, ?H3; lia. }
  change (3 # 1) with (inject_Z 3). change (255 # 1) with (inject_Z 255).
  rewrite (ltb_holds m _ 3 Hm), (eqb_holds m _ 255 Hm).
  by destruct (_ || _).
Qed.

(** X10. For an image with at least one pixel in which every pixel has the
    same three channel differences, the verdict is by the largest of the
    three differences red-green, red-blue and green-blue, each taken modulo
    256: night when it is below 3 or equal to 255, day otherwise. *)
Theorem check_day_night_of_one_tint (img : list (list pixel)) (dr dg : Z) :
  concat img ≠ [] →
  Forall (fun p => red p = blue p + dr ∧ green p = blue p + dg)
         (concat img) →
  let m := Z.max (Z.max ((dr - dg) mod 256) (dr mod 256)) (dg mod 256) in
  check_day_night img = Some (if (m <? 3) || (m =? 255) then 0 else 1).
Proof.
  intros Hne Hall. apply uniform_verdict; [done|].
  apply Forall_forall. intros p Hp. rewrite Forall_forall in Hall.
  destruct (Hall p Hp) as [-> ->]. unfold sub_u8.
  repeat split; f_equal; lia.
Qed.

(** X11. The test is not symmetric in the channels, because a negative
    difference wraps around: an image in which red is two levels above green
    and blue in every pixel is night, and the same image with red and green
    exchanged is day. *)
Theorem check_day_night_is_not_symmetric (img : list (list pixel)) :
  concat img ≠ [] →
  Forall (fun p => red p = green p + 2 ∧ blue p = green p) (concat img) →
  check_day_night img = Some 0 ∧
  check_day_night (map (map swap_rg) img) = Some 1.
Proof.
  intros Hne Hall. rewrite Forall_forall in Hall. split.
  - rewrite (uniform_verdict img 2 2 0); [done | done |].
    apply Forall_forall. intros p [-> ->]%Hall. unfold sub_u8.
    repeat split.
    + by replace (green p + 2 - green p) with 2 by lia.
    + by replace (green p + 2 - green p) with 2 by lia.
    + by rewrite Z.sub_diag.
  - assert (concat (map (map swap_rg) img) = map swap_rg (concat img))
      as Hc.
    { clear. induction img as [|row img IH]; [done|]. simpl.
      by rewrite map_app, IH. }
    rewrite (uniform_verdict _ 254 0 2); [done | |].
    + rewrite Hc. destruct (concat img); [done | by simpl].
    + rewrite Hc. apply Forall_forall.
      intros q (p & -> & [Hr Hb]%Hall)%list_elem_of_fmap.
      unfold swap_rg, sub_u8. cbn [red green blue]. rewrite Hr, Hb.
      repeat split.
      * by replace (green p - (green p + 2)) with (-2) by lia.
      * by rewrite Z.sub_diag.
      * by replace (green p + 2 - green p) with 2 by lia.
Qed.

(** Images that meet the hypotheses of X7, X8, X10 and X11. *)
Lemma grey_images_are_night_witness :
  concat MoreFixtures.grey ≠ [] ∧
  Forall (fun p => red p = green p ∧ green p = blue p)
         (concat MoreFixtures.grey) ∧
  check_day_night MoreFixtures.grey = Some 0.
Proof.
  assert (concat MoreFixtures.grey ≠ []) as Hne by (intros H; discriminate H).
  assert (Forall (fun p => red p = green p ∧ green p = blue p)
                 (concat MoreFixtures.grey)) as Hg
    by (repeat constructor).
  split; [exact Hne|]. split; [exact Hg|].
  exact (grey_images_are_night MoreFixtures.grey Hne Hg).
Defined.

Lemma check_day_night_ignores_positions_witness :
  concat MoreFixtures.tinted ≡ₚ concat MoreFixtures.tinted_mirrored ∧
  check_day_night MoreFixtures.tinted
  = check_day_night MoreFixtures.tinted_mirrored.
Proof.
  assert (concat MoreFixtures.tinted ≡ₚ concat MoreFixtures.tinted_mirrored)
    as Hp.
  { cbn. etrans; [apply perm_swap|]. do 2 apply perm_skip. apply perm_swap. }
  split; [exact Hp|].
  exact (check_day_night_ignores_positions _ _ Hp).
Defined.

Lemma check_day_night_of_one_tint_witness :
  concat MoreFixtures.tinted ≠ [] ∧
  Forall (fun p => red p = blue p + 2 ∧ green p = blue p + 0)
         (concat MoreFixtures.tinted) ∧
  check_day_night MoreFixtures.tinted = Some 0.
Proof.
  assert (concat MoreFixtures.tinted ≠ []) as Hne
    by (intros H; discriminate H).
  assert (Forall (fun p => red p = blue p + 2 ∧ green p = blue p + 0)
                 (concat MoreFixtures.tinted)) as Ht
    by (repeat constructor).
  split; [exact Hne|]. split; [exact Ht|].
  exact (check_day_night_of_one_tint MoreFixtures.tinted 2 0 Hne Ht).
Defined.

Lemma check_day_night_is_not_symmetric_witness :
  concat MoreFixtures.tinted ≠ [] ∧
  Forall (fun p => red p = green p + 2 ∧ blue p = green p)
         (concat MoreFixtures.tinted) ∧
  check_day_night MoreFixtures.tinted = Some 0 ∧
  check_day_night (map (map swap_rg) MoreFixtures.tinted) = Some 1.
Proof.
  assert (concat MoreFixtures.tinted ≠ []) as Hne
    by (intros H; discriminate H).
  assert (Forall (fun p => red p = green p + 2 ∧ blue p = green p)
                 (concat MoreFixtures.tinted)) as Ht
    by (repeat constructor).
  split; [exact Hne|]. split; [exact Ht|].
  exact (check_day_night_is_not_symmetric MoreFixtures.tinted Hne Ht).
Defined.

End DayNightFacts.


(** ** Pixel boxes and the bbox hash *)

Module BboxFacts.

Import Cache Bbox.

(** *** Truncation *)

Lemma int_of_nonneg (x : Q) : Qle (0 # 1) x → 0 ≤ int_of x.
Proof.
  destruct x as [n p]. unfold Qle, int_of. simpl. intros Hn.
  apply Z.quot_pos; lia.
Qed.

Lemma int_of_nonpos (x : Q) : Qle x (0 # 1) → int_of x ≤ 0.
Proof.
  destruct x as [n p]. unfold Qle, int_of. simpl. intros Hn.
  rewrite <- (Z.opp_involutive n), Z.quot_opp_l by lia.
  assert (0 ≤ - n ÷ Z.pos p) by (apply Z.quot_pos; lia). lia.
Qed.

Lemma int_of_opp (x : Q) : int_of (Qopp x) = - int_of x.
Proof.
  destruct x as [n p]. unfold int_of. simpl. by rewrite Z.quot_opp_l by lia.
Qed.

Lemma Qceiling_opp_floor (x : Q) : Qle x (0 # 1) → int_of x = Qceiling x.
Proof.
  intros Hx. unfold Qceiling.
  rewrite <- (CacheFacts.int_of_floor (Qopp x)).
  - rewrite int_of_opp. lia.
  - destruct x as [n p]. unfold Qle, Qopp in *. simpl in *. lia.
Qed.

(** [int] is monotone. *)
Lemma int_of_mono (x y : Q) : Qle x y → int_of x ≤ int_of y.
Proof.
  intros Hxy.
  destruct (Qlt_le_dec x (0 # 1)) as [Hx|Hx];
    destruct (Qlt_le_dec y (0 # 1)) as [Hy|Hy].
  - rewrite !Qceiling_opp_floor by by apply Qlt_le_weak.
    by apply Qceiling_resp_le.
  - pose proof (int_of_nonpos x (Qlt_le_weak _ _ Hx)).
    pose proof (int_of_nonneg y Hy). lia.
  - exfalso. apply (Qlt_irrefl y). eapply Qlt_le_trans; [exact Hy|].
    by eapply Qle_trans.
  - rewrite !CacheFacts.int_of_floor by done. by apply Qfloor_resp_le.
Qed.

Section Convert.

Variable fmul : ext → Z → ext.

Lemma int_of_float_is_Some (x : ext) :
  is_Some (int_of_float x) ↔ finite x.
Proof.
  unfold finite. destruct x as [| |q|]; simpl; split;
    try (by intros [? ?]); by eexists.
Qed.

Lemma convert_four (xmin ymin xmax ymax : ext) (w h : Z) (a b c d : Q) :
  fmul xmin w = Fin a → fmul ymin h = Fin b →
  fmul xmax w = Fin c → fmul ymax h = Fin d →
  convert_bbox_normalized_to_absolute fmul [xmin; ymin; xmax; ymax] w h
  = Some [Z.max 0 (Z.min (int_of a) (w - 1));
          Z.max 0 (Z.min (int_of b) (h - 1));
          Z.max 0 (Z.min (int_of c) w);
          Z.max 0 (Z.min (int_of d) h)].
Proof.
  intros Ha Hb Hc Hd. unfold convert_bbox_normalized_to_absolute.
  by rewrite Ha, Hb, Hc, Hd.
Qed.

Lemma convert_returns (bbox : list ext) (w h : Z) :
  is_Some (convert_bbox_normalized_to_absolute fmul bbox w h) ↔
  ∃ xmin ymin xmax ymax,
    bbox = [xmin; ymin; xmax; ymax] ∧
    finite (fmul xmin w) ∧ finite (fmul ymin h) ∧
    finite (fmul xmax w) ∧ finite (fmul ymax h).
Proof.
  split.
  - intros [box Hbox].
    destruct bbox as [|xmin [|ymin [|xmax [|ymax [|e l]]]]];
      simpl in Hbox; try done.
    exists xmin, ymin, xmax, ymax. split; [done|].
    rewrite <- !int_of_float_is_Some.
    destruct (int_of_float (fmul xmin w)); [|done].
    destruct (int_of_float (fmul ymin h)); [|done].
    destruct (int_of_float (fmul xmax w)); [|done].
    destruct (int_of_float (fmul ymax h)); [|done].
    by repeat split.
  - intros (xmin & ymin & xmax & ymax & -> & [a Ha] & [b Hb] & [c Hc]
            & [d Hd]).
    rewrite (convert_four _ _ _ _ _ _ a b c d) by done. by eexists.
Qed.

(** X12. The conversion returns exactly on a bbox of four coordinates whose
    four products with the image sides are finite: a bbox that does not
    unpack raises, and so does [int] of a NaN or of an infinity.  When it
    returns, for an image of at least one pixel, the pixel box lies inside
    the image whatever the coordinates were (negative, above one, or rounded
    either way by the product): its corner is a pixel of the image and its
    far corner is at most the image size. *)
Theorem converted_box_is_inside (bbox : list ext)
  (image_width image_height : Z) :
  0 < image_width → 0 < image_height →
  (is_Some (convert_bbox_normalized_to_absolute fmul bbox image_width
                                                image_height)
   ↔ ∃ xmin ymin xmax ymax,
       bbox = [xmin; ymin; xmax; ymax] ∧
       finite (fmul xmin image_width) ∧ finite (fmul ymin image_height) ∧
       finite (fmul xmax image_width) ∧ finite (fmul ymax image_height)) ∧
  ∀ box,
    convert_bbox_normalized_to_absolute fmul bbox image_width image_height
    = Some box →
    ∃ x1 y1 x2 y2,
      box = [x1; y1; x2; y2] ∧
      0 ≤ x1 ≤ image_width - 1 ∧ 0 ≤ y1 ≤ image_height - 1 ∧
      0 ≤ x2 ≤ image_width ∧ 0 ≤ y2 ≤ image_height.
Proof.
  intros Hw Hh. split; [apply convert_returns|].
  intros box Hbox.
  destruct (proj1 (convert_returns bbox image_width image_height))
    as (xmin & ymin & xmax & ymax & -> & [a Ha] & [b Hb] & [c Hc] & [d Hd]);
    [by eexists|].
  rewrite (convert_four _ _ _ _ _ _ a b c d) in Hbox by done.
  injection Hbox as <-. eexists _, _, _, _. split; [done|]. lia.
Qed.

(** The product is monotone in a finite coordinate, as a correctly rounded
    product is, also where it overflows. *)
Hypothesis fmul_mono :
  ∀ x y n, 0 ≤ n → Qle x y → leb (fmul (Fin x) n) (fmul (Fin y) n) = true.

(** X13. A box given with its corners in order comes out with its corners in
    order, whenever its four products are finite (and only then does the
    conversion return): the pixel box may be empty but is never inverted. *)
Theorem converted_box_keeps_the_order (xmin ymin xmax ymax : Q)
  (image_width image_height : Z) :
  0 ≤ image_width → 0 ≤ image_height →
  Qle xmin xmax → Qle ymin ymax →
  let converted :=
    convert_bbox_normalized_to_absolute
      fmul [Fin xmin; Fin ymin; Fin xmax; Fin ymax] image_width
      image_height in
  (is_Some converted
   ↔ finite (fmul (Fin xmin) image_width) ∧
     finite (fmul (Fin ymin) image_height) ∧
     finite (fmul (Fin xmax) image_width) ∧
     finite (fmul (Fin ymax) image_height)) ∧
  (is_Some converted →
   ∃ x1 y1 x2 y2, converted = Some [x1; y1; x2; y2] ∧ x1 ≤ x2 ∧ y1 ≤ y2).
Proof.
  intros Hw Hh Hx Hy. cbv zeta.
  assert (is_Some (convert_bbox_normalized_to_absolute
                     fmul [Fin xmin; Fin ymin; Fin xmax; Fin ymax]
                     image_width image_height)
          ↔ finite (fmul (Fin xmin) image_width) ∧
            finite (fmul (Fin ymin) image_height) ∧
            finite (fmul (Fin xmax) image_width) ∧
            finite (fmul (Fin ymax) image_height)) as Hret.
  { rewrite convert_returns. split.
    - by intros (? & ? & ? & ? & [= <- <- <- <-] & ?).
    - intros ?. by eexists _, _, _, _. }
  split; [exact Hret|].
  intros ([a Ha] & [b Hb] & [c Hc] & [d Hd])%Hret.
  rewrite (convert_four _ _ _ _ _ _ a b c d) by done.
  eexists _, _, _, _. split; [done|].
  pose proof (fmul_mono xmin xmax image_width Hw Hx) as H1.
  pose proof (fmul_mono ymin ymax image_height Hh Hy) as H2.
  rewrite Ha, Hc in H1. rewrite Hb, Hd in H2. simpl in H1, H2.
  apply Qle_bool_iff in H1, H2.
  pose proof (int_of_mono _ _ H1). pose proof (int_of_mono _ _ H2). lia.
Qed.

End Convert.

(** *** The hash names one integer box *)

Lemma pretty_N_go_no_underscore (x : N) (s : string) :
  no_underscore s → no_underscore (pretty_N_go x s).
Proof.
  revert s. induction (N.lt_wf_0 x) as [x _ IH]; intros s Hs.
  assert (x = 0 ∨ 0 < x)%N as [->|Hx] by lia.
  - by rewrite pretty_N_go_0.
  - rewrite pretty_N_go_step by done. apply IH.
    + by apply N.div_lt.
    + split; [|done]. unfold pretty_N_char. by repeat case_match.
Qed.

Lemma pretty_Z_no_underscore (x : Z) : no_underscore (pretty x).
Proof.
  assert (∀ n : N, no_underscore (pretty n)) as HN.
  { intros n. unfold pretty, pretty_N. case_decide; [by split|].
    by apply pretty_N_go_no_underscore. }
  destruct x as [|p|p]; unfold pretty, pretty_Z.
  - by split.
  - apply HN.
  - split; [done|]. apply HN.
Qed.

Lemma split_at_underscore (a a' b b' : string) :
  no_underscore a → no_underscore a' →
  a +:+ "_" +:+ b = a' +:+ "_" +:+ b' → a = a' ∧ b = b'.
Proof.
  revert a'. induction a as [|c a IH]; intros [|c' a']; simpl.
  - intros _ _ Heq. by simplify_eq.
  - intros _ [Hc _] Heq. by simplify_eq.
  - intros [Hc _] _ Heq. by simplify_eq.
  - intros [_ Ha] [_ Ha'] Heq. injection Heq as -> Heq.
    destruct (IH a' Ha Ha' Heq) as [-> ->]. done.
Qed.

Lemma bbox_to_hash_four (x1 y1 x2 y2 : Q) (rest : list Q) :
  bbox_to_hash (x1 :: y1 :: x2 :: y2 :: rest)
  = Some (pretty (int_of x1) +:+ "_" +:+ pretty (int_of y1) +:+ "_"
          +:+ pretty (int_of x2) +:+ "_" +:+ pretty (int_of y2)).
Proof. done. Qed.

(** X14. Two bboxes of four coordinates have the same hash exactly when
    their coordinates truncate to the same integers; so boxes that share a
    cache key are cropped by [load_and_crop_image] with the same
    rectangle. *)
Theorem bbox_hash_names_one_crop (b b' : list Q) :
  length b = 4%nat → length b' = 4%nat →
  (bbox_to_hash b = bbox_to_hash b' ↔ int_of <$> b = int_of <$> b') ∧
  (bbox_to_hash b = bbox_to_hash b' → crop_box b = crop_box b') ∧
  is_Some (crop_box b).
Proof.
  intros Hb Hb'.
  destruct b as [|x1 [|y1 [|x2 [|y2 [|]]]]]; try done.
  destruct b' as [|x1' [|y1' [|x2' [|y2' [|]]]]]; try done.
  assert (bbox_to_hash [x1; y1; x2; y2] = bbox_to_hash [x1'; y1'; x2'; y2']
          → int_of <$> [x1; y1; x2; y2] = int_of <$> [x1'; y1'; x2'; y2'])
    as Hinj.
  { rewrite !bbox_to_hash_four. intros [= Heq].
    apply split_at_underscore in Heq as [E1 Heq];
      try apply pretty_Z_no_underscore.
    apply split_at_underscore in Heq as [E2 Heq];
      try apply pretty_Z_no_underscore.
    apply split_at_underscore in Heq as [E3 E4];
      try apply pretty_Z_no_underscore.
    apply (inj pretty) in E1, E2, E3, E4. cbn. congruence. }
  split; [split; [exact Hinj|] | split].
  - rewrite !bbox_to_hash_four. cbn. intros [= -> -> -> ->]. done.
  - intros H%Hinj. unfold crop_box. by rewrite H.
  - by eexists.
Qed.

(** Boxes that meet the hypotheses of X12, X13 and X14. *)
Lemma converted_box_is_inside_witness :
  0 < 640 ∧ 0 < 480 ∧
  convert_bbox_normalized_to_absolute MoreFixtures.exact_product
    [Fin (-1 # 10); Fin (1 # 4); Fin (3 # 2); Fin (1 # 2)] 640 480
  = Some [0; 120; 640; 240] ∧
  convert_bbox_normalized_to_absolute MoreFixtures.exact_product
    [Fin (-1 # 10); NaN; Fin (3 # 2); Fin (1 # 2)] 640 480 = None ∧
  ∀ box,
    convert_bbox_normalized_to_absolute MoreFixtures.exact_product
      [Fin (-1 # 10); Fin (1 # 4); Fin (3 # 2); Fin (1 # 2)] 640 480
    = Some box →
    ∃ x1 y1 x2 y2,
      box = [x1; y1; x2; y2] ∧
      0 ≤ x1 ≤ 640 - 1 ∧ 0 ≤ y1 ≤ 480 - 1 ∧ 0 ≤ x2 ≤ 640 ∧ 0 ≤ y2 ≤ 480.
Proof.
  split; [lia|]. split; [lia|]. split; [reflexivity|].
  split; [reflexivity|].
  apply (converted_box_is_inside MoreFixtures.exact_product
           [Fin (-1 # 10); Fin (1 # 4); Fin (3 # 2); Fin (1 # 2)] 640 480);
    lia.
Defined.

Lemma exact_product_mono (x y : Q) (n : Z) :
  0 ≤ n → Qle x y →
  leb (MoreFixtures.exact_product (Fin x) n)
      (MoreFixtures.exact_product (Fin y) n) = true.
Proof.
  intros Hn Hxy. unfold MoreFixtures.exact_product. simpl.
  apply Qle_bool_iff. apply Qmult_le_compat_r; [done|].
  change (Qle (inject_Z 0) (inject_Z n)). by rewrite <- Zle_Qle.
Qed.

Lemma converted_box_keeps_the_order_witness :
  (∀ x y n, 0 ≤ n → Qle x y →
            leb (MoreFixtures.exact_product (Fin x) n)
                (MoreFixtures.exact_product (Fin y) n) = true) ∧
  0 ≤ 640 ∧ 0 ≤ 480 ∧ Qle (1 # 4) (3 # 4) ∧ Qle (1 # 2) (1 # 2) ∧
  ∃ x1 y1 x2 y2,
    convert_bbox_normalized_to_absolute MoreFixtures.exact_product
      [Fin (1 # 4); Fin (1 # 2); Fin (3 # 4); Fin (1 # 2)] 640 480
    = Some [x1; y1; x2; y2] ∧
    x1 ≤ x2 ∧ y1 ≤ y2.
Proof.
  assert (Qle (1 # 4) (3 # 4)) as H1 by (intros H; discriminate H).
  assert (Qle (1 # 2) (1 # 2)) as H2 by (intros H; discriminate H).
  split; [exact exact_product_mono|]. split; [lia|]. split; [lia|].
  split; [exact H1|]. split; [exact H2|].
  apply (converted_box_keeps_the_order MoreFixtures.exact_product
           exact_product_mono (1 # 4) (1 # 2) (3 # 4) (1 # 2) 640 480);
    [lia | lia | exact H1 | exact H2 | by eexists].
Defined.

Lemma bbox_hash_names_one_crop_witness :
  length [12 # 10; 37 # 10; 41 # 10; 59 # 10] = 4%nat ∧
  length [1 # 1; 3 # 1; 4 # 1; 5 # 1] = 4%nat ∧
  crop_box [12 # 10; 37 # 10; 41 # 10; 59 # 10]
  = crop_box [1 # 1; 3 # 1; 4 # 1; 5 # 1].
Proof.
  split; [reflexivity|]. split; [reflexivity|].
  apply (bbox_hash_names_one_crop [12 # 10; 37 # 10; 41 # 10; 59 # 10]
           [1 # 1; 3 # 1; 4 # 1; 5 # 1]); reflexivity.
Defined.

End BboxFacts.


(** ** The individuals of a job *)

Module RunMoreFacts.

Import Cache Reid ReidSpec Cluster ClusterSpec ClusterFacts ReidFacts Views.

(** *** The shape of the clusterer's dict *)

Lemma compact_shape (keys : list Z) (out : output_dict) :
  compact keys = Some out →
  ∃ ks, NoDup ks ∧ (∀ k, k ∈ ks → k ∈ keys) ∧ out = number_from keys 0 ks.
Proof.
  unfold compact. destruct (np_min_Z keys) as [mn|]; [|done].
  destruct (np_max_Z keys) as [mx|]; [|done]. cbn [mbind option_bind].
  intros [= <-]. rewrite compact_fold by constructor. cbn [app].
  exists (present keys (seqZ mn (mx + 1 - mn))). split; [|split; [|done]].
  - unfold present. apply NoDup_ListNoDup, List.NoDup_filter, NoDup_ListNoDup.
    apply NoDup_seqZ.
  - intros k Hk. unfold present in Hk.
    apply list_elem_of_In, filter_In in Hk as [_ Hk].
    by apply existsb_eqb_elem_of.
Qed.

Lemma number_from_snd (keys ks : list Z) (aid : Z) :
  (number_from keys aid ks).*2 = members keys <$> ks.
Proof.
  revert aid. induction ks as [|k ks IH]; intros aid; [done|].
  simpl. by rewrite IH.
Qed.

Lemma members_NoDup (keys : list Z) (k : Z) : NoDup (members keys k).
Proof. unfold members, np_where. apply where_from_NoDup. Qed.

Lemma members_nonempty (keys : list Z) (k : Z) :
  k ∈ keys → members keys k ≠ [].
Proof.
  intros [i Hi]%list_elem_of_lookup_1 Hnil.
  apply elem_of_members in Hi. rewrite Hnil in Hi. by apply elem_of_nil in Hi.
Qed.

Lemma NoDup_concat_members (keys ks : list Z) :
  NoDup ks → NoDup (concat (members keys <$> ks)).
Proof.
  induction 1 as [|k ks Hk Hnd IH]; [constructor|].
  cbn [fmap list_fmap concat]. apply NoDup_app.
  split; [apply members_NoDup|]. split; [|done].
  intros i Hi Hin. apply elem_of_members in Hi.
  apply elem_of_concat in Hin as (l & Hil & Hl).
  apply list_elem_of_fmap in Hl as (k' & -> & Hk').
  apply elem_of_members in Hil. congruence.
Qed.

(** *** The shape of the formatted output *)

Lemma format_shape (ids : list Z) (out : output_dict)
  (inds : list individual) :
  format_output_with_detection_ids ids out = Some inds →
  inds.*1 = (fun e : Z * list nat => "ID-" +:+ pretty e.1) <$> out ∧
  Forall2 (fun i x => ids !! i = Some x) (concat out.*2) (mentioned inds) ∧
  Forall2 (fun (e : Z * list nat) (ind : individual) =>
             length ind.2 = length e.2) out inds.
Proof.
  unfold format_output_with_detection_ids, mentioned.
  intros H%mapM_Some_1.
  induction H as [|[a idxs] [name l] out inds Hx _ IH].
  - repeat split; constructor.
  - destruct IH as (IH1 & IH2 & IH3). cbn [fst snd] in Hx.
    destruct (gather ids idxs) as [l'|] eqn:Hg; simplify_eq/=.
    unfold gather in Hg. apply mapM_Some_1 in Hg.
    split; [by rewrite IH1|]. split.
    + by apply Forall2_app.
    + constructor; [|done]. cbn. symmetry. by eapply Forall2_length.
Qed.

Lemma looked_up_NoDup (ids : list Z) (idx : list nat) (l : list Z) :
  Forall2 (fun i x => ids !! i = Some x) idx l →
  NoDup idx → NoDup ids → NoDup l.
Proof.
  intros Hf Hidx Hids. apply NoDup_alt. intros p q x Hp Hq.
  destruct (Forall2_lookup_r _ _ _ _ _ Hf Hp) as (i & Hi & Hix).
  destruct (Forall2_lookup_r _ _ _ _ _ Hf Hq) as (j & Hj & Hjx).
  assert (i = j) as -> by (by eapply (NoDup_lookup ids)).
  by eapply (NoDup_lookup idx).
Qed.

Section Partition.

Context `{kernel : Distance.Matmul}.
Context {image : Type}.
Variable load_and_crop_image : string → list Q → option (image * Z).
Variable forward : image → Z → list f32.
Variable forward_from_raw : list f32 → Z → list f32.

Lemma surviving_ids (cache : option db) (species : string)
  (detections : list detection) :
  NoDup (detection_id <$> detections) →
  NoDup (map (fun e : detection * list f32 => detection_id e.1)
             (surviving load_and_crop_image forward forward_from_raw
                        cache species detections)).
Proof.
  unfold surviving. induction detections as [|det l IH]; [constructor|].
  cbn [fmap list_fmap omap list_omap]. intros [Hd Hl]%NoDup_cons.
  destruct (own_embedding _ _ _ cache species det) as [v|];
    cbn [mbind option_bind]; [|by apply IH].
  cbn [map fst]. apply NoDup_cons. split; [|by apply IH].
  intros Hin. apply Hd.
  apply (list_elem_of_fmap (fun e : detection * list f32 =>
                              detection_id e.1)) in Hin
    as ([det' w] & -> & Hin).
  apply list_elem_of_omap in Hin as (det'' & Hin & Hs). cbn [fst].
  destruct (own_embedding _ _ _ cache species det''); simplify_eq/=.
  apply list_elem_of_fmap. by exists det'.
Qed.

(** X15. A job of at least two detections with pairwise distinct
    identifiers (and a positive batch size, bboxes of four coordinates,
    image ids that SQLite takes, a store of whole float32 blobs, embeddings
    of one dimension) returns individuals named [ID-0], [ID-1], ... in this
    order, none of them empty, and no identifier is listed twice, within an
    individual or in two of them. *)
Theorem run_partitions_the_survivors
  (detections : list detection) (cache : option db) (species : string)
  (batch_size : nat) (now : nat → Z) :
  (2 ≤ length detections)%nat →
  (0 < batch_size)%nat →
  Forall (fun det => length (bbox det) = 4%nat) detections →
  image_ids_ok detections →
  (∀ d, cache = Some d → blobs_ok d = true) →
  one_dimension load_and_crop_image forward forward_from_raw
                cache species detections →
  NoDup (detection_id <$> detections) →
  ∃ res,
    run load_and_crop_image forward forward_from_raw
        detections cache species batch_size now = Some res ∧
    NoDup (mentioned (output res)) ∧
    (output res).*1
    = (fun k : Z => "ID-" +:+ pretty k)
        <$> seqZ 0 (Z.of_nat (length (output res))) ∧
    Forall (fun ind : individual => ind.2 ≠ []) (output res).
Proof.
  intros Hlen Hbs Hbb Himg Hok Hdim Hnd.
  destruct (run_mentions_survivors load_and_crop_image forward
              forward_from_raw detections cache species batch_size now
              Hlen Hbs Hbb Hok Himg Hdim Hnd) as (res & Hrun & Hout & _).
  exists res. split; [done|].
  pose proof (surviving_ids cache species detections Hnd) as Hids.
  unfold expected_output in Hout. cbv zeta in Hout.
  destruct (surviving _ _ _ cache species detections) as [|e s] eqn:Hs.
  { injection Hout as ->. repeat split; constructor. }
  set (S := e :: s) in *.
  set (M := Distance.compute_distance_matrix
              (map (fun e0 : detection * list f32 => map value e0.2) S))
    in *.
  assert (length M = length S) as HM.
  { unfold M. by rewrite DistanceFacts.compute_distance_matrix_length,
                length_map. }
  destruct (clusterer_total threshold_adapter M) as
    (keys & out & Hkeys & Hklen & _ & Hproc & _).
  { rewrite HM. simpl. lia. }
  { apply DistanceFacts.compute_distance_matrix_square. }
  unfold process_dist_mat_v2 in Hout. rewrite Hproc in Hout.
  cbn [mbind option_bind] in Hout. symmetry in Hout.
  unfold process_dist_mat_v2_with in Hproc. rewrite Hkeys in Hproc.
  cbn [mbind option_bind] in Hproc.
  destruct (compact_shape keys out Hproc) as (ks & Hks & Hin & ->).
  destruct (format_shape _ _ _ Hout) as (Hn & Hm & Hl).
  rewrite number_from_snd in Hm.
  split; [|split].
  - eapply looked_up_NoDup; [exact Hm | by apply NoDup_concat_members | done].
  - rewrite Hn. apply Forall2_length in Hl.
    rewrite <- Hl, number_from_length.
    rewrite <- (number_from_fst keys ks 0).
    by rewrite <- list_fmap_compose.
  - apply Forall_forall. intros ind Hind.
    apply list_elem_of_lookup_1 in Hind as [p Hp].
    destruct (Forall2_lookup_r _ _ _ _ _ Hl Hp) as ([a idxs] & He & Hlen').
    rewrite number_from_lookup in He.
    destruct (ks !! p) as [k|] eqn:Hk; simplify_eq/=.
    intros Hnil. rewrite Hnil in Hlen'. simpl in Hlen'.
    apply (members_nonempty keys k).
    + apply Hin. by eapply list_elem_of_lookup_2.
    + destruct (members keys k); [done | simpl in Hlen'; lia].
Qed.

End Partition.

(** A job that meets the hypotheses of X15. *)
Lemma run_partitions_the_survivors_witness :
  (2 ≤ length Fixture.one_survivor)%nat ∧
  (0 < 4)%nat ∧
  Forall (fun det => length (bbox det) = 4%nat) Fixture.one_survivor ∧
  image_ids_ok Fixture.one_survivor ∧
  (∀ d, @None db = Some d → blobs_ok d = true) ∧
  one_dimension Fixture.load Fixture.model Fixture.adapter
                None "stoat" Fixture.one_survivor ∧
  NoDup (detection_id <$> Fixture.one_survivor) ∧
  ∃ res,
    run (kernel := Distance.exact) Fixture.load Fixture.model Fixture.adapter
        Fixture.one_survivor None "stoat" 4 Fixture.clock = Some res ∧
    NoDup (mentioned (output res)).
Proof.
  assert (NoDup (detection_id <$> Fixture.one_survivor)) as Hnd.
  { apply (NoDup_cons_2 7); [|apply NoDup_singleton].
    intros H%list_elem_of_singleton. discriminate H. }
  assert (one_dimension Fixture.load Fixture.model Fixture.adapter
            None "stoat" Fixture.one_survivor) as Hdim.
  { exists 2%nat. vm_compute. by repeat constructor. }
  split; [simpl; lia|]. split; [lia|]. split; [by repeat constructor|].
  split; [by repeat constructor|].
  split; [intros d H; discriminate H|]. split; [exact Hdim|].
  split; [exact Hnd|].
  destruct (run_partitions_the_survivors (kernel := Distance.exact)
              Fixture.load Fixture.model Fixture.adapter
              Fixture.one_survivor None "stoat" 4 Fixture.clock)
    as (res & Hrun & Hno & _);
    [simpl; lia | lia | by repeat constructor | by repeat constructor
     | intros d H; discriminate H | exact Hdim | exact Hnd |].
  exists res. split; [exact Hrun | exact Hno].
Defined.

End RunMoreFacts.


(** ** The store after a job *)

Module RunStoreFacts.

Import Cache Reid ReidSpec CacheFacts ReidFacts Views StoreViews.

Lemma grows_refl ty c : grows ty c c.
Proof. destruct c; [|done]. by repeat split. Qed.

Lemma grows_trans ty c1 c2 c3 :
  grows ty c1 c2 → grows ty c2 c3 → grows ty c1 c3.
Proof.
  destruct c1 as [d1|], c2 as [d2|], c3 as [d3|]; try done.
  intros (A1 & A2 & A3 & A4) (B1 & B2 & B3 & B4).
  split; [|split; [|split]]; intros.
  - rewrite B1 by done. by apply A1.
  - by apply B2, A2.
  - by apply B3, A3.
  - by apply B4, A4.
Qed.

Lemma insert_grows ty d (i : Z) (h : string) a now :
  grows ty (Some d) (Some (insert_or_replace d (i, h, ty) (tobytes a) now)).
Proof.
  split; [|split; [|split]].
  - intros k Hk. apply select_insert_other. intros ->. done.
  - intros k Hk. destruct (decide (k = (i, h, ty))) as [->|Hne].
    + rewrite select_insert_same. by eexists.
    + by rewrite select_insert_other.
  - apply insert_blobs_ok.
  - apply insert_unique.
Qed.

Lemma apply_all_grows ty now (items : list (Z * list Q * list f32)) :
  ∀ d d', apply_all Some d items ty now = Some d' →
          grows ty (Some d) (Some d').
Proof.
  unfold apply_all.
  induction items as [|[[i b] v] items IH]; intros d d'; simpl.
  - intros [= ->]. apply (grows_refl ty (Some d')).
  - destruct (bbox_to_hash b) as [h|]; simpl; [|done].
    destruct (int64 i); simpl; [|done].
    intros H. eapply grows_trans; [apply insert_grows|]. by apply IH.
Qed.

(** Every entry of a batch that ran to its end has a record. *)
Lemma apply_all_records ty now (items : list (Z * list Q * list f32)) :
  ∀ d d', apply_all Some d items ty now = Some d' →
          ∀ i b v h, (i, b, v) ∈ items → bbox_to_hash b = Some h →
                     is_Some (select_one d' (i, h, ty)).
Proof.
  unfold apply_all.
  induction items as [|[[i0 b0] v0] items IH]; intros d d'; simpl.
  - intros _ i b v h Hin. by apply elem_of_nil in Hin.
  - destruct (bbox_to_hash b0) as [h0|] eqn:Hh0; simpl; [|done].
    destruct (int64 i0); simpl; [|done].
    intros Hrun i b v h [[= -> -> ->]|Hin]%elem_of_cons Hh.
    + pose proof (apply_all_grows ty now items _ _ Hrun) as (_ & Hkeep & _).
      apply Hkeep. simplify_eq. rewrite select_insert_same. by eexists.
    + by eapply IH.
Qed.

Lemma write_back_grows c items ty now c' :
  write_back c items ty now = Some c' → grows ty c c'.
Proof.
  unfold write_back. destruct c as [d|]; [|by intros [= <-]].
  destruct items as [|it items];
    [intros [= <-]; apply (grows_refl ty (Some d))|].
  rewrite store_embeddings_batch_eq.
  destruct (apply_all Some d (it :: items) ty now) as [d'|] eqn:Ha; [|done].
  simpl. intros [= <-]. by eapply apply_all_grows.
Qed.

Lemma write_back_records d items ty now c' :
  write_back (Some d) items ty now = Some c' →
  ∃ d', c' = Some d' ∧
        ∀ i b v h, (i, b, v) ∈ items → bbox_to_hash b = Some h →
                   is_Some (select_one d' (i, h, ty)).
Proof.
  unfold write_back.
  destruct items as [|it items].
  { intros [= <-]. exists d. split; [done|].
    intros i b v h Hin. by apply elem_of_nil in Hin. }
  rewrite store_embeddings_batch_eq.
  destruct (apply_all Some d (it :: items) ty now) as [d'|] eqn:Ha; [|done].
  simpl. intros [= <-]. exists d'. split; [done|].
  by eapply apply_all_records.
Qed.

Lemma foldlM_keeps {A B} (f : B → A → option B) (R : B → B → Prop)
  (l : list A) :
  (∀ b, R b b) → (∀ a b c, R a b → R b c → R a c) →
  (∀ b x b', x ∈ l → f b x = Some b' → R b b') →
  ∀ b b', foldlM f b l = Some b' → R b b'.
Proof.
  intros Hrefl Htrans. induction l as [|x l IH]; intros Hstep b b'; simpl.
  - intros [= ->]. apply Hrefl.
  - destruct (f b x) as [b1|] eqn:Hf; [|done]. simpl. intros Hrun.
    eapply Htrans.
    + eapply Hstep; [apply list_elem_of_here | done].
    + apply IH; [|done]. intros b0 y b0' Hy. apply Hstep.
      by apply list_elem_of_further.
Qed.

Section Loops.

Context {image : Type}.
Variable load_and_crop_image : string → list Q → option (image * Z).
Variable forward : image → Z → list f32.
Variable forward_from_raw : list f32 → Z → list f32.
Variables (ty : string) (now : nat → Z).

Local Abbreviation batch_stored := (StoreViews.batch_stored ty).

Lemma items_to_store_elem (d : db) (feats : list (nat * detection * list f32))
  i det v image_id :
  (i, det, v) ∈ feats → det_image_id det = Some image_id →
  (image_id, bbox det, v) ∈ items_to_store (Some d) feats.
Proof.
  intros Hin Himg. unfold items_to_store. apply list_elem_of_omap.
  exists (i, det, v). split; [done|]. cbn. by rewrite Himg.
Qed.

Lemma adapter_batch_stored p batch p' :
  adapter_batch load_and_crop_image forward_from_raw ty now p batch
  = Some p' →
  batch_stored p p' ((fun x => x.1.2) <$> batch).
Proof.
  rewrite adapter_batch_eq.
  destruct (write_back _ _ ty _) as [c'|] eqn:Hw; [|done].
  cbn [mbind option_bind]. intros [= <-]. cbn [store]. split.
  - by eapply write_back_grows.
  - intros det img h d Hin Himg Hh Hd. rewrite Hd in Hw.
    apply write_back_records in Hw as (d' & -> & Hrec).
    exists d'. split; [done|].
    apply list_elem_of_fmap in Hin as ([[i det'] w] & -> & Hin).
    cbn [fst snd] in *.
    apply (Hrec img (bbox det')
             (forward_from_raw w
                (is_day_or_default load_and_crop_image det'))); [|done].
    apply (items_to_store_elem d _ i); [|done].
    apply list_elem_of_fmap. by exists (i, det', w).
Qed.

Lemma full_batch_stored p batch p' :
  full_batch load_and_crop_image forward ty now p batch = Some p' →
  batch_stored p p'
    ((fun y => y.1.1.2) <$> loaded_of load_and_crop_image batch).
Proof.
  rewrite full_batch_eq.
  destruct (foldlM mark_failed (ids p) _) as [l1|]; [|done].
  cbn [mbind option_bind].
  destruct (loaded_of load_and_crop_image batch) as [|y ys] eqn:Hl.
  { intros [= <-]. cbn [store]. split; [apply grows_refl|].
    intros det img h d Hin. by apply elem_of_nil in Hin. }
  destruct (write_back _ _ ty _) as [c'|] eqn:Hw; [|done].
  cbn [mbind option_bind]. intros [= <-]. cbn [store]. split.
  - by eapply write_back_grows.
  - intros det img h d Hin Himg Hh Hd. rewrite Hd in Hw.
    apply write_back_records in Hw as (d' & -> & Hrec).
    exists d'. split; [done|].
    apply list_elem_of_fmap in Hin as ([[[i det'] im] t] & -> & Hin).
    cbn [fst snd] in *.
    apply (Hrec img (bbox det') (forward im t)); [|done].
    apply (items_to_store_elem d _ i); [|done].
    apply list_elem_of_fmap. by exists (i, det', im, t).
Qed.

Lemma batch_stored_trans p1 p2 p3 dets1 dets2 :
  batch_stored p1 p2 dets1 → batch_stored p2 p3 dets2 →
  batch_stored p1 p3 (dets1 ++ dets2).
Proof.
  intros [G1 R1] [G2 R2]. split; [by eapply grows_trans|].
  intros det img h d [Hin|Hin]%elem_of_app Himg Hh Hd.
  - destruct (R1 det img h d Hin Himg Hh Hd) as (d2 & Hd2 & Hrec).
    rewrite Hd2 in G2. destruct (store p3) as [d3|]; [|done].
    exists d3. split; [done|]. destruct G2 as (_ & Hkeep & _). by apply Hkeep.
  - rewrite Hd in G1. destruct (store p2) as [d2|] eqn:Hd2; [|done].
    by apply (R2 det img h d2).
Qed.

Lemma loop_stored {A} (f : progress → A → option progress)
  (dets_of : A → list detection) (B : list A) :
  (∀ p x p', f p x = Some p' → batch_stored p p' (dets_of x)) →
  ∀ p p', foldlM f p B = Some p' →
          batch_stored p p' (concat (dets_of <$> B)).
Proof.
  intros Hstep. induction B as [|x B IH]; intros p p'; simpl.
  - intros [= ->]. split; [apply grows_refl|].
    intros det img h d Hin. by apply elem_of_nil in Hin.
  - destruct (f p x) as [p1|] eqn:Hf; [|done]. simpl. intros Hrun.
    eapply batch_stored_trans; [by apply Hstep | by apply IH].
Qed.

End Loops.

Lemma batches_Some_concat {A} (bs : nat) (l : list A) B :
  batches bs l = Some B → concat B = l.
Proof.
  intros HB. destruct (decide (bs = 0%nat)) as [->|Hne]; [done|].
  destruct (batches_concat bs l) as (B' & HB' & Hc); [lia|]. congruence.
Qed.

Lemma categorize_classified cache reid raw (E : list (nat * detection)) :
  ∀ t0 t, foldlM (categorize_step cache reid raw) t0 E = Some t →
          Forall (fun x => is_Some (classify cache reid raw x.2)) E.
Proof.
  induction E as [|[i det] E IH]; intros t0 t; [constructor|].
  cbn [foldlM]. rewrite categorize_step_classify.
  destruct (classify cache reid raw det) as [tr|] eqn:Hc; [|done].
  cbn [mbind option_bind]. intros Hrun. constructor; [by eexists|].
  by eapply IH.
Qed.

Lemma classified_in_range (d : db) reid raw det image_id :
  is_Some (classify (Some d) reid raw det) →
  det_image_id det = Some image_id → int64 image_id = true.
Proof.
  unfold classify, get_embedding. intros [tr Hc] Himg. rewrite Himg in Hc.
  destruct (bbox_to_hash (bbox det)); [|done]. cbn [mbind option_bind] in Hc.
  by destruct (int64 image_id).
Qed.

Section Job.

Context `{kernel : Distance.Matmul}.
Context {image : Type}.
Variable load_and_crop_image : string → list Q → option (image * Z).
Variable forward : image → Z → list f32.
Variable forward_from_raw : list f32 → Z → list f32.

Lemma loaded_of_concat (B : list (list (nat * detection))) :
  concat ((fun b => (fun y : nat * detection * image * Z => y.1.1.2)
                      <$> loaded_of load_and_crop_image b) <$> B)
  = (fun y : nat * detection * image * Z => y.1.1.2)
      <$> loaded_of load_and_crop_image (concat B).
Proof.
  induction B as [|b B IH]; [done|].
  cbn [fmap list_fmap concat]. rewrite IH.
  unfold loaded_of. by rewrite omap_app, fmap_app.
Qed.

Lemma fmap_concat {A B} (f : A → B) (ls : list (list A)) :
  concat ((fun l : list A => f <$> l) <$> ls) = f <$> concat ls.
Proof.
  induction ls as [|l ls IH]; [done|].
  cbn [fmap list_fmap concat]. by rewrite IH, fmap_app.
Qed.

(** The body of the job, as far as the store goes. *)
Lemma run_many_store detections cache species batch_size now res :
  run_many load_and_crop_image forward forward_from_raw
           detections cache species batch_size now = Some res →
  ∃ t p1 p2,
    categorize cache (variants species).1 (variants species).2 detections
    = Some t ∧
    batch_stored (variants species).1
      (Progress ∅ (detection_ids t) cache []) p1
      ((fun x => x.1.2) <$> has_raw t) ∧
    batch_stored (variants species).1
      (Progress ∅ (ids p1) (store p1) (log p1)) p2
      ((fun y => y.1.1.2)
         <$> loaded_of load_and_crop_image (needs_full t)) ∧
    cache_after res = store p2.
Proof.
  unfold run_many. cbv zeta. cbn [variants fst snd].
  set (reid := Config.REID_EMBEDDING_PREFIX +:+ species).
  destruct (categorize cache reid _ detections) as [t|]; [|done].
  cbn [mbind option_bind].
  destruct (match has_raw t with [] => _ | _ => _ end) as [p1|] eqn:H1;
    [|done].
  cbn [mbind option_bind].
  destruct (match needs_full t with [] => _ | _ => _ end) as [p2|] eqn:H2;
    [|done].
  cbn [mbind option_bind].
  destruct (foldlM _ [] (enumerate detections)) as [all|]; [|done].
  cbn [mbind option_bind]. intros Hres.
  exists t, p1, p2. split; [done|]. split; [|split].
  - destruct (has_raw t) as [|x xs] eqn:Hraw.
    + injection H1 as <-. split; [apply grows_refl|].
      intros det img h d Hin. by apply elem_of_nil in Hin.
    + destruct (batches batch_size (x :: xs)) as [B|] eqn:HB; [|done].
      cbn [mbind option_bind] in H1.
      apply batches_Some_concat in HB. rewrite <- HB, <- fmap_concat.
      by apply (loop_stored reid
                  (adapter_batch load_and_crop_image forward_from_raw
                                 reid now)
                  (fun b => (fun x => x.1.2) <$> b) B
                  (adapter_batch_stored load_and_crop_image
                     forward_from_raw reid now)).
  - destruct (needs_full t) as [|x xs] eqn:Hfull.
    + injection H2 as <-. split; [apply grows_refl|].
      intros det img h d Hin. by apply elem_of_nil in Hin.
    + destruct (batches batch_size (x :: xs)) as [B|] eqn:HB; [|done].
      cbn [mbind option_bind] in H2.
      apply batches_Some_concat in HB. rewrite <- HB, <- loaded_of_concat.
      by apply (loop_stored reid
                  (full_batch load_and_crop_image forward reid now)
                  (fun b => (fun y => y.1.1.2)
                              <$> loaded_of load_and_crop_image b) B
                  (full_batch_stored load_and_crop_image forward reid now)).
  - destruct all as [|e all].
    + by injection Hres as <-.
    + destruct (np_stack _) as [em|]; [|done]. cbn [mbind option_bind] in Hres.
      destruct (Cluster.process_dist_mat_v2 _) as [out|]; [|done].
      cbn [mbind option_bind] in Hres.
      destruct (format_output_with_detection_ids _ out) as [inds|]; [|done].
      by injection Hres as <-.
Qed.

(** X16. Whatever the job, when [run] returns with a store, the store it
    leaves reads every record of another variant than the final variant of
    the job's species exactly as before, has a record under every key that
    had one, and is still well formed (unique index, whole float32 blobs);
    without a store, none appears. *)
Theorem run_only_adds_final_records
  (detections : list detection) (cache : option db) (species : string)
  (batch_size : nat) (now : nat → Z) (res : result) :
  run load_and_crop_image forward forward_from_raw
      detections cache species batch_size now = Some res →
  match cache with
  | None => cache_after res = None
  | Some d =>
      ∃ d', cache_after res = Some d' ∧
        (∀ image_id h t,
           t ≠ Config.REID_EMBEDDING_PREFIX +:+ species →
           select_one d' (image_id, h, t) = select_one d (image_id, h, t)) ∧
        (∀ k, is_Some (select_one d k) → is_Some (select_one d' k)) ∧
        (blobs_ok d = true → blobs_ok d' = true) ∧
        (unique d → unique d')
  end.
Proof.
  intros Hrun.
  assert (grows (Config.REID_EMBEDDING_PREFIX +:+ species) cache
                (cache_after res)) as Hg.
  { destruct detections as [|d1 [|d2 rest]].
    - injection Hrun as <-. apply grows_refl.
    - injection Hrun as <-. apply grows_refl.
    - apply run_many_store in Hrun as (t & p1 & p2 & _ & [G1 _] & [G2 _]
                                       & ->).
      cbn [store variants fst] in G1, G2. by eapply grows_trans. }
  unfold grows in Hg. destruct cache as [d|], (cache_after res) as [d'|];
    try done.
  destruct Hg as (A1 & A2 & A3 & A4). exists d'. split; [done|].
  split; [|done]. intros img h t Ht. by apply A1.
Qed.

Lemma cached_has_record (d : db) reid raw det image_id h v :
  classify (Some d) reid raw det = Some (FullyCached v) →
  det_image_id det = Some image_id → bbox_to_hash (bbox det) = Some h →
  is_Some (select_one d (image_id, h, reid)).
Proof.
  intros Hc Himg Hh. unfold classify in Hc. rewrite Himg in Hc.
  unfold get_embedding in Hc. rewrite Hh in Hc. cbn [mbind option_bind] in Hc.
  destruct (int64 image_id); [|done].
  destruct (select_one d (image_id, h, reid)) as [r|]; [by eexists|].
  cbn [mbind option_bind] in Hc.
  destruct (select_one d (image_id, h, raw)) as [r|];
    cbn [mbind option_bind] in Hc; [|done].
  by destruct (frombuffer (embedding r)).
Qed.

(** X17. A job of at least two detections that returns with a store leaves
    a final-variant record for every detection that has an image id and an
    embedding (cached before, computed by the adapter, or computed by the
    full model), so that a later job on the returned store finds each of
    them fully cached. *)
Theorem run_leaves_the_survivors_cached
  (detections : list detection) (d : db) (species : string)
  (batch_size : nat) (now : nat → Z) (res : result) :
  (2 ≤ length detections)%nat →
  Forall (fun det => length (bbox det) = 4%nat) detections →
  blobs_ok d = true →
  run load_and_crop_image forward forward_from_raw
      detections (Some d) species batch_size now = Some res →
  ∃ d',
    cache_after res = Some d' ∧
    ∀ det image_id,
      det ∈ detections → det_image_id det = Some image_id →
      is_Some (own_embedding load_and_crop_image forward forward_from_raw
                             (Some d) species det) →
      has_record d' image_id (bbox det)
                 (Config.REID_EMBEDDING_PREFIX +:+ species) ∧
      ∃ v, classify (Some d') (Config.REID_EMBEDDING_PREFIX +:+ species)
                    Config.RAW_FOR_ADAPTER_TYPE det
           = Some (FullyCached v).
Proof.
  intros Hlen Hbb Hok Hrun. rewrite run_as_run_many in Hrun by done.
  apply run_many_store in Hrun as (t & p1 & p2 & Hcat & [G1 R1] & [G2 R2]
                                   & Hca).
  cbn [store variants fst snd] in *.
  set (reid := Config.REID_EMBEDDING_PREFIX +:+ species) in *.
  set (raw := Config.RAW_FOR_ADAPTER_TYPE) in *.
  unfold categorize in Hcat.
  pose proof (categorize_classified _ _ _ _ _ _ Hcat) as Hcl.
  destruct (categorize_from (Some d) reid raw (enumerate detections)
              (Tiers ∅ [] [] []) Hcl)
    as (t' & Hcat' & _ & Hraw & Hfull & _).
  rewrite Hcat in Hcat'. injection Hcat' as <-.
  cbn [has_raw needs_full app] in Hraw, Hfull.
  destruct (store p1) as [d1|] eqn:Hd1; [|done].
  destruct (store p2) as [d2|] eqn:Hd2; [|done].
  exists d2. split; [by rewrite Hca|].
  assert (blobs_ok d2 = true) as Hok2.
  { destruct G1 as (_ & _ & B1 & _), G2 as (_ & _ & B2 & _). auto. }
  intros det img [i Hi]%list_elem_of_lookup_1 Himg Hown.
  apply in_E_lookup in Hi.
  assert (is_Some (bbox_to_hash (bbox det))) as [h Hh].
  { apply bbox_to_hash_is_Some. rewrite Forall_forall in Hbb. apply Hbb.
    by eapply in_E_detections. }
  assert (is_Some (select_one d2 (img, h, reid))) as Hrec.
  { rewrite own_eq in Hown. cbn [variants fst snd] in Hown.
    fold reid raw in Hown.
    destruct (classify (Some d) reid raw det) as [[v|w|]|] eqn:Hc.
    - destruct G1 as (_ & K1 & _), G2 as (_ & K2 & _).
      apply K2, K1. by eapply cached_has_record.
    - destruct (R1 det img h d) as (d1' & Hd1' & Hr); [|done|done|done|].
      + apply list_elem_of_fmap. exists (i, det, w). split; [done|].
        rewrite Hraw. by apply (elem_of_raw_items (Some d) species).
      + simplify_eq. destruct G2 as (_ & K2 & _). by apply K2.
    - destruct (load_and_crop_image (image_path det) (bbox det))
        as [[im tm]|] eqn:Hload; [|by destruct Hown].
      destruct (R2 det img h d1) as (d2' & Hd2' & Hr); [|done|done|done|].
      + apply list_elem_of_fmap. exists (i, det, im, tm). split; [done|].
        apply elem_of_loaded_of. split; [|done].
        rewrite Hfull. by apply (elem_of_full_items (Some d) species).
      + by simplify_eq.
    - by destruct Hown. }
  assert (has_record d2 img (bbox det) reid) as Hhas.
  { apply select_one_record in Hrec as (r & Hr & Hk). by exists h, r. }
  split; [done|].
  apply (classify_by_records d2 reid raw det img); try done.
  apply (classified_in_range d reid raw det); [|done].
  rewrite Forall_forall in Hcl. by apply (Hcl (i, det)).
Qed.

End Job.

(** A job that meets the hypotheses of X16 and X17. *)
Lemma run_only_adds_final_records_witness :
  ∃ res,
    run (kernel := Distance.exact) Fixture.load Fixture.model Fixture.adapter
        Fixture.with_image_ids (Some Fixture.raw_store) "stoat" 4
        Fixture.clock = Some res ∧
    ∃ d', cache_after res = Some d' ∧
      select_one d' (1, "0_0_10_10", "dinov3_raw")
      = select_one Fixture.raw_store (1, "0_0_10_10", "dinov3_raw").
Proof.
  assert (∃ res,
            run (kernel := Distance.exact) Fixture.load Fixture.model
                Fixture.adapter Fixture.with_image_ids
                (Some Fixture.raw_store) "stoat" 4 Fixture.clock
            = Some res) as [res Hres]
    by (vm_compute; eexists; reflexivity).
  exists res. split; [exact Hres|].
  destruct (run_only_adds_final_records (kernel := Distance.exact)
              Fixture.load Fixture.model
              Fixture.adapter Fixture.with_image_ids
              (Some Fixture.raw_store) "stoat" 4 Fixture.clock res Hres)
    as (d' & Hd' & Hother & _).
  exists d'. split; [exact Hd'|]. apply Hother.
  intros H. discriminate H.
Defined.

Lemma run_leaves_the_survivors_cached_witness :
  (2 ≤ length Fixture.with_image_ids)%nat ∧
  Forall (fun det => length (bbox det) = 4%nat) Fixture.with_image_ids ∧
  blobs_ok Fixture.raw_store = true ∧
  ∃ res,
    run (kernel := Distance.exact) Fixture.load Fixture.model Fixture.adapter
        Fixture.with_image_ids (Some Fixture.raw_store) "stoat" 4
        Fixture.clock = Some res ∧
    ∃ d', cache_after res = Some d' ∧
      has_record d' 2 Fixture.box
                 (Config.REID_EMBEDDING_PREFIX +:+ "stoat").
Proof.
  assert (∃ res,
            run (kernel := Distance.exact) Fixture.load Fixture.model
                Fixture.adapter Fixture.with_image_ids
                (Some Fixture.raw_store) "stoat" 4 Fixture.clock
            = Some res) as [res Hres]
    by (vm_compute; eexists; reflexivity).
  split; [simpl; lia|]. split; [by repeat constructor|].
  split; [reflexivity|].
  exists res. split; [exact Hres|].
  destruct (run_leaves_the_survivors_cached (kernel := Distance.exact)
              Fixture.load Fixture.model
              Fixture.adapter Fixture.with_image_ids Fixture.raw_store
              "stoat" 4 Fixture.clock res)
    as (d' & Hd' & Hall);
    [simpl; lia | by repeat constructor | reflexivity | exact Hres |].
  exists d'. split; [exact Hd'|].
  apply (Hall (Detection 8 "north.jpg" Fixture.box (Some 2)) 2);
    [apply list_elem_of_further, list_elem_of_here | reflexivity
     | by eexists].
Defined.

End RunStoreFacts.

(** ** More on the clusterer *)

Module ClusterMoreFacts.

Import Distance Cluster ClusterSpec ClusterFacts ClusterViews Views.

(** *** An invariant of the row loop *)

Lemma rows_from_invariant (eps : Q) (N : nat) (I : nat → list Z → Prop)
  (rows : list (list ext)) :
  ∀ (r : nat) (keys : list Z),
  length keys = N → (r + length rows = N)%nat →
  Forall (fun row => length row = N) rows →
  I r keys →
  (∀ k row keys0 md b keys1,
     rows !! k = Some row → length keys0 = N → I (r + k)%nat keys0 →
     np_min row = Some md → md ∈ row →
     Forall (fun y => np_le md y = true) row →
     chosen eps row md keys0 (r + k) b →
     length keys1 = N →
     (∀ i, (i < N)%nat →
           key_at keys1 i = key_after eps row md keys0 (r + k) b i) →
     I (S (r + k)) keys1) →
  ∃ keys', rows_from eps r rows keys = Some keys' ∧ length keys' = N ∧
           I N keys'.
Proof.
  induction rows as [|row rows IH]; intros r keys Hlen Hr Hsq HI Hstep.
  - exists keys. simpl in Hr. assert (N = r) as -> by lia. done.
  - apply Forall_cons in Hsq as [Hrow Hsq]. simpl in Hr.
    destruct (step_refines eps keys r row) as (md & b & keys' & Hmin & Hch
                                                & Hst & Hlen' & Hkeys');
      [lia | lia | intros ->; simpl in *; lia |].
    assert (∀ i, (i < N)%nat → key_at keys' i
                 = key_after eps row md keys r b i) as Hk.
    { intros i Hi. unfold key_at at 1. rewrite Hkeys' by lia. done. }
    destruct (np_min_spec _ _ Hmin) as [Hin Hle].
    simpl. rewrite Hst. simpl. apply (IH (S r) keys'); [lia|lia|done| |].
    + replace (S r) with (S (r + 0)) by lia.
      apply (Hstep 0%nat row keys md b keys'); try done; try lia.
      * by replace (r + 0)%nat with r by lia.
      * by replace (r + 0)%nat with r by lia.
      * intros i Hi. replace (r + 0)%nat with r by lia. by apply Hk.
    + intros k row' keys0 md' b' keys1 Hk' Hl0 HI0 Hmin' Hin' Hle' Hch' Hl1 Hka.
      replace (S r + k)%nat with (r + S k)%nat by lia.
      apply (Hstep (S k) row' keys0 md' b' keys1); try done.
      * by replace (r + S k)%nat with (S r + k)%nat by lia.
      * by replace (r + S k)%nat with (S r + k)%nat by lia.
      * intros i Hi. replace (r + S k)%nat with (S r + k)%nat by lia.
        by apply Hka.
Qed.

(** *** No more than one individual for two detections *)

Lemma masked_row_candidates (eps : Q) (row : list ext) (s : nat) (md : ext) :
  Qle 0 eps → (2 ≤ length row)%nat → (s < length row)%nat →
  (∀ j d, row !! j = Some d →
          if decide (j = s) then d = PInf else ∃ q, d = Fin q) →
  md ∈ row → Forall (fun y => np_le md y = true) row →
  ∃ j, j ≠ s ∧ candidate eps row md j = true.
Proof.
  intros Heps Hlen Hs Hrow Hin Hle.
  assert (∃ j q, j ≠ s ∧ row !! j = Some (Fin q)) as (j0 & q0 & Hj0 & Hq0).
  { destruct (decide (s = 0%nat)) as [->|Hs0].
    - destruct (lookup_lt_is_Some_2 row 1) as [d Hd]; [lia|].
      pose proof (Hrow _ _ Hd) as H. simpl in H. destruct H as [q ->].
      by exists 1%nat, q.
    - destruct (lookup_lt_is_Some_2 row 0) as [d Hd]; [lia|].
      pose proof (Hrow _ _ Hd) as H. rewrite decide_False in H by done.
      destruct H as [q ->]. by exists 0%nat, q. }
  apply list_elem_of_lookup_1 in Hin as [jm Hjm].
  rewrite Forall_forall in Hle.
  assert (∃ m, md = Fin m ∧ jm ≠ s) as (m & -> & Hjms).
  { pose proof (Hrow _ _ Hjm) as H. case_decide as Hd.
    - subst md.
      by specialize (Hle (Fin q0) (list_elem_of_lookup_2 _ _ _ Hq0)).
    - destruct H as [m ->]. by exists m. }
  exists jm. split; [done|]. unfold candidate.
  rewrite Hjm, IeeeFacts.sub32_self. by apply IeeeFacts.literal32_nonneg.
Qed.

Lemma assigned_spec (keys : list Z) (i : nat) :
  i ∈ assigned keys ↔ (i < length keys)%nat ∧ key_at keys i ≠ -1.
Proof.
  unfold assigned. rewrite list_elem_of_filter, elem_of_seq. lia.
Qed.

Lemma assigned_NoDup (keys : list Z) : NoDup (assigned keys).
Proof. apply NoDup_filter, NoDup_seq. Qed.

Lemma assigned_length (keys : list Z) :
  (length (assigned keys) ≤ length keys)%nat.
Proof.
  unfold assigned. etrans; [apply length_filter|]. by rewrite length_seq.
Qed.

Lemma assigned_mono (keys keys' : list Z) :
  length keys' = length keys →
  (∀ i, (i < length keys)%nat → key_at keys i ≠ -1 → key_at keys' i ≠ -1) →
  (length (assigned keys) ≤ length (assigned keys'))%nat.
Proof.
  intros Hlen Hmono. apply submseteq_length, NoDup_submseteq.
  - apply assigned_NoDup.
  - intros i [Hi Hk]%assigned_spec. apply assigned_spec.
    split; [lia | by apply Hmono].
Qed.

Lemma assigned_two_more (keys keys' : list Z) (x y : nat) :
  length keys' = length keys →
  (∀ i, (i < length keys)%nat → key_at keys i ≠ -1 → key_at keys' i ≠ -1) →
  x ≠ y → (x < length keys)%nat → (y < length keys)%nat →
  key_at keys x = -1 → key_at keys y = -1 →
  key_at keys' x ≠ -1 → key_at keys' y ≠ -1 →
  (length (assigned keys) + 2 ≤ length (assigned keys'))%nat.
Proof.
  intros Hlen Hmono Hxy Hx Hy Hkx Hky Hkx' Hky'.
  change (length (x :: y :: assigned keys) ≤ length (assigned keys'))%nat
    || replace (length (assigned keys) + 2)%nat
         with (length (x :: y :: assigned keys)) by (simpl; lia).
  apply submseteq_length, NoDup_submseteq.
  - apply NoDup_cons. split.
    + intros [->|[_ H]%assigned_spec]%elem_of_cons; done.
    + apply NoDup_cons. split; [|apply assigned_NoDup].
      intros [_ H]%assigned_spec. done.
  - intros i. rewrite !elem_of_cons, !assigned_spec.
    intros [->|[->|[Hi Hk]]]; (split; [lia|]); auto.
Qed.

Lemma key_at_ge (keys : list Z) (i : nat) :
  Forall (fun k => -1 ≤ k) keys → -1 ≤ key_at keys i.
Proof.
  intros Hk. unfold key_at. destruct (keys !! i) as [x|] eqn:Hx; [|done].
  rewrite Forall_forall in Hk. apply Hk. by eapply list_elem_of_lookup_2.
Qed.

Lemma key_at_le_top (keys : list Z) (top : Z) (i : nat) :
  (i < length keys)%nat → np_max_Z keys = Some top → key_at keys i ≤ top.
Proof.
  intros Hi [_ Hall]%np_max_Z_spec. rewrite Forall_forall in Hall.
  apply Hall. eapply list_elem_of_lookup_2. by apply key_at_lookup.
Qed.

Lemma key_at_le_greatest (keys : list Z) (top : Z) (i : nat) :
  (i < length keys)%nat → greatest keys top → key_at keys i ≤ top.
Proof.
  intros Hi [_ Hall]. apply Hall. eapply list_elem_of_lookup_2.
  by apply key_at_lookup.
Qed.

Lemma top_ge (keys : list Z) (top : Z) :
  Forall (fun k => -1 ≤ k) keys → np_max_Z keys = Some top → -1 ≤ top.
Proof.
  intros Hk [Hin _]%np_max_Z_spec. rewrite Forall_forall in Hk. by apply Hk.
Qed.

Lemma branch_key_le_top eps row md keys r b top :
  np_max_Z keys = Some top → chosen eps row md keys r b →
  branch_key b ≤ match b with Fresh _ => top + 1 | _ => top end.
Proof.
  intros Htop. pose proof (np_max_Z_spec _ _ Htop) as [_ Hall].
  rewrite Forall_forall in Hall.
  destruct b as [k|k|k]; simpl.
  - intros [Hr _]. apply Hall. by eapply list_elem_of_lookup_2.
  - intros (_ & _ & top' & [Hin' _] & ->). specialize (Hall top' Hin'). lia.
  - intros (_ & _ & _ & (j & _ & Hj) & _). apply Hall.
    by eapply list_elem_of_lookup_2.
Qed.

(** X18. On a matrix of at least two rows whose self-pairs are masked and
    whose other cells are finite, every row has a nearest neighbour other
    than itself, and the clusterer returns at most half as many individuals
    as there are rows: it never reports every detection as an individual of
    its own. *)
Theorem clusterer_pairs_detections (threshold : Q)
  (dist_mat : list (list ext)) :
  (2 ≤ length dist_mat)%nat → square dist_mat → Qle 0 threshold →
  masked_diagonal dist_mat →
  ∃ out, process_dist_mat_v2_with threshold dist_mat = Some out ∧
         (2 * length out ≤ length dist_mat)%nat.
Proof.
  intros HN Hsq Heps Hdiag. set (N := length dist_mat) in *.
  destruct (rows_from_invariant threshold N
    (fun r keys =>
       Forall (fun k => -1 ≤ k) keys ∧
       (∀ i, (i < r)%nat → key_at keys i ≠ -1) ∧
       ∀ top, np_max_Z keys = Some top →
              2 * (top + 1) ≤ Z.of_nat (length (assigned keys)))
    dist_mat 0 (replicate N (-1)))
    as (keys & Hloop & Hlen & Hge & Hdone & Hcount).
  { by rewrite length_replicate. }
  { done. }
  { done. }
  { split; [apply Forall_replicate; lia|]. split; [intros; lia|].
    intros top [Hin _]%np_max_Z_spec.
    apply elem_of_replicate in Hin as [-> _]. lia. }
  { intros k row keys0 md b keys1 Hrow Hl0 (Hge0 & Hdone0 & Hcount0)
           Hmin Hin Hle Hch Hl1 Hka.
    cbn [plus] in *.
    assert (length row = N) as Hrl
      by (by eapply (proj1 (Forall_lookup _ _) Hsq)).
    assert (k < N)%nat as HkN by (by eapply lookup_lt_Some).
    destruct (masked_row_candidates threshold row k md)
      as (j1 & Hj1 & Hcand); try done; try lia.
    { intros j d Hj. by apply (Hdiag k j row d). }
    assert (j1 < N)%nat as Hj1N by (apply candidate_lt in Hcand; lia).
    pose proof (chosen_key_nonneg _ _ _ _ _ _ Hge0 Hch) as Hb.
    assert (∀ i, (i < N)%nat → key_at keys0 i ≠ -1 → key_at keys1 i ≠ -1)
      as Hmono.
    { intros i Hi Hk0. rewrite Hka by done.
      destruct (key_after_cases threshold row md keys0 k b i) as [-> | ->];
        [lia | done]. }
    split; [|split].
    - apply Forall_lookup. intros i x Hi.
      assert (i < N)%nat as HiN by (apply lookup_lt_Some in Hi; lia).
      assert (x = key_at keys1 i) as -> by (unfold key_at; by rewrite Hi).
      rewrite Hka by done.
      destruct (key_after_cases threshold row md keys0 k b i) as [-> | ->];
        [lia | by apply key_at_ge].
    - intros i Hi. destruct (decide (i = k)) as [->|Hne].
      + rewrite Hka by done. rewrite (key_after_row _ _ _ _ _ _ Hch). lia.
      + apply Hmono; [lia|]. apply Hdone0. lia.
    - intros top1 Htop1.
      destruct (np_max_Z_is_Some keys0) as [top0 Htop0].
      { intros ->. simpl in Hl0. lia. }
      specialize (Hcount0 top0 Htop0).
      pose proof (top_ge _ _ Hge0 Htop0) as Htop0ge.
      pose proof (branch_key_le_top _ _ _ _ _ _ _ Htop0 Hch) as Hbk.
      assert (top1 ≤ match b with Fresh _ => top0 + 1 | _ => top0 end)
        as Hle1.
      { apply np_max_Z_spec in Htop1 as [[i Hi]%list_elem_of_lookup_1 _].
        assert (i < N)%nat as HiN by (apply lookup_lt_Some in Hi; lia).
        assert (top1 = key_at keys1 i) as -> by (unfold key_at; by rewrite Hi).
        rewrite Hka by done.
        destruct (key_after_cases threshold row md keys0 k b i) as [-> | ->];
          [done|].
        pose proof (key_at_le_top keys0 top0 i ltac:(lia) Htop0).
        destruct b; lia. }
      assert (length (assigned keys0) ≤ length (assigned keys1))%nat as Hm
        by (apply assigned_mono; [lia | by rewrite Hl0]).
      destruct b as [kp|kf|kj]; [lia | | lia].
      destruct Hch as (Hk0 & Hall & _).
      assert (length (assigned keys0) + 2 ≤ length (assigned keys1))%nat.
      { apply (assigned_two_more keys0 keys1 k j1); try lia.
        - by rewrite Hl0.
        - unfold key_at. by rewrite Hk0.
        - unfold key_at. by rewrite (Hall j1 Hcand).
        - rewrite Hka by done. simpl in *.
          rewrite bool_decide_eq_true_2 by done. simpl. lia.
        - rewrite Hka by done. simpl in *. rewrite Hcand, orb_true_r. lia. }
      lia. }
  assert (keys ≠ []) as Hne by (intros ->; simpl in Hlen; lia).
  destruct (np_min_Z_is_Some keys Hne) as [mn Hmn].
  destruct (np_max_Z_is_Some keys Hne) as [mx Hmx].
  specialize (Hcount mx Hmx).
  pose proof (assigned_length keys) as Hal.
  assert (0 ≤ mn) as Hmn0.
  { apply np_min_Z_spec in Hmn as [[i Hi]%list_elem_of_lookup_1 _].
    assert (i < N)%nat as HiN by (apply lookup_lt_Some in Hi; lia).
    assert (mn = key_at keys i) as -> by (unfold key_at; by rewrite Hi).
    pose proof (key_at_ge keys i Hge). specialize (Hdone i HiN). lia. }
  unfold process_dist_mat_v2_with, row_loop. fold N. rewrite Hloop.
  cbn [mbind option_bind]. unfold compact. rewrite Hmn, Hmx.
  cbn [mbind option_bind]. rewrite compact_fold by constructor.
  eexists. split; [done|]. cbn [app].
  rewrite number_from_length. unfold present.
  pose proof (filter_length_le (fun k => existsb (fun x => x =? k) keys)
                (seqZ mn (mx + 1 - mn))) as Hf.
  rewrite length_seqZ in Hf. lia.
Qed.

(** *** An embedding with a NaN *)

(** The bound of the source is a finite float32 number. *)
Lemma threshold_adapter_finite : ∃ t, literal32 threshold_adapter = Fin t.
Proof. eexists. vm_compute. reflexivity. Qed.

(** A cell without a distance is within no finite bound of the minimum. *)
Lemma no_distance_no_candidate (eps : Q) (row : list ext) (md : ext)
  (j : nat) (d : ext) :
  (∃ t, literal32 eps = Fin t) →
  row !! j = Some d → no_distance d → candidate eps row md j = false.
Proof.
  intros [t Ht] Hj [-> | ->]; unfold candidate; rewrite Hj, Ht;
    by destruct md.
Qed.

Lemma singleton_members (keys : list Z) (k : nat) (v : Z) :
  keys !! k = Some v →
  (∀ i, (i < length keys)%nat → i ≠ k → key_at keys i ≠ v) →
  members keys v = [k].
Proof.
  intros Hk Huniq. apply Permutation_singleton_r.
  apply NoDup_Permutation.
  - apply RunMoreFacts.members_NoDup.
  - apply NoDup_singleton.
  - intros i. rewrite elem_of_members, list_elem_of_singleton. split.
    + intros Hi. destruct (decide (i = k)) as [->|Hne]; [done|].
      exfalso. apply (Huniq i); [by eapply lookup_lt_Some | done |].
      unfold key_at. by rewrite Hi.
    + by intros ->.
Qed.

(** A row and a column of cells without a distance cut the index off. *)
Lemma clusterer_isolates (threshold : Q) (dist_mat : list (list ext))
  (k : nat) :
  (∃ t, literal32 threshold = Fin t) →
  (k < length dist_mat)%nat → square dist_mat →
  (∀ r row d, dist_mat !! r = Some row → row !! k = Some d → no_distance d) →
  (∀ row j d, dist_mat !! k = Some row → row !! j = Some d → no_distance d) →
  ∃ out a, process_dist_mat_v2_with threshold dist_mat = Some out ∧
           (a, [k]) ∈ out.
Proof.
  intros Hfinite HkN Hsq Hcol Hrow. set (N := length dist_mat) in *.
  destruct (rows_from_invariant threshold N
    (fun r keys =>
       ((r ≤ k)%nat → key_at keys k = -1) ∧
       ((k < r)%nat → key_at keys k ≠ -1 ∧
                      ∀ i, (i < N)%nat → i ≠ k →
                           key_at keys i ≠ key_at keys k))
    dist_mat 0 (replicate N (-1)))
    as (keys & Hloop & Hlen & _ & Hfin).
  { by rewrite length_replicate. }
  { done. }
  { done. }
  { split; [|intros; lia]. intros _. unfold key_at.
    by rewrite lookup_replicate_2. }
  { intros s row keys0 md b keys1 Hs Hl0 [Hbefore Hafter]
           Hmin Hin Hle Hch Hl1 Hka.
    cbn [plus] in *.
    assert (length row = N) as Hrl
      by (by eapply (proj1 (Forall_lookup _ _) Hsq)).
    assert (s < N)%nat as HsN by (by eapply lookup_lt_Some).
    assert (candidate threshold row md k = false) as Hnk.
    { destruct (lookup_lt_is_Some_2 row k) as [d Hd]; [lia|].
      eapply no_distance_no_candidate; [done|done|]. by eapply Hcol. }
    destruct (decide (s = k)) as [->|Hsk].
    - (* the row of the index itself: no candidate at all *)
      assert (∀ j, candidate threshold row md j = false) as Hnone.
      { intros j. destruct (row !! j) as [d|] eqn:Hd.
        - eapply no_distance_no_candidate; [done|done|]. by eapply Hrow.
        - unfold candidate. by rewrite Hd. }
      specialize (Hbefore ltac:(lia)).
      split; [intros; lia|]. intros _.
      destruct b as [kp|kf|kj].
      + destruct Hch as [Hk Hne]. unfold key_at in Hbefore.
        rewrite Hk in Hbefore. simpl in Hbefore. done.
      + destruct Hch as (_ & _ & top & Htop & ->).
        assert (key_at keys1 k = 1 + top) as Hk1.
        { rewrite Hka by done. simpl.
          by rewrite bool_decide_eq_true_2. }
        pose proof (key_at_le_greatest keys0 top k ltac:(lia) Htop) as Hktop.
        split; [lia|]. intros i Hi Hik. rewrite Hk1, Hka by done. simpl.
        rewrite bool_decide_eq_false_2 by done. rewrite Hnone. simpl.
        pose proof (key_at_le_greatest keys0 top i ltac:(lia) Htop). lia.
      + destruct Hch as (_ & Hsome & _). exfalso. apply Hsome.
        intros j Hj. by rewrite Hnone in Hj.
    - (* another row: the index is no candidate, its key stays *)
      assert (key_at keys1 k = key_at keys0 k) as Hsame.
      { rewrite Hka by done. destruct b; simpl; rewrite ?Hnk;
          rewrite ?bool_decide_eq_false_2 by done; done. }
      split.
      + intros Hle'. rewrite Hsame. apply Hbefore. lia.
      + intros Hlt. assert (k < s)%nat as Hks by lia.
        destruct (Hafter Hks) as [Hassigned Huniq].
        split; [by rewrite Hsame|].
        intros i Hi Hik. rewrite Hsame, Hka by done.
        destruct (key_after_cases threshold row md keys0 s b i)
          as [-> | ->]; [|by apply Huniq].
        destruct b as [kp|kf|kj]; simpl.
        * destruct Hch as [Hkp _].
          assert (kp = key_at keys0 s) as ->
            by (unfold key_at; by rewrite Hkp).
          by apply Huniq.
        * destruct Hch as (_ & _ & top & Htop & ->).
          pose proof (key_at_le_greatest keys0 top k ltac:(lia) Htop). lia.
        * destruct Hch as (_ & _ & _ & (j & Hj & Hkj) & _).
          assert (j ≠ k) as Hjk by (intros ->; congruence).
          assert (kj = key_at keys0 j) as ->
            by (unfold key_at; by rewrite Hkj).
          apply Huniq; [|done]. apply candidate_lt in Hj. lia. }
  destruct (Hfin HkN) as [Hassigned Huniq].
  unfold process_dist_mat_v2_with, row_loop. fold N. rewrite Hloop.
  cbn [mbind option_bind].
  destruct (compact_spec keys) as (out & Hc & _ & _ & Htot & _).
  { intros ->. simpl in Hlen. lia. }
  exists out.
  destruct (RunMoreFacts.compact_shape keys out Hc) as (ks & _ & _ & Hout).
  pose proof (key_at_lookup keys k ltac:(lia)) as Hk.
  destruct (Htot k _ Hk) as (a & idxs & Hin & Hkin).
  exists a. split; [done|].
  assert (idxs = members keys (key_at keys k)) as Hidxs.
  { rewrite Hout in Hin. apply list_elem_of_lookup_1 in Hin as [p Hp].
    rewrite number_from_lookup in Hp.
    destruct (ks !! p) as [kk|] eqn:Hkk; simplify_eq/=.
    apply elem_of_members in Hkin. rewrite Hk in Hkin. by simplify_eq. }
  rewrite Hidxs in Hin.
  rewrite (singleton_members keys k (key_at keys k)) in Hin; [done|done|].
  intros i Hi Hik. apply Huniq; [lia | done].
Qed.

Lemma foldl_add_nan (l : list ext) (acc : ext) :
  acc = NaN ∨ NaN ∈ l → foldl add acc l = NaN.
Proof.
  revert acc. induction l as [|x l IH]; intros acc [Hacc|Hin]; simpl.
  - done.
  - by apply elem_of_nil in Hin.
  - apply IH. left. by subst.
  - apply IH. apply elem_of_cons in Hin as [<-|Hin]; [left|by right].
    by destruct acc.
Qed.

Lemma inner_nan_r (u v : list ext) :
  length u = length v → NaN ∈ v → inner u v = NaN.
Proof.
  intros Hlen [p Hp]%list_elem_of_lookup_1. unfold inner.
  apply foldl_add_nan. right.
  destruct (lookup_lt_is_Some_2 u p) as [x Hx].
  { apply lookup_lt_Some in Hp. lia. }
  apply list_elem_of_lookup. exists p.
  rewrite lookup_zip_with, Hx, Hp. simpl. by destruct x.
Qed.

Lemma inner_nan_l (u v : list ext) :
  length u = length v → NaN ∈ u → inner u v = NaN.
Proof.
  intros Hlen [p Hp]%list_elem_of_lookup_1. unfold inner.
  apply foldl_add_nan. right.
  destruct (lookup_lt_is_Some_2 v p) as [x Hx].
  { apply lookup_lt_Some in Hp. lia. }
  apply list_elem_of_lookup. exists p.
  by rewrite lookup_zip_with, Hx, Hp.
Qed.

(** The sum of all the products, on vectors of one length, is spoilt by a
    NaN entry. *)
Lemma exact_propagates_nan (E : list (list ext)) (D : nat) :
  Forall (fun u => length u = D) E → propagates_nan (kernel := exact) E.
Proof.
  intros Hdim i j u v Hu Hv Hnan. rewrite Forall_lookup in Hdim.
  unfold matmul, exact. rewrite Hu, Hv.
  destruct Hnan; [apply inner_nan_l | apply inner_nan_r]; try done;
    by rewrite (Hdim _ _ Hu), (Hdim _ _ Hv).
Qed.

Lemma masked_no_distance (row : list ext) (j : nat) (d : ext) :
  masked row !! j = Some d →
  (∀ d0, row !! j = Some d0 → d0 = NaN) → no_distance d.
Proof.
  unfold masked. intros Hd Hrow.
  destruct (decide (j = np_argmin row)) as [->|Hne].
  - pose proof (lookup_lt_Some _ _ _ Hd) as Hlt.
    rewrite length_insert in Hlt.
    rewrite list_lookup_insert_eq in Hd by done. right. congruence.
  - rewrite list_lookup_insert_ne in Hd by done. left. by apply Hrow.
Qed.

Lemma masked_pair (p q : Q) :
  masked [Fin p; Fin q]
  = if Qle_bool p q then [PInf; Fin q] else [Fin p; PInf].
Proof. unfold masked. cbn. by destruct (Qle_bool p q). Qed.

Lemma candidates_of_second (eps q : Q) :
  Qle 0 eps → (∃ t, literal32 eps = Fin t) →
  candidates_bool eps [PInf; Fin q] (Fin q) = [false; true].
Proof.
  intros Heps [t Ht]. unfold candidates_bool. cbn [map].
  rewrite IeeeFacts.sub32_self. change (abs (Fin 0)) with (Fin 0).
  rewrite (IeeeFacts.literal32_nonneg eps Heps). by rewrite Ht.
Qed.

Lemma candidates_of_first (eps p : Q) :
  Qle 0 eps → (∃ t, literal32 eps = Fin t) →
  candidates_bool eps [Fin p; PInf] (Fin p) = [true; false].
Proof.
  intros Heps [t Ht]. unfold candidates_bool. cbn [map].
  rewrite IeeeFacts.sub32_self. change (abs (Fin 0)) with (Fin 0).
  rewrite (IeeeFacts.literal32_nonneg eps Heps). by rewrite Ht.
Qed.

Section Kernel.

Context `{kernel : Matmul}.

(** X19. A detection whose embedding holds a NaN is returned as an
    individual of its own, whatever the other embeddings are, under every
    product that a NaN entry spoils: its row has no candidate, and its
    column is a candidate of no row. *)
Theorem nan_embedding_is_left_alone (E : list (list ext)) (k : nat)
  (e : list ext) :
  propagates_nan E → E !! k = Some e → NaN ∈ e →
  ∃ out a, process_dist_mat_v2 (compute_distance_matrix E) = Some out ∧
           (a, [k]) ∈ out.
Proof.
  intros Hspoil Hk Hnan.
  pose proof (lookup_lt_Some _ _ _ Hk) as HkN.
  apply clusterer_isolates.
  - exact threshold_adapter_finite.
  - by rewrite DistanceFacts.compute_distance_matrix_length.
  - apply DistanceFacts.compute_distance_matrix_square.
  - intros r row d Hr Hd.
    rewrite DistanceFacts.compute_distance_matrix_lookup in Hr.
    destruct (unmasked E !! r) as [row0|] eqn:Hrow0; [|done].
    injection Hr as <-. eapply masked_no_distance; [done|].
    intros d0 Hd0.
    rewrite (DistanceFacts.unmasked_cell E r k row0 Hrow0 HkN) in Hd0.
    injection Hd0 as <-.
    destruct (lookup_lt_is_Some_2 E r) as [u Hu].
    { apply lookup_lt_Some in Hrow0.
      by rewrite DistanceFacts.unmasked_length in Hrow0. }
    by rewrite (Hspoil r k u e Hu Hk (or_intror Hnan)).
  - intros row j d Hr Hd.
    rewrite DistanceFacts.compute_distance_matrix_lookup in Hr.
    destruct (unmasked E !! k) as [row0|] eqn:Hrow0; [|done].
    injection Hr as <-. eapply masked_no_distance; [done|].
    intros d0 Hd0.
    assert (j < length E)%nat as HjN.
    { apply lookup_lt_Some in Hd0.
      by rewrite (DistanceFacts.unmasked_row_length E k row0) in Hd0. }
    rewrite (DistanceFacts.unmasked_cell E k j row0 Hrow0 HjN) in Hd0.
    injection Hd0 as <-.
    destruct (lookup_lt_is_Some_2 E j HjN) as [v Hv].
    by rewrite (Hspoil k j e v Hk Hv (or_introl Hnan)).
Qed.

(** *** Two detections and one *)

Lemma two_rows_clustered (eps p q r s : Q) (E : list (list ext)) :
  Qle 0 eps → (∃ t, literal32 eps = Fin t) →
  unmasked E = [[Fin p; Fin q]; [Fin r; Fin s]] →
  process_dist_mat_v2_with eps (compute_distance_matrix E)
  = Some (if negb (Qle_bool p q) && Qle_bool r s
          then [(0, [0%nat]); (1, [1%nat])]
          else [(0, [0%nat; 1%nat])]).
Proof.
  intros Heps Hfin HE.
  assert (compute_distance_matrix E
          = [masked [Fin p; Fin q]; masked [Fin r; Fin s]]) as ->.
  { apply list_eq. intros i.
    rewrite DistanceFacts.compute_distance_matrix_lookup, HE.
    by destruct i as [|[|i]]. }
  rewrite !masked_pair.
  pose proof (fun x => candidates_of_first eps x Heps Hfin) as H1.
  pose proof (fun x => candidates_of_second eps x Heps Hfin) as H2.
  destruct (Qle_bool p q) eqn:Hpq, (Qle_bool r s) eqn:Hrs;
    cbn [negb andb];
    cbv -[candidates_bool]; rewrite ?H1, ?H2;
    cbv -[candidates_bool]; rewrite ?H1, ?H2; reflexivity.
Qed.

(** X20. Two detections whose four distances are finite come out as two
    individuals exactly when each has the other for its masked nearest
    cell: the first is strictly nearer to the second than to itself
    ([D[0][1] < D[0][0]]) and the second at least as near to the first as
    to itself ([D[1][0] <= D[1][1]]).  In every other case they are one
    individual, whatever the threshold would say of their distance. *)
Theorem two_detections_by_their_nearest (E : list (list ext))
  (p q r s : Q) :
  unmasked E = [[Fin p; Fin q]; [Fin r; Fin s]] →
  process_dist_mat_v2 (compute_distance_matrix E)
  = Some (if negb (Qle_bool p q) && Qle_bool r s
          then [(0, [0%nat]); (1, [1%nat])]
          else [(0, [0%nat; 1%nat])]).
Proof.
  intros HE. apply two_rows_clustered; [|exact threshold_adapter_finite|done].
  intros H. discriminate H.
Qed.

(** X21. The edge sizes of the clustering: one embedding, whatever its
    entries and whatever the product, gives the matrix of one masked cell
    and one individual with index 0; no embedding at all makes the clusterer
    raise. *)
Theorem single_embedding_is_one_individual (e : list ext) :
  compute_distance_matrix [e] = [[PInf]] ∧
  process_dist_mat_v2 (compute_distance_matrix [e]) = Some [(0, [0%nat])] ∧
  process_dist_mat_v2 (compute_distance_matrix []) = None.
Proof.
  assert (compute_distance_matrix [e] = [[PInf]]) as Hm by done.
  split; [done|]. split; [by rewrite Hm | done].
Qed.

End Kernel.

(** Inputs that meet the hypotheses of X18, X19 and X20. *)
Lemma clusterer_pairs_detections_witness :
  (2 ≤ length MoreFixtures.chain)%nat ∧
  square MoreFixtures.chain ∧
  Qle 0 threshold_adapter ∧
  masked_diagonal MoreFixtures.chain ∧
  ∃ out, process_dist_mat_v2_with threshold_adapter MoreFixtures.chain
         = Some out ∧
         (2 * length out ≤ length MoreFixtures.chain)%nat.
Proof.
  assert (Qle 0 threshold_adapter) as Heps by (intros H; discriminate H).
  assert (masked_diagonal MoreFixtures.chain) as Hd.
  { intros r j row d Hr Hj.
    destruct r as [|[|[|[|r]]]]; [| | | |discriminate Hr];
      injection Hr as <-;
      (destruct j as [|[|[|[|j]]]]; [| | | |discriminate Hj]);
      injection Hj as <-; case_decide; (done || by eexists). }
  split; [simpl; lia|]. split; [by repeat constructor|].
  split; [exact Heps|]. split; [exact Hd|].
  apply (clusterer_pairs_detections threshold_adapter MoreFixtures.chain);
    [simpl; lia | by repeat constructor | exact Heps | exact Hd].
Defined.

Lemma nan_embedding_is_left_alone_witness :
  propagates_nan (kernel := exact) MoreFixtures.with_nan ∧
  MoreFixtures.with_nan !! 1%nat = Some [NaN; Fin (0 # 1)] ∧
  NaN ∈ [NaN; Fin (0 # 1)] ∧
  ∃ out a,
    process_dist_mat_v2
      (compute_distance_matrix (kernel := exact) MoreFixtures.with_nan)
    = Some out ∧ (a, [1%nat]) ∈ out.
Proof.
  assert (propagates_nan (kernel := exact) MoreFixtures.with_nan) as Hs.
  { apply (exact_propagates_nan _ 2). by repeat constructor. }
  split; [exact Hs|]. split; [reflexivity|].
  split; [apply list_elem_of_here|].
  apply (nan_embedding_is_left_alone (kernel := exact)
           MoreFixtures.with_nan 1 [NaN; Fin (0 # 1)]);
    [exact Hs | reflexivity | apply list_elem_of_here].
Defined.

(** Two embeddings of one entry, one unit in the last place apart, under
    the product rounded to float32: their three products are such that each
    row is masked against the other detection, and they come out as two
    individuals. *)
Lemma two_detections_by_their_nearest_witness :
  unmasked (kernel := MoreFixtures.rounded) MoreFixtures.near_pair
  = [[Fin (-6948923 # 4194304); Fin (-1737231 # 1048576)];
     [Fin (-1737231 # 1048576); Fin (-1737231 # 1048576)]] ∧
  process_dist_mat_v2
    (compute_distance_matrix (kernel := MoreFixtures.rounded)
                             MoreFixtures.near_pair)
  = Some [(0, [0%nat]); (1, [1%nat])].
Proof.
  assert (unmasked (kernel := MoreFixtures.rounded) MoreFixtures.near_pair
          = [[Fin (-6948923 # 4194304); Fin (-1737231 # 1048576)];
             [Fin (-1737231 # 1048576); Fin (-1737231 # 1048576)]]) as HE
    by (vm_compute; reflexivity).
  split; [exact HE|].
  exact (two_detections_by_their_nearest (kernel := MoreFixtures.rounded)
           MoreFixtures.near_pair _ _ _ _ HE).
Defined.

End ClusterMoreFacts.

(** ** The folder job *)

Module AdapterFacts.

Import Distance Cluster ClusterSpec ClusterFacts Adapter.

Lemma slice_batch {A} (l : list A) (s b : nat) :
  slice l s (Nat.min (s + b) (length l)) = take b (drop s l).
Proof.
  unfold slice. destruct (decide (s + b ≤ length l)%nat) as [Hle|Hgt].
  - f_equal. lia.
  - rewrite !take_ge; [done | rewrite length_drop; lia
                       | rewrite length_drop; lia].
Qed.

Lemma concat_length_same {A B C} (f : A → list B) (g : A → list C)
  (l : list A) :
  (∀ x, length (f x) = length (g x)) →
  length (concat (map f l)) = length (concat (map g l)).
Proof.
  intros Hfg. induction l as [|x l IH]; [done|].
  simpl. by rewrite !length_app, Hfg, IH.
Qed.

Lemma np_concatenate_rows {A} (arrays : list (list (list A))) (D : nat) :
  arrays ≠ [] →
  Forall (Forall (fun row => length row = D)) arrays →
  np_concatenate arrays = Some (concat arrays).
Proof.
  intros Hne Hrows. unfold np_concatenate.
  destruct arrays as [|a arrays]; [done|].
  assert (Forall (fun row => length row = D) (concat (a :: arrays))) as Hall.
  { apply Forall_concat. done. }
  destruct (concat (a :: arrays)) as [|row rest]; [done|].
  apply Forall_cons in Hall as [Hrow Hrest].
  rewrite (proj2 (forallb_forall _ _)); [done|].
  intros b Hb%list_elem_of_In. rewrite Forall_forall in Hrest.
  apply Nat.eqb_eq. by rewrite Hrow, (Hrest b Hb).
Qed.

Section Run.

Context `{kernel : Matmul}.
Context {image : Type}.
Variable load_and_preprocess_image : string → option (image * Z).
Variable model : list image → list Z → list (list ext).
Variable relpath : string → string → option string.

(** The model returns one row per array of the batch, all of dimension
    [D]. *)
Variable D : nat.
Hypothesis model_shape :
  ∀ imgs times,
    length (model imgs times) = length imgs ∧
    Forall (fun row => length row = D) (model imgs times).

Lemma compute_embeddings_batched_shape (images : list image)
  (times : list Z) (batch_size : Z) :
  images ≠ [] → 0 < batch_size →
  ∃ embeddings,
    compute_embeddings_batched model images times batch_size
    = Some embeddings ∧
    length embeddings = length images ∧
    Forall (fun row => length row = D) embeddings.
Proof.
  intros Hne Hbs. unfold compute_embeddings_batched, starts.
  destruct (Z.eqb_spec batch_size 0) as [|_]; [lia|].
  destruct (Z.ltb_spec batch_size 0) as [|_]; [lia|].
  cbn [mbind option_bind]. set (b := Z.to_nat batch_size).
  assert (0 < b)%nat as Hb by lia.
  set (c := ((length images + b - 1) / b)%nat).
  rewrite map_map.
  assert (0 < c)%nat as Hc.
  { unfold c. apply Nat.div_str_pos. destruct images; [done|]. simpl. lia. }
  rewrite (np_concatenate_rows _ D).
  - eexists. split; [done|]. split.
    + rewrite (concat_length_same _
                 (fun k => take b (drop (k * b) images))).
      * rewrite ReidFacts.batches_chunks, take_ge; [done|].
        pose proof (Nat.div_mod_eq (length images + b - 1) b) as Hd.
        pose proof (Nat.mod_upper_bound (length images + b - 1) b
                      ltac:(lia)) as Hm.
        fold c in Hd. nia.
      * intros k. cbv zeta. rewrite (proj1 (model_shape _ _)).
        by rewrite slice_batch.
    + apply Forall_concat, Forall_forall.
      intros a (k & -> & _)%list_elem_of_fmap. apply model_shape.
  - destruct c; [lia|]. done.
  - apply Forall_forall.
    intros a (k & -> & _)%list_elem_of_fmap. apply model_shape.
Qed.

Lemma format_output_dict_from (paths : list string) (dir : string)
  (out : output_dict) :
  ∀ acc : list (string * list string),
  NoDup (acc.*1 ++ ((fun e : Z * list nat => "ID-" +:+ pretty e.1) <$> out)) →
  Forall (fun e : Z * list nat =>
            is_Some (mapM (relative relpath paths dir) e.2)) out →
  ∃ res,
    foldlM (format_step relpath paths dir) acc out = Some (acc ++ res) ∧
    Forall2 (fun (e : Z * list nat) (r : string * list string) =>
               r.1 = "ID-" +:+ pretty e.1 ∧
               mapM (relative relpath paths dir) e.2 = Some r.2) out res.
Proof.
  induction out as [|e out IH]; intros acc Hnd Hok.
  - exists []. rewrite app_nil_r. split; [done | constructor].
  - apply Forall_cons in Hok as [[rels Hrels] Hok].
    cbn [fmap list_fmap] in Hnd.
    assert ("ID-" +:+ pretty e.1 ∉ acc.*1) as Hnew.
    { apply NoDup_app in Hnd as (_ & Hdis & _). intros Hin.
      apply (Hdis _ Hin). apply list_elem_of_here. }
    assert (format_step relpath paths dir acc e
            = Some (acc ++ [("ID-" +:+ pretty e.1, rels)])) as Hstep.
    { unfold format_step. cbv zeta. rewrite Hrels. cbn [mbind option_bind].
      by rewrite bool_decide_eq_false_2. }
    destruct (IH (acc ++ [("ID-" +:+ pretty e.1, rels)])) as (res & Hres & Hf).
    + rewrite fmap_app. cbn [fmap list_fmap]. rewrite <- app_assoc. done.
    + done.
    + exists (("ID-" +:+ pretty e.1, rels) :: res). split.
      * cbn [foldlM]. rewrite Hstep. cbn [mbind option_bind].
        rewrite Hres. by rewrite <- app_assoc.
      * by constructor.
Qed.

Lemma names_NoDup (ks : list Z) :
  NoDup ks → NoDup ((fun k : Z => "ID-" +:+ pretty k) <$> ks).
Proof.
  apply NoDup_fmap_2. intros a b Hab. simpl in Hab.
  injection Hab as Hab. by apply (inj pretty).
Qed.

Lemma looked_up_concat {A B} (f : A → option B) (xs : list (list A))
  (ys : list (list B)) :
  Forall2 (fun x y => mapM f x = Some y) xs ys →
  Forall2 (fun a b => f a = Some b) (concat xs) (concat ys).
Proof.
  induction 1 as [|x y xs ys Hxy _ IH]; [constructor|].
  simpl. apply Forall2_app; [|done]. by apply mapM_Some_1.
Qed.

(** X22. The job of [reid_dino_adapter.run], from the list of the crops on:
    without a crop it exits; it raises exactly when a crop cannot be loaded;
    otherwise, whatever the batch size was given as, it returns individuals
    named [ID-0], [ID-1], ... in this order, none of them empty, and every
    crop is listed once, by its relative path. *)
Theorem adapter_run_lists_every_crop (paths : list string) (dir : string)
  (parsed_batch_size : option Z) (rels : list string) :
  mapM (fun p => relpath p dir) paths = Some rels →
  match run load_and_preprocess_image model relpath paths dir
            parsed_batch_size with
  | None => ∃ p, p ∈ paths ∧ load_and_preprocess_image p = None
  | Some Exited => paths = []
  | Some (Returned out) =>
      paths ≠ [] ∧
      (∀ p, p ∈ paths → is_Some (load_and_preprocess_image p)) ∧
      out.*1 = (fun k : Z => "ID-" +:+ pretty k)
                 <$> seqZ 0 (Z.of_nat (length out)) ∧
      Forall (fun ind : string * list string => ind.2 ≠ []) out ∧
      concat out.*2 ≡ₚ rels
  end.
Proof.
  intros Hrels. unfold run.
  destruct paths as [|p0 paths0] eqn:Hp; [done|]. rewrite <- Hp in *.
  assert (paths ≠ []) as Hne by (by rewrite Hp).
  clear Hp p0 paths0.
  destruct (mapM load_and_preprocess_image paths) as [metas|] eqn:Hload.
  2:{ cbn [mbind option_bind].
      destruct (decide (Forall (fun p => is_Some (load_and_preprocess_image p))
                               paths)) as [Hall|Hnot].
      - apply mapM_is_Some_2 in Hall. rewrite Hload in Hall.
        by destruct Hall.
      - apply not_Forall_Exists in Hnot; [|intros x; apply _].
        apply Exists_exists in Hnot as (p & Hin & Hp). exists p.
        split; [done|].
        simpl in Hp. destruct (load_and_preprocess_image p); [|done].
        exfalso. apply Hp. by eexists. }
  cbn [mbind option_bind].
  pose proof (length_mapM _ _ _ Hload) as Hlen.
  assert (0 < batch_size_or_default parsed_batch_size) as Hbs.
  { unfold batch_size_or_default. destruct parsed_batch_size as [n|]; [|lia].
    destruct (Z.leb_spec n 0); lia. }
  destruct (compute_embeddings_batched_shape metas.*1 metas.*2
              (batch_size_or_default parsed_batch_size))
    as (E & HE & HElen & _); [|exact Hbs|].
  { intros Hnil. apply (f_equal length) in Hnil.
    rewrite length_fmap in Hnil. simpl in Hnil.
    destruct paths; [done | simpl in *; lia]. }
  rewrite HE. cbn [mbind option_bind].
  rewrite length_fmap in HElen.
  set (M := compute_distance_matrix E).
  assert (length M = length paths) as HM.
  { unfold M. rewrite DistanceFacts.compute_distance_matrix_length. lia. }
  assert (1 ≤ length paths)%nat as HN by (destruct paths; [done|simpl; lia]).
  destruct (clusterer_total threshold_adapter M) as
    (keys & out & Hkeys & Hklen & _ & Hproc & Hids & Hcl & Htot & _).
  { lia. }
  { apply DistanceFacts.compute_distance_matrix_square. }
  unfold process_dist_mat_v2. rewrite Hproc. cbn [mbind option_bind].
  unfold process_dist_mat_v2_with in Hproc. rewrite Hkeys in Hproc.
  cbn [mbind option_bind] in Hproc.
  destruct (RunMoreFacts.compact_shape keys out Hproc)
    as (ks & Hks & Hin & Hout).
  assert (∀ i, (i < length paths)%nat →
               relative relpath paths dir i = rels !! i ∧ is_Some (rels !! i))
    as Hrel.
  { intros i Hi. apply mapM_Some_1 in Hrels.
    destruct (lookup_lt_is_Some_2 paths i Hi) as [p Hp].
    destruct (Forall2_lookup_l _ _ _ _ _ Hrels Hp) as (s & Hs & Hps).
    unfold relative. rewrite Hp, Hs. cbn [mbind option_bind].
    split; [done | by eexists]. }
  destruct (format_output_dict_from paths dir out []) as (res & Hres & Hf).
  { cbn [fmap list_fmap app].
    assert ((fun e : Z * list nat => "ID-" +:+ pretty e.1) <$> out
            = (fun k : Z => "ID-" +:+ pretty k) <$> out.*1) as ->
      by (by rewrite <- list_fmap_compose).
    rewrite Hids. apply names_NoDup, NoDup_seqZ. }
  { apply Forall_forall. intros [a idxs] Hin'. cbn [snd].
    apply mapM_is_Some_2, Forall_forall. intros i Hi.
    destruct (Hcl a idxs Hin') as (_ & k & Hk).
    apply Hk, lookup_lt_Some in Hi.
    destruct (Hrel i ltac:(lia)) as [Heq Hs].
    unfold compose. rewrite Heq. exact Hs. }
  unfold format_output_dict. rewrite Hres. cbn [mbind option_bind app].
  split; [done|]. split; [|split; [|split]].
  - intros p Hin'. apply mapM_Some_1 in Hload.
    apply list_elem_of_lookup_1 in Hin' as [i Hi].
    destruct (Forall2_lookup_l _ _ _ _ _ Hload Hi) as (x & _ & Hx).
    by eexists.
  - pose proof (Forall2_length _ _ _ Hf) as Hl. rewrite <- Hl.
    rewrite <- Hids, <- list_fmap_compose.
    clear -Hf. induction Hf as [|e r out res [Hr _] _ IH]; [done|].
    cbn [fmap list_fmap]. by rewrite Hr, IH.
  - apply Forall_forall. intros r Hr.
    apply list_elem_of_lookup_1 in Hr as [q Hq].
    destruct (Forall2_lookup_r _ _ _ _ _ Hf Hq) as ([a idxs] & He & _ & Hm).
    cbn [snd] in Hm. apply length_mapM in Hm.
    destruct (Hcl a idxs (list_elem_of_lookup_2 _ _ _ He)) as (Hnn & _).
    intros Hnil. rewrite Hnil in Hm. by destruct idxs.
  - assert (Forall2 (fun i s => relative relpath paths dir i = Some s)
                    (concat out.*2) (concat res.*2)) as Hcat.
    { apply looked_up_concat. clear -Hf.
      induction Hf as [|e r out res [_ Hm] _ IH]; [constructor|].
      by constructor. }
    assert (concat out.*2 ≡ₚ seq 0 (length paths)) as Hperm.
    { apply NoDup_Permutation.
      - rewrite Hout, RunMoreFacts.number_from_snd.
        by apply RunMoreFacts.NoDup_concat_members.
      - apply NoDup_seq.
      - intros i. rewrite elem_of_seq. split.
        + intros (l & Hil & Hl)%ReidFacts.elem_of_concat.
          apply list_elem_of_fmap in Hl as ([a idxs] & -> & Hin').
          destruct (Hcl a idxs Hin') as (_ & k & Hk).
          apply Hk, lookup_lt_Some in Hil. lia.
        + intros [_ Hi]. destruct (Htot i ltac:(lia)) as (a & idxs & Hin' & Hii).
          apply ReidFacts.elem_of_concat. exists idxs. split; [done|].
          apply list_elem_of_fmap. by exists (a, idxs). }
    assert (concat res.*2
            = (fun i => default "" (rels !! i)) <$> concat out.*2) as ->.
    { clear -Hcat Hrel Hperm.
      assert (Forall (fun i => (i < length paths)%nat) (concat out.*2)) as Hr.
      { apply Forall_forall. intros i Hi. rewrite Hperm in Hi.
        apply elem_of_seq in Hi. lia. }
      clear Hperm. induction Hcat as [|i s il sl His _ IH]; [done|].
      apply Forall_cons in Hr as [Hi Hr]. cbn [fmap list_fmap].
      destruct (Hrel i Hi) as [Heq _]. rewrite Heq in His. rewrite His.
      simpl. f_equal. by apply IH. }
    rewrite Hperm.
    assert (length rels = length paths) as Hrl
      by (symmetry; by eapply length_mapM).
    rewrite <- Hrl.
    assert ((fun i => default "" (rels !! i)) <$> seq 0 (length rels) = rels)
      as Heq; [|by rewrite Heq].
    clear. apply list_eq. intros i. rewrite list_lookup_fmap.
    destruct (rels !! i) as [s|] eqn:Hs.
    + rewrite lookup_seq_lt by (by eapply lookup_lt_Some).
      simpl. by rewrite Hs.
    + rewrite lookup_seq_ge by (by apply lookup_ge_None). done.
Qed.

End Run.

(** A job that meets the hypotheses of X22. *)
Lemma adapter_run_lists_every_crop_witness :
  (∀ imgs times,
     length (MoreFixtures.constant_model imgs times) = length imgs ∧
     Forall (fun row => length row = 2%nat)
            (MoreFixtures.constant_model imgs times)) ∧
  mapM (fun p => MoreFixtures.relpath_id p "crops") ["a.jpg"; "b.jpg"]
  = Some ["a.jpg"; "b.jpg"] ∧
  run (kernel := exact) MoreFixtures.load_any MoreFixtures.constant_model
      MoreFixtures.relpath_id ["a.jpg"; "b.jpg"] "crops" (Some 8)
  = Some (Returned [("ID-0", ["a.jpg"; "b.jpg"])]) ∧
  match run (kernel := exact) MoreFixtures.load_any
            MoreFixtures.constant_model
            MoreFixtures.relpath_id ["a.jpg"; "b.jpg"] "crops" (Some 8) with
  | None => ∃ p, p ∈ ["a.jpg"; "b.jpg"] ∧ MoreFixtures.load_any p = None
  | Some Exited => ["a.jpg"; "b.jpg"] = @nil string
  | Some (Returned out) =>
      ["a.jpg"; "b.jpg"] ≠ @nil string ∧
      (∀ p, p ∈ ["a.jpg"; "b.jpg"] → is_Some (MoreFixtures.load_any p)) ∧
      out.*1 = (fun k : Z => "ID-" +:+ pretty k)
                 <$> seqZ 0 (Z.of_nat (length out)) ∧
      Forall (fun ind : string * list string => ind.2 ≠ []) out ∧
      concat out.*2 ≡ₚ ["a.jpg"; "b.jpg"]
  end.
Proof.
  assert (∀ imgs times,
            length (MoreFixtures.constant_model imgs times) = length imgs ∧
            Forall (fun row => length row = 2%nat)
                   (MoreFixtures.constant_model imgs times)) as Hshape.
  { intros imgs times. unfold MoreFixtures.constant_model.
    split; [apply length_map|].
    apply Forall_forall. intros row Hrow.
    apply list_elem_of_fmap in Hrow as (x & Hx & _). by rewrite Hx. }
  split; [exact Hshape|]. split; [reflexivity|]. split; [reflexivity|].
  apply (adapter_run_lists_every_crop (kernel := exact)
           MoreFixtures.load_any
           MoreFixtures.constant_model MoreFixtures.relpath_id 2 Hshape
           ["a.jpg"; "b.jpg"] "crops" (Some 8) ["a.jpg"; "b.jpg"]).
  reflexivity.
Defined.

End AdapterFacts.

(** ** The batch size *)

Module UnbatchedFacts.

Import Cache Reid ReidSpec Views ReidFacts Unbatched.

Local Abbreviation timeless := StoreViews.timeless.

(** *** Writes at given times *)

Lemma insert_at_eq ty d (it : Z * list Q * list f32) (t : Z) :
  insert_at ty d (it, t)
  = h ← bbox_to_hash it.1.2;
    if int64 it.1.1 then
      Some (insert_or_replace d (it.1.1, h, ty) (tobytes it.2) t)
    else None.
Proof.
  unfold insert_at, apply_all. cbn [foldlM fst snd].
  destruct (bbox_to_hash it.1.2); [|done]. cbn [mbind option_bind].
  by destruct (int64 it.1.1).
Qed.

Lemma writes_ext d items ty (time time' : nat → Z) :
  (∀ k, (k < length items)%nat → time k = time' k) →
  writes d items ty time = writes d items ty time'.
Proof.
  intros Heq. unfold writes. do 2 f_equal. apply Forall_fmap_ext_1.
  apply Forall_forall. intros k Hk%elem_of_seq. apply Heq. lia.
Qed.

Lemma writes_nil d ty time : writes d [] ty time = Some d.
Proof. done. Qed.

Lemma writes_cons d it items ty time :
  writes d (it :: items) ty time
  = insert_at ty d (it, time 0%nat) ≫= fun d' =>
    writes d' items ty (fun k => time (S k)).
Proof.
  unfold writes. cbn [length seq fmap list_fmap zip zip_with foldlM].
  rewrite <- fmap_S_seq, <- list_fmap_compose. done.
Qed.

Lemma writes_app d l1 l2 ty time :
  writes d (l1 ++ l2) ty time
  = writes d l1 ty time ≫= fun d' =>
    writes d' l2 ty (fun k => time (length l1 + k)%nat).
Proof.
  revert d time. induction l1 as [|it l1 IH]; intros d time.
  - cbn [app length]. rewrite writes_nil. done.
  - cbn [app length]. rewrite !writes_cons.
    destruct (insert_at ty d (it, time 0%nat)) as [d1|]; [|done].
    cbn [mbind option_bind]. by rewrite IH.
Qed.

Lemma writes_snoc d items (it : Z * list Q * list f32) ty time :
  writes d (items ++ [it]) ty time
  = writes d items ty time ≫= fun d' =>
    h ← bbox_to_hash it.1.2;
    if int64 it.1.1 then
      Some (insert_or_replace d' (it.1.1, h, ty) (tobytes it.2)
                              (time (length items)))
    else None.
Proof.
  rewrite writes_app. destruct (writes d items ty time) as [d'|]; [|done].
  cbn [mbind option_bind]. rewrite writes_cons, insert_at_eq.
  rewrite Nat.add_0_r.
  destruct (bbox_to_hash it.1.2); [|done]. cbn [mbind option_bind].
  by destruct (int64 it.1.1).
Qed.

(** One batch call writes its items at one time. *)
Lemma apply_all_writes d items ty t :
  apply_all Some d items ty t = writes d items ty (fun _ => t).
Proof.
  revert d. induction items as [|it items IH]; intros d; [done|].
  rewrite writes_cons, insert_at_eq. unfold apply_all in *. cbn [foldlM].
  destruct (bbox_to_hash it.1.2); [|done]. cbn [mbind option_bind].
  destruct (int64 it.1.1); [|done]. cbn [mbind option_bind]. apply IH.
Qed.

Lemma writes_splice d l1 l2 ty time1 time2 :
  writes d (l1 ++ l2) ty (splice (length l1) time1 time2)
  = writes d l1 ty time1 ≫= fun d' => writes d' l2 ty time2.
Proof.
  rewrite writes_app.
  rewrite (writes_ext d l1 ty _ time1).
  2:{ intros k Hk. unfold splice.
      by rewrite (proj2 (Nat.ltb_lt _ _) Hk). }
  destruct (writes d l1 ty time1) as [d'|]; [|done].
  cbn [mbind option_bind]. apply writes_ext. intros k Hk. unfold splice.
  rewrite (proj2 (Nat.ltb_ge _ _)) by lia. f_equal. lia.
Qed.

(** The times of the writes do not show in the other columns. *)
Lemma writes_timeless items ty :
  ∀ d d' time time',
  timeless d = timeless d' →
  timeless <$> writes d items ty time
  = timeless <$> writes d' items ty time'.
Proof.
  induction items as [|it items IH]; intros d d' time time' Hd.
  - rewrite !writes_nil. cbn. by rewrite Hd.
  - rewrite !writes_cons, !insert_at_eq.
    destruct (bbox_to_hash it.1.2) as [h|]; [|done].
    cbn [mbind option_bind]. destruct (int64 it.1.1); [|done].
    cbn [mbind option_bind]. apply IH.
    by apply CacheMoreFacts.timeless_insert.
Qed.

Lemma write_back_written (c : option db) items ty t :
  write_back c items ty t = written c items ty (fun _ => t).
Proof.
  unfold write_back, written. destruct c as [d|]; [|done].
  destruct items as [|it items]; [done|].
  rewrite CacheFacts.store_embeddings_batch_eq, apply_all_writes.
  by destruct (writes d (it :: items) ty _).
Qed.

Lemma written_app (c : option db) l1 l2 ty time :
  written c (l1 ++ l2) ty time
  = written c l1 ty time ≫= fun c' =>
    written c' l2 ty (fun k => time (length l1 + k)%nat).
Proof.
  unfold written. destruct c as [d|]; [|done]. rewrite writes_app.
  by destruct (writes d l1 ty time).
Qed.

Lemma written_splice (c : option db) l1 l2 ty time1 time2 :
  written c (l1 ++ l2) ty (splice (length l1) time1 time2)
  = written c l1 ty time1 ≫= fun c' => written c' l2 ty time2.
Proof.
  unfold written. destruct c as [d|]; [|done]. rewrite writes_splice.
  by destruct (writes d l1 ty time1).
Qed.

Lemma written_nil (c : option db) ty time : written c [] ty time = Some c.
Proof. by destruct c. Qed.

Lemma written_is_Some (c c' : option db) items ty time :
  written c items ty time = Some c' → (is_Some c' ↔ is_Some c).
Proof.
  unfold written. destruct c as [d|].
  - destruct (writes d items ty time); [|done].
    intros [= <-]. split; by eexists.
  - by intros [= <-].
Qed.

Lemma written_timeless (c c' : option db) items ty time time' :
  timeless <$> c = timeless <$> c' →
  fmap (M := option) (fmap (M := option) timeless)
       (written c items ty time)
  = fmap (M := option) (fmap (M := option) timeless)
         (written c' items ty time').
Proof.
  unfold written. destruct c as [d|], c' as [d'|]; try done.
  intros Hd. cbn [fmap option_fmap option_map] in Hd.
  apply (inj Some) in Hd.
  pose proof (writes_timeless items ty d d' time time' Hd) as H.
  destruct (writes d items ty time), (writes d' items ty time');
    cbn in *; congruence.
Qed.

Lemma items_to_store_app (c : option db)
  (l1 l2 : list (nat * detection * list f32)) :
  items_to_store c (l1 ++ l2) = items_to_store c l1 ++ items_to_store c l2.
Proof. unfold items_to_store. by rewrite omap_app. Qed.

Section Loops.

Context {image : Type}.
Variable load_and_crop_image : string → list Q → option (image * Z).
Variable forward : image → Z → list f32.
Variable forward_from_raw : list f32 → Z → list f32.
Variables (ty : string) (now : nat → Z).

Local Abbreviation adapter_feat :=
  (Views.adapter_feat load_and_crop_image forward_from_raw).
Local Abbreviation loaded_of := (Views.loaded_of load_and_crop_image).
Local Abbreviation failed_of := (Views.failed_of load_and_crop_image).
Local Abbreviation full_feat := (Views.full_feat forward).
Local Abbreviation full_calls := (Views.full_calls load_and_crop_image).

(** The adapter loop, whatever the batches, against one batch: the same
    items are written in the same order, each at the time of its batch. *)
Lemma adapter_loop_exact (B : list (list (nat * detection * list f32))) :
  ∀ p : progress,
  ∃ time,
  foldlM (adapter_batch load_and_crop_image forward_from_raw ty now) p B
  = written (store p) (items_to_store (store p) (adapter_feat <$> concat B))
            ty time
    ≫= fun c' =>
         Some (Progress (record_all (embeddings p) (adapter_feat <$> concat B))
                        (ids p) c'
                        (log p ++ ((fun b => CallAdapter (map (fun x => x.1.1) b))
                                     <$> B))).
Proof.
  induction B as [|b B IH]; intros p.
  - exists (fun _ => 0). cbn [concat fmap list_fmap foldlM].
    rewrite app_nil_r. destruct p as [e i [d|] l]; done.
  - cbn [foldlM concat]. rewrite adapter_batch_eq, write_back_written.
    rewrite fmap_app, items_to_store_app.
    destruct (written (store p) (items_to_store (store p) (adapter_feat <$> b))
                      ty (fun _ => now (length (log p)))) as [c1|] eqn:Hc1.
    + cbn [mbind option_bind].
      destruct (IH (Progress (record_all (embeddings p) (adapter_feat <$> b))
                             (ids p) c1
                             (log p ++ [CallAdapter (map (fun x => x.1.1) b)])))
        as [time' ->].
      cbn [store embeddings ids log].
      exists (splice (length (items_to_store (store p) (adapter_feat <$> b)))
                     (fun _ => now (length (log p))) time').
      rewrite written_splice, Hc1. cbn [mbind option_bind].
      rewrite (items_to_store_same (store p) c1)
        by (by eapply written_is_Some).
      destruct (written c1 _ ty time') as [c2|]; [|done].
      cbn [mbind option_bind]. f_equal.
      by rewrite record_all_app, fmap_cons, <- app_assoc.
    + exists (fun _ => now (length (log p))).
      by rewrite written_app, Hc1.
Qed.

(** The full-model loop, whatever the batches, against one batch. *)
Lemma full_loop_exact (B : list (list (nat * detection))) :
  ∀ p : progress,
  ∃ time,
  foldlM (full_batch load_and_crop_image forward ty now) p B
  = foldlM mark_failed (ids p) (failed_of (concat B)) ≫= fun l' =>
    written (store p)
            (items_to_store (store p) (full_feat <$> loaded_of (concat B)))
            ty time
    ≫= fun c' =>
         Some (Progress
                 (record_all (embeddings p) (full_feat <$> loaded_of (concat B)))
                 l' c' (log p ++ full_calls B)).
Proof.
  induction B as [|b B IH]; intros p.
  - exists (fun _ => 0). cbn [concat foldlM]. rewrite app_nil_r.
    destruct p as [e i [d|] l]; done.
  - cbn [foldlM concat].
    rewrite full_batch_eq, failed_of_app, foldlM_app, loaded_of_app,
      full_calls_cons, fmap_app, items_to_store_app.
    destruct (foldlM mark_failed (ids p) (failed_of b)) as [l1|];
      [|by exists (fun _ => 0)].
    cbn [mbind option_bind].
    destruct (loaded_of b) as [|y ys] eqn:Hlb.
    + cbn [mbind option_bind fmap list_fmap app].
      destruct (IH (Progress (embeddings p) l1 (store p) (log p)))
        as [time' ->].
      exists time'. cbn [store embeddings ids log]. done.
    + rewrite write_back_written.
      destruct (written (store p)
                  (items_to_store (store p) (full_feat <$> y :: ys)) ty
                  (fun _ => now (length (log p))))
        as [c1|] eqn:Hc1.
      2:{ exists (fun _ => now (length (log p))).
          cbn [mbind option_bind]. rewrite written_app, Hc1.
          by destruct (foldlM mark_failed l1 (failed_of (concat B))). }
      cbn [mbind option_bind].
      destruct (IH (Progress
                      (record_all (embeddings p) (full_feat <$> y :: ys)) l1 c1
                      (log p ++ [CallFull (map (fun y0 => y0.1.1.1)
                                               (y :: ys))])))
        as [time' ->].
      cbn [store embeddings ids log].
      exists (splice (length (items_to_store (store p)
                                (full_feat <$> y :: ys)))
                     (fun _ => now (length (log p))) time').
      rewrite written_splice, Hc1.
      rewrite (items_to_store_same (store p) c1)
        by (by eapply written_is_Some).
      destruct (foldlM mark_failed l1 (failed_of (concat B))); [|done].
      cbn [mbind option_bind].
      destruct (written c1 _ ty time') as [c2|]; [|done].
      cbn [mbind option_bind]. f_equal.
      by rewrite record_all_app, <- app_assoc.
Qed.

End Loops.

Section Job.

Context `{kernel : Distance.Matmul}.
Context {image : Type}.
Variable load_and_crop_image : string → list Q → option (image * Z).
Variable forward : image → Z → list f32.
Variable forward_from_raw : list f32 → Z → list f32.

Local Abbreviation adapter_feat :=
  (Views.adapter_feat load_and_crop_image forward_from_raw).
Local Abbreviation loaded_of := (Views.loaded_of load_and_crop_image).
Local Abbreviation failed_of := (Views.failed_of load_and_crop_image).
Local Abbreviation full_feat := (Views.full_feat forward).

Lemma adapter_phase (l : list (nat * detection * list f32))
  (ids0 : list (option Z)) (cache : option db) (ty : string)
  (now : nat → Z) (batch_size : nat) :
  (0 < batch_size)%nat →
  ∃ log1 time1,
    match l with
    | [] => Some (Progress ∅ ids0 cache [])
    | _ =>
        batches batch_size l ≫= fun bs =>
        foldlM (adapter_batch load_and_crop_image forward_from_raw ty now)
               (Progress ∅ ids0 cache []) bs
    end
    = written cache (items_to_store cache (adapter_feat <$> l)) ty time1
      ≫= fun c1 =>
           Some (Progress (record_all ∅ (adapter_feat <$> l)) ids0 c1 log1).
Proof.
  intros Hbs. destruct (batches_concat batch_size l Hbs) as (B & HB & Hcat).
  destruct l as [|x l'] eqn:Hl.
  - exists [], (fun _ => 0). by destruct cache.
  - rewrite <- Hl in *. rewrite HB. cbn [mbind option_bind].
    destruct (adapter_loop_exact load_and_crop_image forward_from_raw ty now
                B (Progress ∅ ids0 cache [])) as [time1 ->].
    rewrite Hcat. cbn [store embeddings ids log]. by eexists _, time1.
Qed.

Lemma full_phase (l : list (nat * detection)) (p1 : progress)
  (ty : string) (now : nat → Z) (batch_size : nat) :
  (0 < batch_size)%nat →
  ∃ log2 time2,
    match l with
    | [] => Some (Progress ∅ (ids p1) (store p1) (log p1))
    | _ =>
        batches batch_size l ≫= fun bs =>
        foldlM (full_batch load_and_crop_image forward ty now)
               (Progress ∅ (ids p1) (store p1) (log p1)) bs
    end
    = foldlM mark_failed (ids p1) (failed_of l) ≫= fun l' =>
      written (store p1)
              (items_to_store (store p1) (full_feat <$> loaded_of l)) ty time2
      ≫= fun c2 =>
           Some (Progress (record_all ∅ (full_feat <$> loaded_of l))
                          l' c2 log2).
Proof.
  intros Hbs. destruct (batches_concat batch_size l Hbs) as (B & HB & Hcat).
  destruct l as [|x l'] eqn:Hl.
  - exists (log p1), (fun _ => 0). cbn. by destruct (store p1).
  - rewrite <- Hl in *. rewrite HB. cbn [mbind option_bind].
    destruct (full_loop_exact load_and_crop_image forward ty now B
                (Progress ∅ (ids p1) (store p1) (log p1))) as [time2 ->].
    rewrite Hcat. cbn [store embeddings ids log]. by eexists _, time2.
Qed.

(** With a positive batch size, the individuals and the store of [run] are
    those of the job run in one batch, the vectors being written at the
    times of their batches. *)
Lemma run_as_one_batch (detections : list detection) (cache : option db)
  (species : string) (batch_size : nat) (now : nat → Z) :
  (0 < batch_size)%nat →
  ∃ time1 time2,
    (fun r : result => (output r, cache_after r))
      <$> run load_and_crop_image forward forward_from_raw
              detections cache species batch_size now
    = run_in_one_batch load_and_crop_image forward forward_from_raw
                       detections cache species time1 time2.
Proof.
  intros Hbs. unfold run, run_in_one_batch.
  destruct detections as [|d1 [|d2 rest]];
    [by exists (fun _ => 0), (fun _ => 0)
    | by exists (fun _ => 0), (fun _ => 0) |].
  set (dets := d1 :: d2 :: rest). unfold run_many. cbv zeta.
  set (reid := Config.REID_EMBEDDING_PREFIX +:+ species).
  destruct (categorize cache reid Config.RAW_FOR_ADAPTER_TYPE dets)
    as [t|]; [|by exists (fun _ => 0), (fun _ => 0)].
  cbn [mbind option_bind].
  destruct (adapter_phase (has_raw t) (detection_ids t) cache reid now
              batch_size Hbs) as (log1 & time1 & ->).
  exists time1.
  destruct (written cache _ reid time1) as [c1|] eqn:Hc1;
    [|by exists (fun _ => 0)].
  cbn [mbind option_bind].
  destruct (full_phase (needs_full t)
              (Progress (record_all ∅ (adapter_feat <$> has_raw t))
                        (detection_ids t) c1 log1) reid now batch_size Hbs)
    as (log2 & time2 & Hfull).
  exists time2.
  cbn [store embeddings ids log] in Hfull. cbn [store embeddings ids log].
  rewrite Hfull. clear Hfull.
  rewrite (items_to_store_same cache c1) by (by eapply written_is_Some).
  destruct (foldlM mark_failed (detection_ids t) _) as [l'|]; [|done].
  cbn [mbind option_bind].
  destruct (written c1 _ reid time2) as [c2|]; [|done].
  cbn [mbind option_bind store embeddings ids log].
  destruct (foldlM _ [] (enumerate dets)) as [all|]; [|done].
  cbn [mbind option_bind].
  destruct all as [|a all]; [done|].
  destruct (np_stack _) as [embs|]; [|done]. cbn [mbind option_bind].
  destruct (Cluster.process_dist_mat_v2 _) as [id_dict|]; [|done].
  cbn [mbind option_bind].
  by destruct (format_output_with_detection_ids _ id_dict).
Qed.

(** The times of the writes show in nothing but the times of the rows. *)
Lemma run_in_one_batch_timeless (detections : list detection)
  (cache : option db) (species : string) (time1 time2 time1' time2' : nat → Z) :
  (fun r : list individual * option db => (r.1, timeless <$> r.2))
    <$> run_in_one_batch load_and_crop_image forward forward_from_raw
                         detections cache species time1 time2
  = (fun r : list individual * option db => (r.1, timeless <$> r.2))
      <$> run_in_one_batch load_and_crop_image forward forward_from_raw
                           detections cache species time1' time2'.
Proof.
  unfold run_in_one_batch.
  destruct detections as [|d1 [|d2 rest]]; [done | done |].
  set (dets := d1 :: d2 :: rest). cbv zeta.
  set (reid := Config.REID_EMBEDDING_PREFIX +:+ species).
  destruct (categorize cache reid Config.RAW_FOR_ADAPTER_TYPE dets)
    as [t|]; [|done].
  cbn [mbind option_bind].
  pose proof (written_timeless cache cache
                (items_to_store cache (adapter_feat <$> has_raw t)) reid
                time1 time1' eq_refl) as H1.
  destruct (written cache _ reid time1) as [c1|],
           (written cache _ reid time1') as [c1'|]; try done.
  injection H1 as H1. cbn [mbind option_bind].
  destruct (foldlM mark_failed (detection_ids t) _) as [l'|]; [|done].
  cbn [mbind option_bind].
  pose proof (written_timeless c1 c1'
                (items_to_store cache
                   (full_feat <$> loaded_of (needs_full t))) reid
                time2 time2' H1) as H2.
  destruct (written c1 _ reid time2) as [c2|],
           (written c1' _ reid time2') as [c2'|]; try done.
  injection H2 as H2. cbn [mbind option_bind].
  destruct (foldlM _ [] (enumerate dets)) as [all|]; [|done].
  cbn [mbind option_bind].
  destruct all as [|a all]; [cbn; by rewrite H2|].
  destruct (np_stack _) as [embs|]; [|done]. cbn [mbind option_bind].
  destruct (Cluster.process_dist_mat_v2 _) as [id_dict|]; [|done].
  cbn [mbind option_bind].
  destruct (format_output_with_detection_ids _ id_dict); [|done].
  cbn. by rewrite H2.
Qed.

(** X23. The batch size is a matter of speed only: with any two positive
    batch sizes, and whatever the clock reads at each write, the job raises
    or returns alike, and when it returns, with the same individuals and the
    same store but for the times of its rows, which are those of the
    batches. *)
Theorem batch_size_is_not_observable (detections : list detection)
  (cache : option db) (species : string) (b1 b2 : nat)
  (now1 now2 : nat → Z) :
  (0 < b1)%nat → (0 < b2)%nat →
  (fun r : result => (output r, StoreViews.timeless <$> cache_after r))
    <$> run load_and_crop_image forward forward_from_raw
            detections cache species b1 now1
  = (fun r : result => (output r, StoreViews.timeless <$> cache_after r))
      <$> run load_and_crop_image forward forward_from_raw
              detections cache species b2 now2.
Proof.
  intros H1 H2.
  destruct (run_as_one_batch detections cache species b1 now1 H1)
    as (t1 & t2 & E1).
  destruct (run_as_one_batch detections cache species b2 now2 H2)
    as (t1' & t2' & E2).
  pose proof (run_in_one_batch_timeless detections cache species
                t1 t2 t1' t2') as Ht.
  rewrite <- E1, <- E2 in Ht.
  destruct (run _ _ _ detections cache species b1 now1),
           (run _ _ _ detections cache species b2 now2); done.
Qed.

End Job.

(** Two batch sizes and two clocks that meet the hypotheses of X23. *)
Lemma batch_size_is_not_observable_witness :
  (0 < 1)%nat ∧ (0 < 4)%nat ∧
  (fun r : result => (output r, StoreViews.timeless <$> cache_after r))
    <$> run (kernel := Distance.exact) Fixture.load Fixture.model
            Fixture.adapter Fixture.with_image_ids
            (Some Fixture.raw_store) "stoat" 1 Fixture.clock
  = (fun r : result => (output r, StoreViews.timeless <$> cache_after r))
      <$> run (kernel := Distance.exact) Fixture.load Fixture.model
              Fixture.adapter Fixture.with_image_ids
              (Some Fixture.raw_store) "stoat" 4 (fun _ => 9).
Proof.
  split; [lia|]. split; [lia|].
  apply (batch_size_is_not_observable (kernel := Distance.exact)
           Fixture.load Fixture.model
           Fixture.adapter Fixture.with_image_ids (Some Fixture.raw_store)
           "stoat" 1 4 Fixture.clock (fun _ => 9)); lia.
Defined.

End UnbatchedFacts.

(** ** A second run *)

Module RerunFacts.

Import Cache Reid ReidSpec Views ReidFacts Unbatched UnbatchedFacts Rerun.

Lemma omap_NoDup_inj {A B} (f : A → option B) (l : list A) :
  NoDup (omap f l) →
  ∀ i j a b k, l !! i = Some a → l !! j = Some b →
               f a = Some k → f b = Some k → i = j.
Proof.
  induction l as [|x l IH]; intros Hnd i j a b k Hi Hj Ha Hb; [done|].
  cbn [omap list_omap] in Hnd.
  assert (∀ n c, l !! n = Some c → f c = Some k → k ∈ omap f l) as Hin.
  { intros n c Hn Hc. apply list_elem_of_omap. exists c.
    split; [by eapply list_elem_of_lookup_2 | done]. }
  destruct i as [|i], j as [|j]; simplify_eq/=.
  - done.
  - rewrite Ha in Hnd. apply NoDup_cons in Hnd as [Hk _].
    destruct Hk. by eapply Hin.
  - rewrite Hb in Hnd. apply NoDup_cons in Hnd as [Hk _].
    destruct Hk. by eapply Hin.
  - f_equal. apply (IH ltac:(destruct (f x); [by apply NoDup_cons in Hnd as [_ ?] | done]) i j a b k); done.
Qed.

(** Every item of a run of writes that returns has an image id that SQLite
    takes. *)
Lemma writes_in_range ty (items : list (Z * list Q * list f32)) :
  ∀ (d d' : db) time it,
  writes d items ty time = Some d' → it ∈ items → int64 it.1.1 = true.
Proof.
  induction items as [|it0 items IH] using rev_ind;
    intros d d' time it Hrun Hin.
  - by apply elem_of_nil in Hin.
  - rewrite writes_snoc in Hrun.
    destruct (writes d items ty time) as [d0|] eqn:H0; [|done].
    cbn [mbind option_bind] in Hrun.
    destruct (bbox_to_hash it0.1.2) as [h|]; [|done].
    cbn [mbind option_bind] in Hrun.
    destruct (int64 it0.1.1) eqn:Hi0; [|done].
    apply elem_of_app in Hin as [Hin|Hin]; [by eapply IH|].
    apply list_elem_of_singleton in Hin. by subst it.
Qed.

(** A key that no item has is read as before. *)
Lemma writes_other ty (items : list (Z * list Q * list f32)) :
  ∀ (d d' : db) time (K : key),
  writes d items ty time = Some d' →
  (∀ it h, it ∈ items → bbox_to_hash it.1.2 = Some h →
           (it.1.1, h, ty) ≠ K) →
  select_one d' K = select_one d K.
Proof.
  induction items as [|it items IH] using rev_ind;
    intros d d' time K Hrun Hno.
  - by injection Hrun as <-.
  - rewrite writes_snoc in Hrun.
    destruct (writes d items ty time) as [d0|] eqn:H0; [|done].
    cbn [mbind option_bind] in Hrun.
    destruct (bbox_to_hash it.1.2) as [h|] eqn:Hh; [|done].
    cbn [mbind option_bind] in Hrun.
    destruct (int64 it.1.1); [|done].
    injection Hrun as <-. rewrite CacheFacts.select_insert_other.
    + apply (IH d d0 time K H0). intros it' h' Hin. apply Hno.
      apply elem_of_app. by left.
    + intros ->. apply (Hno it h); [|done|done].
      apply elem_of_app. right. apply list_elem_of_here.
Qed.

(** A key whose items all carry one vector reads this vector. *)
Lemma writes_last ty (items : list (Z * list Q * list f32)) :
  ∀ (d d' : db) time i b v h,
  writes d items ty time = Some d' →
  (i, b, v) ∈ items → bbox_to_hash b = Some h →
  (∀ it, it ∈ items → it.1.1 = i → bbox_to_hash it.1.2 = Some h →
         it.2 = v) →
  get_embedding d' i b ty = Some (Some v).
Proof.
  induction items as [|it items IH] using rev_ind;
    intros d d' time i b v h Hrun Hin Hh Hsame.
  - by apply elem_of_nil in Hin.
  - pose proof (writes_in_range ty _ d d' time (i, b, v) Hrun Hin) as Hi64.
    cbn [fst] in Hi64.
    rewrite writes_snoc in Hrun.
    destruct (writes d items ty time) as [d0|] eqn:H0; [|done].
    cbn [mbind option_bind] in Hrun.
    destruct (bbox_to_hash it.1.2) as [h'|] eqn:Hh'; [|done].
    cbn [mbind option_bind] in Hrun.
    destruct (int64 it.1.1); [|done].
    injection Hrun as <-.
    rewrite (CacheMoreFacts.get_embedding_by_hash _ i b ty h Hh Hi64).
    destruct (decide ((it.1.1, h', ty) = (i, h, ty))) as [Heq|Hne].
    + injection Heq as Hi ->. rewrite <- Hi.
      rewrite CacheFacts.select_insert_same. cbn [embedding].
      rewrite Float32Facts.frombuffer_tobytes. cbn [mbind option_bind].
      do 2 f_equal. apply Hsame; [|done|done].
      apply elem_of_app. right. apply list_elem_of_here.
    + rewrite CacheFacts.select_insert_other by done.
      rewrite <- (CacheMoreFacts.get_embedding_by_hash _ i b ty h Hh Hi64).
      apply (IH d d0 time i b v h H0); [|done|].
      * apply elem_of_app in Hin as [Hin|Hin]; [done|].
        apply list_elem_of_singleton in Hin. subst it. simpl in *.
        rewrite Hh in Hh'. by simplify_eq.
      * intros it' Hin'. apply Hsame. apply elem_of_app. by left.
Qed.

Lemma writes_blobs_ok ty (items : list (Z * list Q * list f32)) :
  ∀ (d d' : db) time,
  writes d items ty time = Some d' → blobs_ok d = true → blobs_ok d' = true.
Proof.
  induction items as [|it items IH] using rev_ind; intros d d' time Hrun Hok.
  - by injection Hrun as <-.
  - rewrite writes_snoc in Hrun.
    destruct (writes d items ty time) as [d0|] eqn:H0; [|done].
    cbn [mbind option_bind] in Hrun.
    destruct (bbox_to_hash it.1.2) as [h|]; [|done].
    cbn [mbind option_bind] in Hrun.
    destruct (int64 it.1.1); [|done].
    injection Hrun as <-. apply CacheFacts.insert_blobs_ok. by eapply IH.
Qed.

Lemma variants_differ (species : string) :
  (variants species).2 ≠ (variants species).1.
Proof. unfold variants. cbn. intros H. discriminate H. Qed.

Section Job.

Context `{kernel : Distance.Matmul}.
Context {image : Type}.
Variable load_and_crop_image : string → list Q → option (image * Z).
Variable forward : image → Z → list f32.
Variable forward_from_raw : list f32 → Z → list f32.
Variable detections : list detection.
Variable d : db.
Variable species : string.

Hypothesis bboxes_ok :
  Forall (fun det => length (bbox det) = 4%nat) detections.
Hypothesis ids_ok : image_ids_ok detections.
Hypothesis blobs : blobs_ok d = true.
Hypothesis keys_distinct : NoDup (cache_keys detections).

Local Abbreviation reid := ((variants species).1).
Local Abbreviation raw := ((variants species).2).
Local Abbreviation E := (enumerate detections).
Local Abbreviation own :=
  (own_embedding load_and_crop_image forward forward_from_raw (Some d)
                 species).
Local Abbreviation fresh :=
  (fresh_items load_and_crop_image forward forward_from_raw (Some d)
               reid raw E).

Lemma cache_ok : ∀ d0, Some d = Some d0 → blobs_ok d0 = true.
Proof. by intros d0 [= <-]. Qed.

Lemma classified :
  Forall (fun x => is_Some (classify (Some d) reid raw x.2)) E.
Proof. apply E_classify; [done | apply cache_ok | done]. Qed.

(** What the job writes: one item for each detection with an image id that
    is not fully cached and has an embedding. *)
Lemma elem_of_fresh (it : Z * list Q * list f32) :
  it ∈ fresh ↔
  ∃ i det, (i, det) ∈ E ∧ det_image_id det = Some it.1.1 ∧
           bbox det = it.1.2 ∧ own det = Some it.2 ∧
           ∀ v, classify (Some d) reid raw det ≠ Some (FullyCached v).
Proof.
  clear bboxes_ok ids_ok blobs keys_distinct.
  unfold fresh_items. rewrite elem_of_app. unfold items_to_store.
  rewrite !list_elem_of_omap. split.
  - intros [([[i det] v] & Hin & Hit)|([[i det] v] & Hin & Hit)];
      cbn [fst snd] in Hit;
      (destruct (det_image_id det) as [id|] eqn:Hid; [|done]);
      injection Hit as <-; cbn [fst snd].
    + apply list_elem_of_fmap in Hin as ([[i' det'] w] & Heq & Hin).
      unfold adapter_feat in Heq. cbn [fst snd] in Heq.
      injection Heq as -> -> ->.
      apply elem_of_raw_items in Hin as [Hin Hc].
      exists i', det'. unfold own_embedding. rewrite Hc.
      by repeat split.
    + apply list_elem_of_fmap in Hin as ([[[i' det'] img] t] & Heq & Hin).
      unfold full_feat in Heq. cbn [fst snd] in Heq.
      injection Heq as -> -> ->.
      apply elem_of_loaded_of in Hin as [Hin Hl].
      apply elem_of_full_items in Hin as [Hin Hc].
      exists i', det'. unfold own_embedding. rewrite Hc, Hl.
      by repeat split.
  - intros (i & det & Hin & Hid & Hb & Hown & Hnot).
    destruct it as [[id b] v]. cbn [fst snd] in *. subst b.
    unfold own_embedding in Hown.
    destruct (classify (Some d) reid raw det) as [[v'|w|]|] eqn:Hc;
      [by destruct (Hnot v') | | | done].
    + left. exists (i, det, v). split; [|cbn [fst snd]; by rewrite Hid].
      apply list_elem_of_fmap. exists (i, det, w). split.
      * unfold adapter_feat. simpl. congruence.
      * by apply elem_of_raw_items.
    + right. exists (i, det, v). split; [|cbn [fst snd]; by rewrite Hid].
      destruct (load_and_crop_image (image_path det) (bbox det))
        as [[img t]|] eqn:Hl; [|done].
      apply list_elem_of_fmap. exists (i, det, img, t). split.
      * unfold full_feat. simpl. congruence.
      * apply elem_of_loaded_of. split; [|done].
        by apply elem_of_full_items.
Qed.

(** The store a job leaves is its store with these items written, each at
    the time of its batch. *)
Lemma run_store_written (batch_size : nat) (now : nat → Z) (res : result) :
  (0 < batch_size)%nat → (2 ≤ length detections)%nat →
  run load_and_crop_image forward forward_from_raw
      detections (Some d) species batch_size now = Some res →
  ∃ time, written (Some d) fresh reid time = Some (cache_after res).
Proof.
  clear keys_distinct. intros Hbs Hlen Hrun.
  destruct (run_as_one_batch load_and_crop_image forward forward_from_raw
              detections (Some d) species batch_size now Hbs)
    as (time1 & time2 & Hone).
  rewrite Hrun in Hone. cbn [fmap option_fmap option_map] in Hone.
  unfold run_in_one_batch in Hone.
  destruct detections as [|a [|b rest]] eqn:Hdets;
    [simpl in Hlen; lia | simpl in Hlen; lia |].
  rewrite <- Hdets in *. clear Hdets a b rest. cbv zeta in Hone.
  destruct (categorize_from (Some d) reid raw E (Tiers ∅ [] [] []))
    as (t & Ht & _ & Hraw & Hfull & _).
  { apply E_classify; [done | apply cache_ok | done]. }
  cbn [has_raw needs_full app] in Hraw, Hfull.
  change (categorize (Some d) reid raw detections = Some t) in Ht.
  change (Config.REID_EMBEDDING_PREFIX +:+ species) with reid in Hone.
  change Config.RAW_FOR_ADAPTER_TYPE with raw in Hone.
  rewrite Ht in Hone. cbn [mbind option_bind] in Hone.
  rewrite Hraw, Hfull in Hone.
  unfold fresh_items.
  eexists (splice _ time1 time2). rewrite written_splice.
  destruct (written (Some d) _ reid time1) as [c1|] eqn:Hc1; [|done].
  cbn [mbind option_bind] in Hone. cbn [mbind option_bind].
  destruct (foldlM mark_failed _ _) as [l'|]; [|done].
  cbn [mbind option_bind] in Hone.
  destruct (written c1 _ reid time2) as [c2|]; [|done].
  cbn [mbind option_bind] in Hone. f_equal.
  destruct (foldlM _ [] E) as [all|]; [|done].
  cbn [mbind option_bind] in Hone.
  destruct all as [|x all]; [by injection Hone|].
  destruct (np_stack _) as [embs|]; [|done]. cbn [mbind option_bind] in Hone.
  destruct (Cluster.process_dist_mat_v2 _) as [id_dict|]; [|done].
  cbn [mbind option_bind] in Hone.
  destruct (format_output_with_detection_ids _ id_dict); [|done].
  by injection Hone.
Qed.

Lemma keys_inj i j a b id h :
  (i, a) ∈ E → (j, b) ∈ E →
  det_image_id a = Some id → det_image_id b = Some id →
  bbox_to_hash (bbox a) = Some h → bbox_to_hash (bbox b) = Some h →
  i = j ∧ a = b.
Proof.
  intros Hi%in_E_lookup Hj%in_E_lookup Ha Hb Hha Hhb.
  assert (i = j) as ->.
  { eapply (omap_NoDup_inj _ detections keys_distinct i j a b (id, h));
      [done | done | by rewrite Ha; cbn; rewrite Hha
       | by rewrite Hb; cbn; rewrite Hhb]. }
  split; [done | congruence].
Qed.

(** An item under the key of a detection is the item of this detection. *)
Lemma fresh_of_key it i det id h :
  it ∈ fresh → (i, det) ∈ E →
  det_image_id det = Some id → bbox_to_hash (bbox det) = Some h →
  it.1.1 = id → bbox_to_hash it.1.2 = Some h →
  own det = Some it.2 ∧
  ∀ v, classify (Some d) reid raw det ≠ Some (FullyCached v).
Proof.
  intros (i' & det' & Hin' & Hid' & Hb' & Hown & Hnot)%elem_of_fresh
         Hin Hid Hh Hi Hhit.
  rewrite <- Hb' in Hhit. rewrite Hi in Hid'.
  destruct (keys_inj i' i det' det id h) as [_ ->]; done.
Qed.

Lemma E_in_range i det id :
  (i, det) ∈ E → det_image_id det = Some id → int64 id = true.
Proof.
  intros Hin Hid. apply in_E_detections in Hin.
  unfold image_ids_ok in ids_ok. rewrite Forall_forall in ids_ok.
  specialize (ids_ok det Hin). by rewrite Hid in ids_ok.
Qed.

Section After.

Variables (time : nat → Z) (d1 : db).
Hypothesis written_d1 : writes d fresh reid time = Some d1.

Lemma get_after_other i det id h ty :
  (i, det) ∈ E → det_image_id det = Some id →
  bbox_to_hash (bbox det) = Some h →
  (ty = reid → ∀ it, it ∈ fresh → it.1.1 = id →
               bbox_to_hash it.1.2 = Some h → False) →
  get_embedding d1 id (bbox det) ty = get_embedding d id (bbox det) ty.
Proof.
  intros Hin Hid Hh Hno.
  pose proof (E_in_range i det id Hin Hid) as Hi64.
  rewrite !(CacheMoreFacts.get_embedding_by_hash _ id (bbox det) ty h Hh
              Hi64).
  rewrite (writes_other reid fresh d d1 time (id, h, ty) written_d1);
    [done|].
  intros it h' Hit Hh' [= Hi -> Hty]. by eapply Hno.
Qed.

Lemma classify_after i det id :
  (i, det) ∈ E → det_image_id det = Some id →
  classify (Some d1) reid raw det
  = match own det with
    | Some v => Some (FullyCached v)
    | None => Some FullComputation
    end.
Proof.
  intros Hin Hid.
  destruct (E_bbox detections bboxes_ok i det Hin) as [h Hh].
  pose proof classified as Hcl.
  rewrite Forall_forall in Hcl. destruct (Hcl _ Hin) as [tr Htr].
  cbn [snd] in Htr.
  destruct (own det) as [v|] eqn:Hown.
  - (* the detection has an embedding *)
    assert ((∃ v', tr = FullyCached v') ∨ ¬ ∃ v', tr = FullyCached v')
      as [[v' ->]|Hnf].
    { destruct tr as [v'|w|]; [left; by eexists | right; by intros [??]..]. }
    + (* it was fully cached: its record is not written again *)
      assert (v' = v) as ->.
      { unfold own_embedding in Hown. rewrite Htr in Hown. congruence. }
      unfold classify in *. rewrite Hid in *.
      rewrite (get_after_other i det id h reid Hin Hid Hh).
      * destruct (get_embedding d id (bbox det) reid) as [[w|]|];
          cbn [mbind option_bind] in *; [done| |done].
        by destruct (get_embedding d id (bbox det) raw) as [[?|]|].
      * intros _ it Hit Hi Hhit.
        destruct (fresh_of_key it i det id h Hit Hin Hid Hh Hi Hhit)
          as [_ Hnot].
        apply (Hnot v). unfold classify. by rewrite Hid.
    + (* its vector was written *)
      assert ((id, bbox det, v) ∈ fresh) as Hit.
      { apply elem_of_fresh. exists i, det. cbn [fst snd].
        repeat split; [done..|]. intros v' Hv'. apply Hnf. exists v'.
        congruence. }
      unfold classify. rewrite Hid.
      rewrite (writes_last reid fresh d d1 time id (bbox det) v h
                 written_d1 Hit Hh).
      * done.
      * intros it Hit' Hi Hhit.
        destruct (fresh_of_key it i det id h Hit' Hin Hid Hh Hi Hhit)
          as [Ho _]. congruence.
  - (* no embedding: nothing was written under its key *)
    assert (∀ it, it ∈ fresh → it.1.1 = id →
                  bbox_to_hash it.1.2 = Some h → False) as Hno.
    { intros it Hit Hi Hhit.
      destruct (fresh_of_key it i det id h Hit Hin Hid Hh Hi Hhit)
        as [Ho _]. congruence. }
    unfold own_embedding in Hown. rewrite Htr in Hown.
    destruct tr as [v|w|]; [done | done |].
    unfold classify in *. rewrite Hid in *.
    rewrite (get_after_other i det id h reid Hin Hid Hh) by (intros _; done).
    rewrite (get_after_other i det id h raw Hin Hid Hh).
    + done.
    + intros Heq. by destruct (variants_differ species).
Qed.

Lemma own_after i det :
  (i, det) ∈ E →
  own_embedding load_and_crop_image forward forward_from_raw (Some d1)
                species det
  = own det.
Proof.
  intros Hin. destruct (det_image_id det) as [id|] eqn:Hid.
  - unfold own_embedding at 1. rewrite (classify_after i det id Hin Hid).
    destruct (own det) as [v|] eqn:Hown; [done|].
    unfold own_embedding in Hown.
    pose proof classified as Hcl.
    rewrite Forall_forall in Hcl. destruct (Hcl _ Hin) as [tr Htr].
    cbn [snd] in Htr. rewrite Htr in Hown.
    by destruct tr.
  - unfold own_embedding, classify. by rewrite Hid.
Qed.

End After.

End Job.

Lemma omap_ext_in {A B} (f g : A → option B) (l : list A) :
  (∀ x, x ∈ l → f x = g x) → omap f l = omap g l.
Proof.
  induction l as [|x l IH]; intros Hfg; [done|].
  cbn [omap list_omap]. rewrite (Hfg x) by apply list_elem_of_here.
  rewrite IH; [done|]. intros y Hy. apply Hfg. by apply list_elem_of_further.
Qed.

(** X24. Running a job again on the store it left changes nothing: for
    detections with pairwise distinct identifiers and pairwise distinct
    cache keys (and image ids that SQLite takes), the second run returns the
    same individuals and leaves the store as it found it, whatever the two
    batch sizes and clocks. *)
Theorem second_run_changes_nothing `{kernel : Distance.Matmul}
  {image : Type}
  (load_and_crop_image : string → list Q → option (image * Z))
  (forward : image → Z → list f32) (forward_from_raw : list f32 → Z → list f32)
  (detections : list detection) (d : db) (species : string)
  (b1 b2 : nat) (now1 now2 : nat → Z) :
  (2 ≤ length detections)%nat → (0 < b1)%nat → (0 < b2)%nat →
  Forall (fun det => length (bbox det) = 4%nat) detections →
  image_ids_ok detections →
  blobs_ok d = true →
  one_dimension load_and_crop_image forward forward_from_raw
                (Some d) species detections →
  NoDup (detection_id <$> detections) →
  NoDup (cache_keys detections) →
  ∃ res1 d1 res2,
    run load_and_crop_image forward forward_from_raw
        detections (Some d) species b1 now1 = Some res1 ∧
    cache_after res1 = Some d1 ∧
    run load_and_crop_image forward forward_from_raw
        detections (Some d1) species b2 now2 = Some res2 ∧
    output res2 = output res1 ∧
    cache_after res2 = Some d1.
Proof.
  intros Hlen Hb1 Hb2 Hbb Himg Hblobs Hdim Hids Hkeys.
  destruct (run_mentions_survivors load_and_crop_image forward
              forward_from_raw detections (Some d) species b1 now1
              Hlen Hb1 Hbb (cache_ok d Hblobs) Himg Hdim Hids)
    as (res1 & Hrun1 & Hout1 & _).
  destruct (run_store_written load_and_crop_image forward forward_from_raw
              detections d species Hbb Himg Hblobs b1 now1 res1 Hb1 Hlen
              Hrun1)
    as [time1 Hw1].
  unfold written in Hw1.
  destruct (writes d _ _ time1) as [d1|] eqn:Hd1; [|done].
  cbn [mbind option_bind] in Hw1. injection Hw1 as Hc1. symmetry in Hc1.
  assert (blobs_ok d1 = true) as Hblobs1
    by (by eapply writes_blobs_ok).
  assert (∀ det, det ∈ detections →
            own_embedding load_and_crop_image forward forward_from_raw
                          (Some d1) species det
            = own_embedding load_and_crop_image forward forward_from_raw
                            (Some d) species det) as Hown.
  { intros det [i Hi]%list_elem_of_lookup_1.
    apply (own_after load_and_crop_image forward forward_from_raw
             detections d species Hbb Himg Hblobs Hkeys time1 d1 Hd1 i det).
    by apply in_E_lookup. }
  assert (surviving load_and_crop_image forward forward_from_raw
                    (Some d1) species detections
          = surviving load_and_crop_image forward forward_from_raw
                      (Some d) species detections) as Hsurv.
  { unfold surviving. apply omap_ext_in. intros det Hdet.
    by rewrite Hown. }
  assert (one_dimension load_and_crop_image forward forward_from_raw
                        (Some d1) species detections) as Hdim1.
  { unfold one_dimension. by rewrite Hsurv. }
  destruct (run_mentions_survivors load_and_crop_image forward
              forward_from_raw detections (Some d1) species b2 now2
              Hlen Hb2 Hbb (cache_ok d1 Hblobs1) Himg Hdim1 Hids)
    as (res2 & Hrun2 & Hout2 & _).
  exists res1, d1, res2. split; [done|]. split; [done|]. split; [done|].
  split.
  - unfold expected_output in Hout1, Hout2. rewrite Hsurv in Hout2.
    congruence.
  - destruct (run_store_written load_and_crop_image forward
                forward_from_raw detections d1 species Hbb Himg Hblobs1 b2
                now2 res2 Hb2 Hlen Hrun2) as [time2 Hw2].
    destruct (fresh_items load_and_crop_image forward forward_from_raw
                (Some d1) (variants species).1 (variants species).2
                (enumerate detections)) as [|it rest] eqn:Hfresh.
    + by injection Hw2.
    + exfalso.
      assert (it ∈ fresh_items load_and_crop_image forward forward_from_raw
                (Some d1) (variants species).1 (variants species).2
                (enumerate detections)) as Hit
        by (rewrite Hfresh; apply list_elem_of_here).
      apply elem_of_fresh in Hit
        as (i & det & Hin & Hid & _ & Hown1 & Hnot).
      rewrite Hown in Hown1 by (by eapply in_E_detections).
      apply (Hnot it.2).
      rewrite (classify_after load_and_crop_image forward forward_from_raw
                 detections d species Hbb Himg Hblobs Hkeys time1 d1 Hd1
                 i det it.1.1 Hin Hid).
      by rewrite Hown1.
Qed.

(** A job that meets the hypotheses of X24. *)
Lemma second_run_changes_nothing_witness :
  (2 ≤ length Fixture.with_image_ids)%nat ∧ (0 < 1)%nat ∧ (0 < 4)%nat ∧
  Forall (fun det => length (bbox det) = 4%nat) Fixture.with_image_ids ∧
  image_ids_ok Fixture.with_image_ids ∧
  blobs_ok Fixture.raw_store = true ∧
  one_dimension Fixture.load Fixture.model Fixture.adapter
                (Some Fixture.raw_store) "stoat" Fixture.with_image_ids ∧
  NoDup (detection_id <$> Fixture.with_image_ids) ∧
  NoDup (cache_keys Fixture.with_image_ids) ∧
  ∃ res1 d1 res2,
    run (kernel := Distance.exact) Fixture.load Fixture.model Fixture.adapter
        Fixture.with_image_ids (Some Fixture.raw_store) "stoat" 1
        Fixture.clock = Some res1 ∧
    cache_after res1 = Some d1 ∧
    run (kernel := Distance.exact) Fixture.load Fixture.model Fixture.adapter
        Fixture.with_image_ids (Some d1) "stoat" 4 (fun _ => 9)
    = Some res2 ∧
    output res2 = output res1 ∧
    cache_after res2 = Some d1.
Proof.
  assert (one_dimension Fixture.load Fixture.model Fixture.adapter
            (Some Fixture.raw_store) "stoat" Fixture.with_image_ids) as Hdim.
  { exists 2%nat. vm_compute. by repeat constructor. }
  assert (NoDup (detection_id <$> Fixture.with_image_ids)) as Hids.
  { apply (NoDup_cons_2 7); [|apply NoDup_singleton].
    intros H%list_elem_of_singleton. discriminate H. }
  assert (NoDup (cache_keys Fixture.with_image_ids)) as Hkeys.
  { apply (NoDup_cons_2 (1, "0_0_10_10")); [|apply NoDup_singleton].
    intros H%list_elem_of_singleton. discriminate H. }
  split; [simpl; lia|]. split; [lia|]. split; [lia|].
  split; [by repeat constructor|]. split; [by repeat constructor|].
  split; [reflexivity|].
  split; [exact Hdim|]. split; [exact Hids|]. split; [exact Hkeys|].
  apply (second_run_changes_nothing (kernel := Distance.exact)
           Fixture.load Fixture.model
           Fixture.adapter Fixture.with_image_ids Fixture.raw_store
           "stoat" 1 4 Fixture.clock (fun _ => 9));
    [simpl; lia | lia | lia | by repeat constructor | by repeat constructor
     | reflexivity | exact Hdim | exact Hids | exact Hkeys].
Defined.

End RerunFacts.

(** ** The adapter-only tier *)

Module TierFacts.

Import Cache Reid ReidSpec Views ReidFacts Unbatched UnbatchedFacts Rerun
  RerunFacts.

Lemma insert_rows (d : db) (k : key) blob now (r : row) :
  r ∈ rows (insert_or_replace d k blob now) →
  r ∈ rows d ∨ embedding_type r = k.2.
Proof.
  unfold insert_or_replace. cbn [rows]. rewrite elem_of_app.
  intros [Hr|Hr].
  - left. apply list_elem_of_In, filter_In in Hr as [Hr _].
    by apply list_elem_of_In.
  - right. apply list_elem_of_singleton in Hr. by subst r.
Qed.

Lemma writes_rows ty (items : list (Z * list Q * list f32)) :
  ∀ (d d' : db) time (r : row),
  writes d items ty time = Some d' →
  r ∈ rows d' → r ∈ rows d ∨ embedding_type r = ty.
Proof.
  induction items as [|it items IH] using rev_ind; intros d d' time r Hrun Hr.
  - injection Hrun as <-. by left.
  - rewrite writes_snoc in Hrun.
    destruct (writes d items ty time) as [d0|] eqn:H0; [|done].
    cbn [mbind option_bind] in Hrun.
    destruct (bbox_to_hash it.1.2) as [h|]; [|done].
    cbn [mbind option_bind] in Hrun.
    destruct (int64 it.1.1); [|done].
    injection Hrun as <-.
    apply insert_rows in Hr as [Hr|Hr]; [by eapply IH | by right].
Qed.

Lemma never_adapter_only (d : db) (reid raw : string) (det : detection)
  (w : list f32) :
  (∀ r, r ∈ rows d → embedding_type r ≠ raw) →
  classify (Some d) reid raw det ≠ Some (AdapterOnly w).
Proof.
  intros Hno Hc. unfold classify in Hc.
  destruct (det_image_id det) as [id|]; [|done].
  destruct (get_embedding d id (bbox det) reid) as [[v|]|]; [done| |done].
  cbn [mbind option_bind] in Hc. unfold get_embedding in Hc.
  destruct (bbox_to_hash (bbox det)) as [h|]; [|done].
  cbn [mbind option_bind] in Hc.
  destruct (int64 id); [|done].
  destruct (select_one d (id, h, raw)) as [r|] eqn:Hr; [|done].
  assert (is_Some (select_one d (id, h, raw))) as Hs by (by eexists).
  apply select_one_record in Hs as (r' & Hin & Hk).
  apply (Hno r' Hin). unfold row_key in Hk. congruence.
Qed.

(** X25. The adapter-only tier is switched off: on a store without a record
    of the type [RAW_FOR_ADAPTER_TYPE] (a name no writer of the pipeline
    uses) no detection reaches an adapter batch, whatever raw backbone
    features the store holds, and the store the job leaves is again such a
    store (the job being one that returns: bboxes of four coordinates,
    image ids that SQLite takes, whole blobs, embeddings of one
    dimension). *)
Theorem adapter_tier_is_switched_off `{kernel : Distance.Matmul}
  {image : Type}
  (load_and_crop_image : string → list Q → option (image * Z))
  (forward : image → Z → list f32) (forward_from_raw : list f32 → Z → list f32)
  (detections : list detection) (d : db) (species : string)
  (batch_size : nat) (now : nat → Z) :
  (2 ≤ length detections)%nat → (0 < batch_size)%nat →
  Forall (fun det => length (bbox det) = 4%nat) detections →
  image_ids_ok detections →
  blobs_ok d = true →
  one_dimension load_and_crop_image forward forward_from_raw
                (Some d) species detections →
  (∀ r, r ∈ rows d → embedding_type r ≠ Config.RAW_FOR_ADAPTER_TYPE) →
  ∃ res d',
    run load_and_crop_image forward forward_from_raw
        detections (Some d) species batch_size now = Some res ∧
    (∀ i, ¬ adapter_called (calls res) i) ∧
    cache_after res = Some d' ∧
    ∀ r, r ∈ rows d' → embedding_type r ≠ Config.RAW_FOR_ADAPTER_TYPE.
Proof.
  intros Hlen Hbs Hbb Himg Hblobs Hdim Hno.
  destruct (run_many_returns load_and_crop_image forward forward_from_raw
              detections (Some d) species Hbb (cache_ok d Hblobs) Himg
              batch_size now Hbs Hdim)
    as (res & l' & calls2 & Hrun & _ & Had & _ & Hcalls & _).
  rewrite <- run_as_run_many in Hrun by done.
  destruct (run_store_written load_and_crop_image forward forward_from_raw
              detections d species Hbb Himg Hblobs batch_size now res Hbs
              Hlen Hrun) as [time Hw].
  unfold written in Hw.
  destruct (writes d _ _ time) as [d'|] eqn:Hd'; [|done].
  cbn [mbind option_bind] in Hw. injection Hw as Hc. symmetry in Hc.
  exists res, d'. split; [done|]. split; [|split; [done|]].
  - intros i Hi.
    assert (adapter_called calls2 i) as Hi2.
    { destruct Hcalls as [<-|[n Hn]]; [done|].
      rewrite Hn in Hi. by apply adapter_called_tail in Hi. }
    apply Had in Hi2 as (det & w & _ & Hcl).
    by apply never_adapter_only in Hcl.
  - intros r Hr.
    destruct (writes_rows _ _ _ _ _ r Hd' Hr) as [Hin|Ht].
    + by apply Hno.
    + rewrite Ht. intros Heq. by destruct (variants_differ species).
Qed.

(** A job that meets the hypotheses of X25: the store holds the raw
    backbone feature of the first detection. *)
Lemma adapter_tier_is_switched_off_witness :
  (2 ≤ length Fixture.with_image_ids)%nat ∧ (0 < 4)%nat ∧
  Forall (fun det => length (bbox det) = 4%nat) Fixture.with_image_ids ∧
  image_ids_ok Fixture.with_image_ids ∧
  blobs_ok Fixture.raw_store = true ∧
  one_dimension Fixture.load Fixture.model Fixture.adapter
                (Some Fixture.raw_store) "stoat" Fixture.with_image_ids ∧
  has_record Fixture.raw_store 1 Fixture.box Config.RAW_EMBEDDING_TYPE ∧
  (∀ r, r ∈ rows Fixture.raw_store →
        embedding_type r ≠ Config.RAW_FOR_ADAPTER_TYPE) ∧
  ∃ res d',
    run (kernel := Distance.exact) Fixture.load Fixture.model Fixture.adapter
        Fixture.with_image_ids (Some Fixture.raw_store) "stoat" 4
        Fixture.clock = Some res ∧
    (∀ i, ¬ adapter_called (calls res) i) ∧
    cache_after res = Some d' ∧
    ∀ r, r ∈ rows d' → embedding_type r ≠ Config.RAW_FOR_ADAPTER_TYPE.
Proof.
  assert (one_dimension Fixture.load Fixture.model Fixture.adapter
            (Some Fixture.raw_store) "stoat" Fixture.with_image_ids) as Hdim.
  { exists 2%nat. vm_compute. by repeat constructor. }
  assert (rows Fixture.raw_store
          = [Row 1 1 "0_0_10_10" "dinov3_raw" (tobytes Fixture.east) 5])
    as Hrows by reflexivity.
  assert (∀ r, r ∈ rows Fixture.raw_store →
               embedding_type r ≠ Config.RAW_FOR_ADAPTER_TYPE) as Hno.
  { intros r Hr. rewrite Hrows in Hr.
    apply list_elem_of_singleton in Hr. rewrite Hr.
    intros H. discriminate H. }
  split; [simpl; lia|]. split; [lia|]. split; [by repeat constructor|].
  split; [by repeat constructor|].
  split; [reflexivity|]. split; [exact Hdim|]. split.
  { exists "0_0_10_10", (Row 1 1 "0_0_10_10" "dinov3_raw"
                             (tobytes Fixture.east) 5).
    split; [reflexivity|]. split; [|reflexivity].
    rewrite Hrows. apply list_elem_of_here. }
  split; [exact Hno|].
  apply (adapter_tier_is_switched_off (kernel := Distance.exact)
           Fixture.load Fixture.model
           Fixture.adapter Fixture.with_image_ids Fixture.raw_store
           "stoat" 4 Fixture.clock);
    [simpl; lia | lia | by repeat constructor | by repeat constructor
     | reflexivity | exact Hdim | exact Hno].
Defined.

End TierFacts.

(** ** The crops of the folder job *)

Module CropFacts.

Import Cache Crop.

Local Abbreviation step :=
  (fun (m x : box_info) =>
     key_gt (key_of x) (key_of m) ≫= fun greater : bool =>
     Some (if greater then x else m)).

Lemma key_le_refl (x : box_info) : is_Some (key_of x) → key_le x x.
Proof. intros [q Hq]. exists q, q. split; [done|]. split; [done|]. lra. Qed.

Lemma key_le_trans (x y z : box_info) :
  key_le x y → key_le y z → key_le x z.
Proof.
  intros (a & b & Ha & Hb & Hab) (b' & c & Hb' & Hc & Hbc).
  exists a, c. split; [done|]. split; [done|].
  rewrite Hb in Hb'. injection Hb' as <-. lra.
Qed.

(** [max] over numbers returns an entry of greatest key. *)
Lemma max_fold (rest : list box_info) :
  ∀ b : box_info,
  Forall (fun x => is_Some (key_of x)) (b :: rest) →
  ∃ m, foldlM step b rest = Some m ∧
       m ∈ b :: rest ∧ key_le b m ∧ Forall (fun x => key_le x m) rest.
Proof.
  induction rest as [|x rest IH]; intros b Hall.
  - apply Forall_cons in Hall as [Hb _]. exists b.
    split; [done|]. split; [apply list_elem_of_here|].
    split; [by apply key_le_refl | constructor].
  - apply Forall_cons in Hall as [Hb Hall].
    pose proof Hall as Hall'.
    apply Forall_cons in Hall' as [Hx Hrest].
    destruct Hb as [qb Hqb], Hx as [qx Hqx].
    cbn [foldlM]. rewrite Hqx, Hqb. cbn [key_gt mbind option_bind].
    destruct (Qle_bool qx qb) eqn:Hxb; cbn [negb].
    + destruct (IH b) as (m & Hm & Hin & Hbm & Hle).
      { constructor; [by eexists | done]. }
      exists m. split; [done|]. split; [|split; [done|]].
      * apply elem_of_cons in Hin as [->|Hin];
          [apply list_elem_of_here | by do 2 apply list_elem_of_further].
      * constructor; [|done]. apply (key_le_trans x b m); [|done].
        exists qx, qb. split; [done|]. split; [done|].
        by apply Qle_bool_iff.
    + destruct (IH x Hall) as (m & Hm & Hin & Hxm & Hle).
      exists m. split; [done|]. split; [by apply list_elem_of_further|].
      split; [|by constructor].
      apply (key_le_trans b x m); [|done].
      exists qb, qx. split; [done|]. split; [done|].
      destruct (Qlt_le_dec qx qb) as [Hlt|Hle']; [|done].
      apply Qlt_le_weak, Qle_bool_iff in Hlt. congruence.
Qed.

(** [max] compares as soon as there are two entries, and a comparison with
    [None] raises. *)
Lemma max_compares (rest : list box_info) :
  ∀ b m : box_info,
  foldlM step b rest = Some m →
  rest = [] ∨ Forall (fun x => is_Some (key_of x)) (b :: rest).
Proof.
  induction rest as [|x rest IH]; intros b m Hm; [by left|]. right.
  cbn [foldlM] in Hm.
  destruct (key_of x) as [qx|] eqn:Hqx; [|done].
  destruct (key_of b) as [qb|] eqn:Hqb; [|done].
  cbn [key_gt mbind option_bind] in Hm.
  assert (Forall (fun y => is_Some (key_of y)) rest) as Hrest.
  { destruct (IH _ m Hm) as [->|Hall]; [constructor|].
    by apply Forall_cons in Hall as [_ ?]. }
  constructor; [by rewrite Hqb|]. constructor; [by rewrite Hqx | done].
Qed.

Section Save.

Variable crop_and_save : Z * Z * Z * Z → bool.

(** X26. Of the boxes detected in one image the folder job looks at one
    only, a box of greatest detection confidence (an absent confidence
    counting as 0): [max] returns unless it has to compare a null
    confidence, which it does as soon as there are two boxes.  The job
    crops that box when its bbox has four coordinates and Pillow takes the
    rectangle, and raises when Pillow does not; when the box has a null,
    empty or odd-sized bbox nothing is cropped, whatever the other boxes
    are; a missing ['bbox'] key of that box makes it raise, and so does a
    [max] that raises. *)
Theorem crop_image_from_json_takes_the_top_box (boxes : list box_info) :
  boxes ≠ [] →
  (is_Some (max_by_confidence boxes)
   ↔ length boxes = 1%nat ∨ Forall (fun x => is_Some (key_of x)) boxes) ∧
  (max_by_confidence boxes = None →
   crop_image_from_json crop_and_save (Some boxes) = None) ∧
  ∀ top,
    max_by_confidence boxes = Some top →
    top ∈ boxes ∧
    (Forall (fun x => is_Some (key_of x)) boxes →
     Forall (fun x => key_le x top) boxes) ∧
    crop_image_from_json crop_and_save (Some boxes)
    = match box_bbox top with
      | Missing => None
      | Null => Some []
      | Coords bbox =>
          match Bbox.crop_box bbox with
          | Some rectangle =>
              if crop_and_save rectangle
              then Some [(".jpg", rectangle)] else None
          | None => Some []
          end
      end.
Proof.
  intros Hne. destruct boxes as [|b rest]; [done|].
  split; [|split].
  - cbn [max_by_confidence]. split.
    + intros [m Hm]. destruct (max_compares rest b m Hm) as [->|Hall];
        [by left | by right].
    + intros [Hlen|Hall].
      * destruct rest; [by eexists | done].
      * destruct (max_fold rest b Hall) as (m & Hm & _). by eexists.
  - intros Hnone. unfold crop_image_from_json. by rewrite Hnone.
  - intros top Htop. split; [|split].
    + cbn [max_by_confidence] in Htop.
      destruct (max_compares rest b top Htop) as [->|Hall].
      * injection Htop as <-. apply list_elem_of_here.
      * destruct (max_fold rest b Hall) as (m & Hm & Hin & _). congruence.
    + intros Hall. cbn [max_by_confidence] in Htop.
      destruct (max_fold rest b Hall) as (m & Hm & _ & Hb & Hle).
      assert (m = top) as -> by congruence. by constructor.
    + unfold crop_image_from_json, Bbox.crop_box. rewrite Htop.
      cbn [mbind option_bind].
      cbn [enumerate enumerate_from foldlM snd fst length].
      destruct (box_bbox top) as [| |bbox]; [done | done |].
      destruct bbox as [|x1 [|y1 [|x2 [|y2 [|z l]]]]]; try done.
      cbn. by destruct (crop_and_save _).
Qed.

End Save.

(** Boxes that meet the hypothesis of X26: the second box is cropped; with
    a null confidence among three boxes, with a rectangle that Pillow
    refuses, the job raises. *)
Lemma crop_image_from_json_takes_the_top_box_witness :
  MoreFixtures.three_boxes ≠ [] ∧
  crop_image_from_json MoreFixtures.pillow (Some MoreFixtures.three_boxes)
  = Some [(".jpg", (1, 3, 4, 5))] ∧
  crop_image_from_json MoreFixtures.pillow
    (Some (BoxInfo Null NullConfidence :: MoreFixtures.three_boxes)) = None ∧
  crop_image_from_json MoreFixtures.pillow
    (Some [BoxInfo (Coords [8 # 1; 8 # 1; 2 # 1; 2 # 1]) NullConfidence])
  = None ∧
  ∃ top,
    max_by_confidence MoreFixtures.three_boxes = Some top ∧
    top ∈ MoreFixtures.three_boxes ∧
    Forall (fun x => key_le x top) MoreFixtures.three_boxes.
Proof.
  assert (MoreFixtures.three_boxes ≠ []) as Hne by (intros H; discriminate H).
  split; [exact Hne|]. split; [reflexivity|]. split; [reflexivity|].
  split; [reflexivity|].
  destruct (crop_image_from_json_takes_the_top_box MoreFixtures.pillow
              MoreFixtures.three_boxes Hne) as (Hret & _ & Htop).
  destruct (proj2 Hret) as [top Hmax].
  { right. repeat constructor; by eexists. }
  destruct (Htop top Hmax) as (Hin & Hall & _).
  exists top. split; [exact Hmax|]. split; [exact Hin|].
  apply Hall. repeat constructor; by eexists.
Defined.

End CropFacts.
